(* ===== verification/_CoqProject ===== *)
-Q . S2P
Prelude.v
Bytes.v
Shutdown.v
ShutdownMain.v
Timeout.v
Model.v
Badger.v
IndexDB.v
IndexSpec.v
IndexProofs.v
IndexTheorems.v
IndexReset.v
IndexExport.v
IndexMain.v
Text.v
Deque.v
Crypto.v
Tools.v
Convert.v
ConvertMain.v
Config.v
ConfigMain.v
Api.v
ApiMain.v
Txn.v
Indexer.v
IndexerProofs.v
IndexerWf.v
IndexerMain.v
Process.v
ProcessProofs.v
ProcessMain.v
State.v
StateProofs.v
StateMain.v
EndToEnd.v
Follower.v
Reconcile.v
Construct.v
ConstructProofs.v
Script.v
ColdStorage.v
ConstructMain.v
Access.v
ConstructOnline.v
ConstructOnlineMain.v
Cache.v
CacheMain.v
Dial.v
Json.v
Commands.v
Call.v
Serve.v
ServeMain.v
Report.v
Validate.v
ConstructLive.v
Prefetch.v
PrefetchMain.v
