(* ===== verification/Prelude.v ===== *)
(** * Verification of the Flow Rosetta server

    The program indexes the Flow blockchain and serves it through the Rosetta
    API. Its core is a pipeline: blocks are fetched from access nodes and checked
    against the hash chain and the sealed execution results, the events of each
    transaction are turned into balance-changing operations, and a database of
    blocks and balances is extended by one block at a time. Beside it the server
    builds transactions for its clients and sends them to the network. This
    library models the pipeline, from the configuration to the database and the
    endpoints that read it, and the construction of transactions, and proves that
    what ends up in the database is what the chain says, and that what is sent to
    the network is what the client asked for and signed.

    ** Files

    - [Prelude], [Bytes]: outcomes of Go code (value, error, [log.Fatalf],
      panic), 64-bit arithmetic, loops; byte slices, big-endian integers, hex.
    - [Shutdown]: [src/process/process.go], exit handlers and signals, with
      goroutines that take steps in any order. [ShutdownMain]: the order in which
      [src/cmd/server/server.go] starts and stops its parts.
    - [Timeout]: [src/timeout/timeout.go], a context with a timer over an explicit
      clock, and the streams read and copied under it.
    - [Model]: the protobuf messages of [src/model/model.proto] and the methods
      of [src/model/model.go] on block metadata; serialisation is a codec with a
      round-trip law.
    - [Badger]: the interface of the key/value store: ordered iteration,
      transactions, batch deletion, with its documented laws ([BadgerLaws]) and
      the absence of I/O errors ([BadgerReliable]); a finite map implements it.
    - [IndexDB]: [src/indexdb/indexdb.go], one definition per method of [Store].
      [IndexSpec]: the abstract view, a history of blocks with the balance of an
      account as the sum of the operations up to a height, and the relation
      [repr] between a store and a history. [IndexProofs], [IndexTheorems],
      [IndexReset], [IndexExport]: the methods implement that view. [IndexMain]:
      the step relation of the store and the theorems other components use.
    - [Deque]: [src/deque/deque.go], the ring buffer, refined to a list.
    - [Crypto]: [src/crypto/crypto.go]; the curve operations are a parameter.
      [Tools]: the commands that convert and generate keys, signatures and
      addresses ([src/cmd/formatkey], [formatsig], [genkey], [gencontractkey],
      [sign], [verifysig], [genaddress]).
    - [Convert], [ConvertMain]: [src/state/convert.go], every version of every
      hash derivation; the hash functions and encodings of flow-go are
      parameters, and the theorems say that equal hashes mean equal data or an
      explicit collision of one of those functions.
    - [Config], [ConfigMain]: [src/config/config.go], validation of the decoded
      JSON, the chain of sporks and [SporkFor].
    - [Indexer]: the transaction loop of [processBlock] in
      [src/state/process.go]: the event handlers and the construction of
      operations. [IndexerProofs]: the operations move exactly what the events
      moved. [IndexerWf]: the blocks built are well formed. [IndexerMain]: the
      composition with the database.
    - [Process]: the rest of [processBlock]: the fast and the slow way to fetch a
      block, event hashes, the execution result and its seal, the retries. The
      Access API is a class of calls that change an arbitrary world.
      [ProcessProofs], [ProcessMain]: fuel, grouping, integrity, and the
      extension of the index.
    - [State]: [src/state/state.go]: start-up, the walk back through past sporks,
      the live loop with the consensus follower. [StateProofs], [StateMain]:
      only blocks with verified hashes that name each other as parents are indexed,
      and a restart resumes where the index ends. [EndToEnd]: the composition of
      start-up, live loop, database and /account/balance. [Follower]: the set-up of the consensus follower, with
      the download of its root state and the check of the signature.
    - [Api]: the handlers of /account and /block in
      [src/api/account_service.go] and [src/api/block_service.go], and the status
      machine of [src/api/validate.go]. [ApiMain]: the blocks and the balances
      the server reports reconcile. [Reconcile]: [src/cmd/reconciliation], the tool
      that checks this from outside, and the export of the accounts.
    - [Text]: the functions of [strings] and [strconv] that construction uses.
    - [Txn]: [src/model/model.go], the transaction message and its two hashes.
    - [Construct]: the offline part of [src/api/construction_service.go]:
      operations to intent ([parseIntent]), intent to transaction
      ([ConstructionPayloads]), signing ([ConstructionCombine]) and back to
      operations ([ConstructionParse]). [ColdStorage]: the transfer of the contract
      [FlowColdStorageProxy.cdc] that an inner transaction is signed for.
      [ConstructProofs], [ConstructMain]: the transaction says what the operations
      say. [Script]: [src/script/script.go], the embedded templates and their
      compilation for a chain.
    - [Access]: [src/access/access.go]: requests and responses of the service, the
      methods of [Client], the pool and the rate-limit interceptor, over a network
      that changes an arbitrary world. [Dial]: [New] and [verifyCertFunc], how the
      clients of a pool are made and their nodes authenticated. [Json], [Commands]:
      the tools that ask a node or print addresses ([src/cmd/txinfo],
      [src/cmd/tipheight], [src/cmd/corecontracts]), with the scanner and the
      indenter of [encoding/json] that the first one runs.
    - [Cache], [CacheMain]: [src/cache/cache.go], the interceptor that answers
      from the database. [Prefetch], [PrefetchMain]: the workers of
      [src/state/worker.go] that fill it and the scheduler that feeds them, as
      goroutines that take steps in any order.
    - [ConstructOnline], [ConstructOnlineMain]: /construction/metadata and
      /construction/submit on top of [Access]; the calls of a run are recorded in
      a log. [ConstructLive]: the construction endpoints one after another.
    - [Call], [Serve]: [src/api/call_service.go], [src/api/network_service.go],
      [src/api/mempool_service.go], the fee receivers of [src/api/validate.go] and
      [src/api/wrapper.go]; [serve] is the server as the router sees it.
      [ServeMain]: its theorems. [Validate]: the loop of [validateBalances].
      [Report]: [src/api/errors.go] and the texts of [src/log] and [src/trace].

    ** How components meet

    [Badger], [Proto], [Secp256k1], [FlowGo], [Cadence], [CadenceJSON],
    [CadenceStruct], [Parser], [GoFloat], [RLP], [Sha3], [Blake3], [Wire],
    [Network], [FlowChain], [FlowAddresses], [AccessAPI], [NodeEnv], [ConfigEnv],
    [DataAccess], [GoQuote], [FollowerLib], [FollowerEnv], [PeerCrypto], [Reader], [Writer] and
    [IndexerView] (the indexer as the validation loop sees it) are the classes through which code outside the repository is
    seen; every theorem that needs a law of one of them has a run on a concrete
    instance (the modules named [...Demo]). Inside the repository the components
    meet in [repr] (what the database promises to the indexer), [wf_block] (what
    the indexer promises to the database), [ix_wf] (what start-up promises to the
    transaction loop) and [linked] (what the configuration promises to the hash
    derivations).

    ** Theorems

    The database: every reachable store represents a chain of blocks from
    genesis; indexing extends it or is refused for a negative balance; lookups
    and balances agree with it; a reset truncates it. The indexer: operations
    match events account by account; balances follow events. Block
    processing: nothing is indexed without matching event hashes and the sealed
    result, outside the configured exceptions. The main loops: past and live
    blocks are indexed along chains of blocks with verified hashes; the parent
    that links them is the one in the block message, which no hash covers
    ([unverified_parent]). End to end: a served balance is the stored one plus
    what the events of such blocks moved. The endpoints: the balance
    served after a block is the balance before it plus the operations the block
    is served with. Construction: the operations shown for a transaction express
    the intent it was built from, the signature covers what is submitted, an
    inner transfer is accepted by the contract for the signed amount only, and on
    a network that answers the whole flow succeeds. The cache: an answer is one
    the network gave for the same request; each height is prefetched once, and
    after that the indexer's calls for it are served from the cache. The server:
    a recorded index error is final, transfers to fee receivers are refused once
    they are checked, an offline server makes no calls but two, a validation round
    records an error exactly when index and chain differ, and however the process
    ends its handlers run in reverse order. Trust: the follower starts from a
    signed root state only, nodes with a configured key are authenticated by it,
    and the compiled scripts are the templates with the configured addresses. The
    tools: reconciliation succeeds on a server whose index is a history, keys and
    signatures survive conversion, addresses are distinct, and [txinfo] shows results with JSON payloads only.
    The rest: the queue as
    a list, streams delivered under a timeout, accepted configurations, and the
    behaviour on errors, including inputs on which the code panics.

    ** Bounds and fuel

    Integers keep their width: heights and balances are [Z] with [u64] and [s64]
    written out where Go wraps. The retry loops of [Process], [State],
    [Prefetch], [Follower] and [Validate] have no bound in the source, so they take
    fuel; [process_block_fuel] shows for the first that fuel only cuts runs short,
    and the theorems about the loops hold for every fuel. Copying and reading a
    stream takes fuel too; [stream_delivered] gives an amount that is enough. Binary
    search is given the length of the list, which bounds its steps.
    The live loop never ends by itself; its theorem is about every state it
    reaches.

    ** Not modelled

    The details that the handlers wrap into errors, the output of logs and
    traces and the metrics, waiting times, the tests
    of [src/localnettest], and the generated protobuf code. *)
From stdpp Require Export base gmap strings list fin_maps numbers sorting.
From Stdlib Require Export ZArith Lia.
From Stdlib Require Export Strings.Byte.
#[export] Set Default Goal Selector "!".
#[export] Set Warnings "-clear-no-such-hyp".

(** ** Outcomes of Go code *)

(** What running a piece of the Go program produces: a value, an error value
    handed to the caller, the end of the process by [log.Fatalf], or a run-time
    panic (nil dereference, index out of range, failed type assertion). *)
Inductive outcome (E A : Type) : Type :=
  | Ok (a : A)
  | Err (e : E)
  | Fatal
  | Panic.
Arguments Ok {E A} a.
Arguments Err {E A} e.
Arguments Fatal {E A}.
Arguments Panic {E A}.

Definition outcome_bind {E A B} (f : A → outcome E B) (m : outcome E A) : outcome E B :=
  match m with
  | Ok a => f a
  | Err e => Err e
  | Fatal => Fatal
  | Panic => Panic
  end.

#[export] Instance outcome_mret {E} : MRet (outcome E) := λ A, Ok.
#[export] Instance outcome_mbind {E} : MBind (outcome E) := λ A B, outcome_bind.
#[export] Instance outcome_fmap {E} : FMap (outcome E) :=
  λ A B f m, outcome_bind (λ a, Ok (f a)) m.

Definition is_Ok {E A} (m : outcome E A) : bool :=
  match m with Ok _ => true | _ => false end.

(** [deref o]: a pointer that is dereferenced. *)
Definition deref {E A} (o : option A) : outcome E A :=
  match o with Some a => Ok a | None => Panic end.

(** The Go loop [for _, x := range l { ... }] whose body may leave early. *)
Fixpoint foldM {E A B} (f : A → B → outcome E A) (a : A) (l : list B) : outcome E A :=
  match l with
  | [] => Ok a
  | x :: l => a' ← f a x; foldM f a' l
  end.

Lemma bind_Ok {E A B} (m : outcome E A) (f : A → outcome E B) b :
  (a ← m; f a) = Ok b ↔ ∃ a, m = Ok a ∧ f a = Ok b.
Proof.
  unfold mbind, outcome_mbind. destruct m as [a|e| |]; simpl; split.
  all: try (intros (a' & [= <-] & H); exact H).
  all: try (intros H; exists a; split; [reflexivity|exact H]).
  all: try discriminate. all: by intros (a' & [=] & _).
Qed.

Lemma Ok_bind {E A B} (a : A) (f : A → outcome E B) : (x ← Ok a; f x) = f a.
Proof. done. Qed.

Lemma foldM_app {E A B} (f : A → B → outcome E A) a l1 l2 :
  foldM f a (l1 ++ l2) = (a' ← foldM f a l1; foldM f a' l2).
Proof.
  revert a. induction l1 as [|x l1 IH]; intros a; simpl; [done|].
  unfold mbind, outcome_mbind in *. destruct (f a x); simpl; auto.
Qed.

(** Loop rule: an invariant every successful iteration preserves holds at the
    end of the loop. *)
Lemma foldM_inv {E A B} (f : A → B → outcome E A) (I : A → Prop) a l a' :
  (∀ b x b', x ∈ l → I b → f b x = Ok b' → I b') →
  I a → foldM f a l = Ok a' → I a'.
Proof.
  revert a. induction l as [|x l IH]; intros a Hstep Ha; simpl.
  - by intros [= <-].
  - intros (b & Hb & Hl)%bind_Ok. apply (IH b); [|by eapply Hstep; eauto; left|done].
    intros ?????; eapply Hstep; eauto. by right.
Qed.

(** Loop rule with the part of the list already consumed and the part to come. *)
Lemma foldM_inv_prefix {E A B} (f : A → B → outcome E A) (I : list B → A → Prop) a l a' :
  (∀ pre x post b b', l = pre ++ x :: post → I pre b → f b x = Ok b' → I (pre ++ [x]) b') →
  I [] a → foldM f a l = Ok a' → I l a'.
Proof.
  intros Hstep Ha Hl.
  enough (∀ post pre b, l = pre ++ post → I pre b → foldM f b post = Ok a' → I l a') as Hgen.
  { by apply (Hgen l [] a). }
  clear a Ha Hl. induction post as [|x post IH]; intros pre b -> Hb; simpl.
  - rewrite app_nil_r. by intros [= <-].
  - intros (b' & Hb' & Hl)%bind_Ok. apply (IH (pre ++ [x]) b'); [|by eapply Hstep|done].
    by rewrite <-(assoc_L (++)).
Qed.

Lemma foldM_fmap {E A B C} (f : A → C → outcome E A) (g : B → C) a l :
  foldM f a (g <$> l) = foldM (λ a x, f a (g x)) a l.
Proof.
  revert a. induction l as [|x l IH]; intros a; simpl; [done|].
  unfold mbind, outcome_mbind. destruct (f a (g x)); simpl; auto.
Qed.

(** A loop whose body succeeds as long as an invariant holds runs to its end. *)
Lemma foldM_total {E A B} (f : A → B → outcome E A) (g : A → B → A) (I : A → Prop) a l :
  (∀ b x, x ∈ l → I b → f b x = Ok (g b x) ∧ I (g b x)) →
  I a → foldM f a l = Ok (foldl g a l) ∧ I (foldl g a l).
Proof.
  revert a. induction l as [|x l IH]; intros a Hf Ha; simpl; [done|].
  destruct (Hf a x) as [-> Hg]; [by left|done|]. simpl. apply IH; [|done].
  intros ????. apply Hf; [by right|done].
Qed.

(** ** Machine integers *)

Section integers.
Local Open Scope Z_scope.

(** [uint64(z)] and [int64(z)]: the wrap-around of Go's conversions and
    arithmetic. *)
Definition u64 (z : Z) : Z := z mod 2 ^ 64.
Definition s64 (z : Z) : Z := (z + 2 ^ 63) mod 2 ^ 64 - 2 ^ 63.

Lemma u64_range z : 0 ≤ u64 z < 2 ^ 64.
Proof. unfold u64. by apply Z.mod_pos_bound. Qed.

Lemma s64_range z : - 2 ^ 63 ≤ s64 z < 2 ^ 63.
Proof.
  unfold s64. assert (0 ≤ (z + 2 ^ 63) mod 2 ^ 64 < 2 ^ 64) by by apply Z.mod_pos_bound.
  lia.
Qed.

Lemma u64_id z : 0 ≤ z < 2 ^ 64 → u64 z = z.
Proof. apply Z.mod_small. Qed.

Lemma s64_id z : - 2 ^ 63 ≤ z < 2 ^ 63 → s64 z = z.
Proof. intros. unfold s64. rewrite Z.mod_small; lia. Qed.

Lemma s64_eqm z : (s64 z) mod 2 ^ 64 = z mod 2 ^ 64.
Proof.
  unfold s64. rewrite Zminus_mod_idemp_l. by replace (z + 2 ^ 63 - 2 ^ 63) with z by lia.
Qed.

Lemma s64_congr a b : a mod 2 ^ 64 = b mod 2 ^ 64 → s64 a = s64 b.
Proof.
  intros H. unfold s64. rewrite <-Zplus_mod_idemp_l, H, Zplus_mod_idemp_l. done.
Qed.

Lemma s64_add_l a b : s64 (s64 a + b) = s64 (a + b).
Proof. apply s64_congr. by rewrite <-Zplus_mod_idemp_l, s64_eqm, Zplus_mod_idemp_l. Qed.

Lemma s64_add_r a b : s64 (a + s64 b) = s64 (a + b).
Proof. by rewrite (Z.add_comm a), s64_add_l, Z.add_comm. Qed.

Lemma s64_s64 a : s64 (s64 a) = s64 a.
Proof. apply s64_congr, s64_eqm. Qed.

Lemma s64_u64 z : s64 (u64 z) = s64 z.
Proof. apply s64_congr. unfold u64. apply Z.mod_mod. lia. Qed.

Lemma u64_s64 z : u64 (s64 z) = u64 z.
Proof. apply s64_eqm. Qed.

Lemma u64_add_l a b : u64 (u64 a + b) = u64 (a + b).
Proof. apply Zplus_mod_idemp_l. Qed.

Lemma u64_add_r a b : u64 (a + u64 b) = u64 (a + b).
Proof. apply Zplus_mod_idemp_r. Qed.

Lemma u64_u64 a : u64 (u64 a) = u64 a.
Proof. apply Z.mod_mod. lia. Qed.

Lemma s64_opp a : s64 (- s64 a) = s64 (- a).
Proof.
  apply s64_congr. rewrite <-(Z.sub_0_l (s64 a)), <-(Z.sub_0_l a).
  by rewrite <-Zminus_mod_idemp_r, s64_eqm, Zminus_mod_idemp_r.
Qed.

Lemma s64_sub_r a b : s64 (a - s64 b) = s64 (a - b).
Proof. apply s64_congr. by rewrite <-Zminus_mod_idemp_r, s64_eqm, Zminus_mod_idemp_r. Qed.

Lemma s64_nonneg z : 0 ≤ s64 z → u64 z = s64 z.
Proof.
  intros. rewrite <-u64_s64. apply u64_id. pose proof (s64_range z). lia.
Qed.

(** Adding and subtracting a wrapped amount. *)
Lemma s64_delta x z (p q : bool) :
  s64 (x + ((if p then s64 z else 0) - (if q then s64 z else 0))) =
  s64 (x + ((if p then z else 0) - (if q then z else 0))).
Proof.
  destruct p, q; rewrite ?Z.sub_diag, ?Z.sub_0_r; try done.
  - apply s64_add_r.
  - rewrite !Z.sub_0_l, !Z.add_opp_r. apply s64_sub_r.
Qed.

(** Sums over lists. *)
Definition sumZ {A} (f : A → Z) (l : list A) : Z := foldr (λ x s, f x + s) 0 l.

Lemma sumZ_nil {A} (f : A → Z) : sumZ f [] = 0.
Proof. done. Qed.

Lemma sumZ_cons {A} (f : A → Z) x l : sumZ f (x :: l) = f x + sumZ f l.
Proof. done. Qed.

Lemma sumZ_app {A} (f : A → Z) l1 l2 : sumZ f (l1 ++ l2) = sumZ f l1 + sumZ f l2.
Proof. induction l1 as [|x l1 IH]; simpl; [done|]. rewrite IH. lia. Qed.

Lemma sumZ_ext {A} (f g : A → Z) l : (∀ x, x ∈ l → f x = g x) → sumZ f l = sumZ g l.
Proof.
  induction l as [|x l IH]; intros Hfg; simpl; [done|].
  rewrite (Hfg x), IH; [done| |by left]. intros; apply Hfg; by right.
Qed.

Lemma sumZ_zero {A} (f : A → Z) l : (∀ x, x ∈ l → f x = 0) → sumZ f l = 0.
Proof.
  intros H. rewrite (sumZ_ext f (λ _, 0)) by done. clear. induction l; simpl; lia.
Qed.

Lemma sumZ_add {A} (f g : A → Z) l : sumZ (λ x, f x + g x) l = sumZ f l + sumZ g l.
Proof. induction l as [|x l IH]; simpl; lia. Qed.

Lemma sumZ_opp {A} (f : A → Z) l : sumZ (λ x, - f x) l = - sumZ f l.
Proof. induction l as [|x l IH]; simpl; lia. Qed.

Lemma sumZ_map {A B} (g : A → B) (f : B → Z) l : sumZ f (g <$> l) = sumZ (λ x, f (g x)) l.
Proof. induction l as [|x l IH]; [done|]. rewrite fmap_cons, !sumZ_cons. lia. Qed.

Lemma sumZ_nonneg {A} (f : A → Z) l : (∀ x, x ∈ l → 0 ≤ f x) → 0 ≤ sumZ f l.
Proof.
  induction l as [|x l IH]; intros H; simpl; [done|].
  assert (0 ≤ f x) by (apply H; left). assert (0 ≤ sumZ f l); [|lia].
  apply IH. intros; apply H; by right.
Qed.

Lemma sum_join {A B} (f : B → Z) (g : A → list B) (l : list A) :
  sumZ f (mjoin (g <$> l)) = sumZ (λ x, sumZ f (g x)) l.
Proof.
  induction l as [|x l IH]; [done|]. rewrite fmap_cons.
  change (mjoin (g x :: (g <$> l))) with (g x ++ mjoin (g <$> l)). by rewrite sumZ_app, sumZ_cons, IH.
Qed.

#[export] Instance sumZ_perm {A} (f : A → Z) : Proper (Permutation ==> eq) (sumZ f).
Proof. induction 1; simpl; lia. Qed.

End integers.

Arguments u64 : simpl never.
Arguments s64 : simpl never.
Arguments sumZ : simpl never.

(** ** Go maps *)

(** [m[k]] on a Go map: the zero value when the key is absent. *)
Definition map_at {K A} `{Countable K} (zero : A) (m : gmap K A) (k : K) : A :=
  default zero (m !! k).

(** [for k, v := range m]: Go leaves the iteration order unspecified, so every
    definition that ranges over a map takes the order as a parameter, and the
    only law is that each entry is visited exactly once. *)
Class MapRange (K : Type) `{Countable K} := {
  map_range : ∀ {A}, gmap K A → list (K * A);
  map_range_perm : ∀ {A} (m : gmap K A), map_range m ≡ₚ map_to_list m;
}.
#[export] Hint Mode MapRange ! - - : typeclass_instances.

(** The order [map_to_list] gives is one possible order; witnesses use it. *)
Definition list_range K `{Countable K} : MapRange K :=
  {| map_range A m := map_to_list m; map_range_perm A m := reflexivity _ |}.

Lemma map_range_elem {K A} `{MapRange K} (m : gmap K A) k v :
  (k, v) ∈ map_range m ↔ m !! k = Some v.
Proof. rewrite map_range_perm. apply elem_of_map_to_list. Qed.

Lemma map_range_NoDup {K A} `{MapRange K} (m : gmap K A) : NoDup (map_range m).*1.
Proof. rewrite map_range_perm. apply NoDup_fst_map_to_list. Qed.

(** ** Automation *)

(** Splits [bind] chains that succeeded into their steps. *)
Ltac inv_ok :=
  repeat match goal with
  | H : (_ ≫= _) = Ok _ |- _ =>
      let x := fresh "r" in let Hx := fresh "Hr" in
      apply bind_Ok in H as (x & Hx & H)
  | H : mret _ = Ok _ |- _ => injection H as H
  | H : Ok _ = Ok _ |- _ => injection H as H
  | H : Err _ = Ok _ |- _ => discriminate H
  | H : Fatal = Ok _ |- _ => discriminate H
  | H : Panic = Ok _ |- _ => discriminate H
  end; subst.

(** Case split on the conditional a successful step went through. *)
Ltac split_ok H :=
  repeat match type of H with
  | (if ?b then _ else _) = Ok _ =>
      let Hb := fresh "Hb" in destruct b eqn:Hb; try discriminate H
  | match ?o with _ => _ end = Ok _ =>
      let Ho := fresh "Ho" in destruct o eqn:Ho; try discriminate H
  end.

Create HintDb rosetta.
Create Rewrite HintDb rosetta.
#[export] Hint Resolve u64_range s64_range : rosetta.
#[export] Hint Rewrite @sumZ_nil @sumZ_cons @sumZ_app : rosetta.
