(* ===== verification/Bytes.v ===== *)
(** * Byte strings

    What the source uses of Go's byte slices and of the standard packages
    [bytes], [encoding/binary] and [encoding/hex]: comparison, prefixes, [copy],
    big-endian integers and hexadecimal text. *)
From S2P Require Import Prelude.
From stdpp Require Export pretty.
Local Open Scope Z_scope.

Local Coercion Z.of_nat : nat >-> Z.

Abbreviation bytes := (list byte).

#[export] Instance byte_eq_dec : EqDecision byte := Byte.byte_eq_dec.
#[export] Program Instance byte_countable : Countable byte :=
  inj_countable Byte.to_N Byte.of_N _.
Next Obligation. exact Byte.of_to_N. Qed.

(** ** Bytes as integers *)

Definition byte_Z (b : byte) : Z := Z.of_N (Byte.to_N b).
Definition Z_byte (z : Z) : byte := default x00 (Byte.of_N (Z.to_N (z mod 256))).

Lemma byte_Z_range b : 0 ≤ byte_Z b < 256.
Proof. unfold byte_Z. pose proof (Byte.to_N_bounded b). lia. Qed.

Lemma Z_byte_Z b : Z_byte (byte_Z b) = b.
Proof.
  unfold Z_byte. rewrite Z.mod_small by apply byte_Z_range.
  unfold byte_Z. by rewrite N2Z.id, Byte.of_to_N.
Qed.

Lemma byte_Z_byte z : byte_Z (Z_byte z) = z mod 256.
Proof.
  unfold Z_byte, byte_Z. assert (0 ≤ z mod 256 < 256) by by apply Z.mod_pos_bound.
  destruct (Byte.of_N (Z.to_N (z mod 256))) as [b|] eqn:Hb.
  - simpl. apply Byte.to_of_N in Hb. rewrite Hb. lia.
  - apply Byte.of_N_None_iff in Hb. lia.
Qed.

#[export] Instance byte_Z_inj : Inj eq eq byte_Z.
Proof. intros a b H. by rewrite <-(Z_byte_Z a), H, Z_byte_Z. Qed.

(** ** [bytes.Compare] *)

Fixpoint bytes_cmp (a b : bytes) : comparison :=
  match a, b with
  | [], [] => Eq
  | [], _ :: _ => Lt
  | _ :: _, [] => Gt
  | x :: a, y :: b =>
      match byte_Z x ?= byte_Z y with Eq => bytes_cmp a b | c => c end
  end.

Definition bytes_lt (a b : bytes) : Prop := bytes_cmp a b = Lt.
Definition bytes_le (a b : bytes) : Prop := bytes_cmp a b ≠ Gt.

#[export] Instance bytes_lt_dec a b : Decision (bytes_lt a b).
Proof. unfold bytes_lt. solve_decision. Defined.
#[export] Instance bytes_le_dec a b : Decision (bytes_le a b).
Proof. unfold bytes_le. solve_decision. Defined.

Lemma bytes_cmp_refl a : bytes_cmp a a = Eq.
Proof. induction a as [|x a IH]; simpl; [done|]. by rewrite Z.compare_refl. Qed.

Lemma bytes_cmp_eq a b : bytes_cmp a b = Eq ↔ a = b.
Proof.
  split; [|intros ->; apply bytes_cmp_refl].
  revert b. induction a as [|x a IH]; intros [|y b]; simpl; try done.
  destruct (Z.compare_spec (byte_Z x) (byte_Z y)) as [Hxy| |]; try done.
  intros ?%IH. apply byte_Z_inj in Hxy. by subst.
Qed.

Lemma bytes_cmp_antisym a b : bytes_cmp b a = CompOpp (bytes_cmp a b).
Proof.
  revert b. induction a as [|x a IH]; intros [|y b]; simpl; try done.
  rewrite (Z.compare_antisym (byte_Z x)). destruct (byte_Z x ?= byte_Z y); simpl; auto.
Qed.

Lemma bytes_lt_trans a b c : bytes_lt a b → bytes_lt b c → bytes_lt a c.
Proof.
  unfold bytes_lt. revert b c. induction a as [|x a IH]; intros [|y b] [|z c]; simpl; try done.
  destruct (Z.compare_spec (byte_Z x) (byte_Z y)) as [Hxy|Hxy|Hxy];
    destruct (Z.compare_spec (byte_Z y) (byte_Z z)) as [Hyz|Hyz|Hyz]; try done.
  all: intros; destruct (Z.compare_spec (byte_Z x) (byte_Z z)); try lia; eauto.
Qed.

Lemma bytes_le_lteq a b : bytes_le a b ↔ bytes_lt a b ∨ a = b.
Proof.
  unfold bytes_le, bytes_lt. rewrite <-bytes_cmp_eq.
  destruct (bytes_cmp a b); simpl; intuition congruence.
Qed.

Lemma bytes_lt_irrefl a : ¬ bytes_lt a a.
Proof. unfold bytes_lt. by rewrite bytes_cmp_refl. Qed.

Lemma bytes_le_refl a : bytes_le a a.
Proof. apply bytes_le_lteq. by right. Qed.

Lemma bytes_le_trans a b c : bytes_le a b → bytes_le b c → bytes_le a c.
Proof.
  rewrite !bytes_le_lteq. intros [Hab| ->] [Hbc| ->]; eauto using bytes_lt_trans.
Qed.

Lemma bytes_not_lt_le a b : ¬ bytes_lt a b ↔ bytes_le b a.
Proof.
  unfold bytes_lt, bytes_le. rewrite (bytes_cmp_antisym a b).
  destruct (bytes_cmp a b); simpl; intuition congruence.
Qed.

Lemma bytes_le_antisym a b : bytes_le a b → bytes_le b a → a = b.
Proof.
  rewrite bytes_le_lteq. intros [Hlt|?] Hle; [|done]. by apply bytes_not_lt_le in Hle.
Qed.

Lemma bytes_le_total a b : bytes_le a b ∨ bytes_le b a.
Proof.
  destruct (decide (bytes_lt a b)) as [?|?%bytes_not_lt_le]; [|by right].
  left. apply bytes_le_lteq. by left.
Qed.

Lemma bytes_cmp_app p a b : bytes_cmp (p ++ a) (p ++ b) = bytes_cmp a b.
Proof. induction p as [|x p IH]; simpl; [done|]. by rewrite Z.compare_refl. Qed.

#[export] Hint Resolve bytes_lt_trans bytes_le_refl bytes_le_trans : rosetta.

(** ** Prefixes *)

(** [bytes.HasPrefix(k, p)]. *)
Definition has_prefix (p k : bytes) : bool := bool_decide (take (length p) k = p).

Lemma has_prefix_spec p k : has_prefix p k = true ↔ ∃ s, k = p ++ s.
Proof.
  unfold has_prefix. rewrite bool_decide_eq_true. split.
  - intros H. exists (drop (length p) k). by rewrite <-H at 1; rewrite take_drop.
  - intros [s ->]. by rewrite take_app_length.
Qed.

Lemma has_prefix_app p s : has_prefix p (p ++ s) = true.
Proof. apply has_prefix_spec. eauto. Qed.

(** A key between two keys that share a prefix has that prefix. *)
Lemma prefix_convex p a b c :
  bytes_le (p ++ a) b → bytes_le b (p ++ c) → has_prefix p b = true.
Proof.
  intros Hab Hbc. rewrite has_prefix_spec.
  revert b Hab Hbc. induction p as [|x p IH]; intros b Hab Hbc; [by exists b|].
  unfold bytes_le in *. destruct b as [|y b]; [by simpl in Hab|]. simpl in Hab, Hbc.
  rewrite (Z.compare_antisym (byte_Z x)) in Hbc.
  destruct (Z.compare_spec (byte_Z x) (byte_Z y)) as [Hxy| |]; simpl in *; try done.
  apply byte_Z_inj in Hxy as ->. destruct (IH b) as [s ->]; auto. by exists s.
Qed.

(** [len(b) > 0]. *)
Definition nonempty {A} (b : list A) : bool := match b with [] => false | _ => true end.

Lemma nonempty_true {A} (b : list A) : nonempty b = true ↔ b ≠ [].
Proof. by destruct b. Qed.

Lemma nonempty_false {A} (b : list A) : nonempty b = false ↔ b = [].
Proof. by destruct b. Qed.

(** ** [copy] into a sub-slice *)

(** [copy(dst[lo:hi], src)]. *)
Definition go_copy (dst : bytes) (lo hi : nat) (src : bytes) : bytes :=
  let n := Nat.min (hi - lo) (length src) in
  take lo dst ++ take n src ++ drop (lo + n) dst.

(** [make([]byte, n)]. *)
Definition make_bytes (n : nat) : bytes := replicate n x00.

(** [flow.Identifier], an array of 32 bytes, and its zero value. *)
Abbreviation Identifier := bytes.
Definition ZeroID : Identifier := make_bytes 32.

Lemma length_go_copy dst lo hi src :
  (hi ≤ length dst)%nat → (lo ≤ hi)%nat → length (go_copy dst lo hi src) = length dst.
Proof.
  intros. unfold go_copy. rewrite !length_app, !length_take, length_drop. lia.
Qed.

(** ** Big-endian integers *)

Fixpoint be_put (n : nat) (z : Z) : bytes :=
  match n with
  | O => []
  | S n => be_put n (z / 256) ++ [Z_byte z]
  end.

Definition be_get (b : bytes) : Z := foldl (λ acc x, acc * 256 + byte_Z x) 0 b.

(** [binary.BigEndian.PutUint64] and [binary.BigEndian.Uint64]; the latter
    panics on a slice shorter than eight bytes. *)
Definition be64 (z : Z) : bytes := be_put 8 z.
Definition uint64_be {E} (b : bytes) : outcome E Z :=
  if bool_decide (length b < 8)%nat then Panic else Ok (be_get (take 8 b)).

Lemma length_be_put n z : length (be_put n z) = n.
Proof.
  revert z. induction n as [|n IH]; intros z; [done|]. cbn [be_put].
  rewrite length_app, IH. simpl. lia.
Qed.

Lemma length_be64 z : length (be64 z) = 8%nat.
Proof. apply length_be_put. Qed.

Lemma be_get_foldl acc b :
  foldl (λ acc x, acc * 256 + byte_Z x) acc b = acc * 256 ^ length b + be_get b.
Proof.
  unfold be_get. revert acc. induction b as [|x b IH]; intros acc.
  - simpl. lia.
  - cbn [foldl length]. rewrite (IH (acc * 256 + byte_Z x)), (IH (0 * 256 + byte_Z x)).
    rewrite Nat2Z.inj_succ, Z.pow_succ_r by lia. lia.
Qed.

Lemma be_get_cons x b : be_get (x :: b) = byte_Z x * 256 ^ length b + be_get b.
Proof. unfold be_get at 1. cbn [foldl]. rewrite be_get_foldl. lia. Qed.

Lemma be_get_app a b : be_get (a ++ b) = be_get a * 256 ^ length b + be_get b.
Proof. unfold be_get at 1. rewrite foldl_app. apply be_get_foldl. Qed.

Lemma be_get_range b : 0 ≤ be_get b < 256 ^ length b.
Proof.
  induction b as [|x b IH]; [done|]. rewrite be_get_cons. cbn [length].
  rewrite Nat2Z.inj_succ, Z.pow_succ_r by lia. pose proof (byte_Z_range x). nia.
Qed.

Lemma be_get_put n z : be_get (be_put n z) = z mod 256 ^ n.
Proof.
  revert z. induction n as [|n IH]; intros z.
  - by rewrite Z.mod_1_r.
  - cbn [be_put]. rewrite be_get_app, IH. cbn [length].
    change (be_get [Z_byte z]) with (0 * 256 + byte_Z (Z_byte z)). rewrite byte_Z_byte.
    rewrite (Nat2Z.inj_succ n), (Z.pow_succ_r 256 n) by lia.
    rewrite Z.rem_mul_r by lia. change (256 ^ 1%nat) with 256. lia.
Qed.

Lemma be_get_be64 z : 0 ≤ z < 2 ^ 64 → be_get (be64 z) = z.
Proof. intros. unfold be64. rewrite be_get_put. apply Z.mod_small. by change (256 ^ 8%nat) with (2 ^ 64). Qed.

Lemma uint64_be_be64 {E} z s : 0 ≤ z < 2 ^ 64 → uint64_be (E:=E) (be64 z ++ s) = Ok z.
Proof.
  intros Hz. unfold uint64_be. rewrite length_app, length_be64, bool_decide_false by lia.
  rewrite take_app_le by by rewrite length_be64. rewrite take_ge by by rewrite length_be64.
  by rewrite be_get_be64.
Qed.

Lemma uint64_be_be64' {E} z : 0 ≤ z < 2 ^ 64 → uint64_be (E:=E) (be64 z) = Ok z.
Proof. rewrite <-(app_nil_r (be64 z)). apply uint64_be_be64. Qed.

Lemma uint64_be_range {E} b z : uint64_be (E:=E) b = Ok z → 0 ≤ z < 2 ^ 64.
Proof.
  unfold uint64_be. case_bool_decide; [done|]. intros [= <-].
  pose proof (be_get_range (take 8 b)) as Hr. rewrite length_take in Hr.
  by replace (Nat.min 8 (length b)) with 8%nat in Hr by lia.
Qed.

Lemma be64_inj a b : 0 ≤ a < 2 ^ 64 → 0 ≤ b < 2 ^ 64 → be64 a = be64 b → a = b.
Proof. intros Ha Hb H. by rewrite <-(be_get_be64 a), H, be_get_be64. Qed.

(** Every eight-byte string is the encoding of its value. *)
Lemma be_get_inj a b : length a = length b → be_get a = be_get b → a = b.
Proof.
  revert b. induction a as [|x a IH]; intros [|y b]; cbn [length]; try done.
  intros [= Hlen] H. rewrite !be_get_cons, Hlen in H.
  pose proof (be_get_range a) as Ha. pose proof (be_get_range b) as Hb. rewrite Hlen in Ha.
  assert (byte_Z x = byte_Z y) as Hxy%byte_Z_inj by nia. subst. f_equal. apply IH; [done|lia].
Qed.

Lemma be64_be_get b : length b = 8%nat → be64 (be_get b) = b.
Proof.
  intros Hb. apply be_get_inj; [by rewrite length_be64|].
  apply be_get_be64. pose proof (be_get_range b) as Hr. by rewrite Hb in Hr.
Qed.

(** The point of storing heights big-endian: byte order is numeric order. *)
Lemma bytes_cmp_be a b :
  length a = length b → bytes_cmp a b = (be_get a ?= be_get b).
Proof.
  revert b. induction a as [|x a IH]; intros [|y b]; cbn [length]; try done.
  intros [= Hlen]. cbn [bytes_cmp]. rewrite !be_get_cons, IH, Hlen by done.
  pose proof (be_get_range a) as Ha. pose proof (be_get_range b) as Hb. rewrite Hlen in Ha.
  pose proof (byte_Z_range x). pose proof (byte_Z_range y).
  destruct (Z.compare_spec (byte_Z x) (byte_Z y)) as [Hxy|Hxy|Hxy].
  - rewrite Hxy. symmetry. apply Z.add_compare_mono_l.
  - symmetry. apply Z.compare_lt_iff. nia.
  - symmetry. apply Z.compare_gt_iff. nia.
Qed.

Lemma bytes_lt_be64 a b :
  0 ≤ a < 2 ^ 64 → 0 ≤ b < 2 ^ 64 → bytes_lt (be64 a) (be64 b) ↔ a < b.
Proof.
  intros. unfold bytes_lt. rewrite bytes_cmp_be by by rewrite !length_be64.
  rewrite !be_get_be64 by done. apply Z.compare_lt_iff.
Qed.

Lemma bytes_le_be64 a b :
  0 ≤ a < 2 ^ 64 → 0 ≤ b < 2 ^ 64 → bytes_le (be64 a) (be64 b) ↔ a ≤ b.
Proof.
  intros. unfold bytes_le. rewrite bytes_cmp_be by by rewrite !length_be64.
  rewrite !be_get_be64 by done. apply Z.compare_le_iff.
Qed.

Arguments be64 : simpl never.
Arguments be_put : simpl never.
Arguments be_get : simpl never.

(** ** Hexadecimal text *)

Definition hex_digit (n : Z) : Ascii.ascii :=
  Ascii.ascii_of_N (Z.to_N (if n <? 10 then 48 + n else 87 + n)).

(** [fromHexChar]: both letter cases are accepted. *)
Definition hex_val (c : Ascii.ascii) : option Z :=
  let n := Z.of_N (Ascii.N_of_ascii c) in
  if (48 <=? n) && (n <=? 57) then Some (n - 48)
  else if (97 <=? n) && (n <=? 102) then Some (n - 87)
  else if (65 <=? n) && (n <=? 70) then Some (n - 55)
  else None.

(** [hex.EncodeToString]. *)
Fixpoint hex_encode (b : bytes) : string :=
  match b with
  | [] => EmptyString
  | x :: b =>
      String (hex_digit (byte_Z x / 16)) (String (hex_digit (byte_Z x mod 16)) (hex_encode b))
  end.

(** [hex.DecodeString]; [None] is its error (odd length or a bad character). *)
Fixpoint hex_decode (s : string) : option bytes :=
  match s with
  | EmptyString => Some []
  | String a EmptyString => None
  | String a (String b s) =>
      hi ← hex_val a; lo ← hex_val b; rest ← hex_decode s;
      Some (Z_byte (16 * hi + lo) :: rest)
  end.

Lemma hex_byte x :
  hex_val (hex_digit (byte_Z x / 16)) = Some (byte_Z x / 16) ∧
  hex_val (hex_digit (byte_Z x mod 16)) = Some (byte_Z x mod 16).
Proof. by destruct x. Qed.

Lemma hex_decode_encode b : hex_decode (hex_encode b) = Some b.
Proof.
  induction b as [|x b IH]; [done|]. cbn [hex_encode hex_decode].
  destruct (hex_byte x) as [-> ->]. simpl. rewrite IH. simpl.
  rewrite <-Z.div_mod by done. by rewrite Z_byte_Z.
Qed.

#[export] Instance hex_encode_inj : Inj eq eq hex_encode.
Proof. intros a b H. apply (inj Some). by rewrite <-!hex_decode_encode, H. Qed.

Lemma length_hex_encode b : String.length (hex_encode b) = (2 * length b)%nat.
Proof. induction b as [|x b IH]; [done|]. cbn [hex_encode String.length length]. rewrite IH. lia. Qed.

Lemma length_hex_decode s b :
  hex_decode s = Some b → String.length s = (2 * length b)%nat.
Proof.
  revert s. induction b as [|x b IH]; intros s H.
  - destruct s as [|c [|d s]]; try done. simpl in H.
    destruct (hex_val c), (hex_val d), (hex_decode s); done.
  - destruct s as [|c [|d s]]; try done. simpl in H.
    destruct (hex_val c), (hex_val d), (hex_decode s) eqn:Hs; try done.
    simplify_eq/=. rewrite (IH s) by done. lia.
Qed.

(** [strconv.FormatUint(z, 10)] and [strconv.FormatInt(z, 10)]. *)
Definition format_int (z : Z) : string := pretty z.
