(* ===== verification/Shutdown.v ===== *)
(** * Shutting down

    Model of [src/process/process.go] (exit handlers and signals) with the parts
    of [src/log/log.go], [src/trace/trace.go] and [src/cmd/server/server.go] that
    register handlers or end the process. The goroutines of the process take
    steps in any order; the theorems say which handlers have run, in which
    order, when the process ends. *)
From S2P Require Import Prelude.
Local Open Scope Z_scope.

Inductive os_Signal := Interrupt | SIGTERM | OtherSignal (n : Z).
#[export] Instance os_Signal_eq_dec : EqDecision os_Signal.
Proof. solve_decision. Defined.
#[export] Instance os_Signal_countable : Countable os_Signal.
Proof.
  refine (inj_countable' (λ s, match s with Interrupt => inl false | SIGTERM => inl true | OtherSignal n => inr n end)
           (λ x, match x with inl false => Interrupt | inl true => SIGTERM | inr n => OtherSignal n end) _).
  by intros [].
Defined.

(** [sig == syscall.SIGTERM || sig == os.Interrupt] *)
Definition ending (sig : os_Signal) : bool :=
  match sig with Interrupt | SIGTERM => true | OtherSignal _ => false end.

(** ** The process

    A function value is a name; [body] says what it does. Code is a list of
    actions: those of package [process], cancelling or awaiting the context of
    the server, starting a goroutine, returning from [main], and anything else. *)
Inductive action :=
  | Work (what : string)
  | CallExit (code : Z)
  | CallSetExitHandler (h : nat)
  | CallSetSignalHandler (sig : os_Signal) (h : nat)
  | CancelContext
  | AwaitContext
  | Go (h : nat)
  | ReturnFromMain.

(** What is left to do in a goroutine: code, a handler to call, a handler that
    returns, [os.Exit], and the loop over the signals. *)
Inductive instr :=
  | Do (a : action)
  | Call (h : nat)
  | Returned (h : nat)
  | OsExit (code : Z)
  | NextSignal.

#[export] Instance act_eq_dec : EqDecision action.
Proof. solve_decision. Defined.
#[export] Instance instr_eq_dec : EqDecision instr.
Proof. solve_decision. Defined.

(** What can be observed, with the goroutine that did it. *)
Inductive event :=
  | Worked (what : string)
  | Exiting (sig : os_Signal) (code : Z)
  | Registered (sig : os_Signal) (h : nat)
  | Started (h : nat)
  | Finished (h : nat)
  | MainReturned.

Record procState := mkProc {
  exiting : bool;
  registry : gmap os_Signal (list nat);
  notifier : list os_Signal;
  cancelled : bool;
  threads : list (list instr);
  proc_log : list (nat * event);
  proc_status : option Z;
}.

(** ** [prepend], [clone], [SetSignalHandler], [SetExitHandler] *)
Definition prepend (xs : list nat) (handler : nat) : list nat := handler :: xs.
Definition clone (xs : list nat) : list nat := xs.
Definition handlersFor (s : procState) (sig : os_Signal) : list nat := default [] (registry s !! sig).

Definition SetSignalHandler (t : nat) (sig : os_Signal) (handler : nat) (s : procState) : procState :=
  mkProc (exiting s) (<[sig := prepend (handlersFor s sig) handler]> (registry s))
    (notifier s) (cancelled s) (threads s) (proc_log s ++ [(t, Registered sig handler)]) (proc_status s).

Definition SetExitHandler (t : nat) (handler : nat) (s : procState) : procState :=
  SetSignalHandler t SIGTERM handler (SetSignalHandler t Interrupt handler s).

Definition with_thread (t : nat) (k : list instr) (s : procState) : procState :=
  mkProc (exiting s) (registry s) (notifier s) (cancelled s) (<[t := k]> (threads s)) (proc_log s) (proc_status s).
Definition log_event (t : nat) (e : event) (s : procState) : procState :=
  mkProc (exiting s) (registry s) (notifier s) (cancelled s) (threads s) (proc_log s ++ [(t, e)]) (proc_status s).
Definition set_exiting (s : procState) : procState :=
  mkProc true (registry s) (notifier s) (cancelled s) (threads s) (proc_log s) (proc_status s).
Definition set_status (code : Z) (s : procState) : procState :=
  mkProc (exiting s) (registry s) (notifier s) (cancelled s) (threads s) (proc_log s) (Some code).
Definition set_cancelled (s : procState) : procState :=
  mkProc (exiting s) (registry s) (notifier s) true (threads s) (proc_log s) (proc_status s).
Definition set_notifier (q : list os_Signal) (s : procState) : procState :=
  mkProc (exiting s) (registry s) q (cancelled s) (threads s) (proc_log s) (proc_status s).
Definition add_thread (k : list instr) (s : procState) : procState :=
  mkProc (exiting s) (registry s) (notifier s) (cancelled s) (threads s ++ [k]) (proc_log s) (proc_status s).

(** ** [Exit]: the part under the lock, and what the goroutine does next *)
Definition Exit (t : nat) (code : Z) (k : list instr) (s : procState) : procState :=
  if exiting s then with_thread t k s
  else
    let handlers := clone (handlersFor s Interrupt) in
    with_thread t ((Call <$> handlers) ++ OsExit code :: k)
      (log_event t (Exiting Interrupt code) (set_exiting s)).

(** ** [handleSignals]: one signal taken from the channel *)
Definition handleSignal (t : nat) (sig : os_Signal) (q : list os_Signal) (k : list instr) (s : procState) : procState :=
  let s := set_notifier q s in
  let s := if ending sig then log_event t (Exiting sig 1) (set_exiting s) else s in
  let handlers := clone (handlersFor s sig) in
  with_thread t
    ((Call <$> handlers) ++ (if ending sig then [OsExit 1] else []) ++ NextSignal :: k) s.

(** The channel holds 100 signals; [signal.Notify] drops what does not fit. *)
Definition notifierSize : nat := 100.
Definition arrive (sig : os_Signal) (s : procState) : procState :=
  if (length (notifier s) <? notifierSize)%nat then set_notifier (notifier s ++ [sig]) s else s.

Section process.
Context (body : nat → list action).

(** One step of goroutine [t], unless it waits. *)
Definition instr_step (t : nat) (i : instr) (k : list instr) (s : procState) : option procState :=
  match i with
  | Do (Work what) => Some (with_thread t k (log_event t (Worked what) s))
  | Do (CallExit code) => Some (Exit t code k s)
  | Do (CallSetExitHandler h) => Some (with_thread t k (SetExitHandler t h s))
  | Do (CallSetSignalHandler sig h) => Some (with_thread t k (SetSignalHandler t sig h s))
  | Do CancelContext => Some (with_thread t k (set_cancelled s))
  | Do AwaitContext => if cancelled s then Some (with_thread t k s) else None
  | Do (Go h) => Some (with_thread t k (add_thread (Do <$> body h) s))
  | Do ReturnFromMain => Some (set_status 0 (log_event t MainReturned s))
  | Call h => Some (with_thread t ((Do <$> body h) ++ Returned h :: k) (log_event t (Started h) s))
  | Returned h => Some (with_thread t k (log_event t (Finished h) s))
  | OsExit code => Some (set_status code s)
  | NextSignal =>
      match notifier s with
      | [] => None
      | sig :: q => Some (handleSignal t sig q k s)
      end
  end.

(** The scheduler runs a goroutine or a signal arrives. *)
Inductive choice := Schedule (t : nat) | Arrive (sig : os_Signal).

Definition proc_step (s : procState) (c : choice) : procState :=
  match proc_status s with
  | Some _ => s
  | None =>
      match c with
      | Arrive sig => arrive sig s
      | Schedule t =>
          match threads s !! t with
          | Some (i :: k) => default s (instr_step t i k s)
          | _ => s
          end
      end
  end.

Definition proc_run (s : procState) (cs : list choice) : procState := foldl proc_step s cs.

(** A process starts with the goroutine of [handleSignals] (number 0) and [main],
    after the [init] functions. *)
Definition proc_start (main : list action) : procState :=
  mkProc false ∅ [] false [[NextSignal]; Do <$> main] [] None.
End process.

(** ** What a log says *)

(** the handlers of a signal, latest first *)
Fixpoint registered (sig : os_Signal) (l : list (nat * event)) (acc : list nat) : list nat :=
  match l with
  | [] => acc
  | (_, Registered sig' h) :: l => registered sig l (if bool_decide (sig' = sig) then h :: acc else acc)
  | _ :: l => registered sig l acc
  end.

(** the same as a reversed list *)
Definition registration (sig : os_Signal) (te : nat * event) : option nat :=
  match te.2 with Registered sig' h => if bool_decide (sig' = sig) then Some h else None | _ => None end.
Definition registrations (sig : os_Signal) (l : list (nat * event)) : list nat := omap (registration sig) l.

(** the exits that were started *)
Definition exit_event (te : nat * event) : option (nat * os_Signal * Z) :=
  match te.2 with Exiting sig c => Some (te.1, sig, c) | _ => None end.
Definition exits (l : list (nat * event)) : list (nat * os_Signal * Z) := omap exit_event l.

(** the handler calls of one goroutine *)
Definition handler_call (e : event) : option event :=
  match e with Started _ | Finished _ => Some e | _ => None end.
Definition handler_event (t : nat) (te : nat * event) : option event :=
  if bool_decide (te.1 = t) then handler_call te.2 else None.
Definition calls (t : nat) (l : list (nat * event)) : list event := omap (handler_event t) l.

(** the calls of handlers [hs] one after another *)
Definition sequence (hs : list nat) : list event := hs ≫= λ h, [Started h; Finished h].

(** ** The invariant

    The calls a goroutine still has to make before it ends the process. *)
Fixpoint upcoming (k : list instr) : list event :=
  match k with
  | [] => []
  | Call h :: k => Started h :: Finished h :: upcoming k
  | Returned h :: k => Finished h :: upcoming k
  | OsExit _ :: _ => []
  | _ :: k => upcoming k
  end.

(** the code [os.Exit] is going to be called with *)
Fixpoint exit_code (k : list instr) : option Z :=
  match k with
  | [] => None
  | OsExit code :: _ => Some code
  | NextSignal :: _ => None
  | _ :: k => exit_code k
  end.

Lemma upcoming_Do l k : upcoming ((Do <$> l) ++ k) = upcoming k.
Proof. by induction l. Qed.
Lemma exit_code_Do l k : exit_code ((Do <$> l) ++ k) = exit_code k.
Proof. by induction l. Qed.
Lemma upcoming_Call hs k : upcoming ((Call <$> hs) ++ k) = sequence hs ++ upcoming k.
Proof. induction hs as [|h hs IH]; [done|]. rewrite fmap_cons. cbn [app upcoming]. by rewrite IH. Qed.
Lemma exit_code_Call hs k : exit_code ((Call <$> hs) ++ k) = exit_code k.
Proof. by induction hs. Qed.

Lemma calls_app t l1 l2 : calls t (l1 ++ l2) = calls t l1 ++ calls t l2.
Proof. apply omap_app. Qed.
Lemma calls_other t u (es : list event) : u ≠ t → calls t ((u,.) <$> es) = [].
Proof.
  intros Hu. induction es as [|e es IH]; [done|]. rewrite fmap_cons. unfold calls in *. cbn [omap list_omap].
  unfold handler_event at 1. cbn. rewrite bool_decide_eq_false_2 by done. exact IH.
Qed.
Lemma calls_own t (es : list event) : calls t ((t,.) <$> es) = omap handler_call es.
Proof.
  induction es as [|e es IH]; [done|]. rewrite fmap_cons. unfold calls in *. cbn [omap list_omap].
  unfold handler_event at 1. cbn [fst snd]. rewrite bool_decide_eq_true_2 by done. by destruct (handler_call e); rewrite IH.
Qed.

Lemma registered_app sig l1 l2 acc : registered sig (l1 ++ l2) acc = registered sig l2 (registered sig l1 acc).
Proof. revert acc. induction l1 as [|[? []] l1 IH]; intros acc; simpl; auto. Qed.

Definition not_exiting (e : event) : Prop := match e with Exiting _ _ => False | _ => True end.

(** where an event of an extended log is *)
Lemma log_snoc_split {A} (l n l1 l2 : list A) x :
  l ++ n = l1 ++ x :: l2 →
  (∃ l2', l2 = l2' ++ n ∧ l = l1 ++ x :: l2') ∨
  (∃ n1, n = n1 ++ x :: l2 ∧ l1 = l ++ n1).
Proof.
  intros H. apply app_eq_inv in H as [(k & -> & Hk)|(k & -> & Hk)].
  - destruct k as [|y k]; simplify_eq/=.
    + right. exists []. rewrite !app_nil_r. done.
    + left. exists k. done.
  - right. exists k. done.
Qed.

Record inv (s : procState) : Prop := mkInv {
  inv_registry : ∀ sig, handlersFor s sig = registered sig (proc_log s) [];
  inv_exit : ∀ t sig c l1 l2, proc_log s = l1 ++ (t, Exiting sig c) :: l2 →
    exiting s = true ∧ ∃ k, threads s !! t = Some k ∧ exit_code k = Some c ∧
      calls t l2 ++ upcoming k = sequence (registered sig l1 []);
  inv_code : ∀ t k c, threads s !! t = Some k → exit_code k = Some c →
    ∃ sig, (t, Exiting sig c) ∈ proc_log s;
  inv_user : ∀ t k, threads s !! t = Some k → t ≠ 0%nat →
    (NextSignal ∉ k) ∧ (upcoming k ≠ [] → exit_code k ≠ None);
  inv_started : ∀ t h l1 l2, proc_log s = l1 ++ (t, Started h) :: l2 → t ≠ 0%nat →
    ∃ sig c, (t, Exiting sig c) ∈ l1;
}.

(** A step of goroutine [t] that starts no exit: it keeps what the goroutine
    still has to do, moving calls from there to the log. *)
Record quiet (t : nat) (k : list instr) (s s' : procState) : Prop := mkQuiet {
  quiet_exiting : exiting s' = exiting s;
  quiet_log : ∃ es, proc_log s' = proc_log s ++ ((t,.) <$> es) ∧ Forall not_exiting es ∧
    (∀ sig, handlersFor s' sig = registered sig ((t,.) <$> es) (handlersFor s sig)) ∧
    (∀ h, Started h ∈ es → upcoming k ≠ []) ∧
    ∃ k', threads s' !! t = Some k' ∧ exit_code k' = exit_code k ∧
      (head k ≠ Some NextSignal ∨ exit_code k ≠ None → calls t ((t,.) <$> es) ++ upcoming k' = upcoming k) ∧
      (NextSignal ∉ k → NextSignal ∉ k');
  quiet_others : ∀ u k', u ≠ t → threads s' !! u = Some k' →
    threads s !! u = Some k' ∨ (u ≠ 0%nat ∧ ∃ l, k' = Do <$> l);
  quiet_kept : ∀ u k', u ≠ t → threads s !! u = Some k' → threads s' !! u = Some k';
}.

Lemma not_exiting_in t u sig c es : Forall not_exiting es → (u, Exiting sig c) ∉ ((t : nat),.) <$> es.
Proof.
  intros Hes (e & [= -> <-] & He)%list_elem_of_fmap. rewrite Forall_forall in Hes. by apply Hes in He.
Qed.

Lemma inv_quiet t k s s' :
  threads s !! t = Some k → quiet t k s s' → inv s → inv s'.
Proof.
  intros Hk [Hex (es & Hlog & Hes & Hreg & Hst & k' & Hk' & Hcode & Hcalls & Hns) Hoth Hkept]
    [I1 I2 I3 I4 I5]. constructor.
  - intros sig. by rewrite Hreg, I1, Hlog, registered_app.
  - intros u sig c l1 l2 Hl. rewrite Hlog in Hl.
    apply log_snoc_split in Hl as [(l2' & -> & Hl)|(n1 & Hn & ->)].
    2: { exfalso. apply (not_exiting_in t u sig c es Hes). rewrite Hn. set_solver. }
    destruct (I2 u sig c l1 l2' Hl) as [Hx (ku & Hku & Hc & Hu)]. rewrite Hex. split; [done|].
    destruct (decide (u = t)) as [->|Hne].
    + simplify_eq. exists k'. split; [done|]. split; [congruence|].
      rewrite calls_app, <-(assoc_L (++)), Hcalls; [done|]. right. congruence.
    + exists ku. split; [by apply Hkept|]. split; [done|].
      rewrite calls_app, calls_other, app_nil_r; [done|]. done.
  - intros u ku c Hku Hc. destruct (decide (u = t)) as [->|Hne].
    + rewrite Hk' in Hku. injection Hku as <-. rewrite Hcode in Hc. destruct (I3 t k c Hk Hc) as [sig ?].
      exists sig. rewrite Hlog. set_solver.
    + destruct (Hoth u ku Hne Hku) as [Hold|[_ [l ->]]].
      * destruct (I3 u ku c Hold Hc) as [sig ?]. exists sig. rewrite Hlog. set_solver.
      * exfalso. rewrite <-(app_nil_r (Do <$> l)), exit_code_Do in Hc. done.
  - intros u ku Hku Hu. destruct (decide (u = t)) as [->|Hne].
    + rewrite Hk' in Hku. injection Hku as <-. destruct (I4 t k Hk Hu) as [H1 H2]. split; [auto|].
      rewrite Hcode. intros Hup. apply H2. rewrite <-Hcalls by (left; destruct k; set_solver). destruct (calls t _); [|done].
      done.
    + destruct (Hoth u ku Hne Hku) as [Hold|[_ [l ->]]]; [by apply (I4 u ku)|].
      rewrite <-(app_nil_r (Do <$> l)), upcoming_Do. split; [|done]. rewrite app_nil_r. set_solver.
  - intros u h l1 l2 Hl Hu. rewrite Hlog in Hl.
    apply log_snoc_split in Hl as [(l2' & -> & Hl)|(n1 & Hn & ->)]; [by eapply I5|].
    assert ((u, Started h) ∈ ((t,.) <$> es)) as (e & [= -> <-] & He)%list_elem_of_fmap
      by (rewrite Hn; set_solver).
    destruct (I4 t k Hk Hu) as [_ Hc]. destruct (exit_code k) as [c|] eqn:Ek; [|exfalso; eapply Hc; eauto].
    destruct (I3 t k c Hk Ek) as [sig ?]. exists sig, c. set_solver.
Qed.

(** A step of goroutine [t] that starts an exit. *)
Record exits_now (t : nat) (sig : os_Signal) (c : Z) (k : list instr) (s s' : procState) : Prop := mkExitsNow {
  en_fresh : exit_code k = None;
  en_how : (exiting s = false ∧ sig = Interrupt) ∨ (t = 0%nat ∧ c = 1 ∧ ending sig = true);
  en_exiting : exiting s' = true;
  en_log : proc_log s' = proc_log s ++ [(t, Exiting sig c)];
  en_handlers : ∀ sig', handlersFor s' sig' = handlersFor s sig';
  en_thread : ∃ k', threads s' = <[t := k']> (threads s) ∧ exit_code k' = Some c ∧
    upcoming k' = sequence (handlersFor s sig) ∧ (NextSignal ∉ k → NextSignal ∉ k');
}.

Lemma inv_exits_now t sig c k s s' :
  threads s !! t = Some k → exits_now t sig c k s s' → inv s → inv s'.
Proof.
  intros Hk [Hfresh _ Hex Hlog Hreg (k' & Hth & Hc' & Hup & Hns)] [I1 I2 I3 I4 I5].
  assert (threads s' !! t = Some k') as Hk'.
  { rewrite Hth. apply list_lookup_insert_eq. by eapply lookup_lt_Some. }
  assert (∀ u, u ≠ t → threads s' !! u = threads s !! u) as Hoth.
  { intros u Hu. rewrite Hth. by apply list_lookup_insert_ne. }
  constructor.
  - intros sig'. rewrite Hreg, I1, Hlog, registered_app. done.
  - intros u sig' c' l1 l2 Hl. split; [done|]. rewrite Hlog in Hl.
    apply log_snoc_split in Hl as [(l2' & -> & Hl)|(n1 & Hn & ->)].
    + destruct (I2 u sig' c' l1 l2' Hl) as [Hx (ku & Hku & Hcu & Hu)].
      destruct (decide (u = t)) as [->|Hne]; [simplify_eq; congruence|].
      exists ku. rewrite Hoth by done. split_and!; [done..|].
      rewrite calls_app. change [(t, Exiting sig c)] with ((t,.) <$> [Exiting sig c]).
      by rewrite calls_other, app_nil_r.
    + destruct n1 as [|? [|]]; simplify_eq/=. exists k'. rewrite app_nil_r, <-I1. done.
  - intros u ku cu Hku Hcu. rewrite Hlog. destruct (decide (u = t)) as [->|Hne].
    + exists sig. simplify_eq. set_solver.
    + rewrite Hoth in Hku by done. destruct (I3 u ku cu Hku Hcu) as [sig' ?]. exists sig'. set_solver.
  - intros u ku Hku Hu. destruct (decide (u = t)) as [->|Hne].
    + simplify_eq. rewrite Hc'. split; [|done]. apply Hns. by apply (I4 t k).
    + rewrite Hoth in Hku by done. by apply (I4 u).
  - intros u h l1 l2 Hl Hu. rewrite Hlog in Hl.
    apply log_snoc_split in Hl as [(l2' & -> & Hl)|(n1 & Hn & ->)]; [by eapply I5|].
    by destruct n1 as [|? [|]].
Qed.

(** Every step is of one of the two kinds. *)
Lemma with_thread_lookup t k k0 s : threads s !! t = Some k0 → threads (with_thread t k s) !! t = Some k.
Proof. intros H. cbn. apply list_lookup_insert_eq. by eapply lookup_lt_Some. Qed.
Lemma with_thread_other t u k s : u ≠ t → threads (with_thread t k s) !! u = threads s !! u.
Proof. intros H. cbn. by apply list_lookup_insert_ne. Qed.

(** [quiet] steps that only replace the continuation of [t] *)
Lemma quiet_with t k k' es s s0 :
  threads s !! t = Some k → threads s0 = threads s → exiting s0 = exiting s →
  proc_log s0 = proc_log s ++ ((t,.) <$> es) → Forall not_exiting es →
  (∀ sig, handlersFor s0 sig = registered sig ((t,.) <$> es) (handlersFor s sig)) →
  (∀ h, Started h ∈ es → upcoming k ≠ []) → exit_code k' = exit_code k →
  (head k ≠ Some NextSignal ∨ exit_code k ≠ None → omap handler_call es ++ upcoming k' = upcoming k) →
  (NextSignal ∉ k → NextSignal ∉ k') →
  quiet t k s (with_thread t k' s0).
Proof.
  intros Hk Hth Hex Hlog Hes Hreg Hst Hc Hcalls Hns. constructor.
  - done.
  - exists es. split_and!; [done..|]. exists k'. rewrite calls_own. split_and!; [|done..].
    eapply with_thread_lookup. by rewrite Hth.
  - intros u ku Hu. rewrite with_thread_other, Hth by done. by left.
  - intros u ku Hu. by rewrite with_thread_other, Hth.
Qed.

Lemma handlersFor_set t sig sig' h s :
  handlersFor (SetSignalHandler t sig h s) sig' =
  registered sig' [(t, Registered sig h)] (handlersFor s sig').
Proof.
  unfold handlersFor at 1. cbn. case_bool_decide as Hs; [subst|].
  - by rewrite lookup_insert_eq.
  - by rewrite lookup_insert_ne.
Qed.

Lemma quiet_status t k es v s s0 :
  threads s !! t = Some k → threads s0 = threads s → exiting s0 = exiting s →
  proc_log s0 = proc_log s ++ ((t,.) <$> es) → Forall not_exiting es →
  (∀ sig, handlersFor s0 sig = registered sig ((t,.) <$> es) (handlersFor s sig)) →
  omap handler_call es = [] →
  quiet t k s (set_status v s0).
Proof.
  intros Hk Hth Hex Hlog Hes Hreg Hcalls. constructor; [done| |cbn; rewrite Hth; auto..].
  exists es. split_and!; [done..| |].
  - intros h Hh. assert (Started h ∈ omap handler_call es) as Hin; [|rewrite Hcalls in Hin; set_solver].
    apply list_elem_of_omap. by exists (Started h).
  - exists k. cbn. rewrite Hth, calls_own, Hcalls. done.
Qed.

Ltac quiet_side :=
  cbn; rewrite ?app_nil_r; try done; try (by repeat constructor); try set_solver.

Section steps.
Context (body : nat → list action).

(** what a step may be *)
Definition step_kind (t : nat) (k : list instr) (s s' : procState) : Prop :=
  quiet t k s s' ∨ ∃ sig c, exits_now t sig c k s s'.

Lemma Exit_kind t c k s :
  inv s → threads s !! t = Some (Do (CallExit c) :: k) →
  step_kind t (Do (CallExit c) :: k) s (Exit t c k s).
Proof.
  intros Hinv Ht. unfold Exit. destruct (exiting s) eqn:Hex.
  - left. apply (quiet_with _ _ _ []); cbn; rewrite ?app_nil_r; try done; set_solver.
  - right. exists Interrupt, c. constructor; cbn; [|by left|done..|].
    + destruct (exit_code k) as [c'|] eqn:Ek; [|done].
      destruct (inv_code s Hinv t _ c' Ht Ek) as [sig Hin].
      apply list_elem_of_split in Hin as (l1 & l2 & Hl).
      destruct (inv_exit s Hinv _ _ _ _ _ Hl). congruence.
    + eexists. split; [done|]. rewrite exit_code_Call, upcoming_Call. cbn.
      rewrite app_nil_r. split_and!; [done..|]. set_solver.
Qed.

Lemma handleSignal_kind t sig q k s :
  inv s → threads s !! t = Some (NextSignal :: k) →
  step_kind t (NextSignal :: k) s (handleSignal t sig q k s).
Proof.
  intros Hinv Ht. unfold handleSignal. destruct (ending sig) eqn:Hsig.
  - right. exists sig, 1. constructor; cbn; [done| |done..|].
    { right. split; [|done]. destruct (decide (t = 0%nat)) as [|Ht0]; [done|].
      destruct (inv_user s Hinv t _ Ht Ht0) as [Hn _]. set_solver. }
    eexists. split; [done|]. rewrite exit_code_Call, upcoming_Call. cbn.
    rewrite app_nil_r. split_and!; [done..|]. set_solver.
  - left. apply (quiet_with _ _ _ []); cbn; rewrite ?app_nil_r; try done; try set_solver.
    by rewrite exit_code_Call.
Qed.

Lemma Go_quiet t h k s :
  threads s !! t = Some (Do (Go h) :: k) → inv s →
  quiet t (Do (Go h) :: k) s (with_thread t k (add_thread (Do <$> body h) s)).
Proof.
  intros Ht Hinv. assert (t < length (threads s))%nat as Hlt by by eapply lookup_lt_Some.
  constructor; [done| | |].
  - exists []. rewrite app_nil_r. split_and!; [done..|set_solver|]. exists k. cbn.
    split_and!; [|set_solver..]. apply list_lookup_insert_eq. rewrite length_app. cbn. lia.
  - intros u k' Hu. rewrite with_thread_other by done. cbn. rewrite lookup_app_Some.
    intros [?|[Hlen Hl]]; [by left|]. right. split; [lia|]. exists (body h).
    destruct (u - length (threads s))%nat; [|done]. by injection Hl.
  - intros u k' Hu Hk'. rewrite with_thread_other by done. cbn. by apply lookup_app_l_Some.
Qed.

Lemma instr_step_kind t i k s s' :
  inv s → threads s !! t = Some (i :: k) → instr_step body t i k s = Some s' →
  step_kind t (i :: k) s s'.
Proof.
  intros Hinv Ht. destruct i as [a|h|h|code|]; cbn [instr_step].
  - destruct a as [w|c|h|sig h| | |h|]; intros Hs; try injection Hs as <-.
    + left. apply (quiet_with _ _ _ [Worked w]); quiet_side.
    + by apply Exit_kind.
    + left. apply (quiet_with _ _ _ [Registered Interrupt h; Registered SIGTERM h]); quiet_side.
      * by rewrite <-(assoc_L (++)).
      * intros sig. unfold SetExitHandler. by rewrite !handlersFor_set.
    + left. apply (quiet_with _ _ _ [Registered sig h]); quiet_side.
      intros sig'. by rewrite handlersFor_set.
    + left. apply (quiet_with _ _ _ []); quiet_side.
    + left. destruct (cancelled s); [|done]. injection Hs as <-.
      apply (quiet_with _ _ _ []); quiet_side.
    + left. by apply Go_quiet.
    + left. apply (quiet_status _ _ [MainReturned]); quiet_side.
  - intros [= <-]. left. apply (quiet_with _ _ _ [Started h]); quiet_side.
    + by rewrite exit_code_Do.
    + intros _. by rewrite upcoming_Do.
  - intros [= <-]. left. apply (quiet_with _ _ _ [Finished h]); quiet_side.
  - intros [= <-]. left. apply (quiet_status _ _ []); quiet_side.
  - destruct (notifier s) as [|sig q]; [done|]. intros [= <-]. by apply handleSignal_kind.
Qed.

Lemma inv_step s c : inv s → inv (proc_step body s c).
Proof.
  intros Hinv. unfold proc_step. destruct (proc_status s) eqn:Hst; [done|]. destruct c as [t|sig].
  - destruct (threads s !! t) as [[|i k]|] eqn:Ht; [done| |done].
    destruct (instr_step body t i k s) as [s'|] eqn:Hs; [|done]. cbn.
    destruct (instr_step_kind t i k s s' Hinv Ht Hs) as [Hq|(sig & c & He)].
    + by eapply inv_quiet.
    + by eapply inv_exits_now.
  - unfold arrive. destruct (_ <? _)%nat; [|done]. by destruct Hinv.
Qed.

(** *** How a process ends *)
Definition ended (s : procState) : Prop :=
  ∀ v, proc_status s = Some v →
    (v = 0 ∧ ∃ t, (t, MainReturned) ∈ proc_log s) ∨
    ∃ t sig l1 l2, proc_log s = l1 ++ (t, Exiting sig v) :: l2 ∧
      calls t l2 = sequence (registered sig l1 []).

Lemma ended_step s c : inv s → ended s → ended (proc_step body s c).
Proof.
  intros Hinv Hend. unfold proc_step. destruct (proc_status s) eqn:Hst; [done|].
  assert (∀ s', proc_status s' = None → ended s') as Hnone by by intros s' Hs' v; rewrite Hs'.
  destruct c as [t|sig]; [|apply Hnone; unfold arrive; by destruct (_ <? _)%nat].
  destruct (threads s !! t) as [[|i k]|] eqn:Ht; [by apply Hnone| |by apply Hnone].
  destruct (instr_step body t i k s) as [s'|] eqn:Hs; [|by apply Hnone]. cbn.
  destruct i as [[w|c|h|sig h| | |h|]|h|h|code|]; cbn [instr_step] in Hs; simplify_eq; try by apply Hnone.
  - apply Hnone. unfold Exit. by destruct (exiting s).
  - destruct (cancelled s); simplify_eq. by apply Hnone.
  - intros v [= <-]. left. split; [done|]. exists t. cbn. set_solver.
  - intros v [= <-]. right. destruct (inv_code s Hinv t _ code Ht eq_refl) as [sig Hin].
    apply list_elem_of_split in Hin as (l1 & l2 & Hl). exists t, sig, l1, l2. split; [done|].
    destruct (inv_exit s Hinv _ _ _ _ _ Hl) as (_ & k' & Hk' & _ & Hc). simplify_eq.
    by rewrite app_nil_r in Hc.
  - destruct (notifier s) as [|sig q]; simplify_eq. apply Hnone. unfold handleSignal. by destruct (ending sig).
Qed.

(** *** Which exits there can be

    One call of [Exit] that did not find another one, one ending signal, or the
    signal after the call. *)
Definition exits_shape (l : list (nat * os_Signal * Z)) : Prop :=
  l = [] ∨ (∃ t c, l = [(t, Interrupt, c)]) ∨
  (∃ sig, ending sig = true ∧ l = [(0%nat, sig, 1)]) ∨
  (∃ t c sig, t ≠ 0%nat ∧ ending sig = true ∧ l = [(t, Interrupt, c); (0%nat, sig, 1)]).

Lemma exits_in t sig c l : (t, sig, c) ∈ exits l ↔ (t, Exiting sig c) ∈ l.
Proof.
  unfold exits. rewrite list_elem_of_omap. split.
  - intros ([u []] & Hin & He); cbn in He; by simplify_eq.
  - intros Hin. by exists (t, Exiting sig c).
Qed.

Lemma exits_quiet t es : Forall not_exiting es → exits (((t : nat),.) <$> es) = [].
Proof. induction 1 as [|e es He _ IH]; [done|]. destruct e; try done; exact IH. Qed.

Lemma exits_shape_step s c :
  inv s → exits_shape (exits (proc_log s)) → exits_shape (exits (proc_log (proc_step body s c))).
Proof.
  intros Hinv Hsh. unfold proc_step. destruct (proc_status s); [done|].
  destruct c as [t|sig]; [|unfold arrive; by destruct (_ <? _)%nat].
  destruct (threads s !! t) as [[|i k]|] eqn:Ht; [done| |done].
  destruct (instr_step body t i k s) as [s'|] eqn:Hs; [|done]. cbn.
  destruct (instr_step_kind t i k s s' Hinv Ht Hs) as
    [[_ (es & -> & Hes & _) _ _]|(sig & c & [Hfresh Hhow _ -> _ _])];
    unfold exits in *; rewrite omap_app; fold (exits (proc_log s)) in *.
  { fold (exits ((t,.) <$> es)). rewrite exits_quiet, app_nil_r by done. done. }
  assert (∀ sig' c', (t, sig', c') ∉ exits (proc_log s)) as Hnew.
  { intros sig' c' Hin. apply exits_in, list_elem_of_split in Hin as (l1 & l2 & Hl).
    destruct (inv_exit s Hinv _ _ _ _ _ Hl) as (_ & k' & Hk' & Hc & _). simplify_eq. }
  destruct Hhow as [[Hex ->]|(-> & -> & Hsig)].
  - destruct (exits (proc_log s)) as [|[[u sig'] c'] l] eqn:El; [right; left; by exists t, c|].
    exfalso. assert ((u, Exiting sig' c') ∈ proc_log s) as Hin by (apply exits_in; rewrite El; left).
    apply list_elem_of_split in Hin as (l1 & l2 & Hl).
    destruct (inv_exit s Hinv _ _ _ _ _ Hl). congruence.
  - destruct Hsh as [->|[(u & c & Hl)|[(sig' & ? & Hl)|(u & c & sig' & ? & ? & Hl)]]].
    + right; right; left. by exists sig.
    + right; right; right. exists u, c, sig. rewrite Hl in *. split; [|done].
      intros ->. apply (Hnew Interrupt c). left.
    + exfalso. apply (Hnew sig' 1). rewrite Hl. left.
    + exfalso. apply (Hnew sig' 1). rewrite Hl. right; left.
Qed.

Lemma inv_start main : inv (proc_start main).
Proof.
  constructor; cbn; try done.
  - intros t sig c [|] l2; done.
  - intros [|[|t]] k c; cbn; intros [= <-]; [done|].
    rewrite <-(app_nil_r (Do <$> main)), exit_code_Do. done.
  - intros [|[|t]] k; cbn; [done| |done]. intros [= <-] _.
    rewrite <-(app_nil_r (Do <$> main)), upcoming_Do. split; [|done]. rewrite app_nil_r. set_solver.
  - intros t h [|] l2; done.
Qed.

Lemma run_invariants main cs :
  let s := proc_run body (proc_start main) cs in
  inv s ∧ ended s ∧ exits_shape (exits (proc_log s)).
Proof.
  cbn. unfold proc_run. induction cs as [|c cs IH] using rev_ind.
  - split; [apply inv_start|]. split; [done|by left].
  - rewrite foldl_app. destruct IH as (H1 & H2 & H3). cbn.
    split; [by apply inv_step|]. split; [by apply ended_step|by apply exits_shape_step].
Qed.
End steps.

Lemma registered_reverse sig l : registered sig l [] = reverse (registrations sig l).
Proof.
  enough (∀ acc, registered sig l acc = reverse (registrations sig l) ++ acc) as H
    by by rewrite H, app_nil_r.
  induction l as [|[t e] l IH]; intros acc; [done|]. unfold registrations in *.
  destruct e as [| |sig' h| | |]; cbn [registered omap list_omap registration snd]; rewrite ?IH; try done.
  case_bool_decide; [|done]. by rewrite reverse_cons, <-(assoc_L (++)).
Qed.

(** *** Nothing before the context is cancelled

    A program whose [main] waits for its context and returns, in which only the
    handler [hc] cancels that context, and which handles no other signals. *)
Lemma sequence_split e h es hs :
  e ++ Started h :: es = sequence hs → ∃ hs1 hs2, hs = hs1 ++ h :: hs2 ∧ e = sequence hs1.
Proof.
  revert e. induction hs as [|h' hs IH]; intros e; [by destruct e|].
  destruct e as [|e1 [|e2 e]]; cbn; intros [= ].
  - simplify_eq. by exists [], hs.
  - simplify_eq. destruct (IH e) as (hs1 & hs2 & -> & ->); [done|]. by exists (h' :: hs1), hs2.
Qed.

Section server_shape.
Context (body : nat → list action) (hc : nat).

Definition plain (a : action) : Prop :=
  match a with
  | CancelContext | ReturnFromMain | CallSetSignalHandler _ _ => False
  | Go h => h ≠ hc
  | _ => True
  end.

Context (Hbody : ∀ h, h ≠ hc → Forall plain (body h)) (Hhc : body hc = [CancelContext]).

Definition allowed (s : procState) (u : nat) (i : instr) : Prop :=
  match i with
  | Do a => plain a ∨ (a = CancelContext ∧ (u, Started hc) ∈ proc_log s)
  | _ => True
  end.

(** what the goroutines still do: [main] ends by waiting and returning *)
Definition shaped (s : procState) (u : nat) (k : list instr) : Prop :=
  ∃ pre tl, k = pre ++ tl ∧ Forall (allowed s u) pre ∧
    (tl = [] ∨ (u = 1%nat ∧ tl = [Do AwaitContext; Do ReturnFromMain]) ∨
     (u = 1%nat ∧ pre = [] ∧ tl = [Do ReturnFromMain] ∧ cancelled s = true)).

Record server_inv (s : procState) : Prop := mkServerInv {
  sv_other : ∀ n, registry s !! OtherSignal n = None;
  sv_shape : ∀ u k, threads s !! u = Some k → shaped s u k;
  sv_cancelled : cancelled s = true → ∃ t, (t, Started hc) ∈ proc_log s;
  sv_returned : ∀ t, (t, MainReturned) ∈ proc_log s → cancelled s = true;
}.

Lemma allowed_mono s s' u i :
  (∀ te, te ∈ proc_log s → te ∈ proc_log s') → allowed s u i → allowed s' u i.
Proof. intros Hlog. destruct i; cbn; naive_solver. Qed.

Lemma shaped_mono s s' u k :
  (∀ te, te ∈ proc_log s → te ∈ proc_log s') → (cancelled s = true → cancelled s' = true) →
  shaped s u k → shaped s' u k.
Proof.
  intros Hlog Hc (pre & tl & -> & Hpre & Htl). exists pre, tl. split; [done|]. split.
  - eapply Forall_impl; [done|]. intros i. by apply allowed_mono.
  - naive_solver.
Qed.

Lemma allowed_body s u h : (u, Started h) ∈ proc_log s → Forall (allowed s u) (Do <$> body h).
Proof.
  intros Hst. apply Forall_fmap. destruct (decide (h = hc)) as [->|Hne].
  - rewrite Hhc. constructor; [by right|constructor].
  - eapply Forall_impl; [by apply Hbody|]. intros a Ha. by left.
Qed.

(** an allowed step keeps the shape of the code *)
Record mild (t : nat) (i : instr) (k : list instr) (s s' : procState) : Prop := mkMild {
  mild_log : ∀ te, te ∈ proc_log s → te ∈ proc_log s';
  mild_cancel : cancelled s = true → cancelled s' = true;
  mild_self : threads s' !! t = Some (i :: k) ∨
    ∃ ins, threads s' !! t = Some (ins ++ k) ∧ Forall (allowed s' t) ins;
  mild_others : ∀ u ku, u ≠ t → threads s' !! u = Some ku →
    threads s !! u = Some ku ∨ (u ≠ 0%nat ∧ Forall (allowed s' u) ku);
  mild_cancelled : cancelled s' = true → cancelled s = true ∨ (t, Started hc) ∈ proc_log s;
  mild_returned : ∀ u, (u, MainReturned) ∈ proc_log s' → (u, MainReturned) ∈ proc_log s;
  mild_registry : ∀ n, registry s !! OtherSignal n = None → registry s' !! OtherSignal n = None;
}.

Lemma mild_with t i k ins s s0 :
  threads s !! t = Some (i :: k) → threads s0 = threads s →
  (∀ te, te ∈ proc_log s → te ∈ proc_log s0) → (cancelled s = true → cancelled s0 = true) →
  (cancelled s0 = true → cancelled s = true ∨ (t, Started hc) ∈ proc_log s) →
  (∀ u, (u, MainReturned) ∈ proc_log s0 → (u, MainReturned) ∈ proc_log s) →
  (∀ n, registry s !! OtherSignal n = None → registry s0 !! OtherSignal n = None) →
  Forall (allowed s0 t) ins →
  mild t i k s (with_thread t (ins ++ k) s0).
Proof.
  intros Ht Hth Hlog Hc Hc' Hret Hreg Hins. constructor; try done.
  - right. exists ins. split; [|done]. eapply with_thread_lookup. by rewrite Hth.
  - intros u ku Hu. rewrite with_thread_other, Hth by done. by left.
Qed.

Ltac mild_side := cbn; try done; try set_solver; try (by left); try (by intros ? ->).

Lemma allowed_step t i k s s' :
  threads s !! t = Some (i :: k) → allowed s t i →
  instr_step body t i k s = Some s' → mild t i k s s'.
Proof.
  intros Ht Hok Hs. destruct i as [[w|c|h|sig h| | |h|]|h|h|code|]; cbn [instr_step] in Hs; simplify_eq.
  all: try (destruct Hok as [Hok|[? Hok]]; simplify_eq; try done).
  - apply (mild_with t _ k []); mild_side.
  - unfold Exit. destruct (exiting s); [apply (mild_with t _ k []); mild_side|].
    rewrite (app_assoc _ [OsExit c] k). apply (mild_with t _ k); mild_side.
    apply Forall_app. split; [apply Forall_fmap, Forall_true|]; by repeat constructor.
  - apply (mild_with t _ k []); mild_side. intros n Hn. by rewrite !lookup_insert_ne.
  - apply (mild_with t _ k []); mild_side.
  - destruct (cancelled s) eqn:Hc; simplify_eq. apply (mild_with t _ k []); mild_side.
  - assert (t < length (threads s))%nat as Hlt by by eapply lookup_lt_Some.
    constructor; mild_side.
    + right. exists []. split; [|done]. cbn. apply list_lookup_insert_eq. rewrite length_app. lia.
    + intros u ku Hu. rewrite list_lookup_insert_ne by done. rewrite lookup_app_Some.
      intros [?|[Hlen Hl]]; [by left|]. right. split; [lia|].
      destruct (u - length (threads s))%nat; [|done]. injection Hl as <-.
      apply Forall_fmap. eapply Forall_impl; [by apply Hbody|]. intros a Ha. by left.
  - rewrite (app_assoc _ [Returned h] k). apply (mild_with t _ k); mild_side.
    apply Forall_app. split; [|by repeat constructor]. apply allowed_body. cbn. set_solver.
  - apply (mild_with t _ k []); mild_side.
  - constructor; mild_side.
  - destruct (notifier s) as [|sig q]; simplify_eq. unfold handleSignal.
    rewrite (app_assoc (_ <$> _)), (app_assoc _ [NextSignal] k).
    destruct (ending sig); apply (mild_with t _ k); mild_side.
    all: repeat (apply Forall_app; split); try (by repeat constructor).
    all: by apply Forall_fmap, Forall_true.
Qed.

(** what the two kinds of steps mean for the signal goroutine *)
Definition sv_zero (s : procState) : Prop :=
  (∀ k, threads s !! 0%nat = Some k → upcoming k ≠ [] → exit_code k ≠ None) ∧
  (∀ h l1 l2, proc_log s = l1 ++ (0%nat, Started h) :: l2 → ∃ sig c, (0%nat, Exiting sig c) ∈ l1).

Lemma sv_zero_quiet t k s s' :
  inv s → threads s !! t = Some k → quiet t k s s' → head k ≠ Some NextSignal →
  sv_zero s → sv_zero s'.
Proof.
  intros Hinv Hk [_ (es & Hlog & Hes & _ & Hst & k' & Hk' & Hc & Hcalls & _) Hoth _] Hhd [Z1 Z2]. split.
  - intros k0 Hk0 Hup. destruct (decide (t = 0%nat)) as [->|Hne].
    + simplify_eq. rewrite Hc. apply (Z1 k Hk). rewrite <-Hcalls by auto.
      by destruct (calls _ _).
    + destruct (Hoth 0%nat k0) as [?|[]]; [done|done| |done]. by apply Z1.
  - intros h l1 l2 Hl. rewrite Hlog in Hl.
    apply log_snoc_split in Hl as [(l2' & -> & Hl)|(n1 & Hn & ->)]; [by eapply Z2|].
    assert ((0%nat, Started h) ∈ ((t,.) <$> es)) as (e & [= <- <-] & He)%list_elem_of_fmap
      by (rewrite Hn; set_solver).
    destruct (exit_code k) as [c|] eqn:Ek; [|exfalso; apply (Z1 k Hk); [by eapply Hst|done]].
    destruct (inv_code s Hinv 0%nat k c Hk Ek) as [sig ?]. exists sig, c. set_solver.
Qed.

Lemma sv_zero_exits t sig c k s s' :
  threads s !! t = Some k → exits_now t sig c k s s' → sv_zero s → sv_zero s'.
Proof.
  intros Hk [_ _ _ Hlog _ (k' & Hth & Hc & _)] [Z1 Z2]. split.
  - intros k0. rewrite Hth. destruct (decide (t = 0%nat)) as [->|Hne].
    + rewrite list_lookup_insert_eq by by eapply lookup_lt_Some. intros [= <-] _. by rewrite Hc.
    + rewrite list_lookup_insert_ne by done. apply Z1.
  - intros h l1 l2 Hl. rewrite Hlog in Hl.
    apply log_snoc_split in Hl as [(l2' & -> & Hl)|(n1 & Hn & ->)]; [by eapply Z2|].
    by destruct n1 as [|? [|]].
Qed.

Lemma server_inv_instr t i k s s' :
  threads s !! t = Some (i :: k) → instr_step body t i k s = Some s' → server_inv s → server_inv s'.
Proof.
  intros Ht Hs [S1 S2 S3 S4]. destruct (S2 t _ Ht) as (pre & tl & Hk & Hpre & Htl).
  destruct pre as [|i' pre].
  - cbn in Hk. subst tl. destruct Htl as [Htl|[(-> & Htl)|(-> & _ & Htl & Hc)]]; [done|injection Htl as -> ->..]; cbn in Hs.
    + destruct (cancelled s) eqn:Hc in Hs; [|done]. injection Hs as <-. constructor; cbn; [done| |done..].
      intros u k. destruct (decide (u = 1%nat)) as [->|Hu].
      * rewrite list_lookup_insert_eq by by eapply lookup_lt_Some. intros [= <-].
        exists [], [Do ReturnFromMain]. naive_solver.
      * rewrite list_lookup_insert_ne by done. intros Hk.
        by apply (shaped_mono s); [| |by apply S2].
    + injection Hs as <-. constructor; cbn; [done| | |done].
      * intros u k Hk. apply (shaped_mono s); [set_solver|done|by apply S2].
      * intros _. destruct (S3 Hc) as [u Hu]. exists u. set_solver.
  - cbn in Hk. injection Hk as <- ->. apply Forall_cons in Hpre as [Hi Hpre].
    destruct (allowed_step t i _ s s' Ht Hi Hs) as [M1 M2 M3 M4 M5 M6 M7]. constructor.
    + auto.
    + intros u ku Hku. destruct (decide (u = t)) as [->|Hu].
      * destruct M3 as [M3|(ins & M3 & Hins)]; simplify_eq.
        { by apply (shaped_mono s); [| |by apply S2]. }
        exists (ins ++ pre), tl. rewrite (assoc_L (++)). split; [done|]. split; [|naive_solver].
        apply Forall_app. split; [done|]. eapply Forall_impl; [done|]. intros j. by apply allowed_mono.
      * destruct (M4 u ku Hu Hku) as [Hold|[_ Hall]].
        { by apply (shaped_mono s); [| |by apply S2]. }
        exists ku, []. rewrite app_nil_r. auto.
    + intros Hc. destruct (M5 Hc) as [Hc'|Hst]; [|by exists t; auto].
      destruct (S3 Hc') as [u Hu]. exists u. auto.
    + intros u Hu. apply M2, (S4 u). by apply M6.
Qed.

Lemma sv_zero_signal t sig q k s :
  inv s → threads s !! t = Some (NextSignal :: k) → (∀ n, registry s !! OtherSignal n = None) →
  sv_zero s → sv_zero (handleSignal t sig q k s).
Proof.
  intros Hinv Ht Hreg Hz. destruct (ending sig) eqn:Hsig.
  - destruct (handleSignal_kind body t sig q k s Hinv Ht) as [Hq|(sig' & c & He)]; [|by eapply sv_zero_exits].
    apply quiet_log in Hq as (es & _ & _ & _ & _ & k' & Hk' & Hc & _). exfalso. revert Hk'.
    unfold handleSignal. rewrite Hsig. cbn.
    rewrite list_lookup_insert_eq by by eapply lookup_lt_Some. intros [= <-].
    by rewrite exit_code_Call in Hc.
  - unfold handleSignal. rewrite Hsig. destruct sig as [| |n]; try done.
    unfold handlersFor, set_notifier, with_thread, clone. cbn. rewrite Hreg. cbn.
    rewrite list_insert_id by done. by destruct s, Hz.
Qed.

Lemma server_inv_step s c :
  inv s → server_inv s → sv_zero s → server_inv (proc_step body s c) ∧ sv_zero (proc_step body s c).
Proof.
  intros Hinv Hsv Hz. unfold proc_step. destruct (proc_status s) eqn:Hst; [done|].
  destruct c as [t|sig].
  2: { unfold arrive. destruct (_ <? _)%nat; [|done]. split; [|by destruct Hz].
       destruct Hsv as [S1 S2 S3 S4]. by constructor. }
  destruct (threads s !! t) as [[|i k]|] eqn:Ht; [done| |done].
  destruct (instr_step body t i k s) as [s'|] eqn:Hs; [|done]. cbn. split.
  - by eapply server_inv_instr.
  - destruct (decide (i = NextSignal)) as [->|Hi].
    + cbn in Hs. destruct (notifier s); simplify_eq. apply sv_zero_signal; try done. apply Hsv.
    + destruct (instr_step_kind body t i k s s' Hinv Ht Hs) as [Hq|(sig & c & He)].
      * eapply sv_zero_quiet; try done. cbn. congruence.
      * by eapply sv_zero_exits.
Qed.

Context (m : list action) (Hm : Forall plain m).

Lemma server_invariants cs :
  let s := proc_run body (proc_start (m ++ [AwaitContext; ReturnFromMain])) cs in
  inv s ∧ server_inv s ∧ sv_zero s.
Proof.
  cbn. unfold proc_run. induction cs as [|c cs IH] using rev_ind.
  - split; [by apply inv_start|]. split; [constructor|split]; try done; cbn.
    + intros [|[|u]] k; cbn; [intros [= <-]..|done].
      * exists [NextSignal], []. split_and!; [done| |by left]. by repeat constructor.
      * exists (Do <$> m), [Do AwaitContext; Do ReturnFromMain]. rewrite fmap_app.
        split_and!; [done| |by right; left]. apply Forall_fmap. eapply Forall_impl; [done|]. by left.
    + intros t. set_solver.
    + by intros k [= <-].
    + intros h [|] l2; done.
  - rewrite foldl_app. destruct IH as (H1 & H2 & H3). cbn.
    split; [by apply inv_step|]. by apply server_inv_step.
Qed.

(** The exit in whose course the context was cancelled has called every handler
    registered after the one that cancels. *)
Lemma main_return_after_handlers cs t :
  let s := proc_run body (proc_start (m ++ [AwaitContext; ReturnFromMain])) cs in
  (t, MainReturned) ∈ proc_log s →
  ∃ u sig c l1 l2 hs1 hs2, proc_log s = l1 ++ (u, Exiting sig c) :: l2 ∧
    registered sig l1 [] = hs1 ++ hc :: hs2 ∧ sequence hs1 ++ [Started hc] `prefix_of` calls u l2.
Proof.
  intros s Hret. destruct (server_invariants cs) as (Hinv & Hsv & _ & Hz). fold s in Hinv, Hsv, Hz.
  destruct (sv_cancelled s Hsv (sv_returned s Hsv t Hret)) as [u Hu].
  apply list_elem_of_split in Hu as (l1 & l2 & Hl).
  assert (∃ sig c, (u, Exiting sig c) ∈ l1) as (sig & c & Hex).
  { destruct (decide (u = 0%nat)) as [->|Hu]; [by eapply Hz|by eapply (inv_started s Hinv)]. }
  apply list_elem_of_split in Hex as (l0 & l1' & ->). rewrite <-(assoc_L (++)) in Hl. cbn in Hl.
  destruct (inv_exit s Hinv _ _ _ _ _ Hl) as (_ & k & _ & _ & Hcalls).
  rewrite calls_app in Hcalls. unfold calls in Hcalls at 2. cbn [omap list_omap] in Hcalls.
  unfold handler_event at 1 in Hcalls. cbn [fst snd handler_call] in Hcalls.
  rewrite bool_decide_eq_true_2 in Hcalls by done. fold (calls u l2) in Hcalls.
  rewrite <-(assoc_L (++)) in Hcalls. cbn in Hcalls.
  apply sequence_split in Hcalls as (hs1 & hs2 & Hhs & Hpre).
  exists u, sig, c, l0, (l1' ++ (u, Started hc) :: l2), hs1, hs2.
  split; [done|]. split; [done|]. rewrite calls_app, Hpre. unfold calls at 1. cbn [omap list_omap].
  unfold handler_event at 1. cbn [fst snd handler_call]. rewrite bool_decide_eq_true_2 by done.
  apply prefix_app, prefix_cons, prefix_nil.
Qed.
End server_shape.
