(* ===== verification/ShutdownMain.v ===== *)
(** * Shutting down: theorems

    The order of exit handlers in every interleaving, the server's own handlers
    from [src/cmd/server/server.go], [src/log/log.go], [src/trace/trace.go] and
    the packages that open databases, and the ways the server can end. *)
From S2P Require Import Prelude Shutdown.
Local Open Scope Z_scope.

#[export] Instance event_eq_dec : EqDecision event.
Proof. solve_decision. Defined.

(** In every interleaving of goroutines and signals at most one call of Exit
    and one ending signal take effect, the call first; each of them calls the
    handlers registered so far one after another in reverse order of their
    registration; no goroutine but the one for signals calls a handler otherwise;
    and the process ends only when one of them has called all its handlers, with
    its status code, or when main returns. *)
Theorem exit_handlers_in_reverse body main cs :
  let s := proc_run body (proc_start main) cs in
  exits_shape (exits (proc_log s)) ∧
  (∀ t sig c l1 l2, proc_log s = l1 ++ (t, Exiting sig c) :: l2 →
     calls t l2 `prefix_of` sequence (reverse (registrations sig l1))) ∧
  (∀ t h l1 l2, proc_log s = l1 ++ (t, Started h) :: l2 → t ≠ 0%nat →
     ∃ sig c, (t, Exiting sig c) ∈ l1) ∧
  (∀ v, proc_status s = Some v →
     (v = 0 ∧ ∃ t, (t, MainReturned) ∈ proc_log s) ∨
     ∃ t sig l1 l2, proc_log s = l1 ++ (t, Exiting sig v) :: l2 ∧
       calls t l2 = sequence (reverse (registrations sig l1))).
Proof.
  intros s. destruct (run_invariants body main cs) as (Hinv & Hend & Hsh). fold s in Hinv, Hend, Hsh.
  split; [done|]. split_and!.
  - intros t sig c l1 l2 Hl. destruct (inv_exit s Hinv _ _ _ _ _ Hl) as (_ & k & _ & _ & Hc).
    rewrite <-registered_reverse, <-Hc. by apply prefix_app_r.
  - apply Hinv.
  - intros v Hv. destruct (Hend v Hv) as [?|(t & sig & l1 & l2 & Hl & Hc)]; [by left|].
    right. exists t, sig, l1, l2. by rewrite <-registered_reverse.
Qed.

(** ** An exit completes *)
Section completes.
Context (body : nat → list action).

(** code that neither waits nor ends the process in another way *)
Definition returns (a : action) : Prop := a ≠ AwaitContext ∧ a ≠ ReturnFromMain.

Definition instr_returns (i : instr) : Prop :=
  match i with
  | Do a => returns a
  | Call h => Forall returns (body h)
  | Returned _ => True
  | OsExit _ | NextSignal => False
  end.

Definition instr_size (i : instr) : nat :=
  match i with Call h => (2 + length (body h))%nat | _ => 1%nat end.
Definition code_size (k : list instr) : nat := sum_list_with instr_size k.

Lemma code_size_Do l : code_size (Do <$> l) = length l.
Proof. induction l as [|a l IH]; [done|]. unfold code_size in *. rewrite fmap_cons. cbn. by rewrite IH. Qed.

(** a step of an exiting goroutine that is not [os.Exit] shortens its code *)
Lemma returning_step t i k s :
  threads s !! t = Some (i :: k) → instr_returns i → exiting s = true → proc_status s = None →
  ∃ ins, let s' := proc_step body s (Schedule t) in
    threads s' !! t = Some (ins ++ k) ∧ exiting s' = true ∧ proc_status s' = None ∧
    Forall instr_returns ins ∧ (code_size ins < instr_size i)%nat.
Proof.
  intros Ht Hi Hex Hst. unfold proc_step. rewrite Hst, Ht.
  assert (t < length (threads s))%nat as Hlt by by eapply lookup_lt_Some.
  destruct i as [a|h|h|code|]; cbn in Hi; [|..|done|done].
  - exists []. destruct Hi as [H1 H2]. unfold code_size.
    destruct a as [w|c|h|sig h| | |h|]; cbn; try done; unfold Exit; rewrite ?Hex; cbn.
    all: split_and!; try done; try lia; apply list_lookup_insert_eq; rewrite ?length_app; lia.
  - exists ((Do <$> body h) ++ [Returned h]). cbn. rewrite <-(assoc_L (++)).
    split_and!; [by apply list_lookup_insert_eq|done..| |].
    + apply Forall_app. split; [by apply Forall_fmap|by repeat constructor].
    + unfold code_size. rewrite sum_list_with_app. fold (code_size (Do <$> body h)).
      rewrite code_size_Do. cbn. lia.
  - exists []. unfold code_size. cbn. split_and!; try done; [by apply list_lookup_insert_eq|lia].
Qed.

Lemma exiting_thread_ends n t pre c k s :
  (code_size pre ≤ n)%nat → threads s !! t = Some (pre ++ OsExit c :: k) →
  Forall instr_returns pre → exiting s = true → proc_status s = None →
  ∃ m, proc_status (proc_run body s (replicate m (Schedule t))) = Some c.
Proof.
  revert pre s. induction n as [n IH] using lt_wf_ind. intros pre s Hn Ht Hpre Hex Hst.
  destruct pre as [|i pre].
  - exists 1%nat. cbn in Ht |- *. unfold proc_step. rewrite Hst, Ht. done.
  - apply Forall_cons in Hpre as [Hi Hpre].
    destruct (returning_step t i (pre ++ OsExit c :: k) s Ht Hi Hex Hst) as (ins & Ht' & Hex' & Hst' & Hins & Hlt).
    unfold code_size in Hn. cbn in Hn. fold (code_size pre) in Hn. rewrite (assoc_L (++)) in Ht'.
    destruct (IH (code_size (ins ++ pre)) ) with (pre := ins ++ pre) (s := proc_step body s (Schedule t)) as [m Hm]; auto.
    + unfold code_size. rewrite sum_list_with_app. fold (code_size pre) (code_size ins). lia.
    + by apply Forall_app.
    + by exists (S m).
Qed.
End completes.

(** A call of Exit by a process that is not exiting yet ends the process with
    its status code once its goroutine is given enough steps, whatever the
    handlers do, nested calls of Exit and Fatalf included, as long as they
    return. *)
Theorem exit_completes body t c k s :
  threads s !! t = Some (Do (CallExit c) :: k) → exiting s = false → proc_status s = None →
  (∀ h, h ∈ handlersFor s Interrupt → Forall returns (body h)) →
  ∃ n, proc_status (proc_run body s (replicate n (Schedule t))) = Some c.
Proof.
  intros Ht Hex Hst Hh.
  assert (proc_step body s (Schedule t) = Exit t c k s) as Hstep by (unfold proc_step; by rewrite Hst, Ht).
  destruct (exiting_thread_ends body (code_size body (Call <$> handlersFor s Interrupt)) t
    (Call <$> handlersFor s Interrupt) c k (Exit t c k s)) as [m Hm]; try done.
  - unfold Exit. rewrite Hex. cbn. apply list_lookup_insert_eq. by eapply lookup_lt_Some.
  - apply Forall_fmap, Forall_forall. exact Hh.
  - unfold Exit. by rewrite Hex.
  - unfold Exit. by rewrite Hex.
  - exists (S m). cbn. by rewrite Hstep.
Qed.

(** ** The server *)

(** [log.Fatalf] *)
Definition Fatalf (msg : string) : list action := [Work msg; CallExit 1].

(** The handlers and goroutines of the server. *)
Definition hSync : nat := 0.
Definition hCancel : nat := 1.
Definition hTracer : nat := 2.
Definition hMeter : nat := 3.
Definition hIndex : nat := 4.
Definition hIndexer : nat := 5.
Definition hConsensus : nat := 6.
Definition hFollower : nat := 7.
Definition hHTTP : nat := 8.
Definition gServe : nat := 9.
Definition gIndexBlocks : nat := 10.
Definition gFollow : nat := 11.
Definition gValidateBalances : nat := 12.
Definition gValidateFees : nat := 13.
Definition gWorker : nat := 14.
Definition hCache (n : nat) : nat := (20 + n)%nat.

(** What the environment decides: which calls fail, and what the longer
    functions and the background goroutines do, as far as it concerns the
    process: work and fatal errors. *)
Record settings := mkSettings {
  st_endpoint : bool;
  st_resourceErr : bool; st_exporterErr : bool; st_metricErr : bool;
  st_tracerErr : bool; st_meterErr : bool;
  st_caches : list bool;
  st_configErr : bool;
  st_indexErr : bool;
  st_export : bool;
  st_offline : bool;
  st_store : list (string + string); st_storeReady : bool;
  st_setup : list (string + string);
  st_workers : option nat;
  st_follower : bool;
  st_rootState : list (string + string); st_joining : list (string + string);
  st_consensusErr : bool; st_followerErr : bool;
  st_asserterErr : bool;
  st_listenErr : bool;
  st_background : nat → list (string + string);
}.

Definition background (w : string + string) : list action :=
  match w with inl what => [Work what] | inr msg => Fatalf msg end.

Section server.
Context (st : settings).

Definition fatalIf (err : bool) (msg : string) : list action := if err then Fatalf msg else [].

(** the handler that [log.init] registers *)
Definition logInit : list action := [CallSetExitHandler hSync].

(** [trace.Init] *)
Definition traceInit : list action :=
  if negb (st_endpoint st) then []
  else fatalIf (st_resourceErr st) "Failed to create OpenTelemetry resource"
    ++ fatalIf (st_exporterErr st) "Failed to create OTLP trace exporter"
    ++ [CallSetExitHandler hTracer]
    ++ fatalIf (st_metricErr st) "Failed to create OTLP metric exporter"
    ++ [CallSetExitHandler hMeter].

(** [cache.New] for every spork with a cache, as [config.Init] calls it *)
Definition cacheNew (n : nat) (err : bool) : list action :=
  fatalIf err "Failed to open the cache database" ++ [CallSetExitHandler (hCache n)].
Definition configInit : list action :=
  mjoin (imap cacheNew (st_caches st)) ++ fatalIf (st_configErr st) "invalid configuration".

(** [indexdb.New] *)
Definition indexNew : list action :=
  fatalIf (st_indexErr st) "Failed to open the index database" ++ [CallSetExitHandler hIndex].

(** [Indexer.runConsensusFollower] *)
Definition consensusFollower : list action :=
  (st_rootState st ≫= background)
  ++ fatalIf (st_consensusErr st) "Failed to open consensus database" ++ [CallSetExitHandler hConsensus]
  ++ (st_joining st ≫= background)
  ++ fatalIf (st_followerErr st) "Failed to create the consensus follower"
  ++ [CallSetExitHandler hFollower; Go gFollow].

(** [Indexer.initWorkers]: with a cache, the workers and the scheduler *)
Definition initWorkersRun : list action :=
  match st_workers st with None => [] | Some n => replicate (S n) (Go gWorker) end.

(** [Indexer.Run] *)
Definition indexerRun : list action :=
  CallSetExitHandler hIndexer :: (st_store st ≫= background)
  ++ (if st_storeReady st
      then (st_setup st ≫= background) ++ initWorkersRun
           ++ (if st_follower st then consensusFollower else []) ++ [Go gIndexBlocks]
      else []).

(** [Server.Run] *)
Definition serverRun : list action :=
  [Go gValidateBalances; Go gValidateFees]
  ++ fatalIf (st_asserterErr st) "Failed to instantiate the Rosetta asserter" ++ [Go gServe].

(** [main] *)
Definition serverMain : list action :=
  CallSetExitHandler hCancel :: traceInit ++ configInit ++ indexNew
  ++ (if st_export st then [Work "export"; CallExit 0] else [])
  ++ (if st_offline st then [] else indexerRun) ++ serverRun.

Definition serverBody (h : nat) : list action :=
  match h with
  | 0%nat => [Work "sync logs"]
  | 1%nat => [CancelContext]
  | 2%nat => if st_tracerErr st then Fatalf "Failed to stop tracer provider" else []
  | 3%nat => if st_meterErr st then Fatalf "Failed to stop meter provider" else []
  | 4%nat => [Work "Closing the index database"]
  | 5%nat => [Work "cancel indexer"]
  | 6%nat => [Work "Closing the consensus follower database"]
  | 7%nat => [Work "cancel follower"]
  | 8%nat => [Work "Shutting down Rosetta HTTP Server gracefully"]
  | 9%nat => CallSetExitHandler hHTTP :: fatalIf (st_listenErr st) "Rosetta HTTP Server failed"
  | 10%nat | 11%nat | 12%nat | 13%nat | 14%nat => st_background st h ≫= background
  | _ => [Work "Closing the cache database"]
  end.

Definition server_run (cs : list choice) : procState :=
  proc_run serverBody (proc_start ((logInit ++ serverMain) ++ [AwaitContext; ReturnFromMain])) cs.

Lemma check_plain err msg : Forall (plain hCancel) (fatalIf err msg).
Proof. destruct err; repeat constructor. Qed.

Lemma background_plain l : Forall (plain hCancel) (l ≫= background).
Proof. induction l as [|[] l IH]; [done|..]; repeat (constructor; [done|]); exact IH. Qed.

Lemma caches_plain n l : Forall (plain hCancel) (mjoin (imap (λ i, cacheNew (n + i)) l)).
Proof.
  revert n. induction l as [|err l IH]; intros n; [done|]. cbn. apply Forall_app. split.
  - apply Forall_app. split; [apply check_plain|by repeat constructor].
  - erewrite (imap_ext _ (λ i, cacheNew (S n + i))); [apply IH|]. intros i x _. cbn. by rewrite Nat.add_succ_r.
Qed.

Lemma serverBody_plain h : h ≠ hCancel → Forall (plain hCancel) (serverBody h).
Proof.
  intros Hh. destruct h as [|[|[|[|[|[|[|[|[|[|[|[|[|[|[|h]]]]]]]]]]]]]]]; cbn.
  all: try apply background_plain; try (by repeat constructor); try done.
  - destruct (st_tracerErr st); by repeat constructor.
  - destruct (st_meterErr st); by repeat constructor.
  - constructor; [done|]. apply check_plain.
Qed.

Lemma indexerRun_plain : Forall (plain hCancel) indexerRun.
Proof.
  unfold indexerRun, consensusFollower, initWorkersRun. constructor; [done|]. repeat case_match.
  all: rewrite ?Forall_app; split_and!; try apply background_plain; try apply check_plain.
  all: try (by repeat constructor). all: by apply Forall_replicate.
Qed.

Lemma serverMain_plain : Forall (plain hCancel) (logInit ++ serverMain).
Proof.
  unfold serverMain, traceInit, configInit, indexNew, serverRun.
  constructor; [done|]. constructor; [done|].
  rewrite !Forall_app. split_and!; try apply (caches_plain 0); try apply check_plain.
  all: repeat case_match; try apply indexerRun_plain; try done.
  all: rewrite ?Forall_app, ?Forall_cons, ?Forall_app; split_and!; try apply check_plain; try done.
  all: by repeat constructor.
Qed.

End server.

(** ** Runs *)
Module ShutdownDemo.
(** An online server with one cache whose block loop hits a fatal error. *)
Definition demo : settings :=
  mkSettings false false false false false false [false] false false false false [] true [] None
    false [] [] false false false false (λ g, if bool_decide (g = gIndexBlocks) then [inr "fatal"] else []).

(** [main] runs until it waits, then goroutine 2 (the block loop) fails; it calls
    the handlers up to the one that cancels the context. *)
Definition demo_startup : list choice := replicate 12 (Schedule 1).
Definition failing : list choice := demo_startup ++ replicate 13 (Schedule 2).


(** In that run the status code 1 of the fatal error is lost and the logs are not
    flushed: the handler that cancels the context runs before [hSync]. *)
Example exit_status_lost :
  let s := server_run demo (failing ++ replicate 3 (Schedule 1)) in
  proc_status s = Some 0 ∧ calls 2 (proc_log s) = sequence [hIndexer; hIndex; hCache 0] ++ [Started hCancel].
Proof. vm_compute. done. Qed.

(** A goroutine that calls Fatalf while another one exits goes on after it. *)
Example fatalf_returns :
  let body := λ h : nat, match h with 0%nat => [] | _ => Fatalf "second" ++ [Work "continues"] end in
  let s := proc_run body (proc_start [CallSetExitHandler 0; Go 1; CallExit 1])
    (replicate 3 (Schedule 1) ++ replicate 3 (Schedule 2)) in
  (2%nat, Worked "continues") ∈ proc_log s ∧ proc_status s = None.
Proof. split; [|vm_compute; done]. apply (bool_decide_eq_true_1 _). by vm_compute. Qed.

(** A signal during an exit calls every handler a second time. *)
Example signal_repeats_handlers :
  let s := proc_run (λ _, []) (proc_start [CallSetExitHandler 7; CallExit 1])
    (replicate 4 (Schedule 1) ++ Arrive Interrupt :: replicate 3 (Schedule 0)) in
  calls 1 (proc_log s) = sequence [7]%nat ∧ calls 0 (proc_log s) = sequence [7]%nat.
Proof. vm_compute. done. Qed.

(** The server's exit after a fatal error of the block loop. *)
Lemma exit_completes_witness :
  ∃ n, proc_status (proc_run (serverBody demo) (server_run demo (demo_startup ++ [Schedule 2]))
         (replicate n (Schedule 2))) = Some 1.
Proof.
  apply (exit_completes _ 2 1 []); [vm_compute; reflexivity..|].
  intros h Hh.
  assert (h ∈ [5; 4; 20; 1; 0]%nat) as Hin by exact Hh.
  repeat (apply elem_of_cons in Hin as [->|Hin]; [by repeat constructor|]). by apply not_elem_of_nil in Hin.
Defined.
End ShutdownDemo.
