(* ===== verification/Timeout.v ===== *)
(** * Contexts with extendable timeouts

    Model of [src/timeout/timeout.go]. A handler is a timer that cancels a
    context; [Copy] and [ReadAll] move data and put the timer off after each
    read. Readers and writers are parameters that change a state of their own. *)
From S2P Require Import Prelude Bytes.
Local Open Scope Z_scope.

Inductive io_err := EOF | ErrShortWrite | errInvalidWrite | OtherErr (msg : string).
#[export] Instance io_err_eq_dec : EqDecision io_err.
Proof. solve_decision. Defined.

(** ** [Handler]

    The duration of the handler, the current time, when the timer goes off (if
    it is running), and whether the context is done. *)
Record Handler := mkHandler {
  h_d : Z;
  h_now : Z;
  h_timer : option Z;
  h_done : bool;
}.

(** Time passes: a timer that goes off cancels the context. *)
Definition elapse (dt : Z) (h : Handler) : Handler :=
  let now := h_now h + dt in
  match h_timer h with
  | Some at_ => if at_ <=? now then mkHandler (h_d h) now None true
                else mkHandler (h_d h) now (Some at_) (h_done h)
  | None => mkHandler (h_d h) now None (h_done h)
  end.

(** The parent of the context is cancelled. *)
Definition parent_done (h : Handler) : Handler :=
  mkHandler (h_d h) (h_now h) (h_timer h) true.

(** [timer.Stop] reports whether the timer was running. *)
Definition timer_Stop (h : Handler) : bool * Handler :=
  match h_timer h with
  | Some _ => (true, mkHandler (h_d h) (h_now h) None (h_done h))
  | None => (false, h)
  end.

Definition timer_Reset (d : Z) (h : Handler) : Handler :=
  mkHandler (h_d h) (h_now h) (Some (h_now h + d)) (h_done h).

Definition Handler_New (now d : Z) (parent : bool) : Handler := mkHandler d now (Some (now + d)) parent.

Definition Handler_Cancel (h : Handler) : Handler :=
  let '(stopped, h) := timer_Stop h in
  if stopped then mkHandler (h_d h) (h_now h) (h_timer h) true else h.

Definition Handler_ExpireAfter (d : Z) (h : Handler) : Handler := timer_Reset d h.

Definition Handler_Reset (h : Handler) : Handler := timer_Reset (h_d h) h.

(** ** Readers and writers

    A read gives bytes, maybe an error, and takes some time; a write reports how
    many bytes it took and maybe an error, and takes some time. *)
Record read_result := mkRead { rd_data : bytes; rd_err : option io_err; rd_time : Z }.
Record write_result := mkWrite { wr_count : Z; wr_err : option io_err; wr_time : Z }.

Class Reader (R : Type) := Read : nat → R → read_result * R.
Class Writer (D : Type) := Write : bytes → D → write_result * D.
#[export] Hint Mode Reader ! : typeclass_instances.
#[export] Hint Mode Writer ! : typeclass_instances.

Definition defaultBuffer : nat := Z.to_nat (64 * 1024).

Section copy.
Context {R D : Type} `{!Reader R, !Writer D}.

(** one write of [Copy]: the count it adds and the error it ends with *)
Definition writeCount (nr : Z) (w : write_result) : Z * option io_err :=
  let '(nw, ew) :=
    if (wr_count w <? 0) || (nr <? wr_count w)
    then (0, match wr_err w with None => Some errInvalidWrite | Some _ => wr_err w end)
    else (wr_count w, wr_err w) in
  (nw, match ew with
       | Some _ => ew
       | None => if bool_decide (nr = nw) then None else Some ErrShortWrite
       end).

Definition copyChunk (data : bytes) (h : Handler) (dst : D) : Z * option io_err * Handler * D :=
  let nr := Z.of_nat (length data) in
  if 0 <? nr then
    let '(w, dst) := Write data dst in
    let '(nw, ew) := writeCount nr w in
    (nw, ew, elapse (wr_time w) h, dst)
  else (0, None, h, dst).

Fixpoint copyLoop (fuel size : nat) (d : Z) (h : Handler) (dst : D) (src : R) (written : Z)
    : option (Z * option io_err * Handler * D * R) :=
  match fuel with
  | O => None
  | S fuel =>
      let '(r, src) := Read size src in
      let h := elapse (rd_time r) h in
      let h := if bool_decide (rd_err r = None) then Handler_ExpireAfter d h else h in
      let '(nw, ew, h, dst) := copyChunk (rd_data r) h dst in
      let written := s64 (written + nw) in
      match ew with
      | Some _ => Some (written, ew, h, dst, src)
      | None =>
          match rd_err r with
          | Some er => Some (written, if bool_decide (er = EOF) then None else Some er, h, dst, src)
          | None => copyLoop fuel size d h dst src written
          end
      end
  end.

Definition Handler_Copy (fuel : nat) (h : Handler) (dst : D) (src : R) (buf : option nat) (d : Z)
    : option (Z * option io_err * Handler * D * R) :=
  copyLoop fuel (default defaultBuffer buf) d h dst src 0.

(** [ReadAll]: the buffer has a length and a capacity; [append] grows a full one
    by an amount the runtime chooses. *)
Context (grow : nat → nat).

Fixpoint readLoop (fuel cap : nat) (d : Z) (h : Handler) (r : R) (buf : bytes)
    : option (bytes * option io_err * Handler * R) :=
  match fuel with
  | O => None
  | S fuel =>
      let cap := if bool_decide (length buf = cap) then grow cap else cap in
      let '(res, r) := Read (cap - length buf) r in
      let h := elapse (rd_time res) h in
      let buf := buf ++ rd_data res in
      match rd_err res with
      | Some err => Some (buf, if bool_decide (err = EOF) then None else Some err, h, r)
      | None => readLoop fuel cap d (Handler_ExpireAfter d h) r buf
      end
  end.

Definition Handler_ReadAll (fuel : nat) (h : Handler) (r : R) (buf : option nat) (d : Z)
    : option (bytes * option io_err * Handler * R) :=
  readLoop fuel (default defaultBuffer buf) d h r [].
End copy.

(** ** What a stream delivers

    [delivers d n src data]: at most [n] reads, of any size, give the bytes
    [data] and then the end of the stream, each within less than [d]. *)
Fixpoint delivers {R} `{!Reader R} (d : Z) (n : nat) (src : R) (data : bytes) : Prop :=
  match n with
  | O => False
  | S n => ∀ size, (0 < size)%nat →
      let '(r, src') := Read size src in
      0 ≤ rd_time r < d ∧ (length (rd_data r) ≤ size)%nat ∧
      match rd_err r with
      | Some EOF => data = rd_data r
      | Some _ => False
      | None => ∃ data', data = rd_data r ++ data' ∧ delivers d n src' data'
      end
  end.

Lemma delivers_weaken {R} `{!Reader R} d d' n (src : R) data :
  d ≤ d' → delivers d n src data → delivers d' n src data.
Proof.
  intros Hd. revert src data. induction n as [|n IH]; intros src data; [done|]. cbn. intros Hdel size Hsize.
  specialize (Hdel size Hsize). destruct (Read size src) as [r src']. destruct Hdel as (Ht & Hl & Hdel).
  split; [lia|]. split; [done|]. destruct (rd_err r) as [er|]; [done|]. naive_solver.
Qed.

(** The context has not timed out and will not for [d]. *)
Definition alive (d : Z) (h : Handler) : Prop :=
  h_done h = false ∧ ∃ at_, h_timer h = Some at_ ∧ h_now h + d ≤ at_.

(** The documented contract of a writer with contents: it takes a prefix of what
    it is given, and without an error all of it; a write takes at most [slow]. *)
Class WriterLaws (D : Type) `{!Writer D} (contents : D → bytes) (slow : Z) : Prop := {
  Write_prefix : ∀ data (dst : D), let '(w, dst') := Write data dst in
    0 ≤ wr_count w ≤ Z.of_nat (length data) ∧
    contents dst' = contents dst ++ take (Z.to_nat (wr_count w)) data ∧
    (wr_err w = None → wr_count w = Z.of_nat (length data));
  Write_time : ∀ data (dst : D), 0 ≤ wr_time (Write data dst).1 ≤ slow;
}.

Lemma elapse_done dt d h : 0 ≤ dt < d → alive d h → h_done (elapse dt h) = false.
Proof.
  intros Hdt (Hd & at_ & Hat & Hle). unfold elapse. rewrite Hat.
  destruct (Z.leb_spec at_ (h_now h + dt)); [lia|]. done.
Qed.

Lemma expire_alive d h : h_done h = false → alive d (Handler_ExpireAfter d h).
Proof. intros Hd. split; [done|]. eexists. split; [done|]. cbn. lia. Qed.

Lemma elapse_alive dt slow d h : 0 ≤ dt ≤ slow → slow < d → alive d h → alive (d - slow) (elapse dt h).
Proof.
  intros Hdt Hs (Hf & at_ & Hat & Hle). unfold alive, elapse. rewrite Hat.
  destruct (Z.leb_spec at_ (h_now h + dt)); [lia|]. cbn. split; [done|]. exists at_. split; [done|lia].
Qed.

(** ** The timer *)

(** What can happen to a handler. *)
Inductive handler_step : Handler → Handler → Prop :=
  | step_elapse dt h : 0 ≤ dt → handler_step h (elapse dt h)
  | step_parent h : handler_step h (parent_done h)
  | step_cancel h : handler_step h (Handler_Cancel h)
  | step_expire d h : handler_step h (Handler_ExpireAfter d h)
  | step_reset h : handler_step h (Handler_Reset h).

Definition guarded (h : Handler) : Prop := h_timer h = None → h_done h = true.

Lemma guarded_step h h' : guarded h → handler_step h h' → guarded h'.
Proof.
  unfold guarded. intros Hg Hs. destruct Hs as [dt h _|h|h|d h|h]; cbn; try done.
  - unfold elapse. destruct (h_timer h) as [at_|]; [|by auto]. by destruct (at_ <=? _).
  - unfold Handler_Cancel, timer_Stop. destruct (h_timer h) as [at_|] eqn:E; cbn; [done|]. by rewrite E.
Qed.

Lemma guarded_run h h' : rtc handler_step h h' → guarded h → guarded h'.
Proof. induction 1 as [|h1 h2 h3 Hs _ IH]; [done|]. intros Hg. by eapply IH, guarded_step. Qed.

Lemma done_step h h' : handler_step h h' → h_done h = true → h_done h' = true.
Proof.
  intros Hs. destruct Hs as [dt h _|h|h|d h|h]; cbn; try done.
  - unfold elapse. destruct (h_timer h) as [at_|]; [|done]. by destruct (at_ <=? _).
  - unfold Handler_Cancel, timer_Stop. by destruct (h_timer h).
Qed.

(** Whatever happens to a context with a timeout, it is done after Cancel,
    and a context that is done stays so. *)
Theorem cancel_is_final now d parent h h' :
  rtc handler_step (Handler_New now d parent) h → rtc handler_step (Handler_Cancel h) h' → h_done h' = true.
Proof.
  intros Hrun Hrun'. assert (h_done (Handler_Cancel h) = true) as Hd.
  { apply guarded_run in Hrun; [|done]. unfold Handler_Cancel, timer_Stop.
    destruct (h_timer h) eqn:E; cbn; [done|by apply Hrun]. }
  revert Hd. induction Hrun' as [|h1 h2 h3 Hs _ IH]; [done|]. intros Hd. by eapply IH, done_step.
Qed.

(** ** The loops *)
Section loops.
Context {R D : Type} `{!Reader R, !Writer D}.
Context (contents : D → bytes) (slow : Z) `{!WriterLaws D contents slow}.

(** what a lawful write adds *)
Lemma writeCount_lawful data (dst : D) :
  let '(w, dst') := Write data dst in
  let '(nw, ew) := writeCount (Z.of_nat (length data)) w in
  0 ≤ nw ≤ Z.of_nat (length data) ∧ contents dst' = contents dst ++ take (Z.to_nat nw) data ∧
  (ew = None → nw = Z.of_nat (length data)).
Proof.
  pose proof (Write_prefix data dst) as Hw. destruct (Write data dst) as [w dst'].
  destruct Hw as (Hr & Hc & He). unfold writeCount.
  destruct (Z.ltb_spec (wr_count w) 0); [lia|].
  destruct (Z.ltb_spec (Z.of_nat (length data)) (wr_count w)); [lia|]. cbn.
  split; [done|]. split; [done|]. destruct (wr_err w); [done|]. by case_bool_decide.
Qed.

Lemma copyChunk_lawful data d h (dst : D) :
  let '(nw, ew, h', dst') := copyChunk data h dst in
  0 ≤ nw ≤ Z.of_nat (length data) ∧ contents dst' = contents dst ++ take (Z.to_nat nw) data ∧
  (ew = None → nw = Z.of_nat (length data)) ∧
  (slow < d → alive d h → alive (d - slow) h').
Proof.
  unfold copyChunk. pose proof (Write_time data dst) as Ht. destruct (Z.ltb_spec 0 (Z.of_nat (length data))).
  - pose proof (writeCount_lawful data dst) as Hw. destruct (Write data dst) as [w dst'].
    destruct (writeCount _ w) as [nw ew]. destruct Hw as (H1 & H2 & H3). split_and!; try done; try lia.
    intros Hs. by apply elapse_alive.
  - cbn. destruct data; [|cbn in *; lia]. rewrite app_nil_r. split_and!; try done.
    intros Hs (Hd & at_ & Hat & Hle). split; [done|]. exists at_. split; [done|lia].
Qed.

(** [Copy] ends within as many iterations as the stream has reads. The writer
    holds a prefix of the stream of the reported length, all of it when no error
    is reported; the context does not time out. *)
Lemma copyLoop_delivered n size d h (dst : D) (src : R) data written :
  (0 < size)%nat → 0 ≤ slow → slow < d → delivers (d - 2 * slow) n src data → alive (d - slow) h →
  0 ≤ written → written + Z.of_nat (length data) < 2 ^ 63 →
  ∃ w err h' dst' src', copyLoop n size d h dst src written = Some (written + w, err, h', dst', src') ∧
    0 ≤ w ≤ Z.of_nat (length data) ∧ contents dst' = contents dst ++ take (Z.to_nat w) data ∧
    (err = None → w = Z.of_nat (length data)) ∧ h_done h' = false.
Proof.
  intros Hsize Hslow Hsd. revert h dst src data written.
  induction n as [|n IH]; intros h dst src data written Hdel Hal Hw Hb; [done|].
  cbn [copyLoop]. cbn in Hdel. specialize (Hdel size Hsize). destruct (Read size src) as [r src'].
  destruct Hdel as (Htime & _ & Hdel). apply (elapse_alive (rd_time r) (d - 2 * slow - 1)) in Hal; [|lia..].
  replace (d - slow - _) with (slow + 1) in Hal by lia.
  set (h1 := elapse (rd_time r) h) in *.
  destruct (rd_err r) as [er|].
  - destruct er; try done. subst data. rewrite bool_decide_eq_false_2 by done.
    pose proof (copyChunk_lawful (rd_data r) (slow + 1) h1 dst) as Hc.
    destruct (copyChunk (rd_data r) h1 dst) as [[[nw ew] h2] dst']. destruct Hc as (H1 & H2 & H3 & H4).
    assert (h_done h2 = false) as Hd by (apply H4; [lia|done]).
    rewrite s64_id by lia. destruct ew; do 5 eexists; (split; [done|]); split_and!; try done; try lia.
  - destruct Hdel as (data' & -> & Hdel). rewrite bool_decide_eq_true_2 by done. rewrite length_app in Hb |- *.
    pose proof (copyChunk_lawful (rd_data r) d (Handler_ExpireAfter d h1) dst) as Hc.
    destruct (copyChunk _ _ dst) as [[[nw ew] h2] dst']. destruct Hc as (H1 & H2 & H3 & H4).
    specialize (H4 Hsd (expire_alive d h1 (proj1 Hal))). rewrite s64_id by lia. destruct ew as [e|].
    + do 5 eexists. split; [done|]. split_and!; try done; try lia; [|apply H4].
      rewrite take_app_le by lia. done.
    + rewrite (H3 eq_refl) in *. rewrite Nat2Z.id, firstn_all in H2.
      destruct (IH h2 dst' src' data' (written + Z.of_nat (length (rd_data r)))) as
        (w & err & h' & dst'' & src'' & -> & Hw' & Hcont & Herr & Hd); try done; try lia.
      exists (Z.of_nat (length (rd_data r)) + w), err, h', dst'', src''. rewrite Z.add_assoc.
      split; [done|]. split; [lia|]. split; [|split; [|done]].
      2: { intros He. rewrite (Herr He). lia. }
      rewrite Hcont, H2, Z2Nat.inj_add, Nat2Z.id, take_app_add by lia. by rewrite <-(assoc_L (++)).
Qed.

(** [ReadAll] returns the whole stream, however the runtime grows the buffer. *)
Context (grow : nat → nat) (Hgrow : ∀ c, (c < grow c)%nat).

Lemma readLoop_delivered n cap d h (src : R) data buf :
  (length buf ≤ cap)%nat → delivers d n src data → alive d h →
  ∃ h' src', readLoop grow n cap d h src buf = Some (buf ++ data, None, h', src') ∧ h_done h' = false.
Proof.
  revert cap h src data buf. induction n as [|n IH]; intros cap h src data buf Hcap Hdel Hal; [done|].
  cbn [readLoop]. cbn in Hdel. set (cap' := if bool_decide (length buf = cap) then grow cap else cap).
  assert (length buf < cap')%nat as Hlt by (unfold cap'; specialize (Hgrow cap); case_bool_decide; lia).
  specialize (Hdel (cap' - length buf)%nat ltac:(lia)).
  destruct (Read _ src) as [r src']. destruct Hdel as (Htime & Hlen & Hdel).
  pose proof (elapse_done _ _ _ Htime Hal) as Hd. destruct (rd_err r) as [er|].
  - destruct er; try done. subst data. rewrite bool_decide_eq_true_2 by done. eauto.
  - destruct Hdel as (data' & -> & Hdel). rewrite (assoc_L (++)).
    apply IH; [rewrite length_app; lia|done|by apply expire_alive].
Qed.
End loops.


(** ** Runs *)
Module TimeoutDemo.
(** A reader over a list of bytes and a writer that appends, both immediate. *)
Definition stringReader : Reader bytes := λ size src,
  match src with
  | [] => (mkRead [] (Some EOF) 0, [])
  | _ => (mkRead (take size src) None 0, drop size src)
  end.
Definition bufferWriter : Writer bytes := λ data dst,
  (mkWrite (Z.of_nat (length data)) None 0, dst ++ data).
#[local] Existing Instance stringReader.
#[local] Existing Instance bufferWriter.

Lemma bufferWriter_laws : WriterLaws bytes id 0.
Proof.
  split; intros data dst; cbn; [|done]. rewrite Nat2Z.id, firstn_all. split_and!; [lia|lia|done|done].
Qed.

Lemma reader_delivers n src d : 0 < d → (length src < n)%nat → delivers d n src src.
Proof.
  intros Hd. revert src. induction n as [|n IH]; intros src Hn; [lia|]. cbn. intros size Hsize.
  destruct src as [|b src]; [cbn; split_and!; try done; lia|].
  unfold Read, stringReader. cbn [rd_time rd_data rd_err]. split; [lia|]. split.
  - rewrite length_take. lia.
  - exists (drop size (b :: src)). split; [by rewrite take_drop|]. apply IH. rewrite length_drop. cbn in *. lia.
Qed.

Definition demo_data : bytes := String.list_byte_of_string "the root protocol state".


(** Cancelling after a read put the timer off. *)
Lemma cancel_is_final_witness :
  h_done (elapse 3 (Handler_Reset (Handler_Cancel (Handler_ExpireAfter 5 (elapse 2 (Handler_New 0 4 false)))))) = true.
Proof.
  apply (cancel_is_final 0 4 false (Handler_ExpireAfter 5 (elapse 2 (Handler_New 0 4 false)))).
  - eapply rtc_l; [apply (step_elapse 2); lia|]. apply rtc_once, step_expire.
  - eapply rtc_l; [apply step_reset|]. apply rtc_once, (step_elapse 3). lia.
Defined.
End TimeoutDemo.
