(* ===== verification/Model.v ===== *)
(** * Data model

    The generic datatypes of [src/model]: the protobuf messages the index
    stores and the operations [model.go] defines on them. *)
From S2P Require Import Prelude Bytes.
Local Open Scope Z_scope.

(** ** Protobuf messages *)

Inductive OperationType :=
  | OPERATION_TYPE_UNSPECIFIED
  | CREATE_ACCOUNT
  | FEE
  | PROXY_TRANSFER
  | TRANSFER
  | OPERATION_TYPE_UNRECOGNIZED (n : Z).

Inductive TransferType :=
  | TRANSFER_TYPE_UNSPECIFIED
  | DEPOSIT
  | FEE_DEPOSIT
  | PROXY_DEPOSIT
  | PROXY_WITHDRAWAL
  | WITHDRAWAL
  | TRANSFER_TYPE_UNRECOGNIZED (n : Z).

#[export] Instance OperationType_eq_dec : EqDecision OperationType.
Proof. solve_decision. Defined.
#[export] Instance TransferType_eq_dec : EqDecision TransferType.
Proof. solve_decision. Defined.

Record BlockMeta := mkBlockMeta {
  bm_Hash : bytes;
  bm_Height : Z;
  bm_Parent : bytes;
  bm_Timestamp : Z;
}.

Record TransferEvent := mkTransferEvent {
  te_Amount : Z;
  te_Receiver : bytes;
  te_Sender : bytes;
  te_Type : TransferType;
}.

Record Operation := mkOperation {
  op_Account : bytes;
  op_Amount : Z;
  op_ProxyPublicKey : bytes;
  op_Receiver : bytes;
  op_Type : OperationType;
}.

Record IndexedTransaction := mkIndexedTransaction {
  it_ErrorMessage : string;
  it_Events : list TransferEvent;
  it_Failed : bool;
  it_Hash : bytes;
  it_Operations : list Operation;
}.

Record IndexedBlock := mkIndexedBlock {
  ib_Timestamp : Z;
  ib_Transactions : list IndexedTransaction;
}.

#[export] Instance BlockMeta_eq_dec : EqDecision BlockMeta.
Proof. solve_decision. Defined.
#[export] Instance TransferEvent_eq_dec : EqDecision TransferEvent.
Proof. solve_decision. Defined.
#[export] Instance Operation_eq_dec : EqDecision Operation.
Proof. solve_decision. Defined.
#[export] Instance IndexedTransaction_eq_dec : EqDecision IndexedTransaction.
Proof. solve_decision. Defined.
#[export] Instance IndexedBlock_eq_dec : EqDecision IndexedBlock.
Proof. solve_decision. Defined.

(** ** Operations of [model.go] *)

Definition Clone (b : BlockMeta) : BlockMeta :=
  {| bm_Hash := bm_Hash b; bm_Height := bm_Height b;
     bm_Parent := bm_Parent b; bm_Timestamp := bm_Timestamp b |}.

(** [BlockMeta.Equal]; the receiver and the argument may be nil. *)
Definition BlockMeta_Equal (b other : option BlockMeta) : bool :=
  match b, other with
  | Some b, Some other =>
      bool_decide (bm_Hash b = bm_Hash other) &&
      (bm_Height b =? bm_Height other) && (bm_Timestamp b =? bm_Timestamp other)
  | _, _ => false
  end.

Lemma Clone_id b : Clone b = b.
Proof. by destruct b. Qed.

(** ** The protobuf codec

    [proto.Marshal] and [proto.Unmarshal] are the protobuf runtime's: a
    parameter. What the index relies on is that decoding an encoded message
    gives the message back. Encoding fails on strings that are not UTF-8. *)
Class Proto (A : Type) := {
  marshal : A → option bytes;
  unmarshal : bytes → option A;
  unmarshal_marshal : ∀ a b, marshal a = Some b → unmarshal b = Some a;
}.
#[export] Hint Mode Proto ! : typeclass_instances.

(** ** A concrete codec

    A self-delimiting encoding that satisfies the law, so that theorems about
    the index can be run on concrete stores. *)
Class Ser (A : Type) := {
  ser : A → bytes;
  de : bytes → option (A * bytes);
  de_ser : ∀ a r, de (ser a ++ r) = Some (a, r);
}.
#[export] Hint Mode Ser ! : typeclass_instances.

Definition ser_proto (A : Type) `{Ser A} : Proto A.
Proof.
  refine {| marshal a := Some (ser a); unmarshal b := fst <$> de b |}.
  abstract (intros a b [= <-]; rewrite <-(app_nil_r (ser a)), de_ser; done).
Defined.

(** Values of an isomorphic type. *)
Definition ser_iso {A B} `{Ser B} (f : A → B) (g : B → A) (Hgf : ∀ a, g (f a) = a) : Ser A.
Proof.
  refine {| ser a := ser (f a); de b := '(x, r) ← de b; Some (g x, r) |}.
  abstract (intros a r; rewrite de_ser; simpl; by rewrite Hgf).
Defined.

#[export] Instance byte_ser : Ser byte.
Proof.
  refine {| ser a := [a]; de b := match b with [] => None | a :: b => Some (a, b) end |}.
  abstract done.
Defined.

Fixpoint ser_pos (p : positive) : bytes :=
  match p with
  | xH => [x02]
  | xO p => x00 :: ser_pos p
  | xI p => x01 :: ser_pos p
  end.

Fixpoint de_pos (b : bytes) : option (positive * bytes) :=
  match b with
  | [] => None
  | x00 :: b => '(p, r) ← de_pos b; Some (xO p, r)
  | x01 :: b => '(p, r) ← de_pos b; Some (xI p, r)
  | _ :: b => Some (xH, b)
  end.

Lemma de_ser_pos p r : de_pos (ser_pos p ++ r) = Some (p, r).
Proof. induction p as [p IH|p IH|]; simpl; by rewrite ?IH. Qed.

#[export] Instance Z_ser : Ser Z.
Proof.
  refine {|
    ser z := match z with Z0 => [x00] | Zpos p => x01 :: ser_pos p | Zneg p => x02 :: ser_pos p end;
    de b := match b with
            | [] => None
            | x00 :: b => Some (0, b)
            | x01 :: b => '(p, r) ← de_pos b; Some (Zpos p, r)
            | _ :: b => '(p, r) ← de_pos b; Some (Zneg p, r)
            end |}.
  abstract (intros [|p|p] r; simpl; by rewrite ?de_ser_pos).
Defined.

#[export] Instance prod_ser {A B} `{Ser A, Ser B} : Ser (A * B).
Proof.
  refine {| ser x := ser x.1 ++ ser x.2;
            de b := '(x, r) ← de b; '(y, r) ← de r; Some ((x, y), r) |}.
  abstract (intros [x y] r; simpl; rewrite <-(assoc_L (++)), de_ser; simpl; by rewrite de_ser).
Defined.

Section list_ser.
Context {A : Type} `{Ser A}.

Fixpoint ser_list (l : list A) : bytes :=
  match l with [] => [x00] | x :: l => x01 :: ser x ++ ser_list l end.

Fixpoint de_list (fuel : nat) (b : bytes) : option (list A * bytes) :=
  match fuel, b with
  | S fuel, x01 :: b => '(x, r) ← de b; '(l, r) ← de_list fuel r; Some (x :: l, r)
  | _, _ :: b => Some ([], b)
  | _, [] => None
  end.

Lemma de_ser_list l r n : (length l < n)%nat → de_list n (ser_list l ++ r) = Some (l, r).
Proof.
  revert n. induction l as [|x l IH]; intros [|n] Hn; simpl in *; try lia; [done|].
  rewrite <-(assoc_L (++)), de_ser. simpl. by rewrite IH by lia.
Qed.

Lemma length_ser_list l : (length l < length (ser_list l))%nat.
Proof. induction l as [|x l IH]; simpl; [lia|]. rewrite length_app. lia. Qed.
End list_ser.

#[export] Instance list_ser {A} `{Ser A} : Ser (list A).
Proof.
  refine {| ser := ser_list; de b := de_list (S (length b)) b |}.
  abstract (intros l r; apply de_ser_list; rewrite length_app;
    pose proof (length_ser_list l); lia).
Defined.

#[export] Instance string_ser : Ser string :=
  ser_iso String.list_byte_of_string String.string_of_list_byte String.string_of_list_byte_of_string.

#[export] Instance bool_ser : Ser bool.
Proof. apply (ser_iso (λ b : bool, if b then 1 else 0) (λ z, z =? 1)). abstract (by intros []). Defined.

#[export] Instance OperationType_ser : Ser OperationType.
Proof.
  apply (ser_iso (λ t, match t with
    | OPERATION_TYPE_UNSPECIFIED => (0, 0) | CREATE_ACCOUNT => (1, 0) | FEE => (2, 0)
    | PROXY_TRANSFER => (3, 0) | TRANSFER => (4, 0) | OPERATION_TYPE_UNRECOGNIZED n => (5, n) end)
   (λ '(z, n), match z with
    | 0 => OPERATION_TYPE_UNSPECIFIED | 1 => CREATE_ACCOUNT | 2 => FEE
    | 3 => PROXY_TRANSFER | 4 => TRANSFER | _ => OPERATION_TYPE_UNRECOGNIZED n end)).
  abstract (by intros []).
Defined.

#[export] Instance TransferType_ser : Ser TransferType.
Proof.
  apply (ser_iso (λ t, match t with
    | TRANSFER_TYPE_UNSPECIFIED => (0, 0) | DEPOSIT => (1, 0) | WITHDRAWAL => (2, 0)
    | FEE_DEPOSIT => (3, 0) | PROXY_DEPOSIT => (4, 0) | PROXY_WITHDRAWAL => (5, 0)
    | TRANSFER_TYPE_UNRECOGNIZED n => (6, n) end)
   (λ '(z, n), match z with
    | 0 => TRANSFER_TYPE_UNSPECIFIED | 1 => DEPOSIT | 2 => WITHDRAWAL
    | 3 => FEE_DEPOSIT | 4 => PROXY_DEPOSIT | 5 => PROXY_WITHDRAWAL
    | _ => TRANSFER_TYPE_UNRECOGNIZED n end)).
  abstract (by intros []).
Defined.

#[export] Instance BlockMeta_ser : Ser BlockMeta.
Proof.
  apply (ser_iso (λ b, (bm_Hash b, bm_Height b, bm_Parent b, bm_Timestamp b))
    (λ '(a, b, c, d), mkBlockMeta a b c d)). abstract (by intros []).
Defined.
#[export] Instance TransferEvent_ser : Ser TransferEvent.
Proof.
  apply (ser_iso (λ e, (te_Amount e, te_Receiver e, te_Sender e, te_Type e))
    (λ '(a, b, c, d), mkTransferEvent a b c d)). abstract (by intros []).
Defined.
#[export] Instance Operation_ser : Ser Operation.
Proof.
  apply (ser_iso (λ o, (op_Account o, op_Amount o, op_ProxyPublicKey o, op_Receiver o, op_Type o))
    (λ '(a, b, c, d, e), mkOperation a b c d e)). abstract (by intros []).
Defined.
#[export] Instance IndexedTransaction_ser : Ser IndexedTransaction.
Proof.
  apply (ser_iso (λ t, (it_ErrorMessage t, it_Events t, it_Failed t, it_Hash t, it_Operations t))
    (λ '(a, b, c, d, e), mkIndexedTransaction a b c d e)). abstract (by intros []).
Defined.
#[export] Instance IndexedBlock_ser : Ser IndexedBlock.
Proof.
  apply (ser_iso (λ b, (ib_Timestamp b, ib_Transactions b)) (λ '(a, b), mkIndexedBlock a b)).
  abstract (by intros []).
Defined.
