(* ===== verification/Badger.v ===== *)
(** * The key/value store

    [src/indexdb] and [src/cache] keep their data in Badger, a third-party
    embedded store. It is a parameter here: [Badger] lists the operations the
    source calls and [BadgerLaws] the documented behaviour it relies on. The
    state of type [DB] is the data a transaction sees. *)
From S2P Require Import Prelude Bytes.

(** The errors of Badger's calls: the named one and the I/O failures. *)
Inductive badger_err := ErrKeyNotFound | ErrIO (code : Z).

Abbreviation item := (bytes * bytes)%type.

Class Badger (DB : Type) := {
  (** the value [txn.Get] finds under a key *)
  db_get : DB → bytes → option bytes;
  (** [txn.Set] and [txn.Delete], on the transaction's view *)
  db_set : DB → bytes → bytes → DB;
  db_delete : DB → bytes → DB;
  (** the items an iterator yields, from [Seek(k)] on, forwards and with
      [Reverse: true] *)
  db_seek : DB → bytes → list item;
  db_seek_rev : DB → bytes → list item;
  (** whether reading the value stored under a key fails *)
  db_read_err : DB → bytes → option Z;
  (** whether [db.Update] fails to commit the changed view; nothing is written
      when it does *)
  db_commit_err : DB → DB → option Z;
  (** [WriteBatch]: [Delete] of each key, then [Flush]; the deletions may be
      spread over several transactions, so an error can leave some applied *)
  db_flush_deletes : DB → list bytes → DB * option Z;
  (** what reading an [Item] gives once its iterator has moved on: Badger
      documents the item as invalid then *)
  db_stale : DB → bytes → bytes;
}.
#[export] Hint Mode Badger ! : typeclass_instances.

Class BadgerLaws (DB : Type) `{Badger DB} := {
  db_get_set : ∀ (d : DB) k v k',
    db_get (db_set d k v) k' = if decide (k = k') then Some v else db_get d k';
  db_get_delete : ∀ (d : DB) k k',
    db_get (db_delete d k) k' = if decide (k = k') then None else db_get d k';
  db_seek_elem : ∀ (d : DB) s k v,
    (k, v) ∈ db_seek d s ↔ db_get d k = Some v ∧ bytes_le s k;
  db_seek_sorted : ∀ (d : DB) s, StronglySorted (λ x y, bytes_lt x.1 y.1) (db_seek d s);
  db_seek_rev_elem : ∀ (d : DB) s k v,
    (k, v) ∈ db_seek_rev d s ↔ db_get d k = Some v ∧ bytes_le k s;
  db_seek_rev_sorted : ∀ (d : DB) s, StronglySorted (λ x y, bytes_lt y.1 x.1) (db_seek_rev d s);
  db_flush_ok : ∀ (d : DB) ks (d' : DB), db_flush_deletes d ks = (d', None) →
    ∀ k, db_get d' k = if decide (k ∈ ks) then None else db_get d k;
}.

(** A run without I/O errors: every read, commit and flush succeeds. Theorems
    that promise a result, and not only a property of the result, ask for it. *)
Class BadgerReliable (DB : Type) `{Badger DB} := {
  db_read_reliable : ∀ (d : DB) k, db_read_err d k = None;
  db_commit_reliable : ∀ (d d' : DB), db_commit_err d d' = None;
  db_flush_reliable : ∀ (d : DB) ks, (db_flush_deletes d ks).2 = None;
}.

(** [item.Value] and [txn.Get] followed by [item.Value]. *)
Definition item_value {DB} `{Badger DB} (d : DB) (x : item) : outcome badger_err bytes :=
  match db_read_err d x.1 with Some c => Err (ErrIO c) | None => Ok x.2 end.

Definition txn_get {DB} `{Badger DB} (d : DB) (k : bytes) : outcome badger_err bytes :=
  match db_get d k with None => Err ErrKeyNotFound | Some v => item_value d (k, v) end.

(** [for { if !it.ValidForPrefix(p) { break }; ...; it.Next() }]: the items the
    loop visits. *)
Fixpoint valid_for_prefix (p : bytes) (its : list item) : list item :=
  match its with
  | [] => []
  | x :: its => if has_prefix p x.1 then x :: valid_for_prefix p its else []
  end.

Section laws.
Context `{BadgerLaws DB}.
Implicit Types (d : DB) (k s p : bytes).

Lemma item_value_ok d x v : item_value d x = Ok v → v = x.2.
Proof. unfold item_value. destruct (db_read_err d x.1); naive_solver. Qed.

Lemma item_value_reliable `{!BadgerReliable DB} d x : item_value d x = Ok x.2.
Proof. unfold item_value. by rewrite db_read_reliable. Qed.

Lemma txn_get_ok d k v : txn_get d k = Ok v → db_get d k = Some v.
Proof.
  unfold txn_get. destruct (db_get d k); [|done]. by intros ->%item_value_ok.
Qed.

Lemma txn_get_some `{!BadgerReliable DB} d k v : db_get d k = Some v → txn_get d k = Ok v.
Proof. unfold txn_get. intros ->. apply item_value_reliable. Qed.

Lemma txn_get_none d k : db_get d k = None → txn_get d k = Err ErrKeyNotFound.
Proof. unfold txn_get. by intros ->. Qed.

(** The scan loop over a prefix visits every entry under the prefix. *)
Lemma valid_for_prefix_elem p its x :
  StronglySorted (λ x y, bytes_lt x.1 y.1) its →
  Forall (λ y, bytes_le p y.1) its →
  x ∈ valid_for_prefix p its ↔ x ∈ its ∧ has_prefix p x.1 = true.
Proof.
  induction its as [|y its IH]; intros Hs Hle; simpl.
  - set_solver.
  - apply StronglySorted_inv in Hs as [Hs Hy]. apply Forall_cons in Hle as [Hpy Hle].
    destruct (has_prefix p y.1) eqn:Hp.
    + rewrite !elem_of_cons, IH by done. naive_solver.
    + split; [set_solver|]. intros [[->|Hx]%elem_of_cons Hpx]; [congruence|].
      exfalso. apply has_prefix_spec in Hpx as [t Ht].
      rewrite Forall_forall in Hy. specialize (Hy x Hx).
      enough (has_prefix p y.1 = true) by congruence.
      apply (prefix_convex p [] y.1 t); [by rewrite app_nil_r|].
      rewrite <-Ht. apply bytes_le_lteq. by left.
Qed.

Lemma scan_elem d p k v :
  (k, v) ∈ valid_for_prefix p (db_seek d p) ↔ db_get d k = Some v ∧ has_prefix p k = true.
Proof.
  rewrite valid_for_prefix_elem.
  - simpl. rewrite db_seek_elem. split; [naive_solver|].
    intros [Hg Hp]. split; [split; [done|]|done].
    apply has_prefix_spec in Hp as [s ->]. unfold bytes_le.
    rewrite <-(app_nil_r p) at 1. rewrite bytes_cmp_app. by destruct s.
  - apply db_seek_sorted.
  - apply Forall_forall. intros [k' v'] Hx. simpl. by apply db_seek_elem in Hx as [_ ?].
Qed.

Lemma valid_for_prefix_sorted p its :
  StronglySorted (λ x y : item, bytes_lt x.1 y.1) its →
  StronglySorted (λ x y : item, bytes_lt x.1 y.1) (valid_for_prefix p its).
Proof.
  induction 1 as [|x its Hs IH Hx]; simpl; [constructor|].
  destruct (has_prefix p x.1); constructor; [done|].
  clear -Hx. induction Hx as [|y its Hy Hx IH]; simpl; [constructor|].
  destruct (has_prefix p y.1); by constructor.
Qed.

Lemma sorted_keys_NoDup (its : list item) :
  StronglySorted (λ x y, bytes_lt x.1 y.1) its → NoDup its.*1.
Proof.
  induction 1 as [|x its Hs IH Hx]; simpl; constructor; [|done].
  intros (y & Heq & Hy)%list_elem_of_fmap. rewrite Forall_forall in Hx.
  specialize (Hx y Hy). rewrite Heq in Hx. by apply bytes_lt_irrefl in Hx.
Qed.

(** Sorted lists of items are equal when they have the same items. *)
Lemma sorted_items_unique (l l' : list item) :
  StronglySorted (λ x y, bytes_lt x.1 y.1) l → StronglySorted (λ x y, bytes_lt x.1 y.1) l' →
  (∀ x, x ∈ l ↔ x ∈ l') → l = l'.
Proof.
  intros Hl Hl' Heq.
  assert (AntiSymm (=) (λ x y : item, bytes_lt x.1 y.1)) as Hanti.
  { intros x y Hxy Hyx. destruct (bytes_lt_irrefl x.1). by eapply bytes_lt_trans. }
  eapply (StronglySorted_unique (λ x y : item, bytes_lt x.1 y.1)); [done..|].
  apply NoDup_Permutation; [| |done]; by apply (NoDup_fmap_1 fst), sorted_keys_NoDup.
Qed.

Lemma scan_NoDup d p : NoDup (valid_for_prefix p (db_seek d p)).*1.
Proof. apply sorted_keys_NoDup, valid_for_prefix_sorted, db_seek_sorted. Qed.

(** Seeking backwards from [p ++ s]: when some entry under [p] is at or below
    the sought key, the iterator stands on the greatest such entry; otherwise
    it is not valid for [p]. *)
Lemma seek_rev_some d p s t v :
  db_get d (p ++ t) = Some v → bytes_le t s →
  ∃ t' v' rest, db_seek_rev d (p ++ s) = (p ++ t', v') :: rest ∧
    db_get d (p ++ t') = Some v' ∧ bytes_le t' s ∧
    ∀ u w, db_get d (p ++ u) = Some w → bytes_le u s → bytes_le u t'.
Proof.
  intros Hg Hle. assert ((p ++ t, v) ∈ db_seek_rev d (p ++ s)) as Hin.
  { apply db_seek_rev_elem. split; [done|]. unfold bytes_le. by rewrite bytes_cmp_app. }
  pose proof (db_seek_rev_sorted d (p ++ s)) as Hs.
  destruct (db_seek_rev d (p ++ s)) as [|[k w] rest] eqn:Hseek; [set_solver|].
  apply StronglySorted_inv in Hs as [_ Hall]. rewrite Forall_forall in Hall.
  assert (db_get d k = Some w ∧ bytes_le k (p ++ s)) as [Hk Hks].
  { apply db_seek_rev_elem. rewrite Hseek. left. }
  assert (∀ u x, db_get d (p ++ u) = Some x → bytes_le u s → bytes_le (p ++ u) k) as Hmax.
  { intros u x Hu Hus. assert ((p ++ u, x) ∈ (k, w) :: rest) as Hin'.
    { rewrite <-Hseek. apply db_seek_rev_elem. split; [done|].
      unfold bytes_le. by rewrite bytes_cmp_app. }
    apply elem_of_cons in Hin' as [[= -> ->]|Hr]; [apply bytes_le_refl|].
    apply bytes_le_lteq. left. apply (Hall _ Hr). }
  assert (has_prefix p k = true) as [t' ->]%has_prefix_spec.
  { apply (prefix_convex p t k s); eauto. }
  exists t', w, rest. unfold bytes_le in *. rewrite bytes_cmp_app in Hks.
  repeat split; [done|done|]. intros u x Hu Hus.
  specialize (Hmax u x Hu Hus). by rewrite bytes_cmp_app in Hmax.
Qed.

Lemma seek_rev_none d p s :
  (∀ t v, db_get d (p ++ t) = Some v → ¬ bytes_le t s) →
  match db_seek_rev d (p ++ s) with [] => True | x :: _ => has_prefix p x.1 = false end.
Proof.
  intros Hno. destruct (db_seek_rev d (p ++ s)) as [|[k w] rest] eqn:Hseek; [done|].
  simpl. apply not_true_is_false. intros [t ->]%has_prefix_spec.
  assert (db_get d (p ++ t) = Some w ∧ bytes_le (p ++ t) (p ++ s)) as [Hk Hks].
  { apply db_seek_rev_elem. rewrite Hseek. left. }
  apply (Hno t w Hk). unfold bytes_le in *. by rewrite bytes_cmp_app in Hks.
Qed.
End laws.

(** ** A reference implementation

    A finite map, iterated in key order. It discharges the laws, so that every
    theorem proved against the interface has a model. *)
Section reference.

Definition key_le (x y : item) : Prop := bytes_le x.1 y.1.
#[local] Instance key_le_dec x y : Decision (key_le x y) := bytes_le_dec x.1 y.1.
#[local] Instance key_le_trans : Transitive key_le.
Proof. intros x y z. apply bytes_le_trans. Qed.
#[local] Instance key_le_total : Total key_le.
Proof. intros x y. apply bytes_le_total. Qed.

Definition sorted_items (m : gmap bytes bytes) : list item := merge_sort key_le (map_to_list m).

Lemma sorted_items_elem m k v : (k, v) ∈ sorted_items m ↔ m !! k = Some v.
Proof. unfold sorted_items. rewrite merge_sort_Permutation. apply elem_of_map_to_list. Qed.

Lemma sorted_items_sorted m : StronglySorted (λ x y, bytes_lt x.1 y.1) (sorted_items m).
Proof.
  assert (StronglySorted key_le (sorted_items m)) as Hs by apply (StronglySorted_merge_sort _).
  assert (NoDup (sorted_items m).*1) as Hnd.
  { unfold sorted_items. rewrite merge_sort_Permutation. apply NoDup_fst_map_to_list. }
  induction Hs as [|x l Hs IH Hx]; constructor; apply NoDup_cons in Hnd as [Hnin Hnd]; [auto|].
  rewrite Forall_forall in Hx |- *. intros y Hy. specialize (Hx y Hy).
  apply bytes_le_lteq in Hx as [?|Heq]; [done|].
  destruct Hnin. rewrite Heq. apply list_elem_of_fmap. eauto.
Qed.

Definition gmap_badger : Badger (gmap bytes bytes) := {|
  db_get d k := d !! k;
  db_set d k v := <[k:=v]> d;
  db_delete d k := delete k d;
  db_seek d s := filter (λ x, bytes_le s x.1) (sorted_items d);
  db_seek_rev d s := reverse (filter (λ x, bytes_le x.1 s) (sorted_items d));
  db_read_err _ _ := None;
  db_commit_err _ _ := None;
  db_flush_deletes d ks := (foldr delete d ks, None);
  db_stale _ _ := [];
|}.

Lemma StronglySorted_filter {A} (R : A → A → Prop) (P : A → Prop) `{∀ x, Decision (P x)} l :
  StronglySorted R l → StronglySorted R (filter P l).
Proof.
  induction 1 as [|x l Hs IH Hx]; [constructor|]. rewrite filter_cons.
  destruct (decide (P x)); [|done]. constructor; [done|].
  rewrite Forall_forall in Hx |- *. intros y [_ ?]%list_elem_of_filter. auto.
Qed.

Lemma StronglySorted_reverse {A} (R : A → A → Prop) l :
  StronglySorted R l → StronglySorted (flip R) (reverse l).
Proof.
  induction 1 as [|x l Hs IH Hx]; [constructor|]. rewrite reverse_cons.
  apply StronglySorted_app_2; [|done|repeat constructor].
  intros y z Hy Hz. apply list_elem_of_singleton in Hz as ->. rewrite Forall_forall in Hx.
  apply Hx, elem_of_reverse, Hy.
Qed.

Lemma foldr_delete_lookup (m : gmap bytes bytes) ks k :
  foldr delete m ks !! k = if decide (k ∈ ks) then None else m !! k.
Proof.
  induction ks as [|k' ks IH]; [done|]. cbn [foldr].
  rewrite lookup_delete. destruct (decide (k' = k)) as [->|Hne].
  - by rewrite decide_True by left.
  - rewrite IH. destruct (decide (k ∈ ks)).
    + by rewrite decide_True by by right.
    + rewrite decide_False; [done|]. by intros [?|?]%elem_of_cons.
Qed.

#[export] Instance gmap_badger_laws : @BadgerLaws _ gmap_badger.
Proof.
  split; simpl.
  - intros. apply lookup_insert.
  - intros. apply lookup_delete.
  - intros d s k v. rewrite list_elem_of_filter, sorted_items_elem. simpl. tauto.
  - intros d s. exact (StronglySorted_filter _ _ _ (sorted_items_sorted d)).
  - intros d s k v. rewrite elem_of_reverse, list_elem_of_filter, sorted_items_elem. simpl. tauto.
  - intros. apply (StronglySorted_reverse (λ x y : item, bytes_lt x.1 y.1)).
    exact (StronglySorted_filter _ _ _ (sorted_items_sorted d)).
  - intros d ks d' [= <-] k. apply foldr_delete_lookup.
Qed.

#[export] Instance gmap_badger_reliable : @BadgerReliable _ gmap_badger.
Proof. by split. Qed.
End reference.
