(* ===== verification/IndexDB.v ===== *)
(** * The index database

    Model of [src/indexdb/indexdb.go]: the store that keeps, per account, the
    balance after every block that touched it, the indexed blocks, and the
    genesis and latest block. Log output and tracing are left out. *)
From S2P Require Import Prelude Bytes Model Badger.
Local Open Scope Z_scope.

(** ** Keys *)

Definition accountPrefix : byte := "a"%byte.
Definition blockPrefix : byte := "b"%byte.
Definition hash2HeightPrefix : byte := "c"%byte.
Definition height2HashPrefix : byte := "d"%byte.
Definition isProxyPrefix : byte := "p"%byte.

(** [[]byte("genesis")], [[]byte("latest")] and [[]byte("1")]. *)
Definition genesisKey : bytes := ["g"; "e"; "n"; "e"; "s"; "i"; "s"]%byte.
Definition latestKey : bytes := ["l"; "a"; "t"; "e"; "s"; "t"]%byte.
Definition proxyMark : bytes := ["1"%byte].

(** [key := make([]byte, 1+8+8)] with the prefix, the account copied to
    [key[1:9]] and the big-endian height from [key[9:]] on. *)
Definition acctHeightKey (prefix : byte) (acct : bytes) (height : Z) : bytes :=
  let key := <[0%nat := prefix]> (make_bytes 17) in
  let key := go_copy key 1 9 acct in
  go_copy key 9 17 (be64 height).

(** The same key the way [Index] builds it: [copy(key[1:], acct)] may run into
    the height bytes, which are written afterwards. *)
Definition acctHeightKeyWide (prefix : byte) (acct : bytes) (height : Z) : bytes :=
  let key := <[0%nat := prefix]> (make_bytes 17) in
  let key := go_copy key 1 17 acct in
  go_copy key 9 17 (be64 height).

Definition blockKey (height : Z) : bytes := blockPrefix :: be64 height.
Definition hash2HeightKey (hash : bytes) : bytes := hash2HeightPrefix :: hash.
Definition height2HashKey (height : Z) : bytes := height2HashPrefix :: be64 height.

(** [key[lo:hi]]; Go panics when the slice is too short. *)
Definition go_slice {E} (lo hi : nat) (key : bytes) : outcome E bytes :=
  if bool_decide (hi ≤ length key)%nat then Ok (drop lo (take hi key)) else Panic.

(** [key[lo:]]. *)
Definition go_tail {E} (lo : nat) (key : bytes) : outcome E bytes :=
  if bool_decide (lo ≤ length key)%nat then Ok (drop lo key) else Panic.

(** ** State and errors *)

Record AccountInfo := mkAccountInfo { Changes : list (Z * Z); Proxy : bool }.
Record BalanceData := mkBalanceData { bd_Balance : Z; bd_Hash : bytes; bd_Height : Z }.
Record BlockData := mkBlockData {
  bl_Block : IndexedBlock;
  bl_Hash : bytes;
  bl_Height : Z;
  bl_ParentHash : bytes;
  bl_ParentHeight : Z;
}.
Record accountUpdate := mkAccountUpdate { diff : Z; key : bytes }.

Inductive err :=
  | ErrBlockNotIndexed
  | ErrBadger (e : badger_err)
  | ErrProto
  | ErrInvalidBalance (acct : bytes) (val : Z)
  | ErrProxyWithoutBalance (acct : bytes)
  | ErrWrap (e : err).          (** [fmt.Errorf("...: %s", err)] *)

(** The [Store] struct; the mutex only orders concurrent access. *)
Record Store (DB : Type) := mkStore {
  s_db : DB;
  s_genesis : option BlockMeta;
  s_latest : option BlockMeta;
}.
Arguments mkStore {DB}.
Arguments s_db {DB}.
Arguments s_genesis {DB}.
Arguments s_latest {DB}.

Definition map_err {E E' A} (f : E → E') (m : outcome E A) : outcome E' A :=
  match m with Ok a => Ok a | Err e => Err (f e) | Fatal => Fatal | Panic => Panic end.

Section indexdb.
Context {DB : Type} `{!Badger DB, !Proto IndexedBlock, !Proto BlockMeta, !MapRange bytes}.
Implicit Types (s : Store DB) (d : DB).

(** ** Lookups *)

Definition HashForHeight s (height : Z) : outcome err bytes :=
  match txn_get (s_db s) (height2HashKey height) with
  | Err ErrKeyNotFound => Err ErrBlockNotIndexed
  | r => map_err (λ e, ErrWrap (ErrBadger e)) r
  end.

Definition HeightForHash s (hash : bytes) : outcome err Z :=
  match txn_get (s_db s) (hash2HeightKey hash) with
  | Err ErrKeyNotFound => Err ErrBlockNotIndexed
  | r => val ← map_err (λ e, ErrWrap (ErrBadger e)) r; uint64_be val
  end.

Definition balanceByHeight s (acct : bytes) (height : Z) : outcome err Z :=
  let key := acctHeightKey accountPrefix acct height in
  match db_seek_rev (s_db s) key with
  | x :: _ =>
      if has_prefix (take 9 key) x.1 then
        val ← map_err (λ e, ErrWrap (ErrBadger e)) (item_value (s_db s) x);
        uint64_be val
      else Ok 0
  | [] => Ok 0
  end.

Definition HasBalance s (acct : bytes) (height : Z) : outcome err bool :=
  let key := acctHeightKey accountPrefix acct height in
  match db_seek_rev (s_db s) key with
  | x :: _ => Ok (has_prefix (take 9 key) x.1)
  | [] => Ok false
  end.

Definition blockByHeight s (height : Z) : outcome err IndexedBlock :=
  match txn_get (s_db s) (blockKey height) with
  | Err ErrKeyNotFound => Err ErrBlockNotIndexed
  | Ok val => match unmarshal val with Some block => Ok block | None => Err ErrProto end
  | Err e => Err (ErrBadger e)
  | Fatal => Fatal
  | Panic => Panic
  end.

Definition BalanceByHash s (acct hash : bytes) : outcome err BalanceData :=
  height ← HeightForHash s hash;
  balance ← balanceByHeight s acct height;
  Ok {| bd_Balance := balance; bd_Hash := hash; bd_Height := height |}.

Definition BalanceByHeight s (acct : bytes) (height : Z) : outcome err BalanceData :=
  balance ← balanceByHeight s acct height;
  hash ← HashForHeight s height;
  Ok {| bd_Balance := balance; bd_Hash := hash; bd_Height := height |}.

Definition withParentInfo s (hash : bytes) (height : Z) (block : IndexedBlock) : outcome err BlockData :=
  genesis ← deref (s_genesis s);
  if height =? bm_Height genesis then
    Ok {| bl_Block := block; bl_Hash := hash; bl_Height := height;
          bl_ParentHash := hash; bl_ParentHeight := height |}
  else
    let parentHeight := u64 (height - 1) in
    parentHash ← HashForHeight s parentHeight;
    Ok {| bl_Block := block; bl_Hash := hash; bl_Height := height;
          bl_ParentHash := parentHash; bl_ParentHeight := parentHeight |}.

Definition BlockByHash s (hash : bytes) : outcome err BlockData :=
  height ← HeightForHash s hash;
  block ← blockByHeight s height;
  withParentInfo s hash height block.

Definition BlockByHeight s (height : Z) : outcome err BlockData :=
  hash ← HashForHeight s height;
  block ← blockByHeight s height;
  withParentInfo s hash height block.

(** [Genesis] and [Latest] return the cached value, or load and cache it. *)
Definition loadMeta d (k : bytes) : outcome err (option BlockMeta) :=
  match txn_get d k with
  | Err ErrKeyNotFound => Ok None
  | Err (ErrIO _) => Fatal
  | Ok val => match unmarshal val with Some m => Ok (Some m) | None => Fatal end
  | Fatal => Fatal
  | Panic => Panic
  end.

Definition Genesis s : outcome err (Store DB * option BlockMeta) :=
  match s_genesis s with
  | Some genesis => Ok (s, Some (Clone genesis))
  | None =>
      m ← loadMeta (s_db s) genesisKey;
      match m with
      | None => Ok (s, None)
      | Some genesis =>
          Ok (mkStore (s_db s) (Some genesis) (s_latest s), Some (Clone genesis))
      end
  end.

Definition Latest s : outcome err (Store DB * option BlockMeta) :=
  match s_latest s with
  | Some latest => Ok (s, Some (Clone latest))
  | None =>
      m ← loadMeta (s_db s) latestKey;
      match m with
      | None => Ok (s, None)
      | Some latest =>
          Ok (mkStore (s_db s) (s_genesis s) (Some latest), Some (Clone latest))
      end
  end.

(** ** Listing accounts *)

Definition scan d (prefix : byte) : list item := valid_for_prefix [prefix] (db_seek d [prefix]).

Definition Accounts s : outcome err (gmap bytes bool) :=
  map_err ErrWrap (
    accts ← foldM (λ accts x, acct ← go_slice 1 9 x.1; Ok (<[acct := false]> accts))
              (∅ : gmap bytes bool) (scan (s_db s) accountPrefix);
    foldM (λ accts x,
        acct ← go_slice 1 9 x.1;
        match accts !! acct with
        | None => Err (ErrProxyWithoutBalance acct)
        | Some _ => Ok (<[acct := true]> accts)
        end)
      accts (scan (s_db s) isProxyPrefix)).

Definition AccountsInfo s : outcome err (gmap string AccountInfo) :=
  data ← map_err ErrWrap (foldM (λ data x,
      raw ← go_slice 1 9 x.1;
      let acct := hex_encode raw in
      let info := map_at (mkAccountInfo [] false) data acct in
      val ← map_err ErrBadger (item_value (s_db s) x);
      balance ← uint64_be val;
      htail ← go_tail 9 x.1;
      height ← uint64_be htail;
      Ok (<[acct := mkAccountInfo (Changes info ++ [(height, balance)]) (Proxy info)]> data))
    (∅ : gmap string AccountInfo) (scan (s_db s) accountPrefix));
  map_err ErrWrap (foldM (λ data x,
      raw ← go_slice 1 9 x.1;
      let acct := hex_encode raw in
      match data !! acct with
      | None => Err (ErrProxyWithoutBalance raw)
      | Some info => Ok (<[acct := mkAccountInfo (Changes info) true]> data)
      end)
    data (scan (s_db s) isProxyPrefix)).

(** ** Indexing a block *)

(** The body of the loop over [txn.Operations]: the balance change per account
    and the keys of new proxy accounts. *)
Definition Index_operation (height : Z) (st : gmap bytes Z * list bytes) (op : Operation)
    : outcome err (gmap bytes Z * list bytes) :=
  let '(accts, proxyAccts) := st in
  match op_Type op with
  | FEE | TRANSFER | PROXY_TRANSFER =>
      let accts :=
        if nonempty (op_Account op)
        then <[op_Account op := s64 (map_at 0 accts (op_Account op) - s64 (op_Amount op))]> accts
        else accts in
      let accts :=
        if nonempty (op_Receiver op)
        then <[op_Receiver op := s64 (map_at 0 accts (op_Receiver op) + s64 (op_Amount op))]> accts
        else accts in
      Ok (accts, proxyAccts)
  | CREATE_ACCOUNT =>
      let accts :=
        match accts !! op_Account op with
        | Some _ => accts
        | None => <[op_Account op := 0]> accts
        end in
      let proxyAccts :=
        if nonempty (op_ProxyPublicKey op)
        then proxyAccts ++ [acctHeightKeyWide isProxyPrefix (op_Account op) height]
        else proxyAccts in
      Ok (accts, proxyAccts)
  | _ => Fatal
  end.

Definition block_operations (block : IndexedBlock) : list Operation :=
  mjoin (it_Operations <$> ib_Transactions block).

Definition Index_diffs (height : Z) (block : IndexedBlock) : outcome err (gmap bytes Z * list bytes) :=
  foldM (Index_operation height) (∅, []) (block_operations block).

Definition Index_updates (height : Z) (accts : gmap bytes Z) : list accountUpdate :=
  (λ '(acct, diff), mkAccountUpdate diff (acctHeightKeyWide accountPrefix acct height))
    <$> map_range accts.

(** The previous balance an update starts from. *)
Definition Index_current d (update_key : bytes) : outcome err Z :=
  match db_seek_rev d update_key with
  | [] => Ok 0
  | x :: rest =>
      if has_prefix (take 9 update_key) x.1 then
        if bool_decide (x.1 = update_key) then
          match rest with
          | [] => Ok 0
          | y :: _ =>
              if has_prefix (take 9 update_key) y.1 then
                val ← uint64_be (db_stale d update_key); Ok (s64 val)
              else Ok 0
          end
        else
          val ← map_err ErrBadger (item_value d x);
          cur ← uint64_be val;
          Ok (s64 cur)
      else Ok 0
  end.

Definition Index_update d (u : accountUpdate) : outcome err DB :=
  cur ← Index_current d (key u);
  let val := s64 (cur + diff u) in
  if val <? 0 then
    acct ← go_slice 1 9 (key u); Err (ErrInvalidBalance acct val)
  else Ok (db_set d (key u) (be64 (u64 val))).

(** The closure passed to [s.db.Update]. *)
Definition Index_txn d (updates : list accountUpdate) (proxyAccts : list bytes)
    (height : Z) (hash blockValue latestEnc : bytes) : outcome err DB :=
  d ← foldM Index_update d updates;
  let d := foldl (λ d acct, db_set d acct proxyMark) d proxyAccts in
  let d := db_set d (blockKey height) blockValue in
  let d := db_set d (hash2HeightKey hash) (be64 height) in
  let d := db_set d (height2HashKey height) hash in
  Ok (db_set d latestKey latestEnc).

(** [Index]; an error leaves the store as it was. *)
Definition Index s (height : Z) (hash : bytes) (block : IndexedBlock) : outcome err (Store DB) :=
  latest ← deref (s_latest s);
  if height <=? bm_Height latest then Ok s
  else if negb (height =? u64 (bm_Height latest + 1)) then Fatal
  else
    st ← Index_diffs height block;
    let '(accts, proxyAccts) := (st : gmap bytes Z * list bytes) in
    let updates := Index_updates height accts in
    match marshal block with
    | None => Fatal
    | Some blockValue =>
        let latest' := {| bm_Hash := hash; bm_Height := height; bm_Parent := [];
                          bm_Timestamp := ib_Timestamp block |} in
        match marshal latest' with
        | None => Fatal
        | Some latestEnc =>
            d ← map_err ErrWrap (Index_txn (s_db s) updates proxyAccts height hash blockValue latestEnc);
            match db_commit_err (s_db s) d with
            | Some c => Err (ErrWrap (ErrBadger (ErrIO c)))
            | None =>
                if height =? u64 (bm_Height latest + 1)
                then Ok (mkStore d (s_genesis s) (Some latest'))
                else Ok (mkStore d (s_genesis s) (s_latest s))
            end
        end
    end.

(** ** Genesis, reset and purge *)

Definition SetGenesis s (val : BlockMeta) : outcome err (Store DB) :=
  let val := Clone val in
  match marshal val with
  | None => Err (ErrWrap ErrProto)
  | Some genesis =>
      match marshal {| ib_Timestamp := bm_Timestamp val; ib_Transactions := [] |} with
      | None => Fatal
      | Some blockValue =>
          let d := db_set (s_db s) genesisKey genesis in
          let d := db_set d (blockKey (bm_Height val)) blockValue in
          let d := db_set d (hash2HeightKey (bm_Hash val)) (be64 (bm_Height val)) in
          let d := db_set d (height2HashKey (bm_Height val)) (bm_Hash val) in
          let d := db_set d latestKey genesis in
          match db_commit_err (s_db s) d with
          | Some c => Err (ErrWrap (ErrBadger (ErrIO c)))
          | None => Ok (mkStore d (Some val) (Some val))
          end
      end
  end.

(** The two loops that collect the account and proxy keys above [base]. *)
Definition ResetTo_heights d (prefix : byte) (base : Z) : outcome err (list bytes) :=
  foldM (λ delKeys x,
      htail ← go_tail 9 x.1;
      height ← uint64_be htail;
      Ok (if base <? height then delKeys ++ [x.1] else delKeys))
    [] (scan d prefix).

(** The loop over the blocks: keys to delete and the last height kept. *)
Definition ResetTo_blocks d (base : Z) : outcome err (list bytes * Z) :=
  foldM (λ '(delKeys, last) x,
      htail ← go_tail 1 x.1;
      height ← uint64_be htail;
      if base <? height then
        hash ← map_err ErrBadger (item_value d x);
        Ok (delKeys ++ [x.1; blockKey height; hash2HeightKey hash], last)
      else Ok (delKeys, height))
    ([], 0) (scan d height2HashPrefix).

Definition ResetTo_delKeys d (base : Z) : outcome err (list bytes * Z) :=
  accountKeys ← map_err ErrWrap (ResetTo_heights d accountPrefix base);
  proxyKeys ← map_err ErrWrap (ResetTo_heights d isProxyPrefix base);
  st ← map_err ErrWrap (ResetTo_blocks d base);
  let '(blockKeys, last) := (st : list bytes * Z) in
  Ok (merge_sort bytes_le (accountKeys ++ proxyKeys ++ blockKeys), last).

(** What [ResetTo] does once the keys are deleted: point [latest] at the last
    block left. *)
Definition ResetTo_finish s (last : Z) : outcome err (Store DB) :=
  block ← map_err ErrWrap (blockByHeight s last);
  hash ← map_err ErrWrap (HashForHeight s last);
  let latest := {| bm_Hash := hash; bm_Height := last; bm_Parent := [];
                   bm_Timestamp := ib_Timestamp block |} in
  match marshal latest with
  | None => Fatal
  | Some latestEnc =>
      let d := db_set (s_db s) latestKey latestEnc in
      match db_commit_err (s_db s) d with
      | Some c => Err (ErrWrap (ErrBadger (ErrIO c)))
      | None => Ok (mkStore d (s_genesis s) (Some latest))
      end
  end.

(** [ResetTo] is not one transaction: the resulting store comes with the error,
    since the deletions stay when a later step fails. *)
Definition ResetTo s (base : Z) : Store DB * outcome err unit :=
  match (r ← Latest s; latest ← deref r.2; Ok (r.1, latest)) with
  | Err e => (s, Err e)
  | Fatal => (s, Fatal)
  | Panic => (s, Panic)
  | Ok (s, latest) =>
      if bm_Height latest <=? base then (s, Ok tt)
      else
        match ResetTo_delKeys (s_db s) base with
        | Err e => (s, Err e)
        | Fatal => (s, Fatal)
        | Panic => (s, Panic)
        | Ok (delKeys, last) =>
            match db_flush_deletes (s_db s) delKeys with
            | (d, Some c) => (mkStore d (s_genesis s) (s_latest s), Err (ErrWrap (ErrBadger (ErrIO c))))
            | (d, None) =>
                let s := mkStore d (s_genesis s) (s_latest s) in
                match ResetTo_finish s last with
                | Ok s => (s, Ok tt)
                | Err e => (s, Err e)
                | Fatal => (s, Fatal)
                | Panic => (s, Panic)
                end
            end
        end
  end.

(** [PurgeProxyAccounts]; every failure is fatal. *)
Definition PurgeProxyAccounts s : outcome err (Store DB) :=
  accts ← foldM (λ accts x, acct ← go_slice 1 9 x.1; Ok (<[acct := x.1]> accts))
            (∅ : gmap bytes bytes) (scan (s_db s) isProxyPrefix);
  accountBalanceKeys ← foldM (λ ks x,
      acct ← go_slice 1 9 x.1;
      Ok (match (accts : gmap bytes bytes) !! acct with Some _ => ks ++ [x.1] | None => ks end))
    [] (scan (s_db s) accountPrefix);
  let d := foldl db_delete (s_db s) (map_range (accts : gmap bytes bytes)).*2 in
  let d := foldl db_delete d accountBalanceKeys in
  match db_commit_err (s_db s) d with
  | Some _ => Fatal
  | None => Ok (mkStore d (s_genesis s) (s_latest s))
  end.
End indexdb.
