(* ===== verification/IndexSpec.v ===== *)
(** * Specification of the index database

    The abstract view the index promises: a history of blocks, the balance of
    an account at a height as the sum of the operations up to it, and the
    representation relation between that history and the key/value data. *)
From S2P Require Import Prelude Bytes Model Badger IndexDB.
Local Open Scope Z_scope.

(** ** Keys in normal form *)

(** An account in a key: cut or zero-padded to eight bytes. *)
Definition pad8 (acct : bytes) : bytes := take 8 acct ++ make_bytes (8 - length acct).

Lemma length_pad8 acct : length (pad8 acct) = 8%nat.
Proof. unfold pad8, make_bytes. rewrite length_app, length_take, length_replicate. lia. Qed.

Lemma pad8_id acct : length acct = 8%nat → pad8 acct = acct.
Proof. intros H. unfold pad8. rewrite H, take_ge by lia. apply app_nil_r. Qed.

Lemma go_copy_tail dst lo hi src :
  (lo ≤ length dst)%nat → hi = length dst → length src = (hi - lo)%nat →
  go_copy dst lo hi src = take lo dst ++ src.
Proof.
  intros Hlo -> Hs. unfold go_copy. rewrite Hs, Nat.min_id, (take_ge src) by lia.
  rewrite drop_ge by lia. by rewrite app_nil_r.
Qed.

Lemma acctHeightKey_eq p acct h : acctHeightKey p acct h = p :: pad8 acct ++ be64 h.
Proof.
  unfold acctHeightKey.
  rewrite go_copy_tail by (rewrite ?length_go_copy, ?length_be64 by (simpl; lia); simpl; lia).
  do 8 (destruct acct as [|? acct]; [done|]).
  unfold go_copy, pad8. by rewrite app_nil_r.
Qed.

Lemma acctHeightKeyWide_eq p acct h : acctHeightKeyWide p acct h = p :: pad8 acct ++ be64 h.
Proof.
  unfold acctHeightKeyWide.
  rewrite go_copy_tail by (rewrite ?length_go_copy, ?length_be64 by (simpl; lia); simpl; lia).
  do 8 (destruct acct as [|? acct]; [done|]).
  unfold go_copy, pad8. done.
Qed.

Lemma take_acctHeightKey p acct h : take 9 (acctHeightKey p acct h) = p :: pad8 acct.
Proof.
  rewrite acctHeightKey_eq, app_comm_cons, take_app_le, take_ge;
    cbn [length]; rewrite ?length_pad8; done.
Qed.

(** ** The history *)

Record entry := mkEntry { e_height : Z; e_hash : bytes; e_block : IndexedBlock }.

(** Does an operation pay from, pay to, or concern an account? *)
Definition moves_tokens (t : OperationType) : bool :=
  match t with FEE | TRANSFER | PROXY_TRANSFER => true | _ => false end.

Definition op_effect (acct : bytes) (op : Operation) : Z :=
  if moves_tokens (op_Type op) && bool_decide (acct ≠ []) then
    (if bool_decide (op_Receiver op = acct) then op_Amount op else 0)
    - (if bool_decide (op_Account op = acct) then op_Amount op else 0)
  else 0.

Definition op_touches (acct : bytes) (op : Operation) : bool :=
  match op_Type op with
  | CREATE_ACCOUNT => bool_decide (op_Account op = acct)
  | FEE | TRANSFER | PROXY_TRANSFER =>
      bool_decide (acct ≠ []) &&
      (bool_decide (op_Account op = acct) || bool_decide (op_Receiver op = acct))
  | _ => false
  end.

(** The operation creates [acct] as a proxy account. *)
Definition op_proxies (acct : bytes) (op : Operation) : bool :=
  match op_Type op with
  | CREATE_ACCOUNT =>
      bool_decide (op_Account op = acct) && bool_decide (op_ProxyPublicKey op ≠ [])
  | _ => false
  end.

Definition ops_effect (acct : bytes) (ops : list Operation) : Z := sumZ (op_effect acct) ops.
Definition ops_touch (acct : bytes) (ops : list Operation) : bool := existsb (op_touches acct) ops.
Definition ops_proxy (acct : bytes) (ops : list Operation) : bool := existsb (op_proxies acct) ops.

Definition block_effect (acct : bytes) (b : IndexedBlock) : Z := ops_effect acct (block_operations b).
Definition block_touches (acct : bytes) (b : IndexedBlock) : bool := ops_touch acct (block_operations b).
Definition block_proxies (acct : bytes) (b : IndexedBlock) : bool := ops_proxy acct (block_operations b).

Lemma block_effect_txns a ts txns :
  block_effect a (mkIndexedBlock ts txns) = sumZ (λ t, ops_effect a (it_Operations t)) txns.
Proof. unfold block_effect, ops_effect, block_operations. simpl. apply sum_join. Qed.

(** The ledger balance of an account at a height. *)
Definition ledger_balance (hist : list entry) (acct : bytes) (h : Z) : Z :=
  sumZ (λ e, if e_height e <=? h then block_effect acct (e_block e) else 0) hist.

Definition touched_at (hist : list entry) (acct : bytes) (h : Z) : Prop :=
  ∃ e, e ∈ hist ∧ e_height e = h ∧ block_touches acct (e_block e) = true.

Definition proxied_at (hist : list entry) (acct : bytes) (h : Z) : Prop :=
  ∃ e, e ∈ hist ∧ e_height e = h ∧ block_proxies acct (e_block e) = true.

(** Blocks the indexer produces: known operation types, eight-byte addresses. *)
Definition wf_op (op : Operation) : Prop :=
  match op_Type op with
  | FEE | TRANSFER | PROXY_TRANSFER =>
      (op_Account op = [] ∨ length (op_Account op) = 8%nat) ∧
      (op_Receiver op = [] ∨ length (op_Receiver op) = 8%nat)
  | CREATE_ACCOUNT => length (op_Account op) = 8%nat
  | _ => False
  end.
Definition wf_block (b : IndexedBlock) : Prop := Forall wf_op (block_operations b).

(** ** Facts about effects *)

Lemma op_effect_untouched acct op : op_touches acct op = false → op_effect acct op = 0.
Proof.
  unfold op_touches, op_effect. destruct (op_Type op); simpl; try done.
  all: repeat case_bool_decide; simpl; try done; lia.
Qed.

Lemma ops_effect_untouched acct ops : ops_touch acct ops = false → ops_effect acct ops = 0.
Proof.
  intros H. apply sumZ_zero. intros op Hop. apply op_effect_untouched.
  apply not_true_is_false. intros Ht. enough (ops_touch acct ops = true) by congruence.
  apply existsb_exists. exists op. by rewrite <-list_elem_of_In.
Qed.

Lemma op_touches_length acct op : wf_op op → op_touches acct op = true → length acct = 8%nat.
Proof.
  unfold wf_op, op_touches. destruct (op_Type op); try done.
  all: repeat case_bool_decide; simpl; try done; subst; naive_solver.
Qed.

Lemma block_touches_length acct b : wf_block b → block_touches acct b = true → length acct = 8%nat.
Proof.
  intros Hwf (op & Hop & Ht)%existsb_exists. apply list_elem_of_In in Hop.
  eapply op_touches_length; [|done]. by eapply Forall_forall in Hwf.
Qed.

Lemma op_proxies_touches acct op : op_proxies acct op = true → op_touches acct op = true.
Proof. unfold op_proxies, op_touches. destruct (op_Type op); try done. by intros [??]%andb_true_iff. Qed.

Lemma block_proxies_touches acct b : block_proxies acct b = true → block_touches acct b = true.
Proof.
  intros (op & Hop & Ht)%existsb_exists. apply existsb_exists. eauto using op_proxies_touches.
Qed.

Lemma ledger_balance_snoc hist e acct h :
  ledger_balance (hist ++ [e]) acct h =
  ledger_balance hist acct h + (if e_height e <=? h then block_effect acct (e_block e) else 0).
Proof. unfold ledger_balance. rewrite sumZ_app, sumZ_cons, sumZ_nil. lia. Qed.

(** Blocks that do not touch the account between two heights do not change
    its balance. *)
Lemma ledger_balance_gap hist acct h1 h2 :
  h1 ≤ h2 → (∀ h, h1 < h ≤ h2 → ¬ touched_at hist acct h) →
  ledger_balance hist acct h2 = ledger_balance hist acct h1.
Proof.
  intros Hle Hgap. apply sumZ_ext. intros e He.
  destruct (Z.leb_spec (e_height e) h2), (Z.leb_spec (e_height e) h1); try lia.
  apply ops_effect_untouched. apply not_true_is_false. intros Ht.
  apply (Hgap (e_height e)); [lia|]. by exists e.
Qed.

Lemma ledger_balance_untouched hist acct h :
  (∀ h', h' ≤ h → ¬ touched_at hist acct h') → ledger_balance hist acct h = 0.
Proof.
  intros Hno. apply sumZ_zero. intros e He. destruct (Z.leb_spec (e_height e) h); [|done].
  apply ops_effect_untouched, not_true_is_false. intros Ht.
  apply (Hno (e_height e)); [lia|]. by exists e.
Qed.

(** ** Representation *)

Section repr.
Context {DB : Type} `{!Badger DB, !Proto IndexedBlock, !Proto BlockMeta}.

Definition u64_range_ok (h : Z) : Prop := 0 ≤ h < 2 ^ 64.

(** The balance records of one account. *)
Definition acct_repr (d : DB) (hist : list entry) (acct : bytes) : Prop :=
  ∀ t v, db_get d (accountPrefix :: acct ++ t) = Some v ↔
    ∃ h, u64_range_ok h ∧ t = be64 h ∧ touched_at hist acct h ∧
         v = be64 (u64 (ledger_balance hist acct h)).

(** Recorded balances are non-negative as [int64]. *)
Definition balances_ok (hist : list entry) : Prop :=
  ∀ acct h, touched_at hist acct h → u64 (ledger_balance hist acct h) < 2 ^ 63.

Record repr_db (d : DB) (g : BlockMeta) (hist : list entry) : Prop := {
  repr_acct : ∀ acct, length acct = 8%nat → acct_repr d hist acct;
  repr_acct_only : ∀ t v, db_get d (accountPrefix :: t) = Some v →
    ∃ acct h, length acct = 8%nat ∧ u64_range_ok h ∧ t = acct ++ be64 h ∧ touched_at hist acct h;
  repr_balances : balances_ok hist;
  repr_proxy : ∀ t v, db_get d (isProxyPrefix :: t) = Some v ↔
    ∃ acct h, length acct = 8%nat ∧ u64_range_ok h ∧ t = acct ++ be64 h ∧
              proxied_at hist acct h ∧ v = proxyMark;
  repr_block : ∀ t v, db_get d (blockPrefix :: t) = Some v ↔
    ∃ e, e ∈ hist ∧ t = be64 (e_height e) ∧ marshal (e_block e) = Some v;
  repr_encodable : ∀ e, e ∈ hist → is_Some (marshal (e_block e));
  repr_h2h : ∀ t v, db_get d (height2HashPrefix :: t) = Some v ↔
    ∃ e, e ∈ hist ∧ t = be64 (e_height e) ∧ v = e_hash e;
  repr_hash : ∀ t v, db_get d (hash2HeightPrefix :: t) = Some v ↔
    ∃ e, e ∈ hist ∧ t = e_hash e ∧ v = be64 (e_height e);
  repr_genesis : ∃ v, marshal g = Some v ∧ db_get d genesisKey = Some v;
}.

(** The history is a chain: it starts at the genesis block and its heights are
    consecutive; no block hash occurs twice. *)
Record chain (g : BlockMeta) (hist : list entry) : Prop := {
  chain_heights : e_height <$> hist = seqZ (bm_Height g) (Z.of_nat (length hist));
  chain_nonempty : hist ≠ [];
  chain_base : 0 ≤ bm_Height g;
  chain_bound : bm_Height g + Z.of_nat (length hist) ≤ 2 ^ 64;
  chain_hashes : NoDup (e_hash <$> hist);
  chain_wf : Forall (λ e, wf_block (e_block e)) hist;
}.

Definition top (g : BlockMeta) (hist : list entry) : Z :=
  bm_Height g + Z.of_nat (length hist) - 1.

Record repr (s : Store DB) (g : BlockMeta) (hist : list entry) : Prop := {
  repr_chain : chain g hist;
  repr_data : repr_db (s_db s) g hist;
  repr_s_genesis : s_genesis s = Some g;
  repr_s_latest : ∃ m e, s_latest s = Some m ∧ last hist = Some e ∧
    bm_Hash m = e_hash e ∧ bm_Height m = e_height e ∧
    bm_Timestamp m = ib_Timestamp (e_block e) ∧
    ∃ v, marshal m = Some v ∧ db_get (s_db s) latestKey = Some v;
}.
End repr.
