(* ===== verification/IndexProofs.v ===== *)
(** * Correctness of the index database

    The operations of [src/indexdb] implement the specification: indexing a
    block extends the history by that block, resetting truncates it, and the
    lookups return what the history says. *)
From S2P Require Import Prelude Bytes Model Badger IndexDB IndexSpec.
Local Open Scope Z_scope.

(** ** Balance changes of a block *)

(** A map of wrapped balance changes, given by the accounts it mentions and
    their exact changes. *)
Definition describes (m : gmap bytes Z) (t : bytes → bool) (f : bytes → Z) : Prop :=
  (∀ a, m !! a = if t a then Some (s64 (f a)) else None) ∧ (∀ a, t a = false → f a = 0).

Lemma describes_ext m t f t' f' :
  describes m t f → (∀ a, t a = t' a) → (∀ a, f a = f' a) → describes m t' f'.
Proof. intros [Hm Ht] Htt Hff. split; intros a; rewrite <-Htt, <-Hff; auto. Qed.

Lemma describes_at m t f a : describes m t f → map_at 0 m a = s64 (f a).
Proof.
  intros [Hm Ht]. unfold map_at. rewrite Hm. destruct (t a) eqn:Ha; [done|].
  by rewrite Ht.
Qed.

Definition is_acct (acct a : bytes) : bool := bool_decide (a ≠ []) && bool_decide (acct = a).

Lemma describes_bump m t f acct z :
  describes m t f →
  describes (if nonempty acct then <[acct := s64 (map_at 0 m acct + z)]> m else m)
    (λ a, t a || is_acct acct a) (λ a, f a + if is_acct acct a then z else 0).
Proof.
  intros Hd. destruct acct as [|x l].
  - apply (describes_ext _ _ _ _ _ Hd); intros a; unfold is_acct.
    all: destruct (decide (a = [])) as [->|]; rewrite ?(bool_decide_false ([] = a)) by congruence.
    all: simpl; rewrite ?andb_false_r, ?orb_false_r; done || lia.
  - set (acct := x :: l). change (nonempty acct) with true. cbn match.
    rewrite (describes_at _ _ _ _ Hd), s64_add_l. destruct Hd as [Hm Ht]. split; intros a; unfold is_acct.
    + rewrite lookup_insert, Hm. destruct (decide (acct = a)) as [<-|Hne].
      * rewrite !bool_decide_true by done. by rewrite orb_true_r.
      * rewrite (bool_decide_false (acct = a)) by done.
        rewrite andb_false_r, orb_false_r, Z.add_0_r. done.
    + intros [Hta ->]%orb_false_iff. rewrite Ht by done. done.
Qed.

Definition proxy_keys (h : Z) (ops : list Operation) : list bytes :=
  (λ op, acctHeightKeyWide isProxyPrefix (op_Account op) h)
    <$> filter (λ op, op_Type op = CREATE_ACCOUNT ∧ op_ProxyPublicKey op ≠ []) ops.

Lemma proxy_keys_snoc h ops op :
  proxy_keys h (ops ++ [op]) =
  proxy_keys h ops ++
    (if decide (op_Type op = CREATE_ACCOUNT ∧ op_ProxyPublicKey op ≠ [])
     then [acctHeightKeyWide isProxyPrefix (op_Account op) h] else []).
Proof.
  unfold proxy_keys. rewrite filter_app, fmap_app, filter_cons, filter_nil. by case_decide.
Qed.

Lemma ops_touch_snoc a ops op : ops_touch a (ops ++ [op]) = ops_touch a ops || op_touches a op.
Proof. unfold ops_touch. rewrite existsb_app. simpl. by rewrite orb_false_r. Qed.

Lemma ops_effect_snoc a ops op : ops_effect a (ops ++ [op]) = ops_effect a ops + op_effect a op.
Proof. unfold ops_effect. rewrite sumZ_app, sumZ_cons, sumZ_nil. lia. Qed.

(** One operation: the change map keeps describing the operations so far. *)
Lemma Index_operation_moves m t f acct recv z :
  describes m t f →
  describes
    (let m := if nonempty acct then <[acct := s64 (map_at 0 m acct - s64 z)]> m else m in
     if nonempty recv then <[recv := s64 (map_at 0 m recv + s64 z)]> m else m)
    (λ a, t a || (bool_decide (a ≠ []) && (bool_decide (acct = a) || bool_decide (recv = a))))
    (λ a, f a + if bool_decide (a ≠ [])
                then (if bool_decide (recv = a) then s64 z else 0)
                     - (if bool_decide (acct = a) then s64 z else 0) else 0).
Proof.
  intros Hd. apply (describes_bump _ _ _ acct (- s64 z)) in Hd.
  apply (describes_bump _ _ _ recv (s64 z)) in Hd. eapply describes_ext; [exact Hd| |].
  all: intros a; cbv beta; unfold is_acct; repeat case_bool_decide; simpl.
  all: rewrite ?orb_false_r, ?orb_true_r; done || lia.
Qed.

Lemma touch_moves pre op :
  moves_tokens (op_Type op) = true → ∀ a,
  ops_touch a pre || (bool_decide (a ≠ []) &&
    (bool_decide (op_Account op = a) || bool_decide (op_Receiver op = a)))
  = ops_touch a (pre ++ [op]).
Proof.
  intros Hty a. rewrite ops_touch_snoc. unfold op_touches. by destruct (op_Type op).
Qed.

Lemma describes_congr m t f f' :
  describes m t f → (∀ a, s64 (f a) = s64 (f' a)) → (∀ a, t a = false → f' a = 0) →
  describes m t f'.
Proof. intros [Hm _] Hff Hf. split; [|done]. intros a. by rewrite Hm, Hff. Qed.

Lemma Index_diffs_spec h b accts pk :
  Index_diffs h b = Ok (accts, pk) →
  describes accts (λ a, block_touches a b) (λ a, block_effect a b) ∧
  pk = proxy_keys h (block_operations b).
Proof.
  unfold Index_diffs. intros Hf.
  apply (foldM_inv_prefix _ (λ ops st,
    describes st.1 (λ a, ops_touch a ops) (λ a, ops_effect a ops) ∧ st.2 = proxy_keys h ops))
    in Hf; [done| |done].
  clear Hf. intros pre op post [m ks] [m' ks'] _ [Hd Hks] Hop. simpl in *. subst ks.
  assert (∀ a, ops_touch a (pre ++ [op]) = false → ops_effect a (pre ++ [op]) = 0) as Hz
    by (intros; by apply ops_effect_untouched).
  rewrite proxy_keys_snoc. unfold Index_operation in Hop.
  destruct (op_Type op) eqn:Hty; try discriminate Hop; injection Hop as <- <-.
  2-4: split; [|by rewrite decide_False, app_nil_r by naive_solver].
  2-4: apply (describes_congr _ _ _ _ (describes_ext _ _ _ _ _
         (Index_operation_moves _ _ _ (op_Account op) (op_Receiver op) (op_Amount op) Hd)
         (touch_moves pre op ltac:(by rewrite Hty)) (λ a, eq_refl))); [|exact Hz].
  2-4: intros a; rewrite ops_effect_snoc; unfold op_effect; rewrite Hty; simpl;
    case_bool_decide; [apply s64_delta|done].
  split.
  - apply (describes_ext _ (λ a, ops_touch a pre || bool_decide (op_Account op = a)) (λ a, ops_effect a pre)).
    2: { intros a. rewrite ops_touch_snoc. unfold op_touches. by rewrite Hty. }
    2: { intros a. rewrite ops_effect_snoc. unfold op_effect. rewrite Hty. simpl. lia. }
    destruct Hd as [Hm Ht]. split.
    2: { intros a [? _]%orb_false_iff. auto. }
    intros a. destruct (m !! op_Account op) eqn:Hmo.
    + rewrite Hm. case_bool_decide; [subst a|by rewrite orb_false_r].
      rewrite Hm in Hmo. by destruct (ops_touch (op_Account op) pre).
    + rewrite lookup_insert, Hm. destruct (decide (op_Account op = a)) as [<-|].
      * rewrite bool_decide_true, orb_true_r by done. rewrite Hm in Hmo.
        destruct (ops_touch (op_Account op) pre) eqn:?; [done|]. by rewrite Ht.
      * by rewrite bool_decide_false, orb_false_r by done.
  - destruct (op_ProxyPublicKey op) eqn:Hpk.
    + rewrite decide_False by naive_solver. by rewrite app_nil_r.
    + rewrite decide_True by naive_solver. done.
Qed.

(** ** Reading balances *)

Section proofs.
Context {DB : Type} `{!Badger DB, !BadgerLaws DB, !Proto IndexedBlock, !Proto BlockMeta, !MapRange bytes}.
Implicit Types (s : Store DB) (d : DB) (hist : list entry).

(** The normal form of an account key. *)
Definition akey (acct : bytes) (h : Z) : bytes := accountPrefix :: acct ++ be64 h.

Definition heights_ok hist : Prop := ∀ e, e ∈ hist → u64_range_ok (e_height e).

Lemma touched_range hist acct h : heights_ok hist → touched_at hist acct h → u64_range_ok h.
Proof. intros Hh (e & He & <- & _). auto. Qed.

Lemma acct_record d hist acct h :
  heights_ok hist → acct_repr d hist acct → touched_at hist acct h →
  db_get d (akey acct h) = Some (be64 (u64 (ledger_balance hist acct h))).
Proof. intros Hh Hr Ht. apply Hr. exists h. eauto using touched_range. Qed.

(** Seeking backwards from an account key finds the balance at that height. *)
Lemma account_seek d hist acct h :
  heights_ok hist → acct_repr d hist acct → u64_range_ok h →
  match db_seek_rev d (akey acct h) with
  | x :: _ =>
      if has_prefix (accountPrefix :: acct) x.1 then
        ∃ h', h' ≤ h ∧ touched_at hist acct h' ∧
              x = (akey acct h', be64 (u64 (ledger_balance hist acct h)))
      else ledger_balance hist acct h = 0
  | [] => ledger_balance hist acct h = 0
  end.
Proof.
  intros Hh Hr Hok. unfold akey. rewrite app_comm_cons.
  set (p := accountPrefix :: acct).
  assert (∀ h', touched_at hist acct h' → h' ≤ h → ∃ x rest,
    db_seek_rev d (p ++ be64 h) = x :: rest ∧ has_prefix p x.1 = true ∧
    bytes_le (p ++ be64 h') x.1) as Hfind.
  { intros h' Ht Hle. pose proof (touched_range _ _ _ Hh Ht) as Hok'.
    destruct (seek_rev_some d p (be64 h) (be64 h') (be64 (u64 (ledger_balance hist acct h'))))
      as (t & v & rest & Hs & _ & _ & Hmax).
    - by apply acct_record.
    - by apply bytes_le_be64.
    - exists (p ++ t, v), rest. split; [done|]. split; [apply has_prefix_app|].
      unfold bytes_le. cbn [fst]. rewrite bytes_cmp_app.
      apply (Hmax (be64 h') (be64 (u64 (ledger_balance hist acct h')))); [by apply acct_record|].
      by apply bytes_le_be64. }
  destruct (db_seek_rev d (p ++ be64 h)) as [|[k v] rest] eqn:Hs.
  { apply ledger_balance_untouched. intros h' Hle Ht.
    destruct (Hfind h' Ht Hle) as (? & ? & [=] & _). }
  simpl. destruct (has_prefix p k) eqn:Hp.
  2: { apply ledger_balance_untouched. intros h' Hle Ht.
       destruct (Hfind h' Ht Hle) as (? & ? & [= <- <-] & Hp' & _). simpl in Hp'. congruence. }
  apply has_prefix_spec in Hp as [t ->].
  assert (db_get d (p ++ t) = Some v ∧ bytes_le (p ++ t) (p ++ be64 h)) as [Hg Hle].
  { apply db_seek_rev_elem. rewrite Hs. left. }
  apply Hr in Hg as (h' & Hok' & -> & Ht & ->).
  unfold bytes_le in Hle. rewrite bytes_cmp_app in Hle. apply bytes_le_be64 in Hle; [|done..].
  exists h'. split; [done|]. split; [done|]. f_equal. f_equal. f_equal. symmetry.
  apply ledger_balance_gap; [done|]. intros h2 [Hlt Hle2] Ht2.
  destruct (Hfind h2 Ht2 Hle2) as (x & r & [= <- <-] & _ & Hle3). 
  change (bytes_le (p ++ be64 h2) (p ++ be64 h')) in Hle3.
  unfold bytes_le in Hle3. rewrite bytes_cmp_app in Hle3.
  apply bytes_le_be64 in Hle3; [lia|by eapply touched_range|done].
Qed.

Lemma acctHeightKey_akey acct h : length acct = 8%nat → acctHeightKey accountPrefix acct h = akey acct h.
Proof. intros. by rewrite acctHeightKey_eq, pad8_id. Qed.

Lemma acctHeightKeyWide_akey p acct h :
  length acct = 8%nat → acctHeightKeyWide p acct h = p :: acct ++ be64 h.
Proof. intros. by rewrite acctHeightKeyWide_eq, pad8_id. Qed.

Lemma take_akey acct h : length acct = 8%nat → take 9 (akey acct h) = accountPrefix :: acct.
Proof.
  intros H. unfold akey. rewrite app_comm_cons, take_app_le, take_ge; cbn [length]; by rewrite ?H.
Qed.

(** ** Updating balances *)

(** The balance an update starts from is the ledger balance, unless reading it
    fails. In particular the branch that reads an item after moving the iterator
    is never taken: no record exists at the height being indexed. *)
Lemma Index_current_spec d hist acct h :
  heights_ok hist → acct_repr d hist acct → u64_range_ok h → length acct = 8%nat →
  (∀ e, e ∈ hist → e_height e < h) →
  Index_current d (akey acct h) = Ok (s64 (ledger_balance hist acct h)) ∨
  ∃ k c, db_read_err d k = Some c ∧ Index_current d (akey acct h) = Err (ErrBadger (ErrIO c)).
Proof.
  intros Hh Hr Hok Hlen Hlt. unfold Index_current. rewrite take_akey by done.
  pose proof (account_seek d hist acct h Hh Hr Hok) as Hs.
  destruct (db_seek_rev d (akey acct h)) as [|x rest]; [left; by rewrite Hs|].
  destruct (has_prefix _ x.1) eqn:Hp; [|left; by rewrite Hs].
  destruct Hs as (h' & Hle & Ht & ->). rewrite bool_decide_false.
  - unfold item_value. cbn [fst snd]. destruct (db_read_err d (akey acct h')) as [c|] eqn:He.
    + right. exists (akey acct h'), c. done.
    + left. cbn [map_err mbind outcome_mbind outcome_bind].
      rewrite uint64_be_be64' by apply u64_range. cbn. by rewrite s64_u64.
  - unfold akey. cbn [fst]. intros [= Hb%app_inv_head].
    apply be64_inj in Hb; [|by eapply touched_range|done].
    subst h'. destruct Ht as (e & He & Heq & _). specialize (Hlt e He). lia.
Qed.

Lemma Index_update_spec d hist acct h z d' :
  heights_ok hist → acct_repr d hist acct → u64_range_ok h → length acct = 8%nat →
  (∀ e, e ∈ hist → e_height e < h) →
  Index_update d (mkAccountUpdate z (akey acct h)) = Ok d' →
  d' = db_set d (akey acct h) (be64 (u64 (ledger_balance hist acct h + z))) ∧
  u64 (ledger_balance hist acct h + z) < 2 ^ 63.
Proof.
  intros Hh Hr Hok Hlen Hlt. unfold Index_update. cbn [key diff]. intros H. inv_ok.
  destruct (Index_current_spec d hist acct h) as [Hc|(? & ? & _ & Hc)]; [done..| |congruence].
  rewrite Hc in Hr0. injection Hr0 as <-.
  rewrite s64_add_l in H. destruct (Z.ltb_spec (s64 (ledger_balance hist acct h + z)) 0) as [|Hpos].
  { destruct (go_slice 1 9 (akey acct h)); discriminate H. }
  inv_ok. rewrite u64_s64. split; [done|]. rewrite s64_nonneg by done. apply s64_range.
Qed.

Lemma akey_inj a b h t : length a = 8%nat → length b = 8%nat →
  accountPrefix :: a ++ t = akey b h → a = b ∧ t = be64 h.
Proof. intros Ha Hb [= H]. by apply app_inj_1 in H; [|congruence]. Qed.

Lemma acct_repr_frame d d' hist acct :
  acct_repr d hist acct →
  (∀ t, db_get d' (accountPrefix :: acct ++ t) = db_get d (accountPrefix :: acct ++ t)) →
  acct_repr d' hist acct.
Proof. intros Hr Hf t v. rewrite Hf. apply Hr. Qed.

(** All updates of a block: each account's new record, nothing else. *)
Lemma Index_updates_spec d hist h accts d' :
  heights_ok hist → (∀ acct, length acct = 8%nat → acct_repr d hist acct) → u64_range_ok h →
  (∀ e, e ∈ hist → e_height e < h) →
  (∀ acct z, accts !! acct = Some z → length acct = 8%nat) →
  foldM Index_update d (Index_updates h accts) = Ok d' →
  (∀ acct z, accts !! acct = Some z →
     db_get d' (akey acct h) = Some (be64 (u64 (ledger_balance hist acct h + z))) ∧
     u64 (ledger_balance hist acct h + z) < 2 ^ 63) ∧
  (∀ k, (∀ acct z, accts !! acct = Some z → k ≠ akey acct h) → db_get d' k = db_get d k).
Proof.
  intros Hh Hr Hok Hlt Hlen. unfold Index_updates. rewrite foldM_fmap. intros Hf.
  apply (foldM_inv_prefix _ (λ pre d',
    (∀ acct z, (acct, z) ∈ pre →
       db_get d' (akey acct h) = Some (be64 (u64 (ledger_balance hist acct h + z))) ∧
       u64 (ledger_balance hist acct h + z) < 2 ^ 63) ∧
    (∀ k, (∀ acct z, (acct, z) ∈ pre → k ≠ akey acct h) → db_get d' k = db_get d k))) in Hf.
  - destruct Hf as [H1 H2]. split.
    + intros acct z Hz. by apply H1, map_range_elem.
    + intros k Hk. apply H2. intros acct z Hz%map_range_elem. eauto.
  - clear Hf d'. intros pre [acct z] post b b' Heq [IH1 IH2] Hup.
    assert (∀ a y, (a, y) ∈ pre ++ (acct, z) :: post → length a = 8%nat) as Hlen'.
    { intros a y Hin. rewrite <-Heq in Hin. apply map_range_elem in Hin. eauto. }
    assert (acct ∉ pre.*1) as Hnew.
    { pose proof (map_range_NoDup accts) as Hnd. rewrite Heq, fmap_app, fmap_cons in Hnd.
      apply NoDup_app in Hnd as (_ & Hd & _). intros Hin. apply (Hd acct Hin). left. }
    assert (length acct = 8%nat) as Hla by (apply (Hlen' acct z); set_solver).
    rewrite acctHeightKeyWide_akey in Hup by done. fold (akey acct h) in Hup.
    apply (Index_update_spec _ hist) in Hup as [-> Hb]; [|done| |done..].
    2: { apply (acct_repr_frame d); [auto|]. intros t. apply IH2. intros a y Ha Hk.
         apply akey_inj in Hk as [<- _]; [|done|apply (Hlen' a y); set_solver].
         apply Hnew, list_elem_of_fmap. by exists (acct, y). }
    split.
    + intros a y [Ha|[= -> ->]%list_elem_of_singleton]%elem_of_app.
      * rewrite db_get_set, decide_False; [by apply IH1|].
        intros Hk. apply akey_inj in Hk as [-> _]; [|done|apply (Hlen' a y); set_solver].
        apply Hnew, list_elem_of_fmap. by exists (a, y).
      * by rewrite db_get_set, decide_True.
    + intros k Hk. rewrite db_get_set, decide_False.
      * apply IH2. intros a y Ha. apply (Hk a y). set_solver.
      * intros <-. apply (Hk acct z); set_solver.
  - split; [set_solver|done].
Qed.

(** ** Extending the history *)

Lemma chain_height_elem g hist e :
  chain g hist → e ∈ hist → bm_Height g ≤ e_height e ≤ top g hist.
Proof.
  intros Hc He. assert (e_height e ∈ e_height <$> hist) as H by by apply list_elem_of_fmap_2.
  rewrite (chain_heights _ _ Hc) in H. apply elem_of_seqZ in H. unfold top. lia.
Qed.

Lemma chain_heights_ok g hist : chain g hist → heights_ok hist.
Proof.
  intros Hc e He. pose proof (chain_height_elem _ _ _ Hc He).
  pose proof (chain_base _ _ Hc). pose proof (chain_bound _ _ Hc).
  unfold top, u64_range_ok in *. lia.
Qed.

Lemma chain_height_inj g hist e e' :
  chain g hist → e ∈ hist → e' ∈ hist → e_height e = e_height e' → e = e'.
Proof.
  intros Hc [i Hi]%list_elem_of_lookup [j Hj]%list_elem_of_lookup Heq.
  assert (NoDup (e_height <$> hist)) as Hnd by (rewrite (chain_heights _ _ Hc); apply NoDup_seqZ).
  assert (i = j) as ->; [|congruence].
  eapply NoDup_lookup; [exact Hnd| |]; rewrite list_lookup_fmap; [by rewrite Hi|by rewrite Hj, Heq].
Qed.

Lemma chain_hash_inj g hist e e' :
  chain g hist → e ∈ hist → e' ∈ hist → e_hash e = e_hash e' → e = e'.
Proof.
  intros Hc [i Hi]%list_elem_of_lookup [j Hj]%list_elem_of_lookup Heq.
  assert (i = j) as ->; [|congruence].
  eapply NoDup_lookup; [exact (chain_hashes _ _ Hc)| |]; rewrite list_lookup_fmap;
    [by rewrite Hi|by rewrite Hj, Heq].
Qed.

Lemma chain_snoc g hist e :
  chain g hist → e_height e = top g hist + 1 → e_height e < 2 ^ 64 →
  e_hash e ∉ e_hash <$> hist → wf_block (e_block e) → chain g (hist ++ [e]).
Proof.
  intros Hc Hh Hlt Hn Hwf. pose proof (chain_base _ _ Hc). unfold top in *. split.
  - rewrite fmap_app, length_app, Nat2Z.inj_add, (chain_heights _ _ Hc). simpl.
    rewrite seqZ_app by lia. f_equal. unfold seqZ; simpl. f_equal. lia.
  - by destruct hist.
  - done.
  - rewrite length_app. simpl. lia.
  - rewrite fmap_app. apply NoDup_app. split; [apply (chain_hashes _ _ Hc)|].
    split; [set_solver|apply NoDup_singleton].
  - apply Forall_app. split; [apply (chain_wf _ _ Hc)|by constructor].
Qed.

Lemma touched_at_snoc hist e acct h :
  touched_at (hist ++ [e]) acct h ↔
  touched_at hist acct h ∨ (e_height e = h ∧ block_touches acct (e_block e) = true).
Proof. unfold touched_at. set_solver. Qed.

Lemma proxied_at_snoc hist e acct h :
  proxied_at (hist ++ [e]) acct h ↔
  proxied_at hist acct h ∨ (e_height e = h ∧ block_proxies acct (e_block e) = true).
Proof. unfold proxied_at. set_solver. Qed.

Lemma set_marks d ks k :
  db_get (foldl (λ d acct, db_set d acct proxyMark) d ks) k =
  if decide (k ∈ ks) then Some proxyMark else db_get d k.
Proof.
  revert d. induction ks as [|k' ks IH]; intros d; simpl; [done|].
  rewrite IH, db_get_set. repeat case_decide; set_solver.
Qed.

Lemma proxy_keys_elem h b k :
  wf_block b →
  k ∈ proxy_keys h (block_operations b) ↔
  ∃ acct, length acct = 8%nat ∧ block_proxies acct b = true ∧ k = isProxyPrefix :: acct ++ be64 h.
Proof.
  intros Hwf. unfold proxy_keys. rewrite list_elem_of_fmap. split.
  - intros (op & -> & [[Hty Hpk] Hop]%list_elem_of_filter).
    assert (length (op_Account op) = 8%nat) as Hl.
    { eapply Forall_forall in Hwf; [|exact Hop]. unfold wf_op in Hwf. by rewrite Hty in Hwf. }
    exists (op_Account op). rewrite acctHeightKeyWide_akey by done. split; [done|]. split; [|done].
    apply existsb_exists. exists op. split; [by apply list_elem_of_In|].
    unfold op_proxies. by rewrite Hty, !bool_decide_true.
  - intros (acct & Hl & (op & Hop%list_elem_of_In & Hp)%existsb_exists & ->).
    unfold op_proxies in Hp. destruct (op_Type op) eqn:Hty; try discriminate Hp.
    apply andb_true_iff in Hp as [<-%bool_decide_eq_true Hpk%bool_decide_eq_true].
    exists op. rewrite acctHeightKeyWide_akey by done. split; [done|].
    by apply list_elem_of_filter.
Qed.

Lemma Index_txn_get d ups pk h hash bv lenc d' :
  Index_txn d ups pk h hash bv lenc = Ok d' →
  ∃ d1, foldM Index_update d ups = Ok d1 ∧ ∀ k, db_get d' k =
    if decide (latestKey = k) then Some lenc
    else if decide (height2HashKey h = k) then Some hash
    else if decide (hash2HeightKey hash = k) then Some (be64 h)
    else if decide (blockKey h = k) then Some bv
    else if decide (k ∈ pk) then Some proxyMark else db_get d1 k.
Proof.
  unfold Index_txn. intros H. inv_ok. exists r. split; [done|]. intros k.
  by rewrite !db_get_set, set_marks.
Qed.

(** Keys of different families differ. *)
Ltac other_family := rewrite !decide_False by (first [discriminate | intros [=]; congruence]).

Section extend.
Context (d d1 d' : DB) (g : BlockMeta) (hist : list entry) (e : entry).
Context (accts : gmap bytes Z) (bv lenc : bytes).
Context (Hc : chain g hist) (Hd : repr_db d g hist).
Context (Hheight : e_height e = top g hist + 1) (Hlt64 : e_height e < 2 ^ 64).
Context (Hfresh : e_hash e ∉ e_hash <$> hist) (Hwf : wf_block (e_block e)).
Context (Haccts : describes accts (λ a, block_touches a (e_block e)) (λ a, block_effect a (e_block e))).
Context (Hbv : marshal (e_block e) = Some bv).
Context (Hup : foldM Index_update d (Index_updates (e_height e) accts) = Ok d1).
Context (Hget : ∀ k, db_get d' k =
    if decide (latestKey = k) then Some lenc
    else if decide (height2HashKey (e_height e) = k) then Some (e_hash e)
    else if decide (hash2HeightKey (e_hash e) = k) then Some (be64 (e_height e))
    else if decide (blockKey (e_height e) = k) then Some bv
    else if decide (k ∈ proxy_keys (e_height e) (block_operations (e_block e)))
    then Some proxyMark else db_get d1 k).

Let h := e_height e.

Lemma extend_old_lower e' : e' ∈ hist → e_height e' < h.
Proof using Hc Hheight. intros He'. pose proof (chain_height_elem _ _ _ Hc He'). unfold h. lia. Qed.

Lemma extend_h_ok : u64_range_ok h.
Proof using Hc Hheight Hlt64.
  pose proof (chain_base _ _ Hc). unfold h, u64_range_ok, top in *. lia.
Qed.

Lemma extend_updates :
  (∀ acct, block_touches acct (e_block e) = true →
     db_get d1 (akey acct h) = Some (be64 (u64 (ledger_balance (hist ++ [e]) acct h))) ∧
     u64 (ledger_balance (hist ++ [e]) acct h) < 2 ^ 63) ∧
  (∀ k, (∀ acct, block_touches acct (e_block e) = true → k ≠ akey acct h) →
     db_get d1 k = db_get d k).
Proof using All.
  destruct Haccts as [Hm _].
  destruct (Index_updates_spec d hist h accts d1) as [H1 H2]; try done.
  - by eapply chain_heights_ok.
  - apply (repr_acct _ _ _ Hd).
  - apply extend_h_ok.
  - apply extend_old_lower.
  - intros acct z Hz. rewrite Hm in Hz.
    destruct (block_touches acct (e_block e)) eqn:Ht; [|done]. by eapply block_touches_length.
  - split.
    + intros acct Ht. specialize (H1 acct (s64 (block_effect acct (e_block e)))).
      rewrite Hm, Ht in H1. specialize (H1 eq_refl).
      rewrite ledger_balance_snoc. fold h. rewrite Z.leb_refl.
      enough (u64 (ledger_balance hist acct h + s64 (block_effect acct (e_block e))) =
              u64 (ledger_balance hist acct h + block_effect acct (e_block e))) as <- by done.
      by rewrite <-u64_add_r, u64_s64, u64_add_r.
    + intros k Hk. apply H2. intros acct z Hz. apply Hk. rewrite Hm in Hz.
      by destruct (block_touches acct (e_block e)).
Qed.

Lemma extend_ledger_old acct h' : h' < h → ledger_balance (hist ++ [e]) acct h' = ledger_balance hist acct h'.
Proof. intros. rewrite ledger_balance_snoc. fold h. destruct (Z.leb_spec h h'); lia. Qed.

Lemma extend_get_acct t : db_get d' (accountPrefix :: t) = db_get d1 (accountPrefix :: t).
Proof using All.
  rewrite Hget. other_family. rewrite decide_False; [done|].
  rewrite proxy_keys_elem by done. intros (acct & _ & _ & [=]).
Qed.

Lemma extend_acct acct : length acct = 8%nat → acct_repr d' (hist ++ [e]) acct.
Proof using All.
  intros Hl t v. rewrite extend_get_acct. destruct extend_updates as [H1 H2].
  pose proof (repr_acct _ _ _ Hd acct Hl) as Hold.
  assert (∀ h', touched_at hist acct h' → h' < h) as Hlow.
  { intros h' (e' & He' & <- & _). by apply extend_old_lower. }
  destruct (decide (t = be64 h ∧ block_touches acct (e_block e) = true)) as [[-> Ht]|Hno].
  - fold (akey acct h). destruct (H1 acct Ht) as [-> _]. split.
    + intros [= <-]. exists h. split; [apply extend_h_ok|]. split; [done|].
      split; [|done]. apply touched_at_snoc. by right.
    + intros (h' & Hok & Heq & _ & ->). apply be64_inj in Heq as ->; [done|apply extend_h_ok|done].
  - rewrite H2.
    2: { intros a Ha Hk. apply akey_inj in Hk as [<- ->]; [|done|by eapply block_touches_length]. tauto. }
    rewrite (Hold t v). split.
    + intros (h' & Hok & -> & Ht & ->). exists h'. split; [done|]. split; [done|].
      split; [apply touched_at_snoc; by left|]. rewrite extend_ledger_old; auto.
    + intros (h' & Hok & -> & [Ht|[<- Ht]]%touched_at_snoc & ->); [|tauto].
      exists h'. rewrite extend_ledger_old by auto. done.
Qed.

Lemma extend_acct_only t v : db_get d' (accountPrefix :: t) = Some v →
  ∃ acct h', length acct = 8%nat ∧ u64_range_ok h' ∧ t = acct ++ be64 h' ∧
    touched_at (hist ++ [e]) acct h'.
Proof using All.
  rewrite extend_get_acct. destruct extend_updates as [_ H2].
  destruct (decide (t = take 8 t ++ be64 h ∧ block_touches (take 8 t) (e_block e) = true))
    as [[Ht Htouch]|Hno].
  - intros _. exists (take 8 t), h. split; [by eapply block_touches_length|].
    split; [apply extend_h_ok|]. split; [done|]. apply touched_at_snoc. by right.
  - rewrite H2.
    + intros (acct & h' & ? & ? & ? & ?)%(repr_acct_only _ _ _ Hd).
      exists acct, h'. rewrite touched_at_snoc. auto.
    + intros acct Htouch [= ->]. apply Hno.
      rewrite take_app_length' by (symmetry; by eapply block_touches_length). done.
Qed.

Lemma extend_balances : balances_ok (hist ++ [e]).
Proof using All.
  intros acct h' [(e' & He' & <- & Ht)|[<- Ht]]%touched_at_snoc.
  - rewrite extend_ledger_old by by apply extend_old_lower.
    apply (repr_balances _ _ _ Hd). by exists e'.
  - by apply extend_updates.
Qed.

(** Outside the account records, the updates change nothing. *)
Lemma extend_get_old k : hd_error k ≠ Some accountPrefix → db_get d1 k = db_get d k.
Proof using All. intros Hk. apply extend_updates. by intros acct _ ->. Qed.

Lemma extend_not_proxy x t :
  x ≠ isProxyPrefix → (x :: t) ∉ proxy_keys (e_height e) (block_operations (e_block e)).
Proof using Hwf. rewrite proxy_keys_elem by done. naive_solver. Qed.

Lemma extend_proxy t v : db_get d' (isProxyPrefix :: t) = Some v ↔
  ∃ acct h', length acct = 8%nat ∧ u64_range_ok h' ∧ t = acct ++ be64 h' ∧
    proxied_at (hist ++ [e]) acct h' ∧ v = proxyMark.
Proof using All.
  rewrite Hget. other_family. rewrite extend_get_old by done. setoid_rewrite proxied_at_snoc.
  case_decide as Hin.
  - apply proxy_keys_elem in Hin as (acct & Hl & Hp & [= ->]); [|done].
    split; [intros [= <-]|by intros (? & ? & ? & ? & ? & ? & ->)].
    exists acct, h. repeat split; try done; [apply extend_h_ok..|]. by right.
  - rewrite (repr_proxy _ _ _ Hd). split.
    + intros (acct & h' & ? & ? & ? & ? & ?). exists acct, h'. by repeat (split; [by auto|]).
    + intros (acct & h' & ? & ? & -> & [?|[<- ?]] & ?); [by exists acct, h'|].
      destruct Hin. apply proxy_keys_elem; [done|]. by exists acct.
Qed.

Lemma extend_block t v : db_get d' (blockPrefix :: t) = Some v ↔
  ∃ e', e' ∈ hist ++ [e] ∧ t = be64 (e_height e') ∧ marshal (e_block e') = Some v.
Proof using All.
  rewrite Hget. rewrite (decide_False (P := latestKey = _)), (decide_False (P := height2HashKey _ = _)),
    (decide_False (P := hash2HeightKey _ = _)) by discriminate.
  rewrite (decide_False (P := _ ∈ _)) by by apply extend_not_proxy.
  rewrite extend_get_old by done. case_decide as Hk.
  - injection Hk as <-. split; [intros [= <-]; exists e; set_solver|].
    intros (e' & [He'| ->%list_elem_of_singleton]%elem_of_app & Heq & ?); [|congruence].
    apply be64_inj in Heq; [|apply extend_h_ok|by eapply chain_heights_ok].
    pose proof (extend_old_lower _ He'). unfold h in *. lia.
  - rewrite (repr_block _ _ _ Hd). split; [set_solver|].
    intros (e' & [He'| ->%list_elem_of_singleton]%elem_of_app & -> & ?); [set_solver|].
    by destruct Hk.
Qed.

Lemma extend_h2h t v : db_get d' (height2HashPrefix :: t) = Some v ↔
  ∃ e', e' ∈ hist ++ [e] ∧ t = be64 (e_height e') ∧ v = e_hash e'.
Proof using All.
  rewrite Hget. rewrite (decide_False (P := latestKey = _)), (decide_False (P := blockKey _ = _)),
    (decide_False (P := hash2HeightKey _ = _)) by discriminate.
  rewrite (decide_False (P := _ ∈ _)) by by apply extend_not_proxy.
  rewrite extend_get_old by done. case_decide as Hk.
  - injection Hk as <-. split; [intros [= <-]; exists e; set_solver|].
    intros (e' & [He'| ->%list_elem_of_singleton]%elem_of_app & Heq & ?); [|congruence].
    apply be64_inj in Heq; [|apply extend_h_ok|by eapply chain_heights_ok].
    pose proof (extend_old_lower _ He'). unfold h in *. lia.
  - rewrite (repr_h2h _ _ _ Hd). split; [set_solver|].
    intros (e' & [He'| ->%list_elem_of_singleton]%elem_of_app & -> & ?); [set_solver|].
    by destruct Hk.
Qed.

Lemma extend_hash t v : db_get d' (hash2HeightPrefix :: t) = Some v ↔
  ∃ e', e' ∈ hist ++ [e] ∧ t = e_hash e' ∧ v = be64 (e_height e').
Proof using All.
  rewrite Hget. rewrite (decide_False (P := latestKey = _)), (decide_False (P := blockKey _ = _)),
    (decide_False (P := height2HashKey _ = _)) by discriminate.
  rewrite (decide_False (P := _ ∈ _)) by by apply extend_not_proxy.
  rewrite extend_get_old by done. case_decide as Hk.
  - injection Hk as <-. split; [intros [= <-]; exists e; set_solver|].
    intros (e' & [He'| ->%list_elem_of_singleton]%elem_of_app & Heq & ?); [|congruence].
    destruct Hfresh. rewrite Heq. by apply list_elem_of_fmap_2.
  - rewrite (repr_hash _ _ _ Hd). split; [set_solver|].
    intros (e' & [He'| ->%list_elem_of_singleton]%elem_of_app & -> & ?); [set_solver|].
    by destruct Hk.
Qed.

Lemma extend_repr_db : repr_db d' g (hist ++ [e]).
Proof using All.
  split.
  - apply extend_acct.
  - apply extend_acct_only.
  - apply extend_balances.
  - apply extend_proxy.
  - apply extend_block.
  - intros e' [He'| ->%list_elem_of_singleton]%elem_of_app; [by apply (repr_encodable _ _ _ Hd)|eauto].
  - apply extend_h2h.
  - apply extend_hash.
  - rewrite Hget. rewrite !decide_False by (first [discriminate | by apply extend_not_proxy]).
    rewrite extend_get_old by done. apply (repr_genesis _ _ _ Hd).
Qed.
End extend.

(** The cached latest block is the top of the history. *)
Lemma repr_top s g hist :
  repr s g hist → ∃ m, s_latest s = Some m ∧ bm_Height m = top g hist ∧ 0 ≤ top g hist.
Proof.
  intros [Hc Hd Hg (m & l & Hm & Hl & _ & Hmh & _ & _)]. exists m. split; [done|].
  pose proof (chain_base _ _ Hc) as Hb. split.
  - rewrite Hmh. apply last_Some in Hl as [pre ->].
    pose proof (chain_heights _ _ Hc) as Hs. rewrite fmap_app, length_app, Nat2Z.inj_add in Hs.
    simpl in Hs. rewrite seqZ_app in Hs by lia.
    apply app_inj_1 in Hs as [_ Hs]; [|by rewrite length_fmap, length_seqZ, Nat2Z.id].
    unfold seqZ in Hs. injection Hs as Hs. unfold top. rewrite length_app. simpl in *. lia.
  - pose proof (chain_nonempty _ _ Hc). unfold top. destruct hist; [done|]. simpl. lia.
Qed.

(** Indexing a block that follows the latest one appends it to the history. *)
Lemma Index_repr s g hist height hash block s' :
  repr s g hist → height = top g hist + 1 → height < 2 ^ 64 →
  hash ∉ e_hash <$> hist → wf_block block →
  Index s height hash block = Ok s' →
  repr s' g (hist ++ [mkEntry height hash block]).
Proof.
  intros Hrep -> Hlt Hf Hwf HI. pose proof (repr_chain _ _ _ Hrep) as Hc.
  pose proof (repr_data _ _ _ Hrep) as Hd. pose proof (repr_s_genesis _ _ _ Hrep) as Hg.
  destruct (repr_top _ _ _ Hrep) as (m & Hm & Hmt & Hpos). clear Hrep.
  unfold Index in HI. rewrite Hm in HI. simpl in HI.
  rewrite Hmt, (proj2 (Z.leb_gt _ _)), u64_id, Z.eqb_refl in HI by lia. simpl in HI.
  inv_ok. destruct r as [accts pk]. apply Index_diffs_spec in Hr as [Hacc ->].
  destruct (marshal block) as [bv|] eqn:Hbv; [|discriminate HI].
  set (m' := mkBlockMeta hash (top g hist + 1) [] (ib_Timestamp block)) in *.
  destruct (marshal m') as [lenc|] eqn:Hlenc; [|discriminate HI]. inv_ok.
  destruct (Index_txn _ _ _ _ _ _ _) as [d'| | |] eqn:Htx; try discriminate Hr.
  simpl in Hr. inv_ok. destruct (db_commit_err _ _); [discriminate HI|]. injection HI as <-.
  apply Index_txn_get in Htx as (d1 & Hup & Hget). split.
  - by apply chain_snoc.
  - simpl. by eapply (extend_repr_db (s_db s) d1).
  - done.
  - exists m'. eexists. split; [done|]. split; [apply last_snoc|]. simpl.
    repeat split; try done. exists lenc. split; [done|]. by rewrite Hget, decide_True.
Qed.
End proofs.
