(* ===== verification/IndexTheorems.v ===== *)
(** * What the index database guarantees

    Lookups against the history, totality of indexing, initialisation, and the
    listing of accounts. *)
From S2P Require Import Prelude Bytes Model Badger IndexDB IndexSpec IndexProofs.
Local Open Scope Z_scope.

Section lookups.
Context {DB : Type} `{!Badger DB, !BadgerLaws DB, !Proto IndexedBlock, !Proto BlockMeta, !MapRange bytes}.
Implicit Types (s : Store DB) (d : DB) (hist : list entry).

(** ** Lookups *)

Section reads.
Context `{!BadgerReliable DB}.

Lemma balanceByHeight_ledger s g hist acct h :
  repr s g hist → length acct = 8%nat → u64_range_ok h →
  balanceByHeight s acct h = Ok (u64 (ledger_balance hist acct h)).
Proof.
  intros [Hc Hd _ _] Hl Hok. unfold balanceByHeight.
  rewrite take_acctHeightKey, acctHeightKey_akey, pad8_id by done.
  pose proof (account_seek (s_db s) hist acct h (chain_heights_ok _ _ Hc)
    (repr_acct _ _ _ Hd acct Hl) Hok) as Hs.
  destruct (db_seek_rev (s_db s) (akey acct h)) as [|x rest]; [by rewrite Hs|].
  destruct (has_prefix _ x.1); [|by rewrite Hs]. destruct Hs as (h' & _ & _ & ->).
  rewrite item_value_reliable. cbn. by rewrite uint64_be_be64' by apply u64_range.
Qed.

Lemma HashForHeight_db s g hist e :
  repr_db (s_db s) g hist → e ∈ hist → HashForHeight s (e_height e) = Ok (e_hash e).
Proof.
  intros Hd He. unfold HashForHeight, height2HashKey.
  rewrite (txn_get_some _ _ (e_hash e)); [done|]. apply (repr_h2h _ _ _ Hd). eauto.
Qed.

Lemma HashForHeight_entry s g hist e :
  repr s g hist → e ∈ hist → HashForHeight s (e_height e) = Ok (e_hash e).
Proof. intros [Hc Hd _ _]. by eapply HashForHeight_db. Qed.

Lemma HashForHeight_missing s g hist h :
  repr s g hist → u64_range_ok h → (∀ e, e ∈ hist → e_height e ≠ h) →
  HashForHeight s h = Err ErrBlockNotIndexed.
Proof.
  intros [Hc Hd _ _] Hok Hno. unfold HashForHeight, height2HashKey. rewrite txn_get_none; [done|].
  destruct (db_get (s_db s) _) eqn:Hg; [|done].
  apply (repr_h2h _ _ _ Hd) in Hg as (e & He & Heq & _).
  apply be64_inj in Heq; [|done|by eapply chain_heights_ok]. by destruct (Hno e).
Qed.

Lemma HeightForHash_entry s g hist e :
  repr s g hist → e ∈ hist → HeightForHash s (e_hash e) = Ok (e_height e).
Proof.
  intros [Hc Hd _ _] He. unfold HeightForHash, hash2HeightKey.
  rewrite (txn_get_some _ _ (be64 (e_height e))) by (apply (repr_hash _ _ _ Hd); eauto).
  cbn. rewrite uint64_be_be64'; [done|]. by eapply chain_heights_ok.
Qed.

Lemma HeightForHash_missing s g hist hash :
  repr s g hist → hash ∉ e_hash <$> hist → HeightForHash s hash = Err ErrBlockNotIndexed.
Proof.
  intros [Hc Hd _ _] Hno. unfold HeightForHash, hash2HeightKey. rewrite txn_get_none; [done|].
  destruct (db_get (s_db s) _) eqn:Hg; [|done].
  apply (repr_hash _ _ _ Hd) in Hg as (e & He & -> & _). destruct Hno. by apply list_elem_of_fmap_2.
Qed.

Lemma blockByHeight_entry s g hist e :
  repr_db (s_db s) g hist → e ∈ hist → blockByHeight s (e_height e) = Ok (e_block e).
Proof.
  intros Hd He. unfold blockByHeight, blockKey.
  destruct (repr_encodable _ _ _ Hd e He) as [v Hv].
  rewrite (txn_get_some _ _ v) by (apply (repr_block _ _ _ Hd); eauto).
  by rewrite (unmarshal_marshal _ _ Hv).
Qed.

(** The parent of an entry is the entry before it; the genesis block is its own
    parent. *)
Definition parent_of (hist : list entry) (i : nat) : option entry := hist !! (i - 1)%nat.

Lemma chain_lookup_height g hist i e :
  chain g hist → hist !! i = Some e → e_height e = bm_Height g + Z.of_nat i.
Proof.
  intros Hc Hi. pose proof (chain_heights _ _ Hc) as Hs.
  apply (f_equal (.!! i)) in Hs. rewrite list_lookup_fmap, Hi in Hs. simpl in Hs.
  symmetry in Hs. apply lookup_seqZ in Hs as [Hs _]. lia.
Qed.

Lemma withParentInfo_entry s g hist i e p :
  repr s g hist → hist !! i = Some e → parent_of hist i = Some p →
  withParentInfo s (e_hash e) (e_height e) (e_block e) =
  Ok (mkBlockData (e_block e) (e_hash e) (e_height e) (e_hash p) (e_height p)).
Proof.
  intros Hrep Hi Hp. pose proof (repr_chain _ _ _ Hrep) as Hc.
  pose proof (chain_lookup_height _ _ _ _ Hc Hi) as He.
  pose proof (chain_lookup_height _ _ _ _ Hc Hp) as Hpe.
  unfold withParentInfo. rewrite (repr_s_genesis _ _ _ Hrep). cbn.
  destruct (Z.eqb_spec (e_height e) (bm_Height g)) as [Heq|Hne].
  - assert (i = 0%nat) as -> by lia. unfold parent_of in Hp. simpl in Hp.
    assert (p = e) as -> by congruence. done.
  - assert (e_height e - 1 = e_height p) as Hpar by lia. rewrite Hpar.
    rewrite u64_id by (eapply chain_heights_ok; [done|]; by eapply list_elem_of_lookup_2).
    rewrite (HashForHeight_entry _ _ _ p Hrep) by by eapply list_elem_of_lookup_2.
    done.
Qed.

Lemma BlockByHeight_entry s g hist i e p :
  repr s g hist → hist !! i = Some e → parent_of hist i = Some p →
  BlockByHeight s (e_height e) =
  Ok (mkBlockData (e_block e) (e_hash e) (e_height e) (e_hash p) (e_height p)).
Proof.
  intros Hrep Hi Hp. unfold BlockByHeight.
  pose proof (list_elem_of_lookup_2 _ _ _ Hi).
  rewrite (HashForHeight_entry _ _ _ e Hrep) by done. cbn.
  rewrite (blockByHeight_entry _ _ _ e (repr_data _ _ _ Hrep)) by done. cbn. by eapply withParentInfo_entry.
Qed.

Lemma BlockByHash_entry s g hist i e p :
  repr s g hist → hist !! i = Some e → parent_of hist i = Some p →
  BlockByHash s (e_hash e) =
  Ok (mkBlockData (e_block e) (e_hash e) (e_height e) (e_hash p) (e_height p)).
Proof.
  intros Hrep Hi Hp. unfold BlockByHash.
  pose proof (list_elem_of_lookup_2 _ _ _ Hi).
  rewrite (HeightForHash_entry _ _ _ e Hrep) by done. cbn.
  rewrite (blockByHeight_entry _ _ _ e (repr_data _ _ _ Hrep)) by done. cbn. by eapply withParentInfo_entry.
Qed.

Lemma BalanceByHash_entry s g hist acct e :
  repr s g hist → length acct = 8%nat → e ∈ hist →
  BalanceByHash s acct (e_hash e) =
  Ok (mkBalanceData (u64 (ledger_balance hist acct (e_height e))) (e_hash e) (e_height e)).
Proof.
  intros Hrep Hl He. unfold BalanceByHash. rewrite (HeightForHash_entry _ _ _ e Hrep) by done. cbn.
  rewrite (balanceByHeight_ledger _ _ _ _ _ Hrep); [done..|].
  eapply chain_heights_ok; [apply Hrep|done].
Qed.

Lemma HasBalance_touched s g hist acct h :
  repr s g hist → length acct = 8%nat → u64_range_ok h →
  ∃ b, HasBalance s acct h = Ok b ∧ (b = true ↔ ∃ h', h' ≤ h ∧ touched_at hist acct h').
Proof.
  intros [Hc Hd _ _] Hl Hok. unfold HasBalance.
  rewrite take_acctHeightKey, acctHeightKey_akey, pad8_id by done.
  pose proof (account_seek (s_db s) hist acct h (chain_heights_ok _ _ Hc)
    (repr_acct _ _ _ Hd acct Hl) Hok) as Hs.
  assert (∀ h', h' ≤ h → touched_at hist acct h' →
    ∃ x rest, db_seek_rev (s_db s) (akey acct h) = x :: rest ∧
              has_prefix (accountPrefix :: acct) x.1 = true) as Hf.
  { intros h' Hle Ht. destruct (seek_rev_some (s_db s) (accountPrefix :: acct) (be64 h) (be64 h')
      (be64 (u64 (ledger_balance hist acct h')))) as (t & v & rest & Heq & _).
    - apply acct_record; [by eapply chain_heights_ok|by apply (repr_acct _ _ _ Hd)|done].
    - apply bytes_le_be64; [|done|done]. eapply touched_range; [by eapply chain_heights_ok|done].
    - eexists _, rest. split; [exact Heq|apply has_prefix_app]. }
  destruct (db_seek_rev (s_db s) (akey acct h)) as [|x rest].
  - exists false. split; [done|]. split; [done|]. intros (h' & Hle & Ht).
    by destruct (Hf h' Hle Ht) as (? & ? & ? & _).
  - exists (has_prefix (accountPrefix :: acct) x.1). split; [done|].
    destruct (has_prefix (accountPrefix :: acct) x.1) eqn:Hp; split; try done.
    + destruct Hs as (h' & Hle & Ht & _). eauto.
    + intros (h' & Hle & Ht). destruct (Hf h' Hle Ht) as (? & ? & [= <- <-] & ?). congruence.
Qed.
End reads.

(** ** Indexing the next block *)

Lemma go_slice_akey {E} p acct h :
  length acct = 8%nat → go_slice (E:=E) 1 9 (p :: acct ++ be64 h) = Ok acct.
Proof.
  intros Hl. unfold go_slice. cbn [length].
  rewrite length_app, length_be64, bool_decide_true by lia.
  cbn [take]. rewrite take_app_length' by done. by cbn [drop].
Qed.

Lemma Index_update_total `{!BadgerReliable DB} d hist acct h z :
  heights_ok hist → acct_repr d hist acct → u64_range_ok h → length acct = 8%nat →
  (∀ e, e ∈ hist → e_height e < h) →
  Index_update d (mkAccountUpdate z (akey acct h)) =
  (let val := s64 (ledger_balance hist acct h + z) in
   if val <? 0 then Err (ErrInvalidBalance acct val)
   else Ok (db_set d (akey acct h) (be64 (u64 val)))).
Proof.
  intros Hh Hr Hok Hl Hlt. unfold Index_update. cbn [key diff].
  destruct (Index_current_spec d hist acct h) as [Hc|(k & c & He & _)]; [done..| |].
  2: { by rewrite db_read_reliable in He. }
  rewrite Hc. cbn. rewrite s64_add_l. destruct (_ <? 0); [|done].
  unfold akey. by rewrite go_slice_akey.
Qed.

Lemma Index_updates_total `{!BadgerReliable DB} d hist h accts :
  heights_ok hist → (∀ acct, length acct = 8%nat → acct_repr d hist acct) → u64_range_ok h →
  (∀ e, e ∈ hist → e_height e < h) →
  (∀ acct z, accts !! acct = Some z → length acct = 8%nat) →
  (∃ d', foldM Index_update d (Index_updates h accts) = Ok d') ∨
  (∃ acct z, accts !! acct = Some z ∧ s64 (ledger_balance hist acct h + z) < 0 ∧
     foldM Index_update d (Index_updates h accts) =
     Err (ErrInvalidBalance acct (s64 (ledger_balance hist acct h + z)))).
Proof.
  intros Hh Hr Hok Hlt Hlen. unfold Index_updates. rewrite foldM_fmap.
  assert (∀ acct z, (acct, z) ∈ map_range accts → length acct = 8%nat ∧ acct_repr d hist acct) as Hin.
  { intros acct z Hz%map_range_elem. eauto. }
  setoid_rewrite <-(map_range_elem accts). clear Hr Hlen.
  pose proof (map_range_NoDup accts) as Hnd. revert d Hnd Hin.
  generalize (map_range accts) as l. intros l.
  induction l as [|[acct z] l IH]; intros d Hnd Hin; [left; by exists d|].
  cbn [foldM]. apply NoDup_cons in Hnd as [Hnew Hnd]. fold (fmap fst l) in Hnew.
  destruct (Hin acct z) as [Hla Hra]; [left|].
  rewrite acctHeightKeyWide_akey by done. fold (akey acct h).
  rewrite (Index_update_total d hist) by auto. cbv zeta.
  destruct (Z.ltb_spec (s64 (ledger_balance hist acct h + z)) 0) as [Hneg|Hpos].
  { right. exists acct, z. split; [left|]. done. }
  cbn [mbind outcome_mbind outcome_bind].
  destruct (IH (db_set d (akey acct h) (be64 (u64 (s64 (ledger_balance hist acct h + z))))))
    as [Hok'|(a & y & Ha & Hlt' & Herr)]; [done| |by left|].
  - intros a y Ha. destruct (Hin a y) as [Hl Hra']; [by right|]. split; [done|].
    apply (acct_repr_frame d); [done|]. intros t. rewrite db_get_set, decide_False; [done|].
    intros Hk. symmetry in Hk. apply akey_inj in Hk as [-> _]; [|done..].
    apply Hnew, list_elem_of_fmap. by exists (acct, y).
  - right. exists a, y. split; [by right|done].
Qed.

Lemma Index_diffs_total h b : wf_block b → ∃ accts pk, Index_diffs h b = Ok (accts, pk).
Proof.
  unfold wf_block, Index_diffs. generalize (block_operations b) as ops.
  generalize ((∅, []) : gmap bytes Z * list bytes) as st.
  intros st ops. revert st. induction ops as [|op ops IH]; intros [m ks] Hwf; [eauto|].
  apply Forall_cons in Hwf as [Hop Hwf]. cbn [foldM]. unfold wf_op in Hop.
  unfold Index_operation at 2. destruct (op_Type op); try done; cbn; auto.
Qed.

(** Every outcome of indexing the block after the latest one. *)
Lemma Index_next `{!BadgerReliable DB} s g hist height hash block :
  repr s g hist → height = top g hist + 1 → height < 2 ^ 64 → wf_block block →
  is_Some (marshal block) →
  is_Some (marshal (mkBlockMeta hash height [] (ib_Timestamp block))) →
  (∃ s', Index s height hash block = Ok s') ∨
  (∃ acct, block_touches acct block = true ∧
     let val := s64 (ledger_balance (hist ++ [mkEntry height hash block]) acct height) in
     val < 0 ∧ Index s height hash block = Err (ErrWrap (ErrInvalidBalance acct val))).
Proof.
  intros Hrep -> Hlt Hwf [bv Hbv] [lenc Hlenc].
  pose proof (repr_chain _ _ _ Hrep) as Hc. pose proof (repr_data _ _ _ Hrep) as Hd.
  pose proof (repr_top _ _ _ Hrep) as (m & Hm & Hmt & Hpos).
  destruct (Index_diffs_total (top g hist + 1) block Hwf) as (accts & pk & Hdiff).
  pose proof (Index_diffs_spec _ _ _ _ Hdiff) as [[Hacc _] _].
  unfold Index. rewrite Hm. cbn [deref mbind outcome_mbind outcome_bind].
  rewrite Hmt, (proj2 (Z.leb_gt _ _)), u64_id, Z.eqb_refl by lia. cbn [negb].
  rewrite Hdiff. cbn [mbind outcome_mbind outcome_bind]. rewrite Hbv. cbv zeta. rewrite Hlenc.
  unfold Index_txn.
  destruct (Index_updates_total (s_db s) hist (top g hist + 1) accts)
    as [[d1 ->]|(acct & z & Hz & Hneg & ->)].
  - by eapply chain_heights_ok.
  - apply (repr_acct _ _ _ Hd).
  - unfold u64_range_ok. lia.
  - intros e He. pose proof (chain_height_elem _ _ _ Hc He). lia.
  - intros acct z Hz. rewrite Hacc in Hz.
    destruct (block_touches acct block) eqn:Ht; [|done]. by eapply block_touches_length.
  - left. cbn. rewrite db_commit_reliable. eauto.
  - right. exists acct. rewrite Hacc in Hz. destruct (block_touches acct block) eqn:Ht; [|done].
    injection Hz as <-. rewrite s64_add_r in Hneg |- *. split; [done|].
    rewrite ledger_balance_snoc. cbn [e_height e_block]. rewrite Z.leb_refl. done.
Qed.

(** ** Initialisation *)

Definition genesis_entry (g : BlockMeta) : entry :=
  mkEntry (bm_Height g) (bm_Hash g) (mkIndexedBlock (bm_Timestamp g) []).

Lemma touched_genesis g acct h : ¬ touched_at [genesis_entry g] acct h.
Proof. by intros (e & ->%list_elem_of_singleton & _ & ?). Qed.

Lemma proxied_genesis g acct h : ¬ proxied_at [genesis_entry g] acct h.
Proof. by intros (e & ->%list_elem_of_singleton & _ & ?). Qed.

(** Decides which key of a short chain of writes a prefixed key can be. *)
Ltac one_key :=
  repeat (rewrite decide_False by discriminate);
  lazymatch goal with
  | |- (if decide ?P then _ else _) = _ ↔ _ =>
      let Hk := fresh "Hk" in destruct (decide P) as [Hk|Hk];
      [injection Hk as <-; naive_solver
      |repeat (rewrite decide_False by discriminate); split; [discriminate|];
       intros (? & -> & -> & _); by destruct Hk]
  end.

Lemma SetGenesis_repr s g s' :
  (∀ k, db_get (s_db s) k = None) → u64_range_ok (bm_Height g) →
  SetGenesis s g = Ok s' → repr s' g [genesis_entry g].
Proof.
  intros Hempty Hok HG. unfold SetGenesis in HG. rewrite Clone_id in HG.
  destruct (marshal g) as [gv|] eqn:Hgv; [|discriminate HG].
  destruct (marshal (mkIndexedBlock (bm_Timestamp g) [])) as [bv|] eqn:Hbv; [|discriminate HG].
  destruct (db_commit_err _ _); [discriminate HG|]. injection HG as <-.
  set (d' := db_set _ latestKey gv).
  assert (∀ k, db_get d' k =
    if decide (latestKey = k) then Some gv
    else if decide (height2HashKey (bm_Height g) = k) then Some (bm_Hash g)
    else if decide (hash2HeightKey (bm_Hash g) = k) then Some (be64 (bm_Height g))
    else if decide (blockKey (bm_Height g) = k) then Some bv
    else if decide (genesisKey = k) then Some gv else None) as Hget.
  { intros k. unfold d'. by rewrite !db_get_set, Hempty. }
  clearbody d'. split.
  - split; simpl; [|done|apply Hok| |apply NoDup_singleton|by repeat constructor].
    + unfold seqZ. simpl. by rewrite Z.add_0_l || (f_equal; lia).
    + unfold u64_range_ok in Hok. lia.
  - split; cbn [s_db].
    + intros acct Hl t v. rewrite Hget, !decide_False by discriminate.
      split; [done|]. by intros (h & _ & _ & ?%touched_genesis & _).
    + intros t v. by rewrite Hget, !decide_False by discriminate.
    + by intros acct h ?%touched_genesis.
    + intros t v. rewrite Hget, !decide_False by discriminate.
      split; [done|]. by intros (acct & h & _ & _ & _ & ?%proxied_genesis & _).
    + intros t v. rewrite Hget. setoid_rewrite list_elem_of_singleton. one_key.
    + intros e ->%list_elem_of_singleton. simpl. eauto.
    + intros t v. rewrite Hget. setoid_rewrite list_elem_of_singleton. one_key.
    + intros t v. rewrite Hget. setoid_rewrite list_elem_of_singleton. one_key.
    + exists gv. split; [done|]. by rewrite Hget.
  - done.
  - exists g, (genesis_entry g). repeat split; try done. exists gv. split; [done|]. by rewrite Hget.
Qed.

(** ** Listing accounts *)

Lemma scan_account_key s g hist x :
  repr s g hist → x ∈ scan (s_db s) accountPrefix →
  ∃ acct h, length acct = 8%nat ∧ u64_range_ok h ∧ x.1 = akey acct h ∧ touched_at hist acct h.
Proof.
  intros Hrep Hx. destruct x as [k v]. apply scan_elem in Hx as [Hg [t ->]%has_prefix_spec].
  apply (repr_acct_only _ _ _ (repr_data _ _ _ Hrep)) in Hg as (acct & h & ? & ? & -> & ?).
  by exists acct, h.
Qed.

Lemma scan_proxy_key s g hist x :
  repr s g hist → x ∈ scan (s_db s) isProxyPrefix →
  ∃ acct h, length acct = 8%nat ∧ u64_range_ok h ∧ x.1 = isProxyPrefix :: acct ++ be64 h ∧
    proxied_at hist acct h.
Proof.
  intros Hrep Hx. destruct x as [k v]. apply scan_elem in Hx as [Hg [t ->]%has_prefix_spec].
  apply (repr_proxy _ _ _ (repr_data _ _ _ Hrep)) in Hg as (acct & h & ? & ? & -> & ? & _).
  by exists acct, h.
Qed.

(** The account bytes of a key, and the maps the two loops of [Accounts] build. *)
Definition key_acct (k : bytes) : bytes := drop 1 (take 9 k).

Lemma go_slice_key_acct {E} k : (9 ≤ length k)%nat → go_slice (E:=E) 1 9 k = Ok (key_acct k).
Proof. intros H. unfold go_slice. by rewrite bool_decide_true. Qed.

Lemma key_acct_key p acct h : length acct = 8%nat → key_acct (p :: acct ++ be64 h) = acct.
Proof. intros H. unfold key_acct. cbn [take]. by rewrite take_app_length' by done. Qed.

Lemma length_key p acct h : length acct = 8%nat → (9 ≤ length (p :: acct ++ be64 h))%nat.
Proof. intros H. cbn [length]. rewrite length_app, H. lia. Qed.

Lemma foldl_insert_lookup (l : list item) (m : gmap bytes bool) (b : bool) a :
  foldl (λ m x, <[key_acct x.1 := b]> m) m l !! a =
  if decide (a ∈ (λ x : item, key_acct x.1) <$> l) then Some b else m !! a.
Proof.
  revert m. induction l as [|x l IH]; intros m; [done|]. cbn [foldl]. rewrite IH, lookup_insert.
  rewrite fmap_cons. repeat case_decide; try done; set_solver.
Qed.

Lemma touched_length s g hist acct h : repr s g hist → touched_at hist acct h → length acct = 8%nat.
Proof.
  intros Hrep (e & He & _ & Hb). eapply block_touches_length; [|exact Hb].
  pose proof (chain_wf _ _ (repr_chain _ _ _ Hrep)) as Hwf. rewrite Forall_forall in Hwf. auto.
Qed.

Lemma proxied_touched hist acct h : proxied_at hist acct h → touched_at hist acct h.
Proof. intros (e & He & Hh & Hb). exists e. auto using block_proxies_touches. Qed.

(** The accounts the two scans meet. *)
Lemma scan_accounts_elem s g hist acct :
  repr s g hist →
  acct ∈ (λ x : item, key_acct x.1) <$> scan (s_db s) accountPrefix ↔ ∃ h, touched_at hist acct h.
Proof.
  intros Hrep. pose proof (repr_chain _ _ _ Hrep) as Hc. pose proof (repr_data _ _ _ Hrep) as Hd.
  rewrite list_elem_of_fmap. split.
  - intros (x & -> & Hx). destruct (scan_account_key _ _ _ _ Hrep Hx) as (a & h & Hl & _ & -> & Ht).
    unfold akey. rewrite key_acct_key by done. eauto.
  - intros [h Ht]. pose proof (touched_length _ _ _ _ _ Hrep Ht) as Hl.
    eexists (akey acct h, _). split; [symmetry; by apply (key_acct_key accountPrefix)|].
    apply scan_elem. split; [|apply (has_prefix_app [accountPrefix])].
    apply acct_record; [by eapply chain_heights_ok|by apply (repr_acct _ _ _ Hd)|done].
Qed.

Lemma scan_proxies_elem s g hist acct :
  repr s g hist →
  acct ∈ (λ x : item, key_acct x.1) <$> scan (s_db s) isProxyPrefix ↔ ∃ h, proxied_at hist acct h.
Proof.
  intros Hrep. pose proof (repr_chain _ _ _ Hrep) as Hc. pose proof (repr_data _ _ _ Hrep) as Hd.
  rewrite list_elem_of_fmap. split.
  - intros (x & -> & Hx). destruct (scan_proxy_key _ _ _ _ Hrep Hx) as (a & h & Hl & _ & -> & Ht).
    rewrite key_acct_key by done. eauto.
  - intros [h Ht]. pose proof (touched_length _ _ _ _ _ Hrep (proxied_touched _ _ _ Ht)) as Hl.
    exists (isProxyPrefix :: acct ++ be64 h, proxyMark).
    split; [symmetry; by apply (key_acct_key isProxyPrefix)|].
    apply scan_elem. split; [|apply (has_prefix_app [isProxyPrefix])].
    apply (repr_proxy _ _ _ Hd). exists acct, h. pose proof Ht as (e & He & Hh & _).
    pose proof (chain_heights_ok _ _ Hc e He). rewrite Hh in *. done.
Qed.

Lemma Accounts_spec s g hist :
  repr s g hist →
  ∃ m, Accounts s = Ok m ∧ ∀ acct,
    (is_Some (m !! acct) ↔ ∃ h, touched_at hist acct h) ∧
    (m !! acct = Some true ↔ ∃ h, proxied_at hist acct h).
Proof.
  intros Hrep. pose proof (λ a, scan_accounts_elem s g hist a Hrep) as Ha.
  pose proof (λ a, scan_proxies_elem s g hist a Hrep) as Hp. unfold Accounts.
  set (la := scan (s_db s) accountPrefix) in *. set (lp := scan (s_db s) isProxyPrefix) in *.
  destruct (foldM_total (E := err)
    (λ accts x, acct ← go_slice 1 9 x.1; Ok (<[acct := false]> accts))
    (λ m x, <[key_acct x.1 := false]> m) (λ _, True) (∅ : gmap bytes bool) la) as [-> _]; [|done|].
  { intros b x Hx _. split; [|done].
    destruct (scan_account_key _ _ _ _ Hrep Hx) as (a & h & Hl & _ & -> & _).
    unfold akey. by rewrite go_slice_key_acct by by apply length_key. }
  cbn [mbind outcome_mbind outcome_bind].
  set (m1 := foldl _ _ la).
  assert (∀ a, is_Some (m1 !! a) ↔ ∃ h, touched_at hist a h) as Hm1.
  { intros a. unfold m1. rewrite foldl_insert_lookup, lookup_empty, <-Ha.
    case_decide; split; try done; by intros [? [=]]. }
  assert (∀ a, m1 !! a ≠ Some true) as Hm1'.
  { intros a. unfold m1. rewrite foldl_insert_lookup, lookup_empty. by case_decide. }
  clearbody m1.
  destruct (foldM_total (E := err) (λ accts x,
      acct ← go_slice 1 9 x.1;
      match accts !! acct with
      | None => Err (ErrProxyWithoutBalance acct)
      | Some _ => Ok (<[acct := true]> accts)
      end) (λ m x, <[key_acct x.1 := true]> m)
      (λ m, ∀ a, is_Some (m1 !! a) → is_Some (m !! a)) m1 lp) as [Hf _]; [|done|].
  - intros b x Hx HI. destruct (scan_proxy_key _ _ _ _ Hrep Hx) as (a & h & Hl & _ & Hk & e & He & _ & Hb).
    rewrite Hk, go_slice_key_acct by by apply length_key. cbn [mbind outcome_mbind outcome_bind].
    rewrite key_acct_key by done. destruct (HI a) as [y ->].
    { apply Hm1. exists (e_height e), e. auto using block_proxies_touches. }
    split; [done|]. intros a' [z Hz]%HI. rewrite lookup_insert. case_decide; eauto.
  - rewrite Hf. eexists. split; [done|]. intros acct.
    rewrite foldl_insert_lookup, <-(Hp acct), <-(Hm1 acct). case_decide as Hin.
    + split; [|done]. split; [|eauto]. intros _. apply Hm1.
      apply Hp in Hin as (h & e & He & Hh & Hb). exists h, e. auto using block_proxies_touches.
    + split; [done|]. split; [|done]. intros Ht. by apply Hm1' in Ht.
Qed.
End lookups.
