(* ===== verification/IndexReset.v ===== *)
(** * Resetting the index

    [ResetTo base] cuts the history at a height: the store then represents the
    blocks up to [base] and nothing of the blocks above it is left. *)
From S2P Require Import Prelude Bytes Model Badger IndexDB IndexSpec IndexProofs IndexTheorems.
Local Open Scope Z_scope.

(** ** The blocks kept *)

Definition kept (base : Z) (hist : list entry) : list entry := filter (λ e, e_height e ≤ base) hist.

Lemma elem_of_kept base hist e : e ∈ kept base hist ↔ e ∈ hist ∧ e_height e ≤ base.
Proof. unfold kept. rewrite list_elem_of_filter. tauto. Qed.

Lemma touched_kept base hist acct h :
  touched_at (kept base hist) acct h ↔ touched_at hist acct h ∧ h ≤ base.
Proof. unfold touched_at. setoid_rewrite elem_of_kept. naive_solver. Qed.

Lemma proxied_kept base hist acct h :
  proxied_at (kept base hist) acct h ↔ proxied_at hist acct h ∧ h ≤ base.
Proof. unfold proxied_at. setoid_rewrite elem_of_kept. naive_solver. Qed.

Lemma ledger_kept base hist acct h :
  h ≤ base → ledger_balance (kept base hist) acct h = ledger_balance hist acct h.
Proof.
  intros Hh. unfold ledger_balance, kept. induction hist as [|e hist IH]; [done|].
  rewrite filter_cons, sumZ_cons, <-IH. case_decide; [by rewrite sumZ_cons|].
  rewrite (proj2 (Z.leb_gt _ _)) by lia. done.
Qed.

(** On a chain that is a prefix. *)
Lemma kept_take_from h base hist :
  e_height <$> hist = seqZ h (Z.of_nat (length hist)) →
  kept base hist = take (Z.to_nat (base + 1 - h)) hist.
Proof.
  revert h. unfold kept. induction hist as [|e hist IH]; intros h Hs; [by rewrite take_nil|].
  cbn [length] in Hs. rewrite Nat2Z.inj_succ, seqZ_cons in Hs by lia.
  rewrite fmap_cons in Hs. injection Hs as He Hs. rewrite Z.pred_succ in Hs.
  rewrite filter_cons. case_decide.
  - replace (Z.to_nat (base + 1 - h)) with (S (Z.to_nat (base + 1 - Z.succ h))) by lia.
    cbn [take]. f_equal. by apply IH.
  - rewrite (IH (Z.succ h)) by done. by replace (Z.to_nat (base + 1 - h)) with 0%nat by lia;
      replace (Z.to_nat (base + 1 - Z.succ h)) with 0%nat by lia.
Qed.

Lemma heights_sorted h hist :
  e_height <$> hist = seqZ h (Z.of_nat (length hist)) →
  StronglySorted (λ e1 e2, e_height e1 < e_height e2) hist.
Proof.
  revert h. induction hist as [|e hist IH]; intros h Hs; [constructor|].
  cbn [length] in Hs. rewrite Nat2Z.inj_succ, seqZ_cons in Hs by lia.
  rewrite fmap_cons in Hs. injection Hs as He Hs. rewrite Z.pred_succ in Hs.
  constructor; [by eapply IH|]. apply Forall_forall. intros e' He'.
  assert (e_height e' ∈ e_height <$> hist) as Hin by by apply list_elem_of_fmap_2.
  rewrite Hs in Hin. apply elem_of_seqZ in Hin. lia.
Qed.

Lemma chain_kept g base hist :
  chain g hist → bm_Height g ≤ base → base < top g hist →
  chain g (kept base hist) ∧ ∃ e, last (kept base hist) = Some e ∧ e ∈ hist ∧ e_height e = base.
Proof.
  intros Hc Hge Hlt. pose proof (chain_heights _ _ Hc) as Hs.
  rewrite (kept_take_from _ base _ Hs). set (n := Z.to_nat (base + 1 - bm_Height g)).
  unfold top in Hlt. pose proof (chain_base _ _ Hc). pose proof (chain_bound _ _ Hc).
  assert (length (take n hist) = n) as Hlen by (rewrite length_take; lia).
  destruct (hist !! (n - 1)%nat) as [e|] eqn:He; [|apply lookup_ge_None in He; lia].
  assert (last (take n hist) = Some e) as Hlast.
  { rewrite last_lookup, Hlen, lookup_take_lt by lia. by replace (pred n) with (n - 1)%nat by lia. }
  split.
  - split; try done.
    + rewrite fmap_take, Hs, Hlen. unfold seqZ. rewrite <-fmap_take. f_equal.
      rewrite take_seq, !Nat2Z.id. f_equal. lia.
    + intros Hnil. rewrite Hnil in Hlast. discriminate.
    + rewrite Hlen. lia.
    + rewrite fmap_take. eapply sublist_NoDup; [apply (chain_hashes _ _ Hc)|apply sublist_take].
    + apply Forall_take, (chain_wf _ _ Hc).
  - exists e. split; [done|]. split; [by eapply list_elem_of_lookup_2|].
    rewrite (chain_lookup_height _ _ _ _ Hc He). lia.
Qed.

(** ** The keys to delete *)

Section reset.
Context {DB : Type} `{!Badger DB, !BadgerLaws DB, !BadgerReliable DB}.
Context `{!Proto IndexedBlock, !Proto BlockMeta, !MapRange bytes}.
Implicit Types (s : Store DB) (d : DB) (hist : list entry).

Lemma go_tail_key {E} p acct h :
  length acct = 8%nat → go_tail (E:=E) 9 (p :: acct ++ be64 h) = Ok (be64 h).
Proof.
  intros Hl. unfold go_tail. rewrite bool_decide_true.
  - cbn [drop]. by rewrite drop_app_length' by done.
  - cbn [length]. rewrite length_app. lia.
Qed.

(** The height at the end of an account or proxy key. *)
Definition key_height (k : bytes) : Z := be_get (drop 9 k).

Lemma key_height_key p acct h :
  length acct = 8%nat → u64_range_ok h → key_height (p :: acct ++ be64 h) = h.
Proof.
  intros Hl Hh. unfold key_height. cbn [drop]. rewrite drop_app_length' by done.
  by apply be_get_be64.
Qed.

Lemma ResetTo_heights_spec d p base :
  (∀ x, x ∈ scan d p → ∃ acct h, length acct = 8%nat ∧ u64_range_ok h ∧ x.1 = p :: acct ++ be64 h) →
  ResetTo_heights d p base = Ok (filter (λ k, base < key_height k) (scan d p).*1).
Proof.
  intros Hkeys. unfold ResetTo_heights. revert Hkeys. generalize (scan d p) as l. intros l Hkeys.
  enough (∀ acc, foldM (λ delKeys x, htail ← go_tail 9 x.1; height ← uint64_be htail;
      Ok (if base <? height then delKeys ++ [x.1] else delKeys)) acc l =
    Ok (E:=err) (acc ++ filter (λ k, base < key_height k) l.*1)) as Hgen by apply Hgen.
  induction l as [|x l IH]; intros acc; [by rewrite app_nil_r|].
  destruct (Hkeys x) as (a & h0 & Hla & Hh0 & Hx); [left|]. cbn [foldM].
  rewrite Hx, go_tail_key by done. cbn [mbind outcome_mbind outcome_bind].
  rewrite uint64_be_be64' by done. cbn [mbind outcome_mbind outcome_bind].
  rewrite IH by (intros; apply Hkeys; by right).
  rewrite fmap_cons, filter_cons, Hx, key_height_key by done.
  destruct (Z.ltb_spec base h0).
  - rewrite decide_True by done. by rewrite <-(assoc_L (++)).
  - by rewrite decide_False by lia.
Qed.

(** The scan over the blocks visits the history in order. *)
Definition h2h_item (e : entry) : item := (height2HashKey (e_height e), e_hash e).

(** Items whose keys end in the heights of a history are sorted. *)
Lemma items_by_height_sorted p (v : entry → bytes) hist :
  StronglySorted (λ e1 e2, e_height e1 < e_height e2) hist → heights_ok hist →
  StronglySorted (λ x y : item, bytes_lt x.1 y.1) ((λ e, (p ++ be64 (e_height e), v e)) <$> hist).
Proof.
  intros Hs Hok. induction Hs as [|e hist Hs IH He]; [constructor|]. rewrite fmap_cons. constructor.
  - apply IH. intros e' He'. apply Hok. by right.
  - apply Forall_fmap, Forall_forall. intros e' He'. rewrite Forall_forall in He.
    specialize (He e' He'). unfold bytes_lt. cbn [compose fst]. rewrite bytes_cmp_app.
    apply bytes_lt_be64; [apply Hok; left|apply Hok; by right|done].
Qed.

Lemma scan_blocks d g hist :
  chain g hist → repr_db d g hist → scan d height2HashPrefix = h2h_item <$> hist.
Proof.
  intros Hc Hd. apply sorted_items_unique; [apply valid_for_prefix_sorted, db_seek_sorted|..].
  - apply (items_by_height_sorted [height2HashPrefix]); [apply (heights_sorted _ _ (chain_heights _ _ Hc))|].
    by eapply chain_heights_ok.
  - intros [k v]. unfold scan. rewrite scan_elem, list_elem_of_fmap. split.
    + intros [Hg [t ->]%has_prefix_spec]. apply (repr_h2h _ _ _ Hd) in Hg as (e & He & -> & ->).
      by exists e.
    + intros (e & [= -> ->] & He). split; [|apply (has_prefix_app [height2HashPrefix])].
      apply (repr_h2h _ _ _ Hd). eauto.
Qed.

Definition block_keys (e : entry) : list bytes :=
  [height2HashKey (e_height e); blockKey (e_height e); hash2HeightKey (e_hash e)].

Lemma ResetTo_blocks_spec d g hist base :
  chain g hist → repr_db d g hist →
  ResetTo_blocks d base =
  Ok (mjoin (block_keys <$> filter (λ e, base < e_height e) hist),
      default 0 (last (e_height <$> kept base hist))).
Proof.
  intros Hc Hd. unfold ResetTo_blocks. rewrite (scan_blocks _ _ _ Hc Hd), foldM_fmap.
  pose proof (chain_heights_ok _ _ Hc) as Hok. clear Hc Hd.
  assert (∀ acc l0, foldM (λ a x, (λ '(delKeys, last) x,
      htail ← go_tail 1 x.1;
      height ← uint64_be htail;
      if base <? height then
        hash ← map_err ErrBadger (item_value d x);
        Ok (delKeys ++ [x.1; blockKey height; hash2HeightKey hash], last)
      else Ok (delKeys, height)) a (h2h_item x)) (acc, l0) hist =
    Ok (acc ++ mjoin (block_keys <$> filter (λ e, base < e_height e) hist),
        default l0 (last (e_height <$> kept base hist)))) as Hgen; [|apply Hgen].
  unfold kept. induction hist as [|e hist IH]; intros acc l0.
  { by rewrite app_nil_r. }
  cbn [foldM].
  change (go_tail 1 (h2h_item e).1) with (Ok (E:=err) (be64 (e_height e))).
  cbn [mbind outcome_mbind outcome_bind]. rewrite uint64_be_be64' by (apply Hok; left).
  cbn [mbind outcome_mbind outcome_bind]. rewrite !filter_cons.
  assert (heights_ok hist) as Hok' by (intros e' ?; apply Hok; by right).
  destruct (Z.ltb_spec base (e_height e)).
  - rewrite item_value_reliable. cbn [map_err mbind outcome_mbind outcome_bind].
    rewrite IH by done. rewrite decide_True, decide_False by lia.
    rewrite fmap_cons. cbn [mjoin list_join]. by rewrite <-(assoc_L (++)).
  - cbn [mbind outcome_mbind outcome_bind]. rewrite IH by done.
    rewrite decide_False, decide_True by lia. rewrite fmap_cons, last_cons.
    by destruct (last _).
Qed.

Lemma or_iff_compat (P P' Q Q' : Prop) : (P ↔ P') → (Q ↔ Q') → P ∨ Q ↔ P' ∨ Q'.
Proof. tauto. Qed.

(** The keys that go when the history is cut at [base]. *)
Definition removed (hist : list entry) (base : Z) (k : bytes) : Prop :=
  (∃ acct h, length acct = 8%nat ∧ base < h ∧ touched_at hist acct h ∧ k = akey acct h) ∨
  (∃ acct h, length acct = 8%nat ∧ base < h ∧ proxied_at hist acct h ∧
             k = isProxyPrefix :: acct ++ be64 h) ∨
  (∃ e, e ∈ hist ∧ base < e_height e ∧ k ∈ block_keys e).

Lemma ResetTo_delKeys_spec s g hist base :
  repr s g hist →
  ∃ ks, ResetTo_delKeys (s_db s) base = Ok (ks, default 0 (last (e_height <$> kept base hist))) ∧
        ∀ k, k ∈ ks ↔ removed hist base k.
Proof.
  intros Hrep. pose proof (repr_chain _ _ _ Hrep) as Hc. pose proof (repr_data _ _ _ Hrep) as Hd.
  pose proof (chain_heights_ok _ _ Hc) as Hok.
  unfold ResetTo_delKeys.
  rewrite (ResetTo_heights_spec _ accountPrefix) by (intros ? (?&?&?&?&?&_)%(scan_account_key _ _ _ _ Hrep); eauto).
  rewrite (ResetTo_heights_spec _ isProxyPrefix) by (intros ? (?&?&?&?&?&_)%(scan_proxy_key _ _ _ _ Hrep); eauto).
  rewrite (ResetTo_blocks_spec _ _ _ _ Hc Hd). cbn [map_err mbind outcome_mbind outcome_bind].
  eexists. split; [done|]. intros k. rewrite merge_sort_Permutation, !elem_of_app, !list_elem_of_filter.
  unfold removed. apply or_iff_compat. { split.
    - intros [Hlt (x & -> & Hx)%list_elem_of_fmap].
      destruct (scan_account_key _ _ _ _ Hrep Hx) as (a & h & Hl & Hh & Hk & Ht).
      rewrite Hk in Hlt |- *. unfold akey in Hlt. rewrite key_height_key in Hlt by done. eauto 6.
    - intros (a & h & Hl & Hlt & Ht & ->). unfold akey.
      rewrite key_height_key by (done || by eapply touched_range). split; [done|].
      apply list_elem_of_fmap. eexists (_, _). split; [done|]. apply scan_elem.
      split; [|apply (has_prefix_app [accountPrefix])].
      by apply acct_record, Ht; [|apply (repr_acct _ _ _ Hd)]. }
  apply or_iff_compat. { split.
    - intros [Hlt (x & -> & Hx)%list_elem_of_fmap].
      destruct (scan_proxy_key _ _ _ _ Hrep Hx) as (a & h & Hl & Hh & Hk & Ht).
      rewrite Hk in Hlt |- *. rewrite key_height_key in Hlt by done. eauto 6.
    - intros (a & h & Hl & Hlt & Ht & ->).
      assert (u64_range_ok h) by by eapply touched_range, proxied_touched.
      rewrite key_height_key by done. split; [done|].
      apply list_elem_of_fmap. eexists (_, proxyMark). split; [done|]. apply scan_elem.
      split; [|apply (has_prefix_app [isProxyPrefix])]. apply (repr_proxy _ _ _ Hd). by exists a, h. }
  rewrite list_elem_of_join. setoid_rewrite list_elem_of_fmap. setoid_rewrite list_elem_of_filter.
  naive_solver.
Qed.

(** ** The data left *)

Section cut.
Context (d d' : DB) (g : BlockMeta) (hist : list entry) (base : Z).
Context (Hc : chain g hist) (Hd : repr_db d g hist).
Context (Hget : ∀ k, k ≠ latestKey →
  (removed hist base k → db_get d' k = None) ∧ (¬ removed hist base k → db_get d' k = db_get d k)).
Let Hok : heights_ok hist := chain_heights_ok _ _ Hc.

(** A record is left exactly when its key is not removed. *)
Lemma cut_key k v :
  k ≠ latestKey → db_get d' k = Some v ↔ db_get d k = Some v ∧ ¬ removed hist base k.
Proof using Hget.
  intros Hk. destruct (Hget k Hk) as [Hin Hout]. split.
  - intros Hv. assert (¬ removed hist base k) as Hn by (intros ?; rewrite Hin in Hv; done).
    by rewrite <-Hout.
  - intros [Hv Hn]. by rewrite Hout.
Qed.

Lemma removed_acct acct h :
  length acct = 8%nat → touched_at hist acct h → removed hist base (akey acct h) ↔ base < h.
Proof using All.
  intros Hl Ht. split.
  - intros [(a & h' & Hla & Hlt & Ht' & Heq)|[(? & ? & _ & _ & _ & ?)|(e & _ & _ & Hk)]].
    + unfold akey in Heq. injection Heq as [_ Heq]%app_inj_1; [|lia].
      apply be64_inj in Heq as ->; [done|by eapply touched_range..].
    + discriminate.
    + unfold block_keys in Hk. set_solver.
  - intros Hlt. left. eauto 6.
Qed.

Lemma removed_proxy acct h :
  length acct = 8%nat → proxied_at hist acct h →
  removed hist base (isProxyPrefix :: acct ++ be64 h) ↔ base < h.
Proof using All.
  intros Hl Ht. split.
  - intros [(? & ? & _ & _ & _ & ?)|[(a & h' & Hla & Hlt & Ht' & Heq)|(e & _ & _ & Hk)]].
    + discriminate.
    + injection Heq as [_ Heq]%app_inj_1; [|lia].
      apply be64_inj in Heq as ->; [done|by eapply touched_range, proxied_touched..].
    + unfold block_keys in Hk. set_solver.
  - intros Hlt. right. left. eauto 6.
Qed.

Lemma removed_block e k :
  e ∈ hist → k ∈ block_keys e → removed hist base k ↔ base < e_height e.
Proof using All.
  intros He Hk. split.
  - intros [(? & ? & _ & _ & _ & ->)|[(? & ? & _ & _ & _ & ->)|(e' & He' & Hlt & Hk')]].
    + unfold block_keys in Hk. set_solver.
    + unfold block_keys in Hk. set_solver.
    + enough (e' = e) as -> by done. unfold block_keys in Hk, Hk'.
      rewrite !elem_of_cons, elem_of_nil in Hk, Hk'.
      destruct Hk as [->|[->|[->|[]]]], Hk' as [Heq|[Heq|[Heq|[]]]]; try discriminate Heq.
      all: apply (f_equal tail) in Heq; unfold height2HashKey, blockKey, hash2HeightKey in Heq;
        cbn [tail] in Heq.
      1, 2: apply be64_inj in Heq; [by eapply chain_height_inj|by apply Hok..].
      by eapply chain_hash_inj.
  - intros Hlt. right. right. eauto.
Qed.

Lemma cut_acct acct : length acct = 8%nat → acct_repr d' (kept base hist) acct.
Proof using All.
  intros Hl t v. rewrite cut_key, (repr_acct _ _ _ Hd acct Hl t v) by done. split.
  - intros [(h & Hh & -> & Ht & ->) Hn]. exists h. rewrite touched_kept.
    rewrite (removed_acct _ _ Hl Ht) in Hn. rewrite ledger_kept by lia. naive_solver lia.
  - intros (h & Hh & -> & [Ht Hle]%touched_kept & ->). rewrite ledger_kept by done.
    rewrite (removed_acct _ _ Hl Ht). split; [eauto 6|lia].
Qed.

Lemma cut_proxy t v : db_get d' (isProxyPrefix :: t) = Some v ↔
  ∃ acct h, length acct = 8%nat ∧ u64_range_ok h ∧ t = acct ++ be64 h ∧
            proxied_at (kept base hist) acct h ∧ v = proxyMark.
Proof using All.
  rewrite cut_key, (repr_proxy _ _ _ Hd) by done. setoid_rewrite proxied_kept. split.
  - intros [(acct & h & Hl & Hh & -> & Ht & ->) Hn]. exists acct, h.
    rewrite (removed_proxy _ _ Hl Ht) in Hn. naive_solver lia.
  - intros (acct & h & Hl & Hh & -> & [Ht Hle] & ->). rewrite (removed_proxy _ _ Hl Ht).
    split; [eauto 8|lia].
Qed.

(** The three records of a block. *)
Lemma cut_block p (key : entry → bytes) (val : entry → bytes → Prop) :
  (∀ t, p :: t ≠ latestKey) → (∀ e, p :: key e ∈ block_keys e) →
  (∀ t v, db_get d (p :: t) = Some v ↔ ∃ e, e ∈ hist ∧ t = key e ∧ val e v) →
  ∀ t v, db_get d' (p :: t) = Some v ↔ ∃ e, e ∈ kept base hist ∧ t = key e ∧ val e v.
Proof using All.
  intros Hp Hk Hold t v. rewrite cut_key, Hold by done. setoid_rewrite elem_of_kept. split.
  - intros [(e & He & -> & Hv) Hn]. exists e. rewrite (removed_block e) in Hn by done.
    naive_solver lia.
  - intros (e & [He Hle] & -> & Hv). rewrite (removed_block e) by done. split; [eauto|lia].
Qed.

Lemma cut_repr_db : repr_db d' g (kept base hist).
Proof using All.
  split.
  - apply cut_acct.
  - intros t v. rewrite cut_key by done.
    intros [(acct & h & Hl & Hh & -> & Ht)%(repr_acct_only _ _ _ Hd) Hn].
    exists acct, h. rewrite (removed_acct _ _ Hl Ht) in Hn. rewrite touched_kept.
    repeat split; try done; try apply Hh. lia.
  - intros acct h [Ht Hle]%touched_kept. rewrite ledger_kept by done.
    by apply (repr_balances _ _ _ Hd).
  - apply cut_proxy.
  - apply (cut_block _ (λ e, be64 (e_height e)) (λ e v, marshal (e_block e) = Some v));
      [done| |apply (repr_block _ _ _ Hd)]. intros e. unfold block_keys, blockKey. set_solver.
  - intros e [He _]%elem_of_kept. by apply (repr_encodable _ _ _ Hd).
  - apply (cut_block _ (λ e, be64 (e_height e)) (λ e v, v = e_hash e));
      [done| |apply (repr_h2h _ _ _ Hd)]. intros e. unfold block_keys, height2HashKey. set_solver.
  - apply (cut_block _ (λ e, e_hash e) (λ e v, v = be64 (e_height e)));
      [done| |apply (repr_hash _ _ _ Hd)]. intros e. unfold block_keys, hash2HeightKey. set_solver.
  - destruct (repr_genesis _ _ _ Hd) as (v & Hm & Hv). exists v. split; [done|].
    apply cut_key; [done|]. split; [done|].
    intros [(? & ? & _ & _ & _ & ?)|[(? & ? & _ & _ & _ & ?)|(e & _ & _ & Hk)]]; try discriminate.
    unfold block_keys in Hk. set_solver.
Qed.
End cut.

(** [ResetTo] at or above the latest block changes nothing; between genesis and
    the latest block it cuts the history. *)
Lemma ResetTo_cut s g hist base :
  (∀ m : BlockMeta, is_Some (marshal m)) →
  repr s g hist → bm_Height g ≤ base →
  ∃ s', ResetTo s base = (s', Ok tt) ∧ repr s' g (kept base hist).
Proof.
  intros Henc Hrep Hge. pose proof (repr_top _ _ _ Hrep) as (m & Hm & Hmt & Hpos).
  pose proof (repr_chain _ _ _ Hrep) as Hc. pose proof (repr_data _ _ _ Hrep) as Hd.
  unfold ResetTo, Latest. rewrite Hm, Clone_id. cbn -[ResetTo_delKeys ResetTo_finish].
  rewrite Hmt. destruct (Z.leb_spec (top g hist) base) as [Hle|Hlt].
  { exists s. split; [done|]. enough (kept base hist = hist) as -> by done.
    rewrite (kept_take_from _ _ _ (chain_heights _ _ Hc)). apply take_ge. unfold top in Hle. lia. }
  destruct (ResetTo_delKeys_spec s g hist base Hrep) as (ks & -> & Hks).
  destruct (db_flush_deletes (s_db s) ks) as [d1 oe] eqn:Hf.
  pose proof (db_flush_reliable (s_db s) ks) as Hrel. rewrite Hf in Hrel. cbn in Hrel. subst oe.
  pose proof (db_flush_ok _ _ _ Hf) as Hget.
  destruct (chain_kept g base hist Hc Hge Hlt) as (Hck & e & Hlast & He & Heb).
  assert (repr_db d1 g (kept base hist)) as Hd1.
  { apply (cut_repr_db (s_db s) d1 g hist base); [done..|]. intros k _. rewrite Hget.
    split; intros Hr; rewrite <-Hks in Hr; by case_decide. }
  assert (e ∈ kept base hist) as Hek by (apply elem_of_kept; split; [done|lia]).
  rewrite fmap_last, Hlast. change (default 0 (e_height <$> Some e)) with (e_height e).
  unfold ResetTo_finish. set (s1 := mkStore d1 _ _).
  rewrite (blockByHeight_entry s1 g _ e Hd1 Hek), (HashForHeight_db s1 g _ e Hd1 Hek).
  cbn [map_err mbind outcome_mbind outcome_bind].
  destruct (Henc (mkBlockMeta (e_hash e) (e_height e) [] (ib_Timestamp (e_block e)))) as [lenc Hl].
  rewrite Hl, db_commit_reliable. eexists. split; [done|]. unfold s1. cbn [s_db s_genesis].
  split; [done| |by apply (repr_s_genesis _ _ _ Hrep)|].
  - apply (cut_repr_db (s_db s) _ g hist base); [done..|]. intros k Hk. cbn [s_db].
    rewrite db_get_set, decide_False, Hget by done.
    split; intros Hr; rewrite <-Hks in Hr; by case_decide.
  - eexists _, e. repeat split; try done. exists lenc. split; [done|]. cbn [s_db].
    by rewrite db_get_set, decide_True.
Qed.

(** Below the genesis block nothing is kept. *)
Lemma ResetTo_destroy s g hist base :
  repr s g hist → base < bm_Height g →
  ∃ s', ResetTo s base = (s', Err (ErrWrap ErrBlockNotIndexed)) ∧
        repr_db (s_db s') g [] ∧ s_latest s' = s_latest s.
Proof.
  intros Hrep Hlt. pose proof (repr_top _ _ _ Hrep) as (m & Hm & Hmt & Hpos).
  pose proof (repr_chain _ _ _ Hrep) as Hc. pose proof (repr_data _ _ _ Hrep) as Hd.
  assert (bm_Height g ≤ top g hist) as Htop.
  { pose proof (chain_nonempty _ _ Hc). unfold top. destruct hist; [done|]. cbn [length]. lia. }
  unfold ResetTo, Latest. rewrite Hm, Clone_id. cbn -[ResetTo_delKeys ResetTo_finish].
  rewrite Hmt, (proj2 (Z.leb_gt _ _)) by lia.
  destruct (ResetTo_delKeys_spec s g hist base Hrep) as (ks & -> & Hks).
  assert (kept base hist = []) as Hk.
  { rewrite (kept_take_from _ _ _ (chain_heights _ _ Hc)).
    by replace (Z.to_nat (base + 1 - bm_Height g)) with 0%nat by lia. }
  rewrite Hk. destruct (db_flush_deletes (s_db s) ks) as [d1 oe] eqn:Hf.
  pose proof (db_flush_reliable (s_db s) ks) as Hrel. rewrite Hf in Hrel. cbn in Hrel. subst oe.
  pose proof (db_flush_ok _ _ _ Hf) as Hget.
  assert (repr_db d1 g []) as Hd1.
  { rewrite <-Hk. apply (cut_repr_db (s_db s) d1 g hist base); [done..|]. intros k _. rewrite Hget.
    split; intros Hr; rewrite <-Hks in Hr; by case_decide. }
  unfold ResetTo_finish, blockByHeight. cbn [s_db]. rewrite txn_get_none.
  2: { destruct (db_get d1 _) eqn:Hg; [|done].
       apply (repr_block _ _ _ Hd1) in Hg as (e & He & _). set_solver. }
  cbn. by eexists.
Qed.

(** ** Purging proxy accounts *)

Lemma foldl_delete_get d ks k :
  db_get (foldl db_delete d ks) k = if decide (k ∈ ks) then None else db_get d k.
Proof.
  revert d. induction ks as [|k' ks IH]; intros d; [done|]. cbn [foldl].
  rewrite IH, db_get_delete. repeat case_decide; try done; set_solver.
Qed.

Lemma purge_keys_lookup (l : list item) (m : gmap bytes bytes) a :
  (∀ k, foldl (λ m x, <[key_acct x.1 := x.1]> m) m l !! a = Some k →
     k ∈ l.*1 ∧ key_acct k = a ∨ m !! a = Some k) ∧
  (a ∈ (λ x : item, key_acct x.1) <$> l ∨ is_Some (m !! a) →
     is_Some (foldl (λ m x, <[key_acct x.1 := x.1]> m) m l !! a)).
Proof.
  revert m. induction l as [|x l IH]; intros m; [set_solver|]. cbn [foldl].
  destruct (IH (<[key_acct x.1 := x.1]> m)) as [IH1 IH2]. split.
  - intros k [[? ?]|Hk]%IH1; [set_solver|]. rewrite lookup_insert in Hk. case_decide; [|by right].
    injection Hk as <-. left. set_solver.
  - intros Hor. apply IH2. rewrite lookup_insert. case_decide as Hx; [eauto|].
    rewrite fmap_cons, elem_of_cons in Hor. destruct Hor as [[?|?]|?]; [by destruct Hx|by left|by right].
Qed.

(** What is purged: the proxy marks, and every balance of a proxy account. *)
Definition purged hist (k : bytes) : Prop :=
  (∃ acct h h', length acct = 8%nat ∧ touched_at hist acct h ∧ proxied_at hist acct h' ∧ k = akey acct h) ∨
  (∃ acct h, length acct = 8%nat ∧ proxied_at hist acct h ∧ k = isProxyPrefix :: acct ++ be64 h).

Lemma purge_balance_keys (accts : gmap bytes bytes) (l : list item) :
  (∀ x, x ∈ l → ∃ acct h, length acct = 8%nat ∧ x.1 = akey acct h) →
  foldM (E:=err) (λ ks x, acct ← go_slice 1 9 x.1;
      Ok (match accts !! acct with Some _ => ks ++ [x.1] | None => ks end)) [] l =
  Ok (filter (λ k, is_Some (accts !! key_acct k)) l.*1).
Proof.
  intros Hl. enough (∀ acc, foldM (E:=err) (λ ks x, acct ← go_slice 1 9 x.1;
      Ok (match accts !! acct with Some _ => ks ++ [x.1] | None => ks end)) acc l =
    Ok (acc ++ filter (λ k, is_Some (accts !! key_acct k)) l.*1)) as Hgen by apply Hgen.
  induction l as [|x l IH]; intros acc; [by rewrite app_nil_r|].
  destruct (Hl x) as (a & h & Hla & Hx); [left|]. cbn [foldM].
  rewrite Hx. unfold akey. rewrite go_slice_akey by done. cbn [mbind outcome_mbind outcome_bind].
  rewrite IH by (intros; apply Hl; by right). rewrite fmap_cons, filter_cons, Hx. unfold akey.
  rewrite key_acct_key by done. destruct (accts !! a) as [k|].
  - rewrite decide_True by eauto. by rewrite <-(assoc_L (++)).
  - rewrite decide_False; [done|]. by intros [? [=]].
Qed.

Lemma scan_account_keys_elem s g hist k :
  repr s g hist →
  k ∈ (scan (s_db s) accountPrefix).*1 ↔
  ∃ acct h, length acct = 8%nat ∧ touched_at hist acct h ∧ k = akey acct h.
Proof.
  intros Hrep. rewrite list_elem_of_fmap. split.
  - intros (x & -> & (a & h & ? & _ & ? & ?)%(scan_account_key _ _ _ _ Hrep)). eauto.
  - intros (a & h & Hl & Ht & ->). eexists (akey a h, _). split; [done|]. apply scan_elem.
    split; [|apply (has_prefix_app [accountPrefix])]. pose proof (repr_data _ _ _ Hrep) as Hd.
    apply acct_record, Ht;
      [by eapply chain_heights_ok, (repr_chain _ _ _ Hrep)|by apply (repr_acct _ _ _ Hd)].
Qed.

(** The map of proxy accounts the purge builds holds the one mark of each. *)
Lemma purge_accts_lookup s g hist :
  repr s g hist → (∀ acct h h', proxied_at hist acct h → proxied_at hist acct h' → h = h') →
  ∀ a k, foldl (λ m x, <[key_acct x.1 := x.1]> m) (∅ : gmap bytes bytes)
           (scan (s_db s) isProxyPrefix) !! a = Some k ↔
    ∃ h, length a = 8%nat ∧ proxied_at hist a h ∧ k = isProxyPrefix :: a ++ be64 h.
Proof.
  intros Hrep Huniq a k. set (lp := scan (s_db s) isProxyPrefix).
  destruct (purge_keys_lookup lp ∅ a) as [H1 H2].
  assert (∀ k, k ∈ lp.*1 → key_acct k = a →
    ∃ h, length a = 8%nat ∧ proxied_at hist a h ∧ k = isProxyPrefix :: a ++ be64 h) as Hlp.
  { intros k' (x & -> & Hx)%list_elem_of_fmap Hka.
    destruct (scan_proxy_key _ _ _ _ Hrep Hx) as (a' & h & Hl & _ & Hxk & Hpr).
    rewrite Hxk in Hka |- *. rewrite key_acct_key in Hka by done. subst a'. eauto. }
  split.
  - intros [[? ?]|?]%H1; [eauto|set_solver].
  - intros (h & Hl & Hpr & ->). destruct H2 as [k Hk].
    { left. apply (scan_proxies_elem _ _ _ _ Hrep). eauto. }
    rewrite Hk. apply H1 in Hk as [[Hin Hka]|?]; [|set_solver].
    destruct (Hlp k Hin Hka) as (h' & _ & Hpr' & ->). by rewrite (Huniq _ _ _ Hpr Hpr').
Qed.

Lemma PurgeProxyAccounts_spec s g hist :
  repr s g hist → (∀ acct h h', proxied_at hist acct h → proxied_at hist acct h' → h = h') →
  ∃ s', PurgeProxyAccounts s = Ok s' ∧ s_genesis s' = s_genesis s ∧ s_latest s' = s_latest s ∧
    ∀ k, (purged hist k → db_get (s_db s') k = None) ∧
         (¬ purged hist k → db_get (s_db s') k = db_get (s_db s) k).
Proof.
  intros Hrep Huniq. unfold PurgeProxyAccounts.
  pose proof (purge_accts_lookup s g hist Hrep Huniq) as Hac. revert Hac.
  destruct (foldM_total (E:=err) (λ accts x, acct ← go_slice 1 9 x.1; Ok (<[acct := x.1]> accts))
    (λ m x, <[key_acct x.1 := x.1]> m) (λ _, True) (∅ : gmap bytes bytes)
    (scan (s_db s) isProxyPrefix)) as [-> _]; [|done|].
  { intros b x (a & h & Hl & _ & -> & _)%(scan_proxy_key _ _ _ _ Hrep) _. split; [|done].
    by rewrite go_slice_key_acct by by apply length_key. }
  cbn [mbind outcome_mbind outcome_bind]. set (accts := foldl _ _ _). intros Hac. clearbody accts.
  rewrite purge_balance_keys by (intros ? (?&?&?&_&?&_)%(scan_account_key _ _ _ _ Hrep); eauto).
  cbn [mbind outcome_mbind outcome_bind]. rewrite db_commit_reliable. eexists. split; [done|].
  split; [done|]. split; [done|]. intros k. cbn [s_db]. rewrite !foldl_delete_get.
  assert (purged hist k ↔ k ∈ filter (λ k, is_Some (accts !! key_acct k))
      (scan (s_db s) accountPrefix).*1 ∨ k ∈ (map_range accts).*2) as ->; [|repeat case_decide; tauto].
  rewrite list_elem_of_filter, (scan_account_keys_elem _ _ _ _ Hrep). apply or_iff_compat.
  - split.
    + intros (a & h & h' & Hl & Ht & Hp & ->). split; [|eauto]. unfold akey.
      rewrite key_acct_key by done. eexists. apply Hac. eauto.
    + intros [[k' Hk'] (a & h & Hl & Ht & ->)]. unfold akey in Hk'.
      rewrite key_acct_key in Hk' by done. apply Hac in Hk' as (h' & _ & Hp & _). eauto 7.
  - rewrite list_elem_of_fmap. split.
    + intros (a & h & Hl & Hp & ->). exists (a, isProxyPrefix :: a ++ be64 h). split; [done|].
      apply map_range_elem, Hac. eauto.
    + intros ([a k'] & -> & (h & Hl & Hp & ->)%map_range_elem%Hac). eauto.
Qed.
End reset.
