(* ===== verification/IndexExport.v ===== *)
(** * Exporting the accounts

    What [AccountsInfo] in [src/indexdb/indexdb.go] returns, which the server
    exports and /call list_accounts serves: for every account its recorded
    balances in order of height. *)
From S2P Require Import Prelude Bytes Model Badger IndexDB IndexSpec IndexProofs IndexTheorems IndexReset.
Local Open Scope Z_scope.

(** ** What is recorded for an account *)
Definition changes_of (hist : list entry) (acct : bytes) : list (Z * Z) :=
  (λ e, (e_height e, u64 (ledger_balance hist acct (e_height e)))) <$>
  filter (λ e, block_touches acct (e_block e) = true) hist.

(** ** The two loops *)
Definition item_name (x : item) : string := hex_encode (key_acct x.1).
Definition item_change (x : item) : Z * Z := (key_height x.1, be_get x.2).
Definition no_info : AccountInfo := mkAccountInfo [] false.

Definition collect (m : gmap string AccountInfo) (x : item) : gmap string AccountInfo :=
  let info := map_at no_info m (item_name x) in
  <[item_name x := mkAccountInfo (Changes info ++ [item_change x]) (Proxy info)]> m.
Definition mark (m : gmap string AccountInfo) (x : item) : gmap string AccountInfo :=
  match m !! item_name x with
  | None => m
  | Some info => <[item_name x := mkAccountInfo (Changes info) true]> m
  end.

Lemma collect_lookup l m k :
  foldl collect m l !! k =
  match filter (λ x, item_name x = k) l with
  | [] => m !! k
  | xs => Some (mkAccountInfo (Changes (map_at no_info m k) ++ (item_change <$> xs)) (Proxy (map_at no_info m k)))
  end.
Proof.
  revert m. induction l as [|x l IH]; intros m; [done|]. cbn [foldl]. rewrite IH, filter_cons. unfold collect.
  case_decide as Hk.
  - subst k. unfold map_at. rewrite lookup_insert_eq. cbn [default Changes Proxy].
    destruct (filter _ l); [done|]. cbn. by rewrite <-(assoc_L (++)).
  - unfold map_at. by rewrite lookup_insert_ne.
Qed.

Lemma mark_lookup l m k :
  foldl mark m l !! k =
  (λ info, mkAccountInfo (Changes info) (Proxy info || bool_decide (k ∈ item_name <$> l))) <$> m !! k.
Proof.
  revert m. induction l as [|x l IH]; intros m.
  { cbn. destruct (m !! k) as [[]|]; [|done]. cbn. rewrite bool_decide_false by apply not_elem_of_nil.
    by rewrite orb_false_r. }
  cbn [foldl]. rewrite IH, fmap_cons. unfold mark.
  destruct (m !! item_name x) as [info|] eqn:Hx.
  - destruct (decide (item_name x = k)) as [<-|Hne].
    + rewrite lookup_insert_eq, Hx. cbn. do 2 f_equal. rewrite (bool_decide_true (_ ∈ _ :: _)) by left.
      by rewrite orb_true_r.
    + rewrite lookup_insert_ne by done. apply option_fmap_ext. intros i. do 2 f_equal.
      apply bool_decide_ext. rewrite elem_of_cons. naive_solver.
  - destruct (decide (item_name x = k)) as [<-|Hne]; [by rewrite Hx|].
    apply option_fmap_ext. intros i. do 2 f_equal. apply bool_decide_ext. rewrite elem_of_cons. naive_solver.
Qed.

Section export.
Context {DB : Type} `{!Badger DB, !BadgerLaws DB, !BadgerReliable DB}.
Context `{!Proto IndexedBlock, !Proto BlockMeta, !MapRange bytes}.
Implicit Types (s : Store DB) (d : DB) (hist : list entry).

(** The balance records of one account, as the scan meets them. *)
Lemma scan_changes s g hist acct :
  repr s g hist → length acct = 8%nat →
  item_change <$> filter (λ x, item_name x = hex_encode acct) (scan (s_db s) accountPrefix) =
  changes_of hist acct.
Proof.
  intros Hrep Hl. pose proof (repr_chain _ _ _ Hrep) as Hc. pose proof (repr_data _ _ _ Hrep) as Hd.
  pose proof (chain_heights_ok _ _ Hc) as Hok.
  set (touching := filter (λ e, block_touches acct (e_block e) = true) hist).
  assert (∀ e, e ∈ touching → e ∈ hist ∧ touched_at hist acct (e_height e)) as Hin.
  { intros e (Ht & He)%list_elem_of_filter. split; [done|]. by exists e. }
  replace (filter _ (scan _ _)) with
    ((λ e, (akey acct (e_height e), be64 (u64 (ledger_balance hist acct (e_height e))))) <$> touching).
  - unfold changes_of. fold touching. rewrite <-list_fmap_compose. apply list_fmap_ext.
    intros i e He. apply list_elem_of_lookup_2, Hin in He as [He _]. unfold item_change, compose, akey. cbn [fst snd].
    by rewrite key_height_key, be_get_be64 by (done || apply u64_range || by apply Hok).
  - apply sorted_items_unique.
    + apply (items_by_height_sorted (accountPrefix :: acct)).
      * apply StronglySorted_filter, (heights_sorted _ _ (chain_heights _ _ Hc)).
      * intros e He. apply Hok. by apply Hin.
    + apply StronglySorted_filter, valid_for_prefix_sorted, db_seek_sorted.
    + intros [k v]. rewrite list_elem_of_fmap, list_elem_of_filter. unfold item_name. cbn [fst]. split.
      * intros (e & [= -> ->] & [_ Ht]%Hin). unfold akey. rewrite key_acct_key by done. split; [done|].
        unfold scan. apply scan_elem. split; [|apply (has_prefix_app [accountPrefix])].
        apply acct_record; [done|by apply (repr_acct _ _ _ Hd)|done].
      * intros (Hn & Hx). pose proof Hx as [Hg _]%scan_elem.
        destruct (scan_account_key _ _ _ _ Hrep Hx) as (a & h & Hla & _ & Hk & Ht). cbn [fst] in Hk. subst k.
        unfold akey in Hn. rewrite key_acct_key in Hn by done. apply (inj hex_encode) in Hn as ->.
        rewrite (acct_record _ hist acct h) in Hg by (done || by apply (repr_acct _ _ _ Hd)).
        injection Hg as <-. destruct Ht as (e & He & <- & Hb). exists e. split; [done|].
        by apply list_elem_of_filter.
Qed.

(** Both loops succeed. *)
Lemma AccountsInfo_loops s g hist :
  repr s g hist →
  AccountsInfo s = Ok (foldl mark (foldl collect ∅ (scan (s_db s) accountPrefix)) (scan (s_db s) isProxyPrefix)).
Proof.
  intros Hrep. pose proof (repr_data _ _ _ Hrep) as Hd. pose proof (repr_chain _ _ _ Hrep) as Hc. unfold AccountsInfo.
  match goal with |- context [foldM ?f ∅ ?l] =>
    destruct (foldM_total f collect (λ _, True) ∅ l) as [-> _]; [|done|] end.
  { intros m [k v] Hx _. split; [|done]. pose proof Hx as [Hg _]%scan_elem. rewrite item_value_reliable.
    destruct (scan_account_key _ _ _ _ Hrep Hx) as (a & h & Hl & Hh & Hk & Ht). cbn [fst snd] in *. subst k.
    rewrite (acct_record _ hist a h) in Hg by (by eapply chain_heights_ok || by apply (repr_acct _ _ _ Hd) || done).
    injection Hg as <-. unfold collect, item_name, item_change, akey in *. cbn [fst snd].
    rewrite go_slice_key_acct, !Ok_bind by by apply length_key. cbn [map_err]. rewrite Ok_bind.
    rewrite uint64_be_be64', Ok_bind, go_tail_key, Ok_bind, uint64_be_be64', Ok_bind by (done || apply u64_range).
    by rewrite key_height_key, be_get_be64 by (done || apply u64_range). }
  cbn [map_err]. rewrite Ok_bind. set (data := foldl collect ∅ _).
  assert (∀ x, x ∈ scan (s_db s) isProxyPrefix → is_Some (data !! item_name x) ∧ (9 ≤ length x.1)%nat) as Hdom.
  { intros x (a & h & Hl & Hh & Hk & Ht%proxied_touched)%(scan_proxy_key _ _ _ _ Hrep).
    split; [|rewrite Hk; by apply length_key]. unfold item_name. rewrite Hk, key_acct_key by done.
    unfold data. rewrite collect_lookup. pose proof (scan_changes _ _ _ a Hrep Hl) as Hsc.
    destruct (filter _ _); [|done]. destruct Ht as (e & He & _ & Hb). exfalso.
    assert (e ∈ filter (λ e, block_touches a (e_block e) = true) hist) as Hf by by apply list_elem_of_filter.
    unfold changes_of in Hsc. destruct (filter (λ e, block_touches a (e_block e) = true) hist); [|done].
    by apply not_elem_of_nil in Hf. }
  clearbody data.
  match goal with |- map_err ErrWrap (foldM ?f data ?l) = _ =>
    destruct (foldM_total f mark (λ m, ∀ k, is_Some (data !! k) → is_Some (m !! k)) data l) as [-> _]; [|done|done] end.
  intros m x Hx HI. destruct (Hdom x Hx) as [Hsome Hlen]. destruct (HI _ Hsome) as [info Hi].
  unfold mark. rewrite go_slice_key_acct, Ok_bind by done. fold (item_name x). rewrite Hi. split; [done|].
  intros k Hk%HI. rewrite lookup_insert. case_decide; eauto.
Qed.

Lemma AccountsInfo_spec s g hist :
  repr s g hist →
  ∃ data, AccountsInfo s = Ok data ∧
    (∀ acct, length acct = 8%nat →
       match data !! hex_encode acct with
       | None => ∀ h, ¬ touched_at hist acct h
       | Some info => (∃ h, touched_at hist acct h) ∧ Changes info = changes_of hist acct ∧
                      (Proxy info = true ↔ ∃ h, proxied_at hist acct h)
       end) ∧
    (∀ k info, data !! k = Some info → ∃ acct, length acct = 8%nat ∧ k = hex_encode acct).
Proof.
  intros Hrep. eexists. split; [by eapply AccountsInfo_loops|]. split.
  - intros acct Hl. rewrite mark_lookup, collect_lookup. pose proof (scan_changes _ _ _ acct Hrep Hl) as Hsc.
    assert (∀ h, touched_at hist acct h → changes_of hist acct ≠ []) as Hne.
    { intros h (e & He & _ & Hb) Hnil. unfold changes_of in Hnil. apply fmap_nil_inv in Hnil.
      apply (not_elem_of_nil e). rewrite <-Hnil. by apply list_elem_of_filter. }
    destruct (filter _ _) as [|x xs] eqn:Hf.
    + rewrite lookup_empty. cbn. intros h Ht%Hne. by rewrite <-Hsc in Ht.
    + unfold map_at. rewrite lookup_empty. cbn [fmap option_fmap option_map default Changes Proxy no_info app orb].
      split; [|split; [done|]].
      * assert (x ∈ filter (λ x, item_name x = hex_encode acct) (scan (s_db s) accountPrefix)) as Hx by (rewrite Hf; left).
        apply list_elem_of_filter in Hx as [Hn Hx]. apply (scan_accounts_elem _ _ _ _ Hrep), list_elem_of_fmap.
        exists x. split; [|done]. by apply (inj hex_encode) in Hn.
      * rewrite bool_decide_eq_true, <-(scan_proxies_elem _ _ _ _ Hrep).
        rewrite !list_elem_of_fmap. split; intros (y & Hy & ?); exists y; (split; [|done]).
        -- by apply (inj hex_encode) in Hy.
        -- unfold item_name. by rewrite Hy.
  - intros k info Hk. rewrite mark_lookup, collect_lookup in Hk.
    destruct (filter _ _) as [|x xs] eqn:Hf; [by rewrite lookup_empty in Hk|].
    assert (x ∈ filter (λ x, item_name x = k) (scan (s_db s) accountPrefix)) as Hx by (rewrite Hf; left).
    apply list_elem_of_filter in Hx as [Hn Hx].
    destruct (scan_account_key _ _ _ _ Hrep Hx) as (a & h & Hla & _ & Hxk & _). exists a. split; [done|].
    rewrite <-Hn. unfold item_name. rewrite Hxk. unfold akey. by rewrite key_acct_key.
Qed.
End export.
