(* ===== verification/IndexMain.v ===== *)
(** * The promises of the index database

    The step relation of the store, its invariant, and the theorems the rest of
    the program relies on, each with a run on a small concrete store. *)
From S2P Require Import Prelude Bytes Model Badger IndexDB IndexSpec IndexProofs IndexTheorems IndexReset.
Local Open Scope Z_scope.

(** ** Stores the program can reach *)

Section steps.
Context {DB : Type} `{!Badger DB, !BadgerLaws DB, !BadgerReliable DB}.
Context `{!Proto IndexedBlock, !Proto BlockMeta, !MapRange bytes}.
Implicit Types (s : Store DB) (d : DB) (hist : list entry).

(** What the indexer does to an initialised store: index a block whose hash is
    not indexed yet, or reset it to a height that is not below genesis. *)
Inductive step s : Store DB → Prop :=
  | step_index h hash block s' :
      u64_range_ok h → wf_block block → HeightForHash s hash = Err ErrBlockNotIndexed →
      Index s h hash block = Ok s' → step s s'
  | step_reset g base s' :
      s_genesis s = Some g → bm_Height g ≤ base → ResetTo s base = (s', Ok tt) → step s s'.

Definition reachable (g : BlockMeta) s : Prop :=
  ∃ d s0, (∀ k, db_get d k = None) ∧ SetGenesis (mkStore d None None) g = Ok s0 ∧ rtc step s0 s.

Lemma Index_skip s g hist height hash block :
  repr s g hist → height ≤ top g hist → Index s height hash block = Ok s.
Proof.
  intros Hrep Hle. destruct (repr_top _ _ _ Hrep) as (m & Hm & Hmt & _).
  unfold Index. rewrite Hm. cbn. rewrite Hmt. by rewrite (proj2 (Z.leb_le _ _)).
Qed.

Lemma Index_gap s g hist height hash block :
  repr s g hist → top g hist + 1 < height → Index s height hash block = Fatal.
Proof.
  intros Hrep Hlt. destruct (repr_top _ _ _ Hrep) as (m & Hm & Hmt & Hpos).
  unfold Index. rewrite Hm. cbn. rewrite Hmt, (proj2 (Z.leb_gt _ _)) by lia.
  destruct (Z.eqb_spec height (u64 (top g hist + 1))) as [Heq|]; [|done].
  assert (u64 (top g hist + 1) ≤ top g hist + 1) by (apply Z.mod_le; lia). lia.
Qed.

(** The block after the latest is the only one [Index] adds. *)
Lemma Index_next_height s g hist height hash block s' :
  repr s g hist → u64_range_ok height → Index s height hash block = Ok s' →
  height ≤ top g hist ∧ s' = s ∨ height = top g hist + 1 ∧ height < 2 ^ 64.
Proof.
  intros Hrep Hok HI. destruct (decide (height ≤ top g hist)) as [Hle|Hgt].
  - left. rewrite (Index_skip _ _ _ _ _ _ Hrep Hle) in HI. by injection HI as <-.
  - right. destruct (decide (top g hist + 1 < height)) as [Hlt|Hge].
    + by rewrite (Index_gap _ _ _ _ _ _ Hrep Hlt) in HI.
    + unfold u64_range_ok in Hok. lia.
Qed.

Lemma fresh_hash s g hist hash :
  repr s g hist → HeightForHash s hash = Err ErrBlockNotIndexed → hash ∉ e_hash <$> hist.
Proof.
  intros Hrep Hh (e & -> & He)%list_elem_of_fmap. by rewrite (HeightForHash_entry _ _ _ e Hrep He) in Hh.
Qed.

Lemma step_repr g s s' :
  (∀ m : BlockMeta, is_Some (marshal m)) →
  (∃ hist, repr s g hist) → step s s' → ∃ hist, repr s' g hist.
Proof.
  intros Henc [hist Hrep] [h hash block ? Hok Hwf Hf HI|g' base ? Hg Hge HR].
  - destruct (Index_next_height _ _ _ _ _ _ _ Hrep Hok HI) as [[_ ->]|[Heq Hlt]]; [eauto|].
    eexists. eapply (Index_repr _ _ _ _ _ _ _ Hrep Heq Hlt); eauto using fresh_hash.
  - rewrite (repr_s_genesis _ _ _ Hrep) in Hg. injection Hg as <-.
    destruct (ResetTo_cut _ _ _ _ Henc Hrep Hge) as (s2 & Heq & Hrep').
    rewrite HR in Heq. injection Heq as <-. eauto.
Qed.

Lemma reachable_repr g s :
  (∀ m : BlockMeta, is_Some (marshal m)) → u64_range_ok (bm_Height g) →
  reachable g s → ∃ hist, repr s g hist.
Proof.
  intros Henc Hg (d & s0 & Hempty & HG & Hsteps).
  assert (∃ hist, repr s0 g hist) as H0 by (eexists; by apply (SetGenesis_repr (mkStore d None None))).
  clear HG. induction Hsteps as [|s0 s1 s2 Hs _ IH]; [done|]. eauto using step_repr.
Qed.

Lemma balance_bound s g hist acct h :
  repr s g hist → length acct = 8%nat → u64_range_ok h →
  0 ≤ u64 (ledger_balance hist acct h) < 2 ^ 63.
Proof.
  intros [Hc Hd _ _] Hl Hok. pose proof (chain_heights_ok _ _ Hc) as Hh.
  pose proof (account_seek (s_db s) hist acct h Hh (repr_acct _ _ _ Hd acct Hl) Hok) as Hs.
  destruct (db_seek_rev (s_db s) (akey acct h)) as [|x rest] eqn:Hseek; [by rewrite Hs|].
  destruct (has_prefix _ x.1); [|by rewrite Hs]. destruct Hs as (h' & _ & Ht & ->).
  assert (db_get (s_db s) (akey acct h') = Some (be64 (u64 (ledger_balance hist acct h)))) as Hg.
  { apply (db_seek_rev_elem (s_db s) (akey acct h)). rewrite Hseek. left. }
  rewrite (acct_record _ hist) in Hg; [|done|by apply (repr_acct _ _ _ Hd)|done].
  apply Some_inj, be64_inj in Hg; [|apply u64_range..]. rewrite <-Hg.
  pose proof (u64_range (ledger_balance hist acct h')).
  pose proof (repr_balances _ _ _ Hd _ _ Ht). lia.
Qed.

(** ** Theorems *)

(** C11: Every store the program reaches from an empty database, by setting the
    genesis block and then indexing blocks and resetting in any order,
    represents a chain of blocks that starts at genesis. *)
Theorem index_invariant g s :
  (∀ m : BlockMeta, is_Some (marshal m)) → u64_range_ok (bm_Height g) →
  reachable g s → ∃ hist, repr s g hist.
Proof. apply reachable_repr. Qed.

(** C3: Indexing the block after the latest one either extends the represented
    history by exactly that block, or is refused because some account the block
    touches would get a negative balance; nothing else can happen. *)
Theorem index_extends s g hist hash block :
  let height := top g hist + 1 in
  repr s g hist → height < 2 ^ 64 → hash ∉ e_hash <$> hist → wf_block block →
  is_Some (marshal block) →
  is_Some (marshal (mkBlockMeta hash height [] (ib_Timestamp block))) →
  (∃ s', Index s height hash block = Ok s' ∧ repr s' g (hist ++ [mkEntry height hash block])) ∨
  (∃ acct, block_touches acct block = true ∧
     let val := s64 (ledger_balance (hist ++ [mkEntry height hash block]) acct height) in
     val < 0 ∧ Index s height hash block = Err (ErrWrap (ErrInvalidBalance acct val))).
Proof.
  intros height Hrep Hlt Hf Hwf Hb Hm.
  destruct (Index_next s g hist height hash block) as [[s' Hs]|Herr]; [done..| |by right].
  left. exists s'. split; [done|]. by eapply Index_repr.
Qed.

(** A block at or below the latest height is skipped without a change, and a
    block that leaves a gap ends the process; neither touches the store. *)
Theorem index_guards s g hist height hash block :
  repr s g hist →
  (height ≤ top g hist → Index s height hash block = Ok s) ∧
  (top g hist + 1 < height → Index s height hash block = Fatal).
Proof. eauto using Index_skip, Index_gap. Qed.

(** C2: The balance the store reports for an account at an indexed block, looked
    up by height or by hash, is the sum of everything the operations of all
    blocks up to it paid to the account less what they paid from it. *)
Theorem balance_is_ledger s g hist acct e :
  repr s g hist → length acct = 8%nat → e ∈ hist →
  let data := mkBalanceData (u64 (ledger_balance hist acct (e_height e))) (e_hash e) (e_height e) in
  BalanceByHash s acct (e_hash e) = Ok data ∧ BalanceByHeight s acct (e_height e) = Ok data.
Proof.
  intros Hrep Hl He data. split; [by eapply BalanceByHash_entry|]. unfold BalanceByHeight.
  rewrite (balanceByHeight_ledger _ _ _ _ _ Hrep Hl) by by eapply chain_heights_ok, He; apply Hrep.
  cbn. by rewrite (HashForHeight_entry _ _ _ e Hrep He).
Qed.

(** C31: No reachable store reports a balance outside the non-negative range of a
    signed 64-bit integer, at any height. *)
Theorem balances_nonnegative g s acct h :
  (∀ m : BlockMeta, is_Some (marshal m)) → u64_range_ok (bm_Height g) →
  reachable g s → length acct = 8%nat → u64_range_ok h →
  ∃ b, balanceByHeight s acct h = Ok b ∧ 0 ≤ b < 2 ^ 63.
Proof.
  intros Henc Hg Hr Hl Hh. destruct (reachable_repr _ _ Henc Hg Hr) as [hist Hrep].
  eexists. split; [by eapply balanceByHeight_ledger|by eapply balance_bound].
Qed.

(** An indexed block is found by its hash and by its height, with the block
    before it as parent (the genesis block is its own parent). *)
Theorem block_lookup s g hist i e p :
  repr s g hist → hist !! i = Some e → parent_of hist i = Some p →
  let data := mkBlockData (e_block e) (e_hash e) (e_height e) (e_hash p) (e_height p) in
  BlockByHash s (e_hash e) = Ok data ∧ BlockByHeight s (e_height e) = Ok data.
Proof. intros. split; [by eapply BlockByHash_entry|by eapply BlockByHeight_entry]. Qed.

(** Lookups of blocks that are not indexed fail with [ErrBlockNotIndexed]. *)
Theorem block_not_indexed s g hist hash h acct :
  repr s g hist → hash ∉ e_hash <$> hist → u64_range_ok h → (∀ e, e ∈ hist → e_height e ≠ h) →
  BlockByHash s hash = Err ErrBlockNotIndexed ∧ BlockByHeight s h = Err ErrBlockNotIndexed ∧
  BalanceByHash s acct hash = Err ErrBlockNotIndexed.
Proof.
  intros Hrep Hf Hh Hno. unfold BlockByHash, BalanceByHash, BlockByHeight.
  rewrite (HeightForHash_missing _ _ _ _ Hrep Hf), (HashForHeight_missing _ _ _ _ Hrep Hh Hno). done.
Qed.

(** C4: Resetting to a height that is not below genesis succeeds and leaves
    exactly the blocks up to that height, with their balances. *)
Theorem reset_truncates s g hist base :
  (∀ m : BlockMeta, is_Some (marshal m)) → repr s g hist → bm_Height g ≤ base →
  ∃ s', ResetTo s base = (s', Ok tt) ∧ repr s' g (kept base hist).
Proof. apply ResetTo_cut. Qed.

(** Resetting below the genesis block fails, but only after every block and
    balance has been deleted; the cached latest block is then stale. *)
Theorem reset_below_genesis s g hist base :
  repr s g hist → base < bm_Height g →
  ∃ s', ResetTo s base = (s', Err (ErrWrap ErrBlockNotIndexed)) ∧
        repr_db (s_db s') g [] ∧ s_latest s' = s_latest s.
Proof. apply ResetTo_destroy. Qed.

(** The account listing has exactly the accounts some indexed operation
    touched, and marks exactly those created with a proxy key. *)
Theorem accounts_listed s g hist :
  repr s g hist →
  ∃ m, Accounts s = Ok m ∧ ∀ acct,
    (is_Some (m !! acct) ↔ ∃ h, touched_at hist acct h) ∧
    (m !! acct = Some true ↔ ∃ h, proxied_at hist acct h).
Proof. apply Accounts_spec. Qed.

(** [HasBalance] holds at a height exactly when the account was touched at
    or before it. *)
Theorem has_balance s g hist acct h :
  repr s g hist → length acct = 8%nat → u64_range_ok h →
  ∃ b, HasBalance s acct h = Ok b ∧ (b = true ↔ ∃ h', h' ≤ h ∧ touched_at hist acct h').
Proof. apply HasBalance_touched. Qed.

(** When every proxy account has one proxy mark, purging removes the marks
    and all balances of the proxy accounts, and no other key. *)
Theorem purge_proxies s g hist :
  repr s g hist → (∀ acct h h', proxied_at hist acct h → proxied_at hist acct h' → h = h') →
  ∃ s', PurgeProxyAccounts s = Ok s' ∧ s_genesis s' = s_genesis s ∧ s_latest s' = s_latest s ∧
    ∀ k, (purged hist k → db_get (s_db s') k = None) ∧
         (¬ purged hist k → db_get (s_db s') k = db_get (s_db s) k).
Proof. apply PurgeProxyAccounts_spec. Qed.
End steps.

(** ** A concrete store

    Genesis at height 5, then a block that creates a proxy account, deposits
    100 to an account and charges it a fee of 10. *)
Module Demo.
#[local] Existing Instance gmap_badger.
#[local] Instance proto_meta : Proto BlockMeta := ser_proto BlockMeta.
#[local] Instance proto_block : Proto IndexedBlock := ser_proto IndexedBlock.
#[local] Instance range : MapRange bytes := list_range bytes.

Definition alice : bytes := [x01; x02; x03; x04; x05; x06; x07; x08].
Definition proxy : bytes := [x11; x12; x13; x14; x15; x16; x17; x18].
Definition g : BlockMeta := mkBlockMeta [xaa] 5 [] 1000.
Definition block : IndexedBlock := mkIndexedBlock 2000 [mkIndexedTransaction "" [] false [x77]
  [mkOperation proxy 0 [x99] [] CREATE_ACCOUNT;
   mkOperation [] 100 [] alice TRANSFER;
   mkOperation alice 10 [] [] FEE]].
Definition e : entry := mkEntry 6 [xbb] block.
Definition hist : list entry := [genesis_entry g; e].

Definition get {E A} (z : A) (m : outcome E A) : A := match m with Ok a => a | _ => z end.
Definition empty : Store (gmap bytes bytes) := mkStore ∅ None None.
Definition s0 : Store (gmap bytes bytes) := get empty (SetGenesis empty g).
Definition s : Store (gmap bytes bytes) := get empty (Index s0 6 [xbb] block).

Lemma get_ok {E A} (z : A) (m : outcome E A) : is_Ok m = true → m = Ok (get z m).
Proof. by destruct m. Qed.

Lemma set_s0 : SetGenesis empty g = Ok s0.
Proof. apply get_ok. vm_compute. reflexivity. Qed.

Lemma index_s : Index s0 6 [xbb] block = Ok s.
Proof. apply get_ok. vm_compute. reflexivity. Qed.

Lemma fresh_s : HeightForHash s0 [xbb] = Err ErrBlockNotIndexed.
Proof. vm_compute. reflexivity. Qed.

Lemma block_wf : wf_block block.
Proof. unfold wf_block. repeat (apply Forall_cons; split); [..|constructor]; vm_compute; tauto. Qed.

Lemma repr_s0 : repr s0 g [genesis_entry g].
Proof. apply (SetGenesis_repr empty g s0); [done|unfold u64_range_ok; simpl; lia|apply set_s0]. Qed.

Lemma repr_s : repr s g hist.
Proof.
  apply (Index_repr s0 g [genesis_entry g] 6 [xbb] block s);
    [apply repr_s0|done|done|set_solver|apply block_wf|apply index_s].
Qed.

Lemma marshal_total : ∀ m : BlockMeta, is_Some (marshal m).
Proof. by eexists. Qed.

Lemma reachable_s : reachable g s.
Proof.
  exists ∅, s0. split; [done|]. split; [apply set_s0|]. apply rtc_once.
  apply (step_index s0 6 [xbb] block s); [|apply block_wf|apply fresh_s|apply index_s].
  unfold u64_range_ok; lia.
Qed.

Lemma height_g : u64_range_ok (bm_Height g).
Proof. by vm_compute. Qed.

(** *** The theorems at the concrete store *)

Lemma index_invariant_witness : ∃ h, repr s g h.
Proof. exact (index_invariant g s marshal_total height_g reachable_s). Defined.

Lemma index_extends_witness :
  (∃ s', Index s0 6 [xbb] block = Ok s' ∧ repr s' g hist) ∨
  (∃ acct, block_touches acct block = true ∧
     let val := s64 (ledger_balance hist acct 6) in
     val < 0 ∧ Index s0 6 [xbb] block = Err (ErrWrap (ErrInvalidBalance acct val))).
Proof.
  apply (index_extends s0 g [genesis_entry g] [xbb] block);
    [apply repr_s0|done|set_solver|apply block_wf|by eexists|by eexists].
Defined.

Lemma index_guards_witness :
  Index s 6 [xcc] block = Ok s ∧ Index s 8 [xcc] block = Fatal.
Proof.
  split; [apply (index_guards s g hist 6 [xcc] block repr_s)|apply (index_guards s g hist 8 [xcc] block repr_s)];
    by vm_compute.
Defined.

Lemma balance_is_ledger_witness :
  BalanceByHash s alice [xbb] = Ok (mkBalanceData 90 [xbb] 6) ∧
  BalanceByHeight s alice 6 = Ok (mkBalanceData 90 [xbb] 6).
Proof. apply (balance_is_ledger s g hist alice e repr_s eq_refl). right. left. Defined.

Lemma balances_nonnegative_witness : ∃ b, balanceByHeight s alice 9 = Ok b ∧ 0 ≤ b < 2 ^ 63.
Proof.
  apply (balances_nonnegative g s alice 9 marshal_total height_g reachable_s eq_refl).
  by vm_compute.
Defined.

Lemma block_lookup_witness :
  BlockByHash s [xbb] = Ok (mkBlockData block [xbb] 6 [xaa] 5) ∧
  BlockByHeight s 6 = Ok (mkBlockData block [xbb] 6 [xaa] 5).
Proof. exact (block_lookup s g hist 1 e (genesis_entry g) repr_s eq_refl eq_refl). Defined.

Lemma block_not_indexed_witness :
  BlockByHash s [xcc] = Err ErrBlockNotIndexed ∧ BlockByHeight s 7 = Err ErrBlockNotIndexed ∧
  BalanceByHash s alice [xcc] = Err ErrBlockNotIndexed.
Proof.
  apply (block_not_indexed s g hist [xcc] 7 alice repr_s); [set_solver|by vm_compute|].
  intros e' He'. unfold hist in He'. set_solver.
Defined.

Lemma reset_truncates_witness :
  ∃ s', ResetTo s 5 = (s', Ok tt) ∧ repr s' g [genesis_entry g].
Proof. apply (reset_truncates s g hist 5 marshal_total repr_s). by vm_compute. Defined.

Lemma reset_below_genesis_witness :
  ∃ s', ResetTo s 4 = (s', Err (ErrWrap ErrBlockNotIndexed)) ∧
        repr_db (s_db s') g [] ∧ s_latest s' = s_latest s.
Proof. apply (reset_below_genesis s g hist 4 repr_s). by vm_compute. Defined.

Lemma accounts_listed_witness :
  ∃ m, Accounts s = Ok m ∧ ∀ acct,
    (is_Some (m !! acct) ↔ ∃ h, touched_at hist acct h) ∧
    (m !! acct = Some true ↔ ∃ h, proxied_at hist acct h).
Proof. exact (accounts_listed s g hist repr_s). Defined.

Lemma has_balance_witness :
  ∃ b, HasBalance s alice 5 = Ok b ∧ (b = true ↔ ∃ h', h' ≤ 5 ∧ touched_at hist alice h').
Proof. apply (has_balance s g hist alice 5 repr_s eq_refl). by vm_compute. Defined.

Lemma one_mark acct h h' : proxied_at hist acct h → proxied_at hist acct h' → h = h'.
Proof.
  assert (∀ h, proxied_at hist acct h → h = 6) as H6; [|intros ->%H6 ->%H6; done].
  intros h1 (x & Hx & <- & Hp). unfold hist in Hx.
  rewrite elem_of_cons, list_elem_of_singleton in Hx. by destruct Hx as [-> | ->].
Qed.

Lemma purge_proxies_witness :
  ∃ s', PurgeProxyAccounts s = Ok s' ∧ s_genesis s' = s_genesis s ∧ s_latest s' = s_latest s ∧
    ∀ k, (purged hist k → db_get (s_db s') k = None) ∧
         (¬ purged hist k → db_get (s_db s') k = db_get (s_db s) k).
Proof. exact (purge_proxies s g hist repr_s one_mark). Defined.
End Demo.
