(* ===== verification/Text.v ===== *)
(** * Text

    What the source uses of Go's [strings] and [strconv] on requests: splitting
    at a separator and reading decimal integers. *)
From S2P Require Import Prelude Bytes.
Local Open Scope Z_scope.

(** ** [strings.Split] *)

(** Splitting at a one-character separator. *)
Fixpoint split_on (c : Ascii.ascii) (s : string) : list string :=
  match s with
  | EmptyString => [EmptyString]
  | String a s =>
      let r := split_on c s in
      if Ascii.eqb a c then EmptyString :: r
      else match r with h :: t => String a h :: t | [] => [String a EmptyString] end
  end.

Definition colon : Ascii.ascii := Ascii.ascii_of_N 58.

Fixpoint all_chars (P : Ascii.ascii → bool) (s : string) : bool :=
  match s with EmptyString => true | String a s => P a && all_chars P s end.

(** No separator in the text. *)
Definition free_of (c : Ascii.ascii) (s : string) : bool := all_chars (λ a, negb (Ascii.eqb a c)) s.

Lemma split_free c s : free_of c s = true → split_on c s = [s].
Proof.
  induction s as [|a s IH]; [done|]. unfold free_of. cbn [all_chars split_on].
  intros [Ha Hs]%andb_true_iff. apply negb_true_iff in Ha. by rewrite IH, Ha.
Qed.

Lemma split_app c s r : free_of c s = true → split_on c (s +:+ String c r) = s :: split_on c r.
Proof.
  induction s as [|a s IH]; intros Hs.
  - change ("" +:+ String c r) with (String c r). cbn [split_on]. by rewrite Ascii.eqb_refl.
  - change (String a s +:+ String c r) with (String a (s +:+ String c r)).
    unfold free_of in *. cbn [all_chars split_on] in *. apply andb_true_iff in Hs as [Ha Hs].
    apply negb_true_iff in Ha. by rewrite IH, Ha.
Qed.

Lemma split_pair c a b : free_of c a = true → free_of c b = true → split_on c (a +:+ String c b) = [a; b].
Proof. intros Ha Hb. by rewrite split_app, split_free. Qed.

Lemma hex_val_not_colon a z : hex_val a = Some z → Ascii.eqb a colon = false.
Proof. destruct a as [[] [] [] [] [] [] [] []]; by vm_compute. Qed.

(** Hexadecimal text has no colon. *)
Lemma hex_free s b : hex_decode s = Some b → free_of colon s = true.
Proof.
  revert b. induction s as [s IH] using (induction_ltof1 _ String.length). unfold ltof in IH.
  destruct s as [|x [|y s]]; intros b Hs; try done. cbn [hex_decode] in Hs.
  destruct (hex_val x) eqn:Hx; [|done]. destruct (hex_val y) eqn:Hy; [|done]. simpl in Hs.
  destruct (hex_decode s) as [b'|] eqn:Hs'; [|done].
  unfold free_of. cbn [all_chars]. rewrite (hex_val_not_colon _ _ Hx), (hex_val_not_colon _ _ Hy). simpl.
  apply (IH s) with b'; [simpl; lia|done].
Qed.

Lemma hex_encode_free b : free_of colon (hex_encode b) = true.
Proof. by eapply hex_free, hex_decode_encode. Qed.

(** ** ASCII text *)

Definition is_ascii (s : string) : bool := all_chars (λ a, (Ascii.N_of_ascii a <? 128)%N) s.

Lemma hex_digit_ascii n : 0 ≤ n < 16 → (Ascii.N_of_ascii (hex_digit n) <? 128)%N = true.
Proof.
  intros Hn. unfold hex_digit. rewrite Ascii.N_ascii_embedding by (destruct (n <? 10); lia).
  apply N.ltb_lt. destruct (n <? 10); lia.
Qed.

Lemma hex_encode_ascii b : is_ascii (hex_encode b) = true.
Proof.
  induction b as [|x b IH]; [done|]. unfold is_ascii in *. cbn [hex_encode all_chars].
  pose proof (byte_Z_range x).
  pose proof (Z.mod_pos_bound (byte_Z x) 16 eq_refl).
  assert (0 ≤ byte_Z x / 16 < 16) by (split; [apply Z.div_pos|apply Z.div_lt_upper_bound]; lia).
  by rewrite !hex_digit_ascii, IH.
Qed.

(** ** Decimal integers

    [strconv.ParseInt(s, 10, _)] without its range check and
    [big.Int.SetString(s, 10)]: an optional sign and at least one digit. *)
Definition digit_val (c : Ascii.ascii) : option Z :=
  let n := Z.of_N (Ascii.N_of_ascii c) in
  if (48 <=? n) && (n <=? 57) then Some (n - 48) else None.

Fixpoint parse_digits (acc : Z) (s : string) : option Z :=
  match s with
  | EmptyString => Some acc
  | String c s => d ← digit_val c; parse_digits (acc * 10 + d) s
  end.

Definition parse_nat (s : string) : option Z :=
  match s with EmptyString => None | _ => parse_digits 0 s end.

Definition dash : Ascii.ascii := Ascii.ascii_of_N 45.
Definition plus : Ascii.ascii := Ascii.ascii_of_N 43.

Definition parse_decimal (s : string) : option Z :=
  match s with
  | EmptyString => None
  | String c r =>
      if Ascii.eqb c dash then Z.opp <$> parse_nat r
      else if Ascii.eqb c plus then parse_nat r
      else parse_nat s
  end.

(** [strconv.ParseInt(s, 10, 64)]; [None] is its error. *)
Definition ParseInt64 (s : string) : option Z :=
  z ← parse_decimal s; if (- 2 ^ 63 <=? z) && (z <? 2 ^ 63) then Some z else None.

Lemma digit_val_char n : (n < 10)%N → digit_val (pretty_N_char n) = Some (Z.of_N n).
Proof.
  intros Hn. assert (n = 0 ∨ n = 1 ∨ n = 2 ∨ n = 3 ∨ n = 4 ∨ n = 5 ∨ n = 6 ∨ n = 7 ∨ n = 8 ∨ n = 9)%N as Hd by lia.
  by repeat destruct Hd as [->|Hd]; subst.
Qed.

Lemma parse_digits_pretty n s : parse_digits 0 (pretty_N_go n s) = parse_digits (Z.of_N n) s.
Proof.
  revert s. induction (N.lt_wf_0 n) as [n _ IH]; intros s.
  destruct (decide (n = 0)%N) as [->|Hn]; [done|].
  rewrite pretty_N_go_step, IH by (lia || apply N.div_lt; lia). cbn [parse_digits].
  rewrite digit_val_char by by apply N.mod_lt. cbn [mbind option_bind].
  f_equal. pose proof (N.div_mod n 10). lia.
Qed.

Lemma parse_nat_pretty n : parse_nat (pretty n) = Some (Z.of_N n).
Proof.
  unfold pretty, pretty_N. case_decide as Hn; [by subst|].
  pose proof (parse_digits_pretty n "") as Hp. destruct (pretty_N_go n ""); [|done].
  injection Hp as Hp. lia.
Qed.

Lemma parse_decimal_nat s z : parse_nat s = Some z → parse_decimal s = Some z.
Proof.
  destruct s as [|c s]; [done|]. intros Hz. unfold parse_decimal.
  destruct (Ascii.eqb_spec c dash) as [->|]; [done|]. by destruct (Ascii.eqb_spec c plus) as [->|].
Qed.

(** What [strconv] prints, it reads back. *)
Lemma parse_format z : 0 ≤ z → parse_decimal (format_int z) = Some z.
Proof.
  intros Hz. apply parse_decimal_nat. destruct z as [|p|p]; [done| |lia].
  apply (parse_nat_pretty (Npos p)).
Qed.

Lemma parse_format_neg z : 0 ≤ z → parse_decimal (String dash (format_int z)) = Some (- z).
Proof.
  intros Hz. change (parse_decimal (String dash (format_int z))) with (Z.opp <$> parse_nat (format_int z)).
  destruct z as [|p|p]; [done| |lia]. by rewrite (parse_nat_pretty (Npos p) : parse_nat (format_int (Zpos p)) = _).
Qed.

Lemma parse_digits_nonneg acc s z : 0 ≤ acc → parse_digits acc s = Some z → 0 ≤ z.
Proof.
  revert acc. induction s as [|c s IH]; intros acc Hacc; cbn [parse_digits]; [by intros [= <-]|].
  unfold digit_val. destruct ((48 <=? _) && _) eqn:Hc; [|done]. cbn [mbind option_bind].
  apply IH. lia.
Qed.

Lemma ParseInt64_range s z : ParseInt64 s = Some z → - 2 ^ 63 ≤ z < 2 ^ 63.
Proof.
  unfold ParseInt64. destruct (parse_decimal s) as [x|]; [|done]. cbn [mbind option_bind].
  destruct (_ && _) eqn:Hr; [|done]. intros [= <-]. lia.
Qed.
