(* ===== verification/Deque.v ===== *)
(** * The block hash queue

    Model of [src/deque/deque.go]: a FIFO queue in a ring buffer whose capacity
    is a power of two and doubles when the buffer is full. The mutex makes each
    method one atomic step. *)
From S2P Require Import Prelude Bytes.
Local Open Scope Z_scope.

Record Queue := mkQueue {
  q_cap : Z;
  q_elems : list Identifier;
  q_head : Z;
  q_len : Z;
  q_tail : Z;
}.

Definition Cap (q : Queue) : Z := q_cap q.
Definition Len (q : Queue) : Z := q_len q.

(** ** Slices of identifiers *)

(** [l[lo:hi]]; Go panics when the bounds are out of order or range. *)
Definition slice (lo hi : Z) (l : list Identifier) : outcome Empty_set (list Identifier) :=
  if (0 <=? lo) && (lo <=? hi) && (hi <=? Z.of_nat (length l))
  then Ok (drop (Z.to_nat lo) (take (Z.to_nat hi) l)) else Panic.

(** [copy(dst[at:], src)] and the number of elements it copies. *)
Definition copy_ids (dst : list Identifier) (at_ : nat) (src : list Identifier)
    : list Identifier * nat :=
  let n := ((length dst - at_) `min` length src)%nat in
  (take at_ dst ++ take n src ++ drop (at_ + n) dst, n).

(** [make([]flow.Identifier, n)]. *)
Definition make_ids (n : Z) : outcome Empty_set (list Identifier) :=
  if n <? 0 then Panic else Ok (replicate (Z.to_nat n) ZeroID).

(** [l[i]] and [l[i] = x]. *)
Definition index (l : list Identifier) (i : Z) : outcome Empty_set Identifier :=
  if i <? 0 then Panic else deref (l !! Z.to_nat i).
Definition assign (l : list Identifier) (i : Z) (x : Identifier) : outcome Empty_set (list Identifier) :=
  if (0 <=? i) && (i <? Z.of_nat (length l)) then Ok (<[Z.to_nat i := x]> l) else Panic.

(** ** Operations *)

Definition New (initialCapacity : Z) : outcome Empty_set Queue :=
  if negb (Z.land initialCapacity (s64 (initialCapacity - 1)) =? 0) then Panic
  else
    elems ← make_ids initialCapacity;
    Ok {| q_cap := initialCapacity; q_elems := elems; q_head := 0; q_len := 0; q_tail := 0 |}.

Definition Pop (q : Queue) : outcome Empty_set (Identifier * Queue) :=
  if q_len q =? 0 then Ok (ZeroID, q)
  else
    elem ← index (q_elems q) (q_head q);
    Ok (elem, {| q_cap := q_cap q; q_elems := q_elems q; q_head := Z.land (q_head q + 1) (q_cap q - 1);
                 q_len := q_len q - 1; q_tail := q_tail q |}).

(** The branch of [Push] that doubles a full buffer. *)
Definition grow (q : Queue) : outcome Empty_set Queue :=
  let cap' := s64 (Z.shiftl (q_cap q) 1) in
  fresh ← make_ids cap';
  elems' ←
    (if q_head q <? q_tail q then
       part ← slice (q_head q) (q_tail q) (q_elems q);
       Ok (copy_ids fresh 0 part).1
     else
       part ← slice (q_head q) (Z.of_nat (length (q_elems q))) (q_elems q);
       let '(fresh, n) := copy_ids fresh 0 part in
       part ← slice 0 (q_tail q) (q_elems q);
       Ok (copy_ids fresh n part).1);
  Ok {| q_cap := cap'; q_elems := elems'; q_head := 0; q_len := q_len q; q_tail := q_len q |}.

Definition Push (q : Queue) (elem : Identifier) : outcome Empty_set Queue :=
  q ← (if q_len q =? q_cap q then grow q else Ok q);
  elems' ← assign (q_elems q) (q_tail q) elem;
  Ok {| q_cap := q_cap q; q_elems := elems'; q_head := q_head q;
        q_len := q_len q + 1; q_tail := Z.land (q_tail q + 1) (q_cap q - 1) |}.

(** ** Invariant and contents *)

Record wf (q : Queue) : Prop := {
  wf_cap : ∃ k, 0 ≤ k ∧ q_cap q = 2 ^ k;
  wf_elems : Z.of_nat (length (q_elems q)) = q_cap q;
  wf_head : 0 ≤ q_head q < q_cap q;
  wf_len : 0 ≤ q_len q ≤ q_cap q;
  wf_tail : q_tail q = (q_head q + q_len q) mod q_cap q;
}.

(** The queued elements, oldest first. *)
Definition contents (q : Queue) : list Identifier :=
  take (Z.to_nat (q_len q)) (drop (Z.to_nat (q_head q)) (q_elems q) ++ take (Z.to_nat (q_head q)) (q_elems q)).

Lemma length_contents q : wf q → Z.of_nat (length (contents q)) = q_len q.
Proof.
  intros [_ He Hh Hl _]. unfold contents.
  rewrite length_take, length_app, length_drop, length_take. lia.
Qed.

(** The mask is the remainder modulo the capacity. *)
Lemma mask_mod q z : wf q → Z.land z (q_cap q - 1) = z mod q_cap q.
Proof.
  intros [(k & Hk & ->) _ _ _ _]. rewrite <-Z.land_ones by done. by rewrite Z.ones_equiv.
Qed.

Lemma cap_pos q : wf q → 0 < q_cap q.
Proof. intros Hwf. pose proof (wf_head q Hwf). lia. Qed.

Lemma wrap_mod z c : 0 ≤ z < 2 * c → z mod c = if decide (z < c) then z else z - c.
Proof.
  intros Hz. case_decide; [apply Z.mod_small; lia|].
  rewrite <-(Z.mod_small (z - c) c) by lia. rewrite <-(Z_mod_plus_full (z - c) 1). f_equal. lia.
Qed.

(** ** The operations keep the invariant and implement the list queue *)

Lemma contents_lookup q i :
  wf q → (i < length (contents q))%nat →
  contents q !! i = q_elems q !! Z.to_nat ((q_head q + Z.of_nat i) mod q_cap q).
Proof.
  intros Hwf Hi. pose proof (length_contents q Hwf) as Hlc. destruct Hwf as [_ He Hh Hl _].
  unfold contents. rewrite lookup_take_lt by lia. rewrite wrap_mod by lia. case_decide.
  - rewrite lookup_app_l by (rewrite length_drop; lia). rewrite lookup_drop. f_equal. lia.
  - rewrite lookup_app_r by (rewrite length_drop; lia).
    rewrite lookup_take_lt; rewrite length_drop; [f_equal; lia|lia].
Qed.

Lemma Pop_spec q :
  wf q →
  match contents q with
  | [] => Pop q = Ok (ZeroID, q)
  | x :: rest => ∃ q', Pop q = Ok (x, q') ∧ wf q' ∧ contents q' = rest
  end.
Proof.
  intros Hwf. pose proof (length_contents q Hwf) as Hlc. pose proof (contents_lookup q 0 Hwf) as H0.
  unfold Pop. destruct (contents q) as [|x rest] eqn:Hq; cbn [length] in *.
  { by rewrite <-Hlc. }
  destruct (Z.eqb_spec (q_len q) 0); [lia|].
  specialize (H0 ltac:(lia)). simpl in H0. pose proof (mask_mod q (q_head q + 1) Hwf) as Hmask.
  pose proof Hwf as [Hk He Hh Hl Ht]. rewrite Z.add_0_r, Z.mod_small in H0 by lia.
  unfold index. rewrite (proj2 (Z.ltb_ge _ _)) by lia. rewrite <-H0. cbn.
  eexists. split; [done|]. rewrite Hmask.
  assert (wf (mkQueue (q_cap q) (q_elems q) ((q_head q + 1) mod q_cap q) (q_len q - 1) (q_tail q))) as Hwf'.
  { split; simpl; [done|done| |lia|].
    - apply Z.mod_pos_bound. lia.
    - rewrite Zplus_mod_idemp_l, Ht. f_equal. lia. }
  split; [done|]. pose proof (length_contents _ Hwf') as Hlc'. simpl in Hlc'.
  apply list_eq_same_length with (n := length rest); [done|lia|].
  intros i y z Hi Hy Hz. rewrite (contents_lookup _ i Hwf') in Hy by lia. simpl in Hy.
  pose proof (contents_lookup q (S i) Hwf) as Hi'. rewrite Hq in Hi'. simpl in Hi'.
  rewrite Hi' in Hz by lia. rewrite Zplus_mod_idemp_l in Hy.
  replace (q_head q + 1 + Z.of_nat i) with (q_head q + Z.of_nat (S i)) in Hy by lia. congruence.
Qed.

Lemma make_ids_ok n : 0 ≤ n → make_ids n = Ok (replicate (Z.to_nat n) ZeroID).
Proof. intros. unfold make_ids. by rewrite (proj2 (Z.ltb_ge _ _)) by lia. Qed.

Lemma slice_ok lo hi l :
  0 ≤ lo ≤ hi → hi ≤ Z.of_nat (length l) →
  slice lo hi l = Ok (drop (Z.to_nat lo) (take (Z.to_nat hi) l)).
Proof. intros. unfold slice. by rewrite !(proj2 (Z.leb_le _ _)) by lia. Qed.

Lemma copy_ids_fit pre src n :
  (length src ≤ n)%nat →
  copy_ids (pre ++ replicate n ZeroID) (length pre) src =
  (pre ++ src ++ replicate (n - length src) ZeroID, length src).
Proof.
  intros Hn. unfold copy_ids. rewrite length_app, length_replicate.
  replace ((length pre + n - length pre) `min` length src)%nat with (length src) by lia.
  rewrite take_app_length, (take_ge src) by lia. rewrite drop_app_add. by rewrite drop_replicate.
Qed.

(** Doubling keeps the queue and makes room. *)
Lemma grow_spec q :
  wf q → q_len q = q_cap q → q_cap q < 2 ^ 61 →
  ∃ q', grow q = Ok q' ∧ wf q' ∧ contents q' = contents q ∧
        q_len q' = q_len q ∧ q_cap q' = 2 * q_cap q.
Proof.
  intros Hwf Hfull Hb. pose proof (cap_pos q Hwf). destruct Hwf as [(k & Hk & Hc) He Hh Hl Ht].
  assert (q_tail q = q_head q) as Heq.
  { rewrite Ht, Hfull, <-(Z.mul_1_l (q_cap q)) at 1. rewrite Z_mod_plus_full. apply Z.mod_small. lia. }
  unfold grow. rewrite Z.shiftl_mul_pow2, Z.pow_1_r, s64_id by lia.
  rewrite make_ids_ok by lia. cbn [mbind outcome_mbind outcome_bind].
  rewrite Heq, Z.ltb_irrefl, !slice_ok by lia. cbn [mbind outcome_mbind outcome_bind].
  rewrite Nat2Z.id, take_ge by lia.
  set (a := drop (Z.to_nat (q_head q)) (q_elems q)). set (b := take (Z.to_nat (q_head q)) (q_elems q)).
  assert (Z.of_nat (length a + length b) = q_cap q) as Hab.
  { unfold a, b. rewrite length_drop, length_take. lia. }
  pose proof (copy_ids_fit [] a (Z.to_nat (q_cap q * 2))) as H1. cbn [app length] in H1.
  rewrite H1 by lia. cbn [mbind outcome_mbind outcome_bind]. rewrite Z2Nat.inj_0, drop_0.
  rewrite copy_ids_fit by lia. cbn [mbind outcome_mbind outcome_bind fst].
  eexists. split; [done|]. split; [split; simpl|].
  - exists (k + 1). split; [lia|]. rewrite Hc, Z.pow_add_r by lia. lia.
  - rewrite !length_app, length_replicate. lia.
  - lia.
  - lia.
  - rewrite Z.mod_small; lia.
  - split; [|simpl; lia]. unfold contents. simpl. rewrite drop_0, take_0, app_nil_r.
    rewrite (assoc_L (++)), take_app_le, take_ge by (rewrite length_app; lia).
    fold a b. by rewrite take_ge by (rewrite length_app; lia).
Qed.

Lemma append_spec q x :
  wf q → q_len q < q_cap q →
  ∃ q', (elems' ← assign (q_elems q) (q_tail q) x;
         Ok (mkQueue (q_cap q) elems' (q_head q) (q_len q + 1)
               (Z.land (q_tail q + 1) (q_cap q - 1)))) = Ok q' ∧
    wf q' ∧ contents q' = contents q ++ [x] ∧ q_cap q' = q_cap q ∧ q_len q' = q_len q + 1.
Proof.
  intros Hwf Hroom. pose proof (mask_mod q (q_tail q + 1) Hwf) as Hmask.
  pose proof (cap_pos q Hwf) as Hpos. pose proof (length_contents q Hwf) as Hlc.
  pose proof Hwf as [Hk He Hh Hl Ht].
  assert (0 ≤ q_tail q < q_cap q) as Htail by (rewrite Ht; by apply Z.mod_pos_bound).
  unfold assign. rewrite (proj2 (Z.leb_le _ _)), (proj2 (Z.ltb_lt _ _)) by lia. cbn.
  eexists. split; [done|]. rewrite Hmask.
  set (q' := mkQueue _ _ _ _ _).
  assert (wf q') as Hwf'.
  { split; simpl; [done|by rewrite length_insert|lia|lia|].
    rewrite Ht, Zplus_mod_idemp_l. f_equal. lia. }
  split; [done|]. split; [|done]. pose proof (length_contents _ Hwf') as Hlc'. simpl in Hlc'.
  apply list_eq_same_length with (n := length (contents q')); [|done|].
  { rewrite length_app. simpl. lia. }
  intros i y z Hi Hy Hz. rewrite (contents_lookup _ i Hwf') in Hy by lia. simpl in Hy.
  destruct (decide (i < length (contents q))%nat) as [Hold|Hnew].
  - rewrite lookup_app_l, (contents_lookup q i Hwf) in Hz by done.
    rewrite list_lookup_insert_ne in Hy; [congruence|].
    intros Heq%Z2Nat.inj; [|lia|apply Z.mod_pos_bound; lia].
    rewrite Ht, !wrap_mod in Heq by lia. repeat case_decide; lia.
  - assert (i = length (contents q)) as -> by lia.
    rewrite lookup_app_r, Nat.sub_diag in Hz by lia. simpl in Hz.
    rewrite Hlc, <-Ht, list_lookup_insert_eq in Hy by lia. congruence.
Qed.

Lemma Push_spec q x :
  wf q → q_len q < 2 ^ 61 →
  ∃ q', Push q x = Ok q' ∧ wf q' ∧ contents q' = contents q ++ [x] ∧ q_len q' = q_len q + 1.
Proof.
  intros Hwf Hb. pose proof (wf_len q Hwf). pose proof (cap_pos q Hwf). unfold Push.
  destruct (Z.eqb_spec (q_len q) (q_cap q)) as [Hfull|Hroom].
  - destruct (grow_spec q Hwf Hfull) as (q1 & -> & Hwf1 & Hc1 & Hl1 & Hcap1); [lia|].
    cbn [mbind outcome_mbind outcome_bind].
    destruct (append_spec q1 x Hwf1) as (q' & -> & ? & Hc' & _ & Hl'); [lia|].
    exists q'. rewrite Hc', Hc1, Hl', Hl1. done.
  - cbn [mbind outcome_mbind outcome_bind].
    destruct (append_spec q x Hwf) as (q' & -> & ? & ? & _ & ?); [lia|]. by exists q'.
Qed.

(** The test in [New] accepts exactly zero and the powers of two. *)
Lemma land_pred_pow2 c : 0 < c → Z.land c (c - 1) = 0 → c = 2 ^ Z.log2 c.
Proof.
  intros Hpos Hland. pose proof (Z.log2_spec c Hpos) as [Hlo Hhi]. pose proof (Z.log2_nonneg c).
  destruct (decide (c = 2 ^ Z.log2 c)) as [|Hne]; [done|]. exfalso.
  set (k := Z.log2 c) in *. rewrite Z.pow_succ_r in Hhi by done.
  assert (∀ z, 2 ^ k ≤ z < 2 * 2 ^ k → Z.testbit z k = true) as Hbit.
  { intros z Hz. apply Z.testbit_true; [done|].
    replace (z `div` 2 ^ k) with 1; [done|]. apply Z.div_unique with (z - 2 ^ k); lia. }
  assert (Z.testbit (Z.land c (c - 1)) k = true) as Hb by (rewrite Z.land_spec, !Hbit by lia; done).
  rewrite Hland, Z.bits_0 in Hb. done.
Qed.

Lemma New_spec c :
  0 < c < 2 ^ 63 →
  match New c with
  | Ok q => wf q ∧ contents q = [] ∧ q_len q = 0 ∧ q_cap q = c
  | Panic => ¬ ∃ k, 0 ≤ k ∧ c = 2 ^ k
  | _ => False
  end.
Proof.
  intros Hc. unfold New. rewrite s64_id by lia. destruct (Z.eqb_spec (Z.land c (c - 1)) 0) as [Hz|Hz].
  - cbn [negb]. rewrite make_ids_ok by lia. cbn. split; [|done].
    pose proof (land_pred_pow2 c ltac:(lia) Hz). pose proof (Z.log2_nonneg c).
    split; simpl; [by exists (Z.log2 c)|rewrite length_replicate; lia|lia|lia|].
    by rewrite Z.mod_0_l by lia.
  - cbn [negb]. intros (k & Hk & ->). apply Hz.
    replace (2 ^ k - 1) with (Z.ones k) by (rewrite Z.ones_equiv; lia).
    rewrite Z.land_ones by done. apply Z.mod_same. lia.
Qed.

(** ** Refinement of a list queue *)

Inductive request := PushReq (x : Identifier) | PopReq.

(** The specification: a list, and what [Pop] answers. *)
Definition list_step (st : list Identifier * list Identifier) (r : request)
    : list Identifier * list Identifier :=
  let '(l, out) := st in
  match r, l with
  | PushReq x, _ => (l ++ [x], out)
  | PopReq, [] => ([], out ++ [ZeroID])
  | PopReq, x :: l => (l, out ++ [x])
  end.

Definition queue_step (st : Queue * list Identifier) (r : request)
    : outcome Empty_set (Queue * list Identifier) :=
  let '(q, out) := st in
  match r with
  | PushReq x => q ← Push q x; Ok (q, out)
  | PopReq => r ← Pop q; Ok (r.2, out ++ [r.1])
  end.

Lemma queue_run_spec rs q out :
  wf q → q_len q + Z.of_nat (length rs) < 2 ^ 61 →
  ∃ q', foldM queue_step (q, out) rs = Ok (q', (foldl list_step (contents q, out) rs).2) ∧
        wf q' ∧ contents q' = (foldl list_step (contents q, out) rs).1.
Proof.
  revert q out. induction rs as [|r rs IH]; intros q out Hwf Hb; [by exists q|].
  cbn [length] in Hb. cbn [foldM foldl]. pose proof (wf_len q Hwf). destruct r as [x|].
  - destruct (Push_spec q x Hwf) as (q1 & Hp & Hwf1 & Hc1 & Hl1); [lia|].
    cbn [queue_step list_step]. rewrite Hp. cbn [mbind outcome_mbind outcome_bind].
    rewrite <-Hc1. apply IH; [done|lia].
  - pose proof (Pop_spec q Hwf) as Hp. pose proof (length_contents q Hwf) as Hlc.
    cbn [queue_step list_step]. destruct (contents q) as [|x rest] eqn:Hq.
    + rewrite Hp. cbn [mbind outcome_mbind outcome_bind fst snd]. rewrite <-Hq. apply IH; [done|lia].
    + destruct Hp as (q1 & -> & Hwf1 & Hc1). cbn [mbind outcome_mbind outcome_bind fst snd].
      rewrite <-Hc1. pose proof (length_contents q1 Hwf1). apply IH; [done|].
      rewrite Hc1 in *. cbn [length] in *. lia.
Qed.

(** C33: A queue created with a power-of-two capacity behaves as a FIFO list for
    every sequence of pushes and pops: no call panics, [Pop] returns the oldest
    element (the zero identifier when the queue is empty), and the buffer keeps
    its invariant while it doubles. *)
Theorem queue_refines_list c k rs :
  0 ≤ k < 62 → c = 2 ^ k → Z.of_nat (length rs) < 2 ^ 61 →
  ∃ q q', New c = Ok q ∧
    foldM queue_step (q, []) rs = Ok (q', (foldl list_step ([], []) rs).2) ∧
    wf q' ∧ contents q' = (foldl list_step ([], []) rs).1 ∧
    Len q' = Z.of_nat (length (contents q')).
Proof.
  intros Hk -> Hb. assert (0 < 2 ^ k < 2 ^ 63) as Hc.
  { split; [apply Z.pow_pos_nonneg; lia|apply Z.pow_lt_mono_r; lia]. }
  pose proof (New_spec (2 ^ k) Hc) as Hn. destruct (New (2 ^ k)) as [q| | |]; try done.
  2: { destruct Hn. exists k. lia. }
  destruct Hn as (Hwf & Hq & Hl & _). destruct (queue_run_spec rs q [] Hwf) as (q' & Hr & Hwf' & Hc');
    [lia|]. rewrite Hq in *. exists q, q'. unfold Len. rewrite length_contents by done. done.
Qed.

Lemma queue_refines_list_witness :
  let rs := [PushReq [x01]; PushReq [x02]; PopReq; PushReq [x03]; PushReq [x04]; PopReq; PopReq; PopReq; PopReq] in
  ∃ q q', New 2 = Ok q ∧
    foldM queue_step (q, []) rs = Ok (q', [[x01]; [x02]; [x03]; [x04]; ZeroID]) ∧
    wf q' ∧ contents q' = [] ∧ Len q' = Z.of_nat (length (contents q')).
Proof.
  exact (queue_refines_list 2 1
    [PushReq [x01]; PushReq [x02]; PopReq; PushReq [x03]; PushReq [x04]; PopReq; PopReq; PopReq; PopReq]
    ltac:(lia) eq_refl ltac:(simpl; lia)).
Defined.

(** Capacities that are not a power of two are refused, except that zero
    passes the check and gives a queue whose first [Push] panics. *)
Theorem queue_capacity_check c :
  - 2 ^ 63 ≤ c < 2 ^ 63 →
  (is_Ok (New c) = true ↔ c = 0 ∨ ∃ k, 0 ≤ k ∧ c = 2 ^ k) ∧
  ∀ q x, New 0 = Ok q → Push q x = Panic.
Proof.
  intros Hc. split; [|by intros q x [= <-]]. destruct (decide (0 < c)) as [Hpos|Hneg].
  - pose proof (New_spec c ltac:(lia)) as Hn. destruct (New c) as [q| | |]; try done.
    + destruct Hn as (Hwf & _ & _ & <-). split; [|done]. intros _. right. apply (wf_cap q Hwf).
    + split; [done|]. intros [->|Hk]; [lia|done].
  - destruct (decide (c = 0)) as [->|Hne]; [by split; [left|]|]. split.
    + unfold New, make_ids. destruct (negb _); [done|]. by rewrite (proj2 (Z.ltb_lt _ _)) by lia.
    + intros [->|(k & Hk & ->)]; [done|]. pose proof (Z.pow_pos_nonneg 2 k). lia.
Qed.

Lemma queue_capacity_check_witness : is_Ok (New 4) = true ∧ is_Ok (New 6) = false.
Proof.
  split.
  - apply (proj1 (queue_capacity_check 4 ltac:(lia))). right. exists 2. done.
  - reflexivity.
Defined.
