(* ===== verification/Crypto.v ===== *)
(** * Signature and key formats

    Model of [src/crypto/crypto.go]: conversion of ECDSA signatures between
    Flow's fixed-width format and DER, and of secp256k1 public keys between
    Flow's format and the SEC compressed format. *)
From S2P Require Import Prelude Bytes.
Local Open Scope Z_scope.

(** ** The secp256k1 package

    A third-party library, so a parameter: scalars modulo the group order and
    public keys, with the documented behaviour of the calls the source makes. *)
Class Secp256k1 := {
  scalar : Type;
  group_order : Z;
  (** [SetByteSlice]: the scalar and the overflow flag *)
  SetByteSlice : bytes → scalar * bool;
  IsZero : scalar → bool;
  scalar_Bytes : scalar → bytes;
  PublicKey : Type;
  ParsePubKey : bytes → option PublicKey;
  SerializeCompressed : PublicKey → bytes;
  SerializeUncompressed : PublicKey → bytes;
}.

Class Secp256k1Laws `{Secp256k1} := {
  SetByteSlice_overflow : ∀ b, (length b ≤ 32)%nat →
    (SetByteSlice b).2 = (group_order <=? be_get b);
  SetByteSlice_zero : ∀ b, (length b ≤ 32)%nat → be_get b < group_order →
    IsZero (SetByteSlice b).1 = (be_get b =? 0);
  SetByteSlice_Bytes : ∀ b, (length b ≤ 32)%nat → be_get b < group_order →
    scalar_Bytes (SetByteSlice b).1 = be_put 32 (be_get b);
  Parse_compressed : ∀ p, ParsePubKey (SerializeCompressed p) = Some p;
  Parse_uncompressed : ∀ p, ParsePubKey (SerializeUncompressed p) = Some p;
  Serialize_parsed : ∀ k p, ParsePubKey (x04 :: k) = Some p → SerializeUncompressed p = x04 :: k;
  Uncompressed_tag : ∀ p, ∃ k, SerializeUncompressed p = x04 :: k;
  ParsePubKey_nil : ParsePubKey [] = None;
}.

Inductive crypto_err :=
  | ErrSigLength (sig : string) (n : nat)
  | ErrSigHex (sig : string)
  | ErrInvalidSignature (sig : string)
  | ErrFlowPublicKey (key : bytes)
  | ErrRosettaPublicKey (key : bytes).

(** [raw[i]] and [sig[i]]: a byte of a slice and of a string. *)
Definition byte_at (b : bytes) (i : nat) : outcome crypto_err Z := byte_Z <$> deref (b !! i).
Definition char_at (s : string) (i : nat) : outcome crypto_err Z :=
  (λ c, Z.of_N (Ascii.N_of_ascii c)) <$> deref (String.get i s).

Definition reject_if (b : bool) (e : crypto_err) : outcome crypto_err unit :=
  if b then Err e else Ok tt.

(** [for len(raw) > 0 && raw[0] == 0x00 { raw = raw[1:] }]. *)
Fixpoint strip_zeros (raw : bytes) : bytes :=
  match raw with
  | [] => []
  | b :: rest => if byte_Z b =? 0 then strip_zeros rest else raw
  end.

(** [for len(r) > 1 && r[0] == 0x00 && r[1]&0x80 == 0 { r = r[1:] }]. *)
Fixpoint trim_integer (r : bytes) : bytes :=
  match r with
  | b0 :: ((b1 :: _) as rest) =>
      if (byte_Z b0 =? 0) && (Z.land (byte_Z b1) 0x80 =? 0) then trim_integer rest else r
  | _ => r
  end.

Section crypto.
Context `{Secp256k1}.

(** The lines that turn the bytes of R, and of S, into a scalar. *)
Definition der_scalar (sig : string) (raw : bytes) : outcome crypto_err scalar :=
  let raw := strip_zeros raw in
  _ ← reject_if (bool_decide (32 < length raw)%nat) (ErrInvalidSignature sig);
  let '(r, overflow) := SetByteSlice raw in
  _ ← reject_if overflow (ErrInvalidSignature sig);
  _ ← reject_if (IsZero r) (ErrInvalidSignature sig);
  Ok r.

(** The second half, from [raw[offset] != 0x02] on: the S component. *)
Definition ConvertDERSignature_S (sig : string) (raw : bytes) (r : scalar) (offset : nat)
    : outcome crypto_err string :=
  let invalid := ErrInvalidSignature sig in
  let size := length raw in
  b ← byte_at raw offset; _ ← reject_if (negb (b =? 0x02)) invalid;
  let offset := S offset in
  b ← byte_at raw offset;
  let lenS := Z.to_nat b in
  _ ← reject_if (bool_decide (lenS = 0)%nat || bool_decide (33 < lenS)%nat) invalid;
  let offset := S offset in
  c ← char_at sig offset;
  _ ← reject_if (negb (Z.land c 0x80 =? 0)) invalid;
  c' ← (if bool_decide (1 < lenS)%nat && (c =? 0x00) then char_at sig (S offset) else Ok 0xff);
  _ ← reject_if (bool_decide (1 < lenS)%nat && (c =? 0x00) && (Z.land c' 0x80 =? 0)) invalid;
  _ ← reject_if (bool_decide (size < offset + lenS)%nat) invalid;
  s ← der_scalar sig (drop offset (take (offset + lenS) raw));
  Ok (hex_encode (take 32 (scalar_Bytes r) ++ take 32 (scalar_Bytes s))).

Definition ConvertDERSignature (sig : string) : outcome crypto_err string :=
  let invalid := ErrInvalidSignature sig in
  _ ← reject_if (bool_decide (String.length sig < 16)%nat || bool_decide (144 < String.length sig)%nat)
        (ErrSigLength sig (String.length sig));
  match hex_decode sig with
  | None => Err (ErrSigHex sig)
  | Some raw =>
      let size := length raw in
      b ← byte_at raw 0; _ ← reject_if (negb (b =? 0x30)) invalid;
      b ← byte_at raw 1; _ ← reject_if (negb (b =? Z.of_nat size - 2)) invalid;
      b ← byte_at raw 2; _ ← reject_if (negb (b =? 0x02)) invalid;
      b ← byte_at raw 3;
      let lenR := Z.to_nat b in
      _ ← reject_if (bool_decide (lenR = 0)%nat || bool_decide (33 < lenR)%nat) invalid;
      c4 ← char_at sig 4;
      _ ← reject_if (negb (Z.land c4 0x80 =? 0)) invalid;
      c5 ← (if bool_decide (1 < lenR)%nat && (c4 =? 0x00) then char_at sig 5 else Ok 0xff);
      _ ← reject_if (bool_decide (1 < lenR)%nat && (c4 =? 0x00) && (Z.land c5 0x80 =? 0)) invalid;
      let offset := (4 + lenR)%nat in
      _ ← reject_if (bool_decide (size < offset)%nat) invalid;
      r ← der_scalar sig (drop 4 (take offset raw));
      ConvertDERSignature_S sig raw r offset
  end.

Definition ConvertFlowPublicKey (key : bytes) : outcome crypto_err bytes :=
  match ParsePubKey (x04 :: key) with
  | None => Err (ErrFlowPublicKey key)
  | Some pub => Ok (SerializeCompressed pub)
  end.

Definition ConvertFlowSignature (sig : string) : outcome crypto_err string :=
  _ ← reject_if (negb (bool_decide (String.length sig = 128)%nat)) (ErrSigLength sig (String.length sig));
  match hex_decode sig with
  | None => Err (ErrSigHex sig)
  | Some raw =>
      let r := trim_integer (x00 :: take 32 raw) in
      let s := trim_integer (x00 :: drop 32 raw) in
      let size := 6 + Z.of_nat (length r) + Z.of_nat (length s) in
      Ok (hex_encode ([x30; Z_byte (size - 2); x02; Z_byte (Z.of_nat (length r))] ++ r ++
                      [x02; Z_byte (Z.of_nat (length s))] ++ s))
  end.

Definition ConvertRosettaPublicKey (key : bytes) : outcome crypto_err bytes :=
  match ParsePubKey key with
  | None => Err (ErrRosettaPublicKey key)
  | Some pub => Ok (drop 1 (SerializeUncompressed pub))
  end.
End crypto.

(** ** Lemmas *)

(** The characters of hexadecimal text are plain ASCII: the sign and padding
    tests, which look at the text and not at the decoded bytes, never fire. *)
Lemma hex_val_ascii c z :
  hex_val c = Some z →
  Z.land (Z.of_N (Ascii.N_of_ascii c)) 0x80 = 0 ∧ (Z.of_N (Ascii.N_of_ascii c) =? 0) = false.
Proof. destruct c as [[] [] [] [] [] [] [] []]; by vm_compute. Qed.

Lemma hex_char s b i :
  hex_decode s = Some b → (i < 2 * length b)%nat →
  ∃ c, char_at s i = Ok c ∧ Z.land c 0x80 = 0 ∧ (c =? 0) = false.
Proof.
  revert s i. induction b as [|x b IH]; intros s i Hs Hi; [simpl in Hi; lia|].
  destruct s as [|a [|a' s]]; try done. simpl in Hs.
  destruct (hex_val a) eqn:Ha, (hex_val a') eqn:Ha', (hex_decode s) eqn:Hs'; try done.
  simplify_eq/=. destruct i as [|[|i]].
  - eexists. split; [done|]. by eapply hex_val_ascii.
  - eexists. split; [done|]. by eapply hex_val_ascii.
  - destruct (IH s i Hs' ltac:(lia)) as (c & Hc & ?). exists c. split; [|done].
    rewrite <-Hc. done.
Qed.

Lemma byte_Z_zero b : byte_Z b = 0 → b = x00.
Proof. intros Hb. rewrite <-(Z_byte_Z b), Hb. done. Qed.

Lemma be_get_strip raw : be_get (strip_zeros raw) = be_get raw.
Proof.
  induction raw as [|b raw IH]; [done|]. cbn [strip_zeros].
  destruct (Z.eqb_spec (byte_Z b) 0) as [Hb|]; [|done]. rewrite IH, be_get_cons, Hb. lia.
Qed.

Lemma length_strip raw : (length (strip_zeros raw) ≤ length raw)%nat.
Proof. induction raw as [|b raw IH]; [done|]. cbn [strip_zeros]. destruct (_ =? 0); simpl; lia. Qed.

Lemma trim_integer_cons b0 b1 r :
  trim_integer (b0 :: b1 :: r) =
  if (byte_Z b0 =? 0) && (Z.land (byte_Z b1) 0x80 =? 0) then trim_integer (b1 :: r) else b0 :: b1 :: r.
Proof. done. Qed.

Lemma strip_trim r : strip_zeros (trim_integer r) = strip_zeros r.
Proof.
  induction r as [|b0 r IH]; [done|]. destruct r as [|b1 r]; [done|].
  rewrite trim_integer_cons. destruct ((byte_Z b0 =? 0) && _) eqn:Hb; [|done].
  apply andb_true_iff in Hb as [Hb _]. rewrite IH. cbn [strip_zeros]. by rewrite Hb.
Qed.

Lemma length_trim r : (1 ≤ length r)%nat → (1 ≤ length (trim_integer r) ≤ length r)%nat.
Proof.
  induction r as [|b0 r IH]; [simpl; lia|]. intros _. destruct r as [|b1 r]; [simpl; lia|].
  rewrite trim_integer_cons. destruct (_ && _); [|simpl; lia].
  specialize (IH ltac:(simpl; lia)). cbn [length] in *. lia.
Qed.

Lemma be_put_get n b : length b = n → be_put n (be_get b) = b.
Proof.
  intros Hl. apply be_get_inj; [by rewrite length_be_put|]. rewrite be_get_put.
  apply Z.mod_small. pose proof (be_get_range b). by rewrite Hl in *.
Qed.

Section laws.
Context `{Secp256k1Laws}.

(** A 32-byte big-endian integer in the range of a signature component. *)
Definition component (b : bytes) : Prop := length b = 32%nat ∧ 0 < be_get b < group_order.

(** The scalar code accepts an encoding of a component, padded or not. *)
Lemma der_scalar_ok sig b enc :
  component b → strip_zeros enc = strip_zeros b →
  ∃ r, der_scalar sig enc = Ok r ∧ scalar_Bytes r = b.
Proof.
  intros [Hl Hr] Henc. unfold der_scalar. rewrite Henc.
  pose proof (length_strip b). rewrite bool_decide_false by lia. cbn [reject_if].
  cbn [mbind outcome_mbind outcome_bind].
  pose proof (SetByteSlice_overflow (strip_zeros b) ltac:(lia)) as Ho.
  pose proof (SetByteSlice_zero (strip_zeros b) ltac:(lia)) as Hz.
  pose proof (SetByteSlice_Bytes (strip_zeros b) ltac:(lia)) as Hb.
  rewrite be_get_strip in *. specialize (Hz ltac:(lia)). specialize (Hb ltac:(lia)).
  destruct (SetByteSlice (strip_zeros b)) as [r o]. simpl in *.
  rewrite (proj2 (Z.leb_gt _ _)) in Ho by lia. rewrite (proj2 (Z.eqb_neq _ _)) in Hz by lia.
  subst o. rewrite Hz. simpl. exists r. split; [done|]. by rewrite Hb, be_put_get.
Qed.

(** DER text as the code reads it: any encodings of R and S of at most 33
    bytes, whatever their sign bit and padding. *)
Definition der_R (encR rest : bytes) : bytes :=
  [x30; Z_byte (2 + Z.of_nat (length encR) + Z.of_nat (length rest)); x02;
   Z_byte (Z.of_nat (length encR))] ++ encR ++ rest.
Definition der_S (encS : bytes) : bytes := [x02; Z_byte (Z.of_nat (length encS))] ++ encS.
Definition der (encR encS : bytes) : bytes := der_R encR (der_S encS).

Lemma length_der_R encR rest : length (der_R encR rest) = (4 + length encR + length rest)%nat.
Proof. unfold der_R. rewrite !length_app. simpl. lia. Qed.

Lemma der_R_lookup encR rest i : der_R encR rest !! (4 + length encR + i)%nat = rest !! i.
Proof.
  unfold der_R. rewrite lookup_app_r by (simpl; lia). rewrite lookup_app_r by (simpl; lia).
  f_equal. simpl. lia.
Qed.

Lemma byte_Z_small n : (n < 256)%nat → byte_Z (Z_byte (Z.of_nat n)) = Z.of_nat n.
Proof. intros. rewrite byte_Z_byte. apply Z.mod_small. lia. Qed.

(** The first half reads R and hands over to the second. *)
Lemma ConvertDERSignature_R r encR rest :
  component r → strip_zeros encR = strip_zeros r →
  (1 ≤ length encR ≤ 33)%nat → (4 ≤ length encR + length rest ≤ 68)%nat →
  let raw := der_R encR rest in
  ∃ r0, scalar_Bytes r0 = r ∧
    ConvertDERSignature (hex_encode raw) =
    ConvertDERSignature_S (hex_encode raw) raw r0 (4 + length encR).
Proof.
  intros Hr HeR HlR Hl raw. pose proof (length_der_R encR rest) as Hlr. fold raw in Hlr.
  pose proof (length_hex_encode raw) as Hlen. pose proof (hex_decode_encode raw) as Hdec.
  pose proof (λ i, hex_char (hex_encode raw) raw i Hdec) as Hch.
  set (sig := hex_encode raw) in *. clearbody sig.
  unfold ConvertDERSignature. rewrite Hlen, Hdec, !bool_decide_false by lia.
  cbn [orb reject_if mbind outcome_mbind outcome_bind]. cbv zeta.
  change (byte_at raw 0) with (Ok (E:=crypto_err) 0x30).
  change (byte_at raw 2) with (Ok (E:=crypto_err) 0x02).
  change (byte_at raw 1) with (Ok (E:=crypto_err)
    (byte_Z (Z_byte (2 + Z.of_nat (length encR) + Z.of_nat (length rest))))).
  change (byte_at raw 3) with (Ok (E:=crypto_err) (byte_Z (Z_byte (Z.of_nat (length encR))))).
  rewrite byte_Z_small, byte_Z_byte, Z.mod_small by lia.
  cbn [Z.eqb Pos.eqb negb reject_if mbind outcome_mbind outcome_bind].
  rewrite (proj2 (Z.eqb_eq _ _)) by lia.
  cbn [negb reject_if mbind outcome_mbind outcome_bind].
  rewrite Nat2Z.id, (bool_decide_false (length encR = 0%nat)), (bool_decide_false (33 < length encR)%nat) by lia.
  cbn [orb reject_if mbind outcome_mbind outcome_bind].
  destruct (Hch 4%nat) as (c4 & -> & Hc4 & Hc4'); [lia|].
  cbn [mbind outcome_mbind outcome_bind]. rewrite Hc4, Hc4', andb_false_r.
  cbn [Z.eqb negb andb reject_if mbind outcome_mbind outcome_bind].
  rewrite bool_decide_false by lia. cbn [reject_if mbind outcome_mbind outcome_bind].
  replace (drop 4 (take (4 + length encR) raw)) with encR.
  2: { unfold raw, der_R. cbn [app take Nat.add drop]. by rewrite take_app_length. }
  destruct (der_scalar_ok sig r encR Hr HeR) as (r0 & -> & Hr0). by exists r0.
Qed.

Lemma ConvertDERSignature_S_ok r0 s encR encS :
  component s → strip_zeros encS = strip_zeros s →
  (1 ≤ length encR)%nat → (1 ≤ length encS ≤ 33)%nat →
  let raw := der encR encS in
  ConvertDERSignature_S (hex_encode raw) raw r0 (4 + length encR) =
  Ok (hex_encode (take 32 (scalar_Bytes r0) ++ s)).
Proof.
  intros Hs HeS HlR HlS raw.
  assert (length raw = 6 + length encR + length encS)%nat as Hlr.
  { unfold raw, der. rewrite length_der_R. unfold der_S. rewrite length_app. cbn [length]. lia. }
  pose proof (λ i, hex_char (hex_encode raw) raw i (hex_decode_encode raw)) as Hch.
  set (sig := hex_encode raw) in *. clearbody sig. unfold ConvertDERSignature_S. rewrite Hlr.
  assert (∀ i, byte_at raw (4 + length encR + i) = byte_at (der_S encS) i) as Hat.
  { intros i. unfold byte_at. unfold raw, der. by rewrite der_R_lookup. }
  rewrite <-(Nat.add_0_r (4 + length encR)), Hat. cbn.
  pose proof (Hat 1%nat) as Hat1. rewrite Nat.add_1_r in Hat1. cbn in Hat1. rewrite Nat.add_0_r, Hat1.
  cbn [mbind outcome_mbind outcome_bind]. rewrite byte_Z_small by lia. rewrite Nat2Z.id.
  rewrite (bool_decide_false (length encS = 0%nat)), (bool_decide_false (33 < length encS)%nat) by lia.
  cbn [orb reject_if mbind outcome_mbind outcome_bind].
  destruct (Hch (6 + length encR)%nat) as (c & Hcc & Hc & Hc'); [lia|]. cbn [Nat.add] in Hcc.
  rewrite Hcc. cbn [mbind outcome_mbind outcome_bind]. rewrite Hc, Hc', andb_false_r.
  cbn [Z.eqb negb andb reject_if mbind outcome_mbind outcome_bind].
  rewrite bool_decide_false by lia. cbn [reject_if mbind outcome_mbind outcome_bind].
  match goal with |- context [der_scalar sig ?b] => replace b with encS end.
  2: { rewrite take_ge by (rewrite length_app; cbn [length]; lia).
       replace (S (S (length encR))) with (length encR + 2)%nat by lia. by rewrite drop_app_add. }
  destruct (der_scalar_ok sig s encS Hs HeS) as (s0 & -> & Hs0).
  cbn [mbind outcome_mbind outcome_bind]. rewrite Hs0. destruct Hs as [Hs _].
  by rewrite (take_ge s) by lia.
Qed.

Lemma ConvertDERSignature_der r s encR encS :
  component r → component s →
  strip_zeros encR = strip_zeros r → strip_zeros encS = strip_zeros s →
  (1 ≤ length encR ≤ 33)%nat → (1 ≤ length encS ≤ 33)%nat →
  ConvertDERSignature (hex_encode (der encR encS)) = Ok (hex_encode (r ++ s)).
Proof.
  intros Hr Hs HeR HeS HlR HlS.
  destruct (ConvertDERSignature_R r encR (der_S encS)) as (r0 & Hr0 & HR); [done..| |].
  { unfold der_S. rewrite length_app. cbn [length]. lia. }
  unfold der. rewrite HR. fold (der encR encS). rewrite (ConvertDERSignature_S_ok r0 s) by (done || lia).
  destruct Hr as [Hr _]. by rewrite Hr0, take_ge by lia.
Qed.

Lemma ConvertFlowSignature_der r s :
  length r = 32%nat → length s = 32%nat →
  ConvertFlowSignature (hex_encode (r ++ s)) =
  Ok (hex_encode (der (trim_integer (x00 :: r)) (trim_integer (x00 :: s)))).
Proof.
  intros Hr Hs. unfold ConvertFlowSignature. rewrite length_hex_encode, length_app, Hr, Hs.
  cbn [Nat.mul Nat.add]. rewrite bool_decide_true by done. cbn [negb reject_if mbind outcome_mbind outcome_bind].
  rewrite hex_decode_encode, take_app_length', drop_app_length' by done.
  unfold der, der_R, der_S. rewrite (length_app [_; _]). cbn [length app].
  do 5 f_equal. f_equal. lia.
Qed.

Lemma trim_padded r : length r = 32%nat →
  strip_zeros (trim_integer (x00 :: r)) = strip_zeros r ∧
  (1 ≤ length (trim_integer (x00 :: r)) ≤ 33)%nat.
Proof.
  intros Hr. rewrite strip_trim. split; [done|].
  pose proof (length_trim (x00 :: r)). cbn [length] in *. lia.
Qed.

(** Conversely, what the scalar code accepts is a component. *)
Lemma der_scalar_component sig enc r : der_scalar sig enc = Ok r → component (scalar_Bytes r).
Proof.
  unfold der_scalar. intros Hd. apply bind_Ok in Hd as ([] & Hl & Hd).
  unfold reject_if in Hl. case_bool_decide as Hlen; [done|]. clear Hl.
  pose proof (SetByteSlice_overflow (strip_zeros enc) ltac:(lia)) as Ho.
  pose proof (SetByteSlice_zero (strip_zeros enc) ltac:(lia)) as Hz.
  pose proof (SetByteSlice_Bytes (strip_zeros enc) ltac:(lia)) as Hb.
  pose proof (be_get_range (strip_zeros enc)) as Hr.
  destruct (SetByteSlice (strip_zeros enc)) as [x o]. simpl in *. subst o.
  destruct (Z.leb_spec group_order (be_get (strip_zeros enc))) as [|Hlt]; [done|]. simpl in Hd.
  rewrite Hz in Hd by done. destruct (Z.eqb_spec (be_get (strip_zeros enc)) 0) as [|Hnz]; [done|]. simpl in Hd.
  injection Hd as <-. rewrite Hb by done. split; [apply length_be_put|]. rewrite be_get_put, Z.mod_small; [lia|].
  split; [lia|]. assert (256 ^ Z.of_nat (length (strip_zeros enc)) ≤ 256 ^ Z.of_nat 32) by (apply Z.pow_le_mono_r; lia).
  lia.
Qed.

Lemma ConvertDERSignature_components sig out :
  ConvertDERSignature sig = Ok out → ∃ r s, component r ∧ component s ∧ out = hex_encode (r ++ s).
Proof.
  unfold ConvertDERSignature, ConvertDERSignature_S. intros Hc. apply bind_Ok in Hc as ([] & _ & Hc).
  destruct (hex_decode sig) as [raw|]; [|done]. inv_ok.
  repeat match goal with Hd : der_scalar _ _ = Ok _ |- _ => apply der_scalar_component in Hd end.
  assert (∀ x, component (scalar_Bytes x) → take 32 (scalar_Bytes x) = scalar_Bytes x) as Ht.
  { intros x [Hx _]. apply take_ge. by rewrite Hx. }
  rewrite !Ht by done. by refine (ex_intro _ _ (ex_intro _ _ (conj _ (conj _ eq_refl)))).
Qed.

(** A signature that was accepted survives the way to Flow's format, to DER and
    back. *)
Lemma ConvertFlowSignature_roundtrip r s :
  component r → component s →
  ∃ sig, ConvertFlowSignature (hex_encode (r ++ s)) = Ok sig ∧
         ConvertDERSignature sig = Ok (hex_encode (r ++ s)).
Proof.
  intros Hr Hs. eexists. split; [apply ConvertFlowSignature_der; [apply Hr|apply Hs]|].
  destruct (trim_padded r) as [??]; [apply Hr|]. destruct (trim_padded s) as [??]; [apply Hs|].
  by apply ConvertDERSignature_der.
Qed.

(** A public key that was accepted survives the way to Flow's format and back. *)
Lemma ConvertRosettaPublicKey_roundtrip key flow :
  ConvertRosettaPublicKey key = Ok flow →
  ∃ sec, ConvertFlowPublicKey flow = Ok sec ∧ sec ≠ [] ∧ ConvertRosettaPublicKey sec = Ok flow.
Proof.
  unfold ConvertRosettaPublicKey, ConvertFlowPublicKey. destruct (ParsePubKey key) as [p|]; [|done].
  intros [= <-]. destruct (Uncompressed_tag p) as [k Hk]. pose proof (Parse_uncompressed p) as Hp.
  rewrite Hk in Hp |- *. change (drop 1 (x04 :: k)) with k. rewrite Hp. eexists. split; [done|].
  rewrite Parse_compressed, Hk.
  split; [|done]. intros Hnil. pose proof (Parse_compressed p) as Hc. by rewrite Hnil, ParsePubKey_nil in Hc.
Qed.

(** ** Theorems *)

(** A Flow signature whose components are in range survives the conversion
    to DER and back. *)
Theorem signature_roundtrip r s :
  component r → component s →
  ∃ sig, ConvertFlowSignature (hex_encode (r ++ s)) = Ok sig ∧
         ConvertDERSignature sig = Ok (hex_encode (r ++ s)).
Proof.
  apply ConvertFlowSignature_roundtrip.
Qed.

(** The checks for negative and over-padded integers never fire: every DER
    text that encodes in-range components in one to 33 bytes each is accepted,
    whatever the sign bit or padding of the encodings. *)
Theorem der_checks_dead r s encR encS :
  component r → component s →
  strip_zeros encR = strip_zeros r → strip_zeros encS = strip_zeros s →
  (1 ≤ length encR ≤ 33)%nat → (1 ≤ length encS ≤ 33)%nat →
  ConvertDERSignature (hex_encode (der encR encS)) = Ok (hex_encode (r ++ s)).
Proof. apply ConvertDERSignature_der. Qed.

(** A DER text that is cut off right after the R component makes the
    conversion panic with an index out of range instead of returning an error. *)
Theorem der_truncated_panics r encR :
  component r → strip_zeros encR = strip_zeros r → (4 ≤ length encR ≤ 33)%nat →
  ConvertDERSignature (hex_encode (der_R encR [])) = Panic.
Proof.
  intros Hr HeR HlR.
  destruct (ConvertDERSignature_R r encR []) as (r0 & _ & ->); [done|done|lia|simpl; lia|].
  unfold ConvertDERSignature_S, byte_at. rewrite <-(Nat.add_0_r (4 + length encR)).
  by rewrite der_R_lookup.
Qed.

(** A public key converted from Flow's format to the SEC format converts
    back to itself. *)
Lemma ConvertFlowPublicKey_roundtrip key sec :
  ConvertFlowPublicKey key = Ok sec → ConvertRosettaPublicKey sec = Ok key.
Proof.
  unfold ConvertFlowPublicKey, ConvertRosettaPublicKey.
  destruct (ParsePubKey (x04 :: key)) as [p|] eqn:Hp; [|done]. intros [= <-].
  rewrite Parse_compressed. by rewrite (Serialize_parsed _ _ Hp).
Qed.

End laws.

(** ** A concrete instance *)
Module CryptoDemo.
(** Scalars as integers; a public key as its uncompressed coordinates. *)
Definition secp_order : Z := 0xFFFFFFFFFFFFFFFFFFFFFFFFFFFFFFFEBAAEDCE6AF48A03BBFD25E8CD0364141.
#[local] Instance secp : Secp256k1 := {|
  scalar := Z;
  group_order := secp_order;
  SetByteSlice b := (be_get b mod secp_order, secp_order <=? be_get b);
  IsZero z := z =? 0;
  scalar_Bytes z := be_put 32 z;
  PublicKey := bytes;
  ParsePubKey b := match b with x04 :: k | x02 :: k => Some k | _ => None end;
  SerializeCompressed k := x02 :: k;
  SerializeUncompressed k := x04 :: k;
|}.
#[local] Instance secp_laws : Secp256k1Laws.
Proof.
  split; simpl; try done.
  - intros b _ Hb. rewrite Z.mod_small; [done|]. pose proof (be_get_range b). lia.
  - intros b _ Hb. rewrite Z.mod_small; [done|]. pose proof (be_get_range b). lia.
  - by intros k p [= ->].
  - intros p. by exists p.
Qed.

Definition r : bytes := be_put 32 (2 ^ 255).
Definition s : bytes := be_put 32 7.

Lemma component_r : component r.
Proof. split; [done|]. split; by vm_compute. Qed.
Lemma component_s : component s.
Proof. split; [done|]. split; by vm_compute. Qed.

Lemma signature_roundtrip_witness :
  ∃ sig, ConvertFlowSignature (hex_encode (r ++ s)) = Ok sig ∧
         ConvertDERSignature sig = Ok (hex_encode (r ++ s)).
Proof. exact (signature_roundtrip r s component_r component_s). Defined.

(** An R with its top bit set, which DER reads as negative, and a padded S. *)
Lemma der_checks_dead_witness :
  ConvertDERSignature (hex_encode (der r (x00 :: s))) = Ok (hex_encode (r ++ s)).
Proof.
  apply (der_checks_dead r s r (x00 :: s) component_r component_s); try done; vm_compute; lia.
Defined.

Lemma der_truncated_panics_witness : ConvertDERSignature (hex_encode (der_R r [])) = Panic.
Proof. apply (der_truncated_panics r r component_r); [done|vm_compute; lia]. Defined.

End CryptoDemo.
