(* ===== verification/Tools.v ===== *)
(** * Command-line tools

    Models of the tools under [src/cmd] that compute something themselves:
    genaddress, formatkey, formatsig, genkey, sign, verifysig and gencontractkey.
    A tool is a function of its arguments to what it prints. *)
From S2P Require Import Prelude Bytes IndexDB Crypto.
Local Open Scope Z_scope.

(** ** genaddress *)

Definition linearCodeK : nat := 45.
Definition maxIndex : Z := Z.shiftl 1 45 - 1.

Definition generatorMatrixRows : list Z :=
  [0xe467b9dd11fa00df; 0xf233dcee88fe0abe; 0xf919ee77447b7497; 0xfc8cf73ba23a260d;
   0xfe467b9dd11ee2a1; 0xff233dcee888d807; 0xff919ee774476ce6; 0x7fc8cf73ba231d10;
   0x3fe467b9dd11b183; 0x1ff233dcee8f96d6; 0x8ff919ee774757ba; 0x47fc8cf73ba2b331;
   0x23fe467b9dd27f6c; 0x11ff233dceee8e82; 0x88ff919ee775dd8f; 0x447fc8cf73b905e4;
   0xa23fe467b9de0d83; 0xd11ff233dce8d5a7; 0xe88ff919ee73c38a; 0x7447fc8cf73f171f;
   0xba23fe467b9dcb2b; 0xdd11ff233dcb0cb4; 0xee88ff919ee26c5d; 0x77447fc8cf775dd3;
   0x3ba23fe467b9b5a1; 0x9dd11ff233d9117a; 0xcee88ff919efa640; 0xe77447fc8cf3e297;
   0x73ba23fe467fabd2; 0xb9dd11ff233fb16c; 0xdcee88ff919adde7; 0xee77447fc8ceb196;
   0xf73ba23fe4621cd0; 0x7b9dd11ff2379ac3; 0x3dcee88ff91df46c; 0x9ee77447fc88e702;
   0xcf73ba23fe4131b6; 0x67b9dd11ff240f9a; 0x33dcee88ff90f9e0; 0x19ee77447fcff4e3;
   0x8cf73ba23fe64091; 0x467b9dd11ff115c7; 0x233dcee88ffdb735; 0x919ee77447fe2309;
   0xc8cf73ba23fdc736].

(** the loop over the rows, with the word shifted to the right *)
Fixpoint addressLoop (rows : list Z) (word addr : Z) : Z :=
  match rows with
  | [] => addr
  | row :: rows =>
      addressLoop rows (Z.shiftr word 1) (if Z.land word 1 =? 1 then Z.lxor addr row else addr)
  end.

Definition addressOf (word : Z) : Z := addressLoop generatorMatrixRows word 0.

(** [rand] is [rand.Intn(maxIndex)]. *)
Definition genaddress (rand : Z) : string :=
  "0x" +:+ hex_encode (be64 (addressOf (u64 rand))) +:+ String (Ascii.ascii_of_N 10) "".

(** ** The code is injective

    The parity of the bits of an address under mask [i] is bit [i] of its word. *)
Definition checkMasks : list Z :=
  [0xa5a57499b6480000; 0xd2d2ba4cdb200000; 0x69695d266d900000; 0x34b4ae9336c80000;
   0x9a5a57499b600000; 0x4d2d2ba4cdb00000; 0x269695d266d80000; 0x934b4ae933680000;
   0xc9a5a57499b00000; 0x64d2d2ba4cd80000; 0xb269695d26680000; 0xd934b4ae93300000;
   0x6c9a5a5749980000; 0xb64d2d2ba4c80000; 0xdb269695d2600000; 0x6d934b4ae9300000;
   0x36c9a5a574980000; 0x9b64d2d2ba480000; 0xcdb269695d200000; 0x66d934b4ae900000;
   0x336c9a5a57480000; 0x99b64d2d2ba00000; 0x4cdb269695d00000; 0x266d934b4ae80000;
   0x9336c9a5a5700000; 0x499b64d2d2b80000; 0xa4cdb26969580000; 0xd266d934b4a80000;
   0xe9336c9a5a500000; 0x7499b64d2d280000; 0xba4cdb2696900000; 0x5d266d934b480000;
   0xae9336c9a5a00000; 0x57499b64d2d00000; 0x2ba4cdb269680000; 0x95d266d934b00000;
   0x4ae9336c9a580000; 0xa57499b64d280000; 0xd2ba4cdb26900000; 0x695d266d93480000;
   0xb4ae9336c9a00000; 0x5a57499b64d00000; 0x2d2ba4cdb2680000; 0x9695d266d9300000;
   0x4b4ae9336c980000].

Definition parity (z : Z) : bool := foldr (λ i b, xorb (Z.testbit z i) b) false (seqZ 0 64).

Lemma parity_lxor a b : parity (Z.lxor a b) = xorb (parity a) (parity b).
Proof.
  unfold parity. induction (seqZ 0 64) as [|i l IH]; [done|]. cbn. rewrite IH, Z.lxor_spec.
  repeat match goal with |- context [foldr ?f ?x l] => destruct (foldr f x l) end.
  all: by destruct (Z.testbit a i), (Z.testbit b i).
Qed.

Lemma land_lxor_distr a b m : Z.land (Z.lxor a b) m = Z.lxor (Z.land a m) (Z.land b m).
Proof.
  apply Z.bits_inj. intros i. rewrite !Z.land_spec, !Z.lxor_spec, !Z.land_spec.
  by destruct (Z.testbit a i), (Z.testbit b i), (Z.testbit m i).
Qed.

(** the parity of an address is that of the rows its word selects *)
Definition checkBit (m addr : Z) : bool := parity (Z.land addr m).

Lemma checkBit_loop m rows word addr :
  0 ≤ word →
  checkBit m (addressLoop rows word addr) =
  xorb (checkBit m addr)
    (foldr xorb false (imap (λ i row, Z.testbit word (Z.of_nat i) && checkBit m row) rows)).
Proof.
  revert word addr. induction rows as [|row rows IH]; intros word addr Hw; cbn [addressLoop].
  - by rewrite xorb_false_r.
  - rewrite IH by (by apply Z.shiftr_nonneg). cbn [imap foldr].
    assert ((Z.land word 1 =? 1) = Z.testbit word 0) as ->.
    { change (Z.land word 1) with (Z.land word (Z.ones 1)). rewrite Z.land_ones, Z.bit0_odd by lia.
      change (2 ^ 1) with 2. rewrite Zmod_odd. by destruct (Z.odd word). }
    rewrite (imap_ext _ (λ i r, Z.testbit word (Z.of_nat (S i)) && checkBit m r) rows).
    2: { intros i r _. rewrite Z.shiftr_spec by lia. do 2 f_equal. lia. }
    cbn [Nat.add]. unfold compose. rewrite <-xorb_assoc. f_equal.
    change (Z.of_nat 0) with 0. destruct (Z.testbit word 0); cbn [andb]; [|by rewrite xorb_false_r].
    unfold checkBit. by rewrite land_lxor_distr, parity_lxor.
Qed.

(** the masks are dual to the rows *)
Lemma masks_dual : forallb (λ '(i, m), forallb (λ '(j, row), eqb (checkBit m row) (bool_decide (i = j)))
  (zip (seq 0 45) generatorMatrixRows)) (zip (seq 0 45) checkMasks) = true.
Proof. vm_compute. reflexivity. Qed.

Lemma dual_at i j m row :
  checkMasks !! i = Some m → generatorMatrixRows !! j = Some row → checkBit m row = bool_decide (i = j).
Proof.
  intros Hm Hr. pose proof masks_dual as Hd. rewrite forallb_forall in Hd.
  assert (∀ k (l : list Z) x, l !! k = Some x → length l = 45%nat → In (k, x) (zip (seq 0 45) l)) as Hzip.
  { intros k l x Hx Hlen. apply list_elem_of_In, list_elem_of_lookup. exists k. apply lookup_zip_with_Some.
    exists k, x. split; [done|]. split; [|done]. apply lookup_seq. split; [done|].
    rewrite <-Hlen. by eapply lookup_lt_Some. }
  specialize (Hd (i, m) (Hzip i _ m Hm eq_refl)). cbn beta iota in Hd. rewrite forallb_forall in Hd.
  specialize (Hd (j, row) (Hzip j _ row Hr eq_refl)). by apply eqb_prop in Hd.
Qed.

Lemma xor_select {A} (f : nat → bool) i k (l : list A) :
  foldr xorb false (imap (λ j _, f (k + j)%nat && bool_decide (i = (k + j)%nat)) l) =
  f i && bool_decide (k ≤ i < k + length l)%nat.
Proof.
  revert k. induction l as [|x l IH]; intros k; cbn [imap foldr length].
  - rewrite bool_decide_eq_false_2 by lia. by rewrite andb_false_r.
  - rewrite (imap_ext _ (λ j _, f (S k + j)%nat && bool_decide (i = (S k + j)%nat)) l).
    2: { intros j y _. unfold compose. by replace (k + S j)%nat with (S k + j)%nat by lia. }
    rewrite IH, Nat.add_0_r. destruct (decide (i = k)) as [->|Hne].
    + rewrite (bool_decide_eq_true_2 (k = k)), (bool_decide_eq_false_2 (S k ≤ k < _)%nat), (bool_decide_eq_true_2 (k ≤ k < _)%nat) by lia.
      by rewrite andb_false_r, xorb_false_r.
    + rewrite (bool_decide_eq_false_2 (i = k)), andb_false_r by done. rewrite xorb_false_l. f_equal.
      apply bool_decide_ext. lia.
Qed.

Lemma checkBit_address i m word :
  checkMasks !! i = Some m → 0 ≤ word → checkBit m (addressOf word) = Z.testbit word (Z.of_nat i).
Proof.
  intros Hm Hw. unfold addressOf. rewrite checkBit_loop by done.
  assert (checkBit m 0 = false) as -> by (unfold checkBit; by rewrite Z.land_0_l). rewrite xorb_false_l.
  rewrite (imap_ext _ (λ j _, Z.testbit word (Z.of_nat (0 + j)) && bool_decide (i = (0 + j)%nat))).
  2: { intros j row Hj. cbn [Nat.add]. by rewrite (dual_at i j m row). }
  rewrite (xor_select (λ j, Z.testbit word (Z.of_nat j)) i 0). rewrite bool_decide_eq_true_2; [by rewrite andb_true_r|].
  apply lookup_lt_Some in Hm. by split; [lia|].
Qed.

Lemma log2_small z : 0 ≤ z < 2 ^ 64 → Z.log2 z < 64.
Proof.
  intros Hz. destruct (Z.eq_dec z 0) as [->|]; [done|]. apply Z.log2_lt_pow2; lia.
Qed.

Lemma addressLoop_range rows word addr :
  Forall (λ r, 0 ≤ r < 2 ^ 64) rows → 0 ≤ addr < 2 ^ 64 → 0 ≤ addressLoop rows word addr < 2 ^ 64.
Proof.
  intros Hr. revert word addr. induction Hr as [|r rows Hr _ IH]; intros word addr Ha; [done|]. cbn [addressLoop].
  apply IH. destruct (Z.land word 1 =? 1); [|done].
  assert (0 ≤ Z.lxor addr r) as Hn by (apply Z.lxor_nonneg; lia). split; [done|].
  destruct (Z.eq_dec (Z.lxor addr r) 0) as [->|]; [done|]. apply Z.log2_lt_pow2; [lia|].
  eapply Z.le_lt_trans; [apply Z.log2_lxor; lia|]. apply Z.max_lub_lt; by apply log2_small.
Qed.

Lemma rows_range : Forall (λ r, 0 ≤ r < 2 ^ 64) generatorMatrixRows.
Proof. apply (bool_decide_eq_true_1 _). vm_compute. reflexivity. Qed.

Lemma masks_all i : (i < 45)%nat → is_Some (checkMasks !! i).
Proof. intros Hi. by apply lookup_lt_is_Some. Qed.

(** C36: Different account indices, of 45 bits each, have different addresses,
    every address is a 64-bit number, and each bit of the index can be read back
    from the address. *)
Theorem addresses_distinct word word' :
  0 ≤ word < 2 ^ 45 → 0 ≤ word' < 2 ^ 45 →
  0 ≤ addressOf word < 2 ^ 64 ∧ (addressOf word = addressOf word' ↔ word = word') ∧
  (∀ i m, checkMasks !! i = Some m → checkBit m (addressOf word) = Z.testbit word (Z.of_nat i)).
Proof.
  intros Hw Hw'. split; [|split].
  - exact (addressLoop_range generatorMatrixRows word 0 rows_range (conj (Z.le_refl 0) eq_refl)).
  - split; [|intros ->; reflexivity]. intros Heq. apply Z.bits_inj'. intros i Hi.
    destruct (Z.lt_ge_cases i 45) as [Hlt|Hge].
    + destruct (masks_all (Z.to_nat i)) as [m Hm]; [lia|].
      rewrite <-(Z2Nat.id i Hi), <-(checkBit_address _ m word Hm), <-(checkBit_address _ m word' Hm) by lia.
      f_equal. exact Heq.
    + assert (∀ z, 0 ≤ z < 2 ^ 45 → Z.testbit z i = false) as Hhi.
      { intros z Hz. destruct (Z.eq_dec z 0) as [->|]; [apply Z.bits_0|]. apply Z.bits_above_log2; [lia|].
        assert (Z.log2 z < 45) by (apply Z.log2_lt_pow2; lia). lia. }
      rewrite (Hhi word Hw), (Hhi word' Hw'). reflexivity.
  - intros i m Hm. apply checkBit_address; [done|lia].
Qed.

Example service_account : addressOf 1 = 0xe467b9dd11fa00df.
Proof. vm_compute. reflexivity. Qed.

(** ** Converting keys and signatures *)

(** [hex.DecodeString]: the bytes before the first mistake, and whether there was
    one. *)
Fixpoint hexDecodeString (s : string) : bytes * bool :=
  match s with
  | EmptyString => ([], false)
  | String a EmptyString => ([], true)
  | String a (String b s) =>
      match hex_val a, hex_val b with
      | Some hi, Some lo => let '(rest, err) := hexDecodeString s in (Z_byte (16 * hi + lo) :: rest, err)
      | _, _ => ([], true)
      end
  end.

Lemma hexDecodeString_spec s : hex_decode s = if (hexDecodeString s).2 then None else Some (hexDecodeString s).1.
Proof.
  revert s. fix IH 1. intros [|a [|b s]]; [done..|]. cbn. destruct (hex_val a), (hex_val b); try done. cbn.
  rewrite IH. by destruct (hexDecodeString s) as [? []].
Qed.

(** A tool prints a line, prints its usage, ends with a fatal error, or panics. *)
Inductive tool_failure := Usage | ToolFatal (msg : string).
Definition println (s : string) : string := s +:+ String (Ascii.ascii_of_N 10) "".
Definition fatalOn {E A} (msg : string) (m : outcome E A) : outcome tool_failure A :=
  match m with Ok a => Ok a | Err _ => Err (ToolFatal msg) | Fatal => Fatal | Panic => Panic end.

Section keys.
Context `{Secp256k1}.

(** [formatkey]: a mistake in the hexadecimal key is logged, and the bytes
    before it are converted. *)
Definition formatkey (args : list string) : outcome tool_failure string :=
  match args with
  | [mode; arg] =>
      let key := (hexDecodeString arg).1 in
      key ← (if bool_decide (mode = "from:flow") then fatalOn "Failed to convert key" (ConvertFlowPublicKey key)
             else if bool_decide (mode = "from:rosetta") then fatalOn "Failed to convert key" (ConvertRosettaPublicKey key)
             else Err (ToolFatal "Unknown convert option"));
      Ok (println (hex_encode key))
  | _ => Err Usage
  end.

Definition formatsig (args : list string) : outcome tool_failure string :=
  match args with
  | [mode; arg] =>
      sig ← (if bool_decide (mode = "from:der") then fatalOn "Failed to convert signature" (ConvertDERSignature arg)
             else if bool_decide (mode = "from:flow") then fatalOn "Failed to convert signature" (ConvertFlowSignature arg)
             else Err (ToolFatal "Unknown convert option"));
      Ok (println sig)
  | _ => Err Usage
  end.

(** Private keys and signatures of the secp256k1 packages. *)
Context {private_key ecdsa_sig : Type}.
Context (PubKey : private_key → PublicKey) (priv_Serialize : private_key → bytes).
Context (ecdsa_Sign : private_key → bytes → ecdsa_sig) (sig_Serialize : ecdsa_sig → bytes).
Context (ParseDERSignature : bytes → option ecdsa_sig) (sig_Verify : ecdsa_sig → bytes → PublicKey → bool).
Context (secp_Sign : bytes → bytes → option bytes) (sha256 : bytes → bytes).

(** [genkey]; [key] is the generated key, if any *)
Definition genkey (csv : bool) (key : option private_key) : outcome tool_failure string :=
  match key with
  | None => Err (ToolFatal "Failed to generate key")
  | Some priv =>
      let pub := PubKey priv in
      uncompressed ← fatalOn (E := unit) "" (go_tail 1 (SerializeUncompressed pub));
      let publicFlowKey := hex_encode uncompressed in
      let publicRosettaKey := hex_encode (SerializeCompressed pub) in
      let privateKey := hex_encode (priv_Serialize priv) in
      Ok (if csv then println (publicFlowKey +:+ "," +:+ publicRosettaKey +:+ "," +:+ privateKey)
          else println ("Public Key (Flow Format): " +:+ publicFlowKey) +:+
               println ("Public Key (Rosetta Format): " +:+ publicRosettaKey) +:+
               println ("Private Key: " +:+ privateKey))
  end.

(** [sign] *)
Definition sign (args : list string) : outcome tool_failure string :=
  match args with
  | [key; payload] =>
      raw ← fatalOn (E := unit) "Could not hex decode private key"
              (match hex_decode key with Some b => Ok b | None => Err tt end);
      payload ← fatalOn (E := unit) "Could not hex decode payload"
                  (match hex_decode payload with Some b => Ok b | None => Err tt end);
      sig ← fatalOn (E := unit) "Failed to sign payload"
              (match secp_Sign payload raw with Some b => Ok b | None => Err tt end);
      sig ← go_slice 0 64 sig;
      Ok (println (hex_encode sig))
  | _ => Err Usage
  end.

(** [verifysig]: errors are logged only, so that a key or a signature that
    cannot be parsed is a nil pointer when it is used. *)
Definition verifysig (args : list string) : outcome tool_failure string :=
  match args with
  | [publicKey; rawMessage; rawSignature] =>
      let pub := ParsePubKey (hexDecodeString publicKey).1 in
      let sig := ParseDERSignature (hexDecodeString rawSignature).1 in
      sig ← deref sig;
      pub ← deref pub;
      if sig_Verify sig (sha256 (String.list_byte_of_string rawMessage)) pub
      then Ok "Valid signature found" else Err (ToolFatal "Invalid signature found")
  | _ => Err Usage
  end.

(** [gencontractkey] *)
Definition contractMsg : string := "some message to sign".
Definition quote (s : string) : string := String (Ascii.ascii_of_N 34) (s +:+ String (Ascii.ascii_of_N 34) "").
Definition gencontractkey (key : option private_key) : outcome tool_failure string :=
  match key with
  | None => Err (ToolFatal "Failed to generate key")
  | Some key =>
      let hash := sha256 (String.list_byte_of_string contractMsg) in
      let sig := ecdsa_Sign key hash in
      let sigHex := hex_encode (sig_Serialize sig) in
      sigFlow ← fatalOn "Failed to convert signature" (ConvertDERSignature sigHex);
      uncompressed ← go_tail 1 (SerializeUncompressed (PubKey key));
      Ok (println ("Public Key:        " +:+ hex_encode (SerializeCompressed (PubKey key))) +:+
          println ("Public Key (Flow): " +:+ hex_encode uncompressed) +:+
          println ("Private Key:       " +:+ hex_encode (priv_Serialize key)) +:+
          println ("Message:           " +:+ quote contractMsg) +:+
          println ("Signature:         " +:+ sigHex) +:+
          println ("Signature (Flow):  " +:+ sigFlow))
  end.
End keys.

(** ** What one tool prints, the other reads *)

Section agreement.
Context `{Secp256k1Laws}.
Context {private_key : Type} (PubKey : private_key → PublicKey) (priv_Serialize : private_key → bytes).

Lemma hexDecode_encode b : hexDecodeString (hex_encode b) = (b, false).
Proof.
  pose proof (hexDecodeString_spec (hex_encode b)) as Hs. rewrite hex_decode_encode in Hs.
  destruct (hexDecodeString (hex_encode b)) as [? []]; by simplify_eq/=.
Qed.

Lemma genkey_prints csv priv :
  ∃ flow, SerializeUncompressed (PubKey priv) = x04 :: flow ∧
    genkey PubKey priv_Serialize csv (Some priv) =
    let flow := hex_encode flow in
    let rosetta := hex_encode (SerializeCompressed (PubKey priv)) in
    let private := hex_encode (priv_Serialize priv) in
    Ok (if csv then println (flow +:+ "," +:+ rosetta +:+ "," +:+ private)
        else println ("Public Key (Flow Format): " +:+ flow) +:+
             println ("Public Key (Rosetta Format): " +:+ rosetta) +:+
             println ("Private Key: " +:+ private)).
Proof.
  destruct (Uncompressed_tag (PubKey priv)) as [k Hk]. exists k. split; [done|]. unfold genkey.
  by rewrite Hk.
Qed.

Lemma formatkey_flow key : formatkey ["from:flow"; hex_encode key] =
  match ParsePubKey (x04 :: key) with
  | Some pub => Ok (println (hex_encode (SerializeCompressed pub)))
  | None => Err (ToolFatal "Failed to convert key")
  end.
Proof.
  unfold formatkey, ConvertFlowPublicKey. rewrite hexDecode_encode. cbn [fst].
  rewrite bool_decide_true by done. by destruct (ParsePubKey (x04 :: key)).
Qed.

Lemma formatkey_rosetta key : formatkey ["from:rosetta"; hex_encode key] =
  match ParsePubKey key with
  | Some pub => Ok (println (hex_encode (drop 1 (SerializeUncompressed pub))))
  | None => Err (ToolFatal "Failed to convert key")
  end.
Proof.
  unfold formatkey, ConvertRosettaPublicKey. rewrite hexDecode_encode. cbn [fst].
  rewrite bool_decide_false, bool_decide_true by done. by destruct (ParsePubKey key).
Qed.

Lemma println_inj a b : println a = println b → a = b.
Proof.
  unfold println. intros Heq. apply (f_equal String.list_ascii_of_string) in Heq.
  assert (∀ s t, String.list_ascii_of_string (s +:+ t) = String.list_ascii_of_string s ++ String.list_ascii_of_string t) as Happ.
  { induction s as [|c s IH]; intros t; [done|]. exact (f_equal (cons c) (IH t)). }
  rewrite !Happ in Heq. apply app_inj_tail in Heq as [Heq _].
  by rewrite <-(String.string_of_list_ascii_of_string a), Heq, String.string_of_list_ascii_of_string.
Qed.

(** C35: The tools agree on their formats. The two public keys that genkey prints
    for a private key are each what formatkey makes of the other; a key that
    formatkey converts from Flow's format converts back to it; and a signature in
    Flow's format whose components are in range survives formatsig there and
    back. *)
Theorem tools_agree priv key sec r s :
  formatkey ["from:flow"; hex_encode key] = Ok (println (hex_encode sec)) →
  component r → component s →
  (∃ flow rosetta private,
     genkey PubKey priv_Serialize true (Some priv) = Ok (println (flow +:+ "," +:+ rosetta +:+ "," +:+ private)) ∧
     formatkey ["from:flow"; flow] = Ok (println rosetta) ∧
     formatkey ["from:rosetta"; rosetta] = Ok (println flow)) ∧
  formatkey ["from:rosetta"; hex_encode sec] = Ok (println (hex_encode key)) ∧
  ∃ sig, formatsig ["from:flow"; hex_encode (r ++ s)] = Ok (println sig) ∧
         formatsig ["from:der"; sig] = Ok (println (hex_encode (r ++ s))).
Proof.
  intros Hkey Hr Hs. split; [|split].
  - destruct (genkey_prints true priv) as (k & Hk & Hg). eexists _, _, _. split; [exact Hg|].
    rewrite formatkey_flow, formatkey_rosetta, Parse_compressed, Hk.
    pose proof (Parse_uncompressed (PubKey priv)) as Hp. rewrite Hk in Hp. by rewrite Hp.
  - rewrite formatkey_flow in Hkey. destruct (ParsePubKey (x04 :: key)) as [p|] eqn:Hp; [|done].
    assert (hex_encode (SerializeCompressed p) = hex_encode sec) as Heq.
    { apply println_inj. by inversion Hkey. }
    rewrite <-Heq, formatkey_rosetta, Parse_compressed. by rewrite (Serialize_parsed _ _ Hp).
  - destruct (ConvertFlowSignature_roundtrip r s Hr Hs) as (sig & Hf & Hd). exists sig.
    unfold formatsig. rewrite (bool_decide_true ("from:der" = "from:der")) by done.
    rewrite bool_decide_false, bool_decide_true by done. by rewrite Hf, Hd.
Qed.
End agreement.

(** ** Examples *)
Module ToolsDemo.
#[local] Existing Instances CryptoDemo.secp CryptoDemo.secp_laws.

Lemma addresses_distinct_witness : addressOf 1 = addressOf 2 ↔ 1 = 2.
Proof. apply (addresses_distinct 1 2); split; by vm_compute. Defined.

Definition flowKey : bytes := be_put 64 12345.
Lemma tools_agree_witness :
  formatkey ["from:rosetta"; hex_encode (x02 :: flowKey)] = Ok (println (hex_encode flowKey)).
Proof.
  apply (@tools_agree CryptoDemo.secp CryptoDemo.secp_laws bytes (λ p, p) (λ p, p) flowKey flowKey (x02 :: flowKey)
           CryptoDemo.r CryptoDemo.s); [by vm_compute|exact CryptoDemo.component_r|exact CryptoDemo.component_s].
Defined.

(** A key with a mistake in it is not refused: what precedes the mistake is
    converted. *)
Example formatkey_mistake :
  formatkey ["from:rosetta"; "02abzz"] = Ok (println "ab").
Proof. by vm_compute. Qed.

(** A signature that cannot be decoded ends verifysig with a nil dereference. *)
Example verifysig_panics :
  verifysig (ecdsa_sig := bytes) (λ _, None) (λ _ _ _, true) (λ b, b) ["02ab"; "message"; "zz"] = Panic.
Proof. by vm_compute. Qed.
End ToolsDemo.
