(* ===== verification/Convert.v ===== *)
(** * Hashes of blocks, events and execution results

    Model of [src/state/convert.go]: the conversion of Access API messages and
    the derivation of the identifiers that tie them to the block hash, for each
    spork version. *)
From S2P Require Import Prelude Bytes.
Local Open Scope Z_scope.

(** ** Go values that are hashed

    [flow.MakeID] and [fingerprint.Fingerprint] walk a Go value by reflection:
    the structs the source builds are such values, fields in order. *)
Inductive gval :=
  | GBytes (b : bytes)
  | GUint (n : Z)
  | GString (s : string)
  | GNil                      (** nil pointer or empty list *)
  | GPtr (v : gval)
  | GCons (v vs : gval).      (** struct or list, field by field *)

#[export] Instance gval_eq_dec : EqDecision gval.
Proof. solve_decision. Defined.

Definition glist (l : list gval) : gval := foldr GCons GNil l.

#[export] Instance glist_inj : Inj eq eq glist.
Proof.
  intros l. induction l as [|x l IH]; intros [|y l'] Hl; try done.
  injection Hl as -> Hl. f_equal. by apply IH.
Qed.

(** ** Structs of flow-go the source fills in *)

Record QuorumCertificate := mkQC {
  qc_View : Z; qc_BlockID : Identifier; qc_SignerIndices : bytes; qc_SigData : bytes;
}.
Record TimeoutCertificate := mkTC {
  tc_View : Z; tc_NewestQCViews : list Z; tc_SignerIndices : bytes; tc_SigData : bytes;
  tc_NewestQC : QuorumCertificate;
}.
Record Seal := mkSeal {
  seal_AggregatedApprovalSigs : list (list Identifier * list bytes);
  seal_BlockID : Identifier; seal_FinalState : Identifier; seal_ResultID : Identifier;
}.
#[export] Instance Seal_eq_dec : EqDecision Seal.
Proof. solve_decision. Defined.
Record ReceiptStub := mkReceiptStub {
  rs_ExecutorID : Identifier; rs_ResultID : Identifier; rs_Spocks : list bytes;
  rs_ExecutorSignature : bytes;
}.

(** The flow-go library: a parameter. *)
Class FlowGo := {
  service_event : Type;
  service_value : service_event → gval;
  UnmarshalWithType : bytes → string → option service_event;
  ToStateCommitment : bytes → option bytes;
  MessageToIdentifier : bytes → Identifier;
  MakeID : gval → Identifier;
  Fingerprint : gval → bytes;
  MakeIDFromFingerPrint : bytes → Identifier;
  (** a SHA3-256 hasher after a sequence of writes *)
  SHA3_256 : list bytes → bytes;
  merkle_Tree : Type;
  merkle_NewTree : option merkle_Tree;
  merkle_Put : merkle_Tree → bytes → bytes → option merkle_Tree;
  merkle_Hash : merkle_Tree → bytes;
  MerkleRoot : list Identifier → Identifier;
  ConcatSum : list Identifier → Identifier;
  QC_ID : QuorumCertificate → Identifier;
  TC_ID : option TimeoutCertificate → Identifier;
  Seal_ID : Seal → Identifier;
  UnsignedStub_ID : ReceiptStub → Identifier;
  Stub_ID : ReceiptStub → Identifier;
}.

(** ** Access API messages *)

Record ServiceEventMsg := mkServiceEventMsg { se_Type : string; se_Payload : bytes }.
Record ChunkMsg := mkChunkMsg {
  cm_CollectionIndex : Z; cm_StartState : bytes; cm_EventCollection : bytes; cm_BlockId : bytes;
  cm_TotalComputationUsed : Z; cm_NumberOfTransactions : Z; cm_Index : Z; cm_EndState : bytes;
  cm_ServiceEventCount : Z;
}.
(** A chunk of the message may be nil. *)
Record ExecutionResultMsg := mkExecutionResultMsg {
  er_PreviousResultId : bytes; er_BlockId : bytes; er_Chunks : list (option ChunkMsg);
  er_ServiceEvents : list ServiceEventMsg; er_ExecutionDataId : bytes;
}.
Record QuorumCertificateMsg := mkQCMsg {
  qm_View : Z; qm_BlockId : bytes; qm_SignerIndices : bytes; qm_SigData : bytes;
}.
Record TimeoutCertificateMsg := mkTCMsg {
  tm_View : Z; tm_HighQcViews : list Z; tm_HighestQc : option QuorumCertificateMsg;
  tm_SignerIndices : bytes; tm_SigData : bytes;
}.
Record BlockHeaderMsg := mkBlockHeaderMsg {
  bh_ParentId : bytes; bh_Height : Z; bh_PayloadHash : bytes; bh_Timestamp : Z;
  bh_View : Z; bh_ParentVoterIds : list bytes; bh_ParentVoterSigData : bytes; bh_ProposerId : bytes;
  bh_ProposerSigData : bytes; bh_ParentVoterIndices : bytes; bh_LastViewTc : option TimeoutCertificateMsg;
  bh_ParentView : Z; bh_Id : bytes;
}.
Record CollectionGuaranteeMsg := mkCollectionGuaranteeMsg {
  cg_CollectionId : bytes; cg_ReferenceBlockId : bytes; cg_ClusterChainId : string;
  cg_SignerIndices : bytes; cg_Signature : bytes;
}.
Record BlockSealMsg := mkBlockSealMsg {
  bsl_BlockId : bytes; bsl_FinalState : bytes; bsl_ResultId : bytes;
  bsl_AggregatedApprovalSigs : list (list bytes * list bytes);
}.
Record ReceiptMsg := mkReceiptMsg {
  rm_ExecutorId : bytes; rm_ResultId : bytes; rm_Spocks : list bytes; rm_ExecutorSignature : bytes;
}.
Record BlockMsg := mkBlockMsg {
  blk_CollectionGuarantees : list CollectionGuaranteeMsg;
  blk_BlockSeals : list BlockSealMsg;
  blk_ExecutionReceiptMetaList : list ReceiptMsg;
  blk_ExecutionResultList : list ExecutionResultMsg;
  blk_ProtocolStateId : bytes;
  (** nanoseconds since the epoch *)
  blk_Timestamp : Z;
  blk_Id : bytes; blk_Height : Z; blk_ParentId : bytes;
}.

(** The spork of the configuration, as far as the indexer reads it: [Prev] only
    for being nil, and the root block of [Next]. *)
Record Spork := mkSpork {
  sp_Version : Z;
  sp_Network : string;
  sp_RootBlock : Z;
  sp_hasPrev : bool;
  sp_NextRootBlock : option Z;
  sp_ID : Z;
}.

(** ** The structs of [convert.go] *)

Record flowEvent := mkFlowEvent {
  fe_EventIndex : Z; fe_Payload : bytes; fe_TransactionID : Identifier;
  fe_TransactionIndex : Z; fe_Type : string;
}.
Record flowChunk := mkFlowChunk {
  fc_CollectionIndex : Z; fc_StartState : bytes; fc_EventCollection : Identifier;
  fc_ServiceEventCount : option Z; fc_BlockID : Identifier; fc_TotalComputationUsed : Z;
  fc_NumberOfTransactions : Z; fc_Index : Z; fc_EndState : bytes;
}.
Record flowHeader := mkFlowHeader {
  fh_ChainID : string; fh_Height : Z; fh_ParentID : Identifier; fh_ParentVoterIDs : list Identifier;
  fh_ParentVoterIndices : bytes; fh_ParentVoterSigData : bytes; fh_PayloadHash : Identifier;
  fh_ProposerID : Identifier; fh_ProposerSigData : bytes; fh_Timestamp : Z; fh_View : Z;
  fh_LastViewTC : option TimeoutCertificate; fh_ParentView : Z;
}.

(** [time.Time] as nanoseconds since the epoch: [UnixNano] and [UnixMilli]. *)
Definition UnixNano (t : Z) : Z := s64 t.
Definition UnixMilli (t : Z) : Z := s64 (t / 10 ^ 6).

Definition toFlowIdentifier (v : bytes) : Identifier := go_copy ZeroID 0 32 v.
Definition toIdentifierSlice (v : list bytes) : list Identifier := toFlowIdentifier <$> v.
Definition toSignatureSlice (v : list bytes) : list bytes := v.

Section convert.
Context `{FlowGo}.

Record flowExecutionResult := mkFlowExecutionResult {
  fx_BlockID : Identifier; fx_Chunks : list flowChunk; fx_ExecutionDataID : Identifier;
  fx_PreviousResultID : Identifier; fx_ServiceEvents : list service_event;
}.

(** ** Conversion *)

(** [convertChunk]: a nil message panics, [None] is an error. *)
Definition convertChunk (sporkVersion : Z) (c : ChunkMsg) : option flowChunk :=
  startState ← ToStateCommitment (cm_StartState c);
  endState ← ToStateCommitment (cm_EndState c);
  serviceEventCount ←
    (if (1 <=? sporkVersion) && (sporkVersion <=? 6) then Some None
     else if sporkVersion =? 7 then
       if 0 <? Z.land (cm_ServiceEventCount c) 0xffff0000 then Some None
       else Some (Some (cm_ServiceEventCount c mod 2 ^ 16))
     else if sporkVersion =? 8 then
       if 0xffff <? cm_ServiceEventCount c then None
       else Some (Some (cm_ServiceEventCount c mod 2 ^ 16))
     else Some None);
  Some {| fc_CollectionIndex := cm_CollectionIndex c; fc_StartState := startState;
          fc_EventCollection := MessageToIdentifier (cm_EventCollection c);
          fc_ServiceEventCount := serviceEventCount;
          fc_BlockID := MessageToIdentifier (cm_BlockId c);
          fc_TotalComputationUsed := cm_TotalComputationUsed c;
          fc_NumberOfTransactions := cm_NumberOfTransactions c;
          fc_Index := cm_Index c; fc_EndState := endState |}.

(** [convertExecutionResult]; the result [(_, false)] is [Ok None]. *)
Definition convertExecutionResult (sporkVersion : Z) (result : ExecutionResultMsg)
    : outcome Empty_set (option flowExecutionResult) :=
  chunks ← foldM (λ acc chunk,
      match acc with
      | None => Ok None
      | Some cs => c ← deref chunk; Ok ((λ c, cs ++ [c]) <$> convertChunk sporkVersion c)
      end) (Some []) (er_Chunks result);
  match chunks with
  | None => Ok None
  | Some chunks =>
      match mapM (λ ev, UnmarshalWithType (se_Payload ev) (se_Type ev)) (er_ServiceEvents result) with
      | None => Ok None
      | Some evs =>
          Ok (Some {| fx_BlockID := toFlowIdentifier (er_BlockId result);
                      fx_Chunks := chunks;
                      fx_ExecutionDataID := toFlowIdentifier (er_ExecutionDataId result);
                      fx_PreviousResultID := toFlowIdentifier (er_PreviousResultId result);
                      fx_ServiceEvents := evs |})
      end
  end.

(** ** Events *)

Definition eventV1 (src : flowEvent) : gval :=
  glist [GBytes (fe_TransactionID src); GUint (fe_EventIndex src); GString (fe_Type src);
         GUint (fe_TransactionIndex src); GBytes (fe_Payload src)].

Definition eventV8 (src : flowEvent) : gval :=
  glist [GString (fe_Type src); GBytes (fe_TransactionID src); GUint (fe_TransactionIndex src);
         GUint (fe_EventIndex src); GBytes (fe_Payload src)].

Definition deriveEventsHashV1 (events : list flowEvent) : outcome Empty_set Identifier :=
  Ok (toFlowIdentifier (SHA3_256 ((λ src, Fingerprint (eventV1 src)) <$> events))).

(** The Merkle tree of the later versions; a failure of the tree is fatal. *)
Definition eventsTree (fp : flowEvent → bytes) (id : bytes → Identifier) (events : list flowEvent)
    : outcome Empty_set Identifier :=
  match merkle_NewTree with
  | None => Fatal
  | Some tree =>
      tree ← foldM (λ tree src,
          match merkle_Put tree (id (fp src)) (fp src) with None => Fatal | Some tree => Ok tree end)
        tree events;
      Ok (go_copy ZeroID 0 32 (merkle_Hash tree))
  end.

Definition deriveEventsHashV2 (events : list flowEvent) : outcome Empty_set Identifier :=
  eventsTree (λ src, Fingerprint (eventV1 src)) (λ fp, MakeID (GBytes fp)) events.
Definition deriveEventsHashV4 (events : list flowEvent) : outcome Empty_set Identifier :=
  eventsTree (λ src, Fingerprint (eventV1 src)) MakeIDFromFingerPrint events.
Definition deriveEventsHashV8 (events : list flowEvent) : outcome Empty_set Identifier :=
  eventsTree (λ src, Fingerprint (eventV8 src)) MakeIDFromFingerPrint events.

Definition deriveEventsHash (spork : Spork) (events : list flowEvent) : outcome Empty_set Identifier :=
  match sp_Version spork with
  | 1 => deriveEventsHashV1 events
  | 2 | 3 => deriveEventsHashV2 events
  | 4 | 5 | 6 | 7 => deriveEventsHashV4 events
  | 8 => deriveEventsHashV8 events
  | _ => Panic
  end.

(** ** Execution results *)

Definition chunkV1 (c : flowChunk) : gval :=
  GPtr (glist [
    glist [GUint (fc_CollectionIndex c); GBytes (fc_StartState c); GBytes (fc_EventCollection c);
           GBytes (fc_BlockID c); GUint (fc_TotalComputationUsed c); GUint (fc_NumberOfTransactions c)];
    GUint (fc_Index c); GBytes (fc_EndState c)]).
Definition chunkV7 (c : flowChunk) : gval :=
  GPtr (glist [
    glist [GUint (fc_CollectionIndex c); GBytes (fc_StartState c); GBytes (fc_EventCollection c);
           match fc_ServiceEventCount c with None => GNil | Some n => GPtr (GUint n) end;
           GBytes (fc_BlockID c); GUint (fc_TotalComputationUsed c); GUint (fc_NumberOfTransactions c)];
    GUint (fc_Index c); GBytes (fc_EndState c)]).
(** [*chunk.ServiceEventCount] panics on nil. *)
Definition chunkV8 (c : flowChunk) : outcome Empty_set gval :=
  n ← deref (fc_ServiceEventCount c);
  Ok (GPtr (glist [
    glist [GUint (fc_CollectionIndex c); GBytes (fc_StartState c); GBytes (fc_EventCollection c);
           GUint n; GBytes (fc_BlockID c); GUint (fc_TotalComputationUsed c);
           GUint (fc_NumberOfTransactions c)];
    GUint (fc_Index c); GBytes (fc_EndState c)])).

Definition ChunksToV1 (chunks : list flowChunk) : gval := glist (chunkV1 <$> chunks).
Definition ChunksToV7 (chunks : list flowChunk) : gval := glist (chunkV7 <$> chunks).
Definition ChunksToV8 (chunks : list flowChunk) : outcome Empty_set gval :=
  vs ← foldM (λ vs c, v ← chunkV8 c; Ok (vs ++ [v])) [] chunks; Ok (glist vs).

Definition ServiceEventList (evs : list service_event) : gval := glist (service_value <$> evs).

Definition deriveExecutionResultV1 (exec : flowExecutionResult) : Identifier :=
  MakeID (glist [GBytes (fx_PreviousResultID exec); GBytes (fx_BlockID exec);
                 ChunksToV1 (fx_Chunks exec); ServiceEventList (fx_ServiceEvents exec)]).
Definition deriveExecutionResultV2 (exec : flowExecutionResult) : Identifier :=
  MakeID (glist [GBytes (fx_PreviousResultID exec); GBytes (fx_BlockID exec);
                 ChunksToV1 (fx_Chunks exec); ServiceEventList (fx_ServiceEvents exec);
                 GBytes (fx_ExecutionDataID exec)]).
Definition deriveExecutionResultV7 (exec : flowExecutionResult) : Identifier :=
  match fx_Chunks exec with
  | c :: _ =>
      match fc_ServiceEventCount c with
      | None => deriveExecutionResultV2 exec
      | Some _ =>
          MakeID (glist [GBytes (fx_PreviousResultID exec); GBytes (fx_BlockID exec);
                         ChunksToV7 (fx_Chunks exec); ServiceEventList (fx_ServiceEvents exec);
                         GBytes (fx_ExecutionDataID exec)])
      end
  | [] =>
      MakeID (glist [GBytes (fx_PreviousResultID exec); GBytes (fx_BlockID exec);
                     ChunksToV7 (fx_Chunks exec); ServiceEventList (fx_ServiceEvents exec);
                     GBytes (fx_ExecutionDataID exec)])
  end.
Definition deriveExecutionResultV8 (exec : flowExecutionResult) : outcome Empty_set Identifier :=
  chunks ← ChunksToV8 (fx_Chunks exec);
  Ok (MakeID (glist [GBytes (fx_PreviousResultID exec); GBytes (fx_BlockID exec); chunks;
                     ServiceEventList (fx_ServiceEvents exec); GBytes (fx_ExecutionDataID exec)])).

Definition deriveExecutionResult (spork : Spork) (exec : flowExecutionResult)
    : outcome Empty_set Identifier :=
  match sp_Version spork with
  | 1 => Ok (deriveExecutionResultV1 exec)
  | 2 | 3 | 4 | 5 | 6 => Ok (deriveExecutionResultV2 exec)
  | 7 => Ok (deriveExecutionResultV7 exec)
  | 8 => deriveExecutionResultV8 exec
  | _ => Panic
  end.

(** ** Headers and payloads *)

Definition deriveTimeoutCertificateHashV5 (tc : option TimeoutCertificate) : Identifier :=
  match tc with
  | None => ZeroID
  | Some tc =>
      MakeID (glist [GUint (tc_View tc); glist (GUint <$> tc_NewestQCViews tc);
                     GBytes (QC_ID (tc_NewestQC tc)); GBytes (tc_SignerIndices tc);
                     GBytes (tc_SigData tc)])
  end.

Definition deriveBlockHashV1 (hdr : flowHeader) : Identifier :=
  MakeID (glist [GString (fh_ChainID hdr); GBytes (fh_ParentID hdr); GUint (fh_Height hdr);
    GBytes (fh_PayloadHash hdr); GUint (u64 (UnixNano (fh_Timestamp hdr))); GUint (fh_View hdr);
    glist (GBytes <$> fh_ParentVoterIDs hdr); GBytes (fh_ParentVoterSigData hdr);
    GBytes (fh_ProposerID hdr)]).
Definition deriveBlockHashV3 (hdr : flowHeader) : Identifier :=
  MakeID (glist [GString (fh_ChainID hdr); GBytes (fh_ParentID hdr); GUint (fh_Height hdr);
    GBytes (fh_PayloadHash hdr); GUint (u64 (UnixNano (fh_Timestamp hdr))); GUint (fh_View hdr);
    GBytes (fh_ParentVoterIndices hdr); GBytes (fh_ParentVoterSigData hdr);
    GBytes (fh_ProposerID hdr)]).
Definition deriveBlockHashV5 (hdr : flowHeader) : Identifier :=
  MakeID (glist [GString (fh_ChainID hdr); GBytes (fh_ParentID hdr); GUint (fh_Height hdr);
    GBytes (fh_PayloadHash hdr); GUint (u64 (UnixNano (fh_Timestamp hdr))); GUint (fh_View hdr);
    GUint (fh_ParentView hdr); GBytes (fh_ParentVoterIndices hdr); GBytes (fh_ParentVoterSigData hdr);
    GBytes (fh_ProposerID hdr); GBytes (deriveTimeoutCertificateHashV5 (fh_LastViewTC hdr))]).
Definition deriveBlockHashV8 (hdr : flowHeader) : Identifier :=
  MakeID (glist [GString (fh_ChainID hdr); GBytes (fh_ParentID hdr); GUint (fh_Height hdr);
    GBytes (fh_PayloadHash hdr); GUint (u64 (UnixMilli (fh_Timestamp hdr))); GUint (fh_View hdr);
    GUint (fh_ParentView hdr); GBytes (fh_ParentVoterIndices hdr); GBytes (fh_ParentVoterSigData hdr);
    GBytes (fh_ProposerID hdr); GBytes (TC_ID (fh_LastViewTC hdr))]).

Definition deriveBlockHash (spork : Spork) (hdr : flowHeader) : outcome Empty_set Identifier :=
  match sp_Version spork with
  | 1 | 2 => Ok (deriveBlockHashV1 hdr)
  | 3 | 4 => Ok (deriveBlockHashV3 hdr)
  | 5 | 6 | 7 => Ok (deriveBlockHashV5 hdr)
  | 8 => Ok (deriveBlockHashV8 hdr)
  | _ => Panic
  end.

Definition deriveExecutionReceiptHash (spork : Spork) (receipt : ReceiptStub)
    : outcome Empty_set Identifier :=
  match sp_Version spork with
  | 1 | 2 | 3 | 4 | 5 | 6 | 7 => Ok (UnsignedStub_ID receipt)
  | 8 => Ok (Stub_ID receipt)
  | _ => Panic
  end.

Definition deriveCollectionGuaranteeID (spork : Spork) (guarantee : CollectionGuaranteeMsg)
    : outcome Empty_set Identifier :=
  match sp_Version spork with
  | 1 | 2 | 3 | 4 | 5 | 6 | 7 => Ok (toFlowIdentifier (cg_CollectionId guarantee))
  | 8 => Ok (MakeID (glist [
      GBytes (toFlowIdentifier (cg_CollectionId guarantee));
      GBytes (toFlowIdentifier (cg_ReferenceBlockId guarantee));
      GString (cg_ClusterChainId guarantee); GBytes (cg_SignerIndices guarantee);
      GBytes (cg_Signature guarantee)]))
  | _ => Panic
  end.

Definition derivePayloadHashV1 (collectionHash sealHash receiptHash resultHash : Identifier) : Identifier :=
  ConcatSum [collectionHash; sealHash; receiptHash; resultHash].
Definition derivePayloadHashV7
    (collectionHash sealHash receiptHash resultHash protocolStateId : Identifier) : Identifier :=
  ConcatSum [collectionHash; sealHash; receiptHash; resultHash; protocolStateId].
Definition derivePayloadHash (sporkVersion : Z)
    (collectionHash sealHash receiptHash resultHash protocolStateId : Identifier)
    : outcome Empty_set Identifier :=
  match sporkVersion with
  | 1 | 2 | 3 | 4 | 5 | 6 => Ok (derivePayloadHashV1 collectionHash sealHash receiptHash resultHash)
  | 7 | 8 => Ok (derivePayloadHashV7 collectionHash sealHash receiptHash resultHash protocolStateId)
  | _ => Panic
  end.

(** ** The block check *)

(** The timeout certificate of a header; [None] when its newest QC is missing. *)
Definition headerTC (tc : option TimeoutCertificateMsg) : option (option TimeoutCertificate) :=
  match tc with
  | None => Some None
  | Some tc =>
      match tm_HighestQc tc with
      | None => None
      | Some qc =>
          Some (Some {| tc_View := tm_View tc; tc_NewestQCViews := tm_HighQcViews tc;
                        tc_SignerIndices := tm_SignerIndices tc; tc_SigData := tm_SigData tc;
                        tc_NewestQC := {| qc_View := qm_View qc;
                                          qc_BlockID := toFlowIdentifier (qm_BlockId qc);
                                          qc_SignerIndices := qm_SignerIndices qc;
                                          qc_SigData := qm_SigData qc |} |})
      end
  end.

Definition convertHeader (spork : Spork) (hdr : BlockHeaderMsg) (tc : option TimeoutCertificate) : flowHeader :=
  {| fh_ChainID := String.append "flow-" (sp_Network spork);
     fh_Height := bh_Height hdr;
     fh_ParentID := toFlowIdentifier (bh_ParentId hdr);
     fh_ParentVoterIDs := toIdentifierSlice (bh_ParentVoterIds hdr);
     fh_ParentVoterIndices := bh_ParentVoterIndices hdr;
     fh_ParentVoterSigData := bh_ParentVoterSigData hdr;
     fh_PayloadHash := toFlowIdentifier (bh_PayloadHash hdr);
     fh_ProposerID := toFlowIdentifier (bh_ProposerId hdr);
     fh_ProposerSigData := bh_ProposerSigData hdr;
     fh_Timestamp := bh_Timestamp hdr;
     fh_View := bh_View hdr;
     fh_LastViewTC := tc;
     fh_ParentView := bh_ParentView hdr |}.

Definition convertSeal (src : BlockSealMsg) : Seal :=
  {| seal_AggregatedApprovalSigs :=
       (λ sig, (toIdentifierSlice sig.1, toSignatureSlice sig.2)) <$> bsl_AggregatedApprovalSigs src;
     seal_BlockID := toFlowIdentifier (bsl_BlockId src);
     seal_FinalState := toFlowIdentifier (bsl_FinalState src);
     seal_ResultID := toFlowIdentifier (bsl_ResultId src) |}.

Definition convertReceipt (src : ReceiptMsg) : ReceiptStub :=
  {| rs_ExecutorID := toFlowIdentifier (rm_ExecutorId src);
     rs_ResultID := toFlowIdentifier (rm_ResultId src);
     rs_Spocks := toSignatureSlice (rm_Spocks src);
     rs_ExecutorSignature := rm_ExecutorSignature src |}.

(** [for _, src := range l { ids = append(ids, f(src)) }]. *)
Definition collect {A} (f : A → outcome Empty_set Identifier) (l : list A)
    : outcome Empty_set (list Identifier) :=
  foldM (λ ids src, id ← f src; Ok (ids ++ [id])) [] l.

(** The result identifiers; [None] when one does not convert. *)
Definition resultIDs (spork : Spork) (l : list ExecutionResultMsg)
    : outcome Empty_set (option (list Identifier)) :=
  foldM (λ acc src,
      match acc with
      | None => Ok None
      | Some ids =>
          exec ← convertExecutionResult (sp_Version spork) src;
          match exec with
          | None => Ok None
          | Some exec => id ← deriveExecutionResult spork exec; Ok (Some (ids ++ [id]))
          end
      end) (Some []) l.

Definition verifyBlockHash (spork : Spork) (hash : bytes) (hdr : BlockHeaderMsg) (block : BlockMsg)
    : outcome Empty_set bool :=
  match headerTC (bh_LastViewTc hdr) with
  | None => Ok false
  | Some lastViewTC =>
      let xhdr := convertHeader spork hdr lastViewTC in
      blockID ← deriveBlockHash spork xhdr;
      if negb (bool_decide (blockID = hash)) then Ok false
      else
        guaranteeIDs ← collect (deriveCollectionGuaranteeID spork) (blk_CollectionGuarantees block);
        let collectionHash := MerkleRoot guaranteeIDs in
        sealIDs ← collect (λ src, Ok (Seal_ID (convertSeal src))) (blk_BlockSeals block);
        let sealHash := MerkleRoot sealIDs in
        receiptIDs ← collect (λ src, deriveExecutionReceiptHash spork (convertReceipt src))
                       (blk_ExecutionReceiptMetaList block);
        let receiptHash := MerkleRoot receiptIDs in
        results ← resultIDs spork (blk_ExecutionResultList block);
        match results with
        | None => Ok false
        | Some resultIDs =>
            let resultHash := MerkleRoot resultIDs in
            payloadHash ← derivePayloadHash (sp_Version spork) collectionHash sealHash receiptHash
                            resultHash (toFlowIdentifier (blk_ProtocolStateId block));
            Ok (bool_decide (payloadHash = fh_PayloadHash xhdr))
        end
  end.
End convert.
