(* ===== verification/ConvertMain.v ===== *)
(** * What the hash checks guarantee

    The derivations never panic on the spork versions that exist, and a block
    that passes [verifyBlockHash] is determined by its hash: two different
    blocks that pass for the same hash exhibit a collision of one of the hash
    functions of flow-go. *)
From S2P Require Import Prelude Bytes Convert.
Local Open Scope Z_scope.

Definition known_version (spork : Spork) : Prop := 1 ≤ sp_Version spork ≤ 8.

Lemma known_version_cases (P : Z → Prop) :
  P 1 → P 2 → P 3 → P 4 → P 5 → P 6 → P 7 → P 8 → ∀ v, 1 ≤ v ≤ 8 → P v.
Proof.
  intros H1 H2 H3 H4 H5 H6 H7 H8 v Hv.
  assert (v = 1 ∨ v = 2 ∨ v = 3 ∨ v = 4 ∨ v = 5 ∨ v = 6 ∨ v = 7 ∨ v = 8) as Hc by lia.
  destruct_or! Hc; by subst.
Qed.

Section proofs.
Context `{FlowGo}.

(** ** Loops that collect identifiers *)

Lemma collect_total {A} (f : A → outcome Empty_set Identifier) l :
  (∀ x, x ∈ l → ∃ id, f x = Ok id) → ∃ ids, collect f l = Ok ids ∧ Forall2 (λ x id, f x = Ok id) l ids.
Proof.
  intros Hf. unfold collect.
  enough (∀ acc, ∃ ids, foldM (λ ids src, id ← f src; Ok (ids ++ [id])) acc l = Ok (acc ++ ids) ∧
    Forall2 (λ x id, f x = Ok id) l ids) as Hgen by exact (Hgen []).
  induction l as [|x l IH]; intros acc; [exists []; by rewrite app_nil_r|]. cbn [foldM].
  destruct (Hf x) as [id Hid]; [left|]. rewrite Hid. cbn [mbind outcome_mbind outcome_bind].
  destruct (IH ltac:(intros; apply Hf; by right) (acc ++ [id])) as (ids & -> & Hids).
  exists (id :: ids). rewrite <-(assoc_L (++)). split; [done|]. by constructor.
Qed.

Lemma collect_Ok {A} (f : A → outcome Empty_set Identifier) l ids :
  collect f l = Ok ids → Forall2 (λ x id, f x = Ok id) l ids.
Proof.
  unfold collect. intros Hc. enough (∀ acc ids, foldM (λ ids src, id ← f src; Ok (ids ++ [id])) acc l =
    Ok ids → ∃ ids', ids = acc ++ ids' ∧ Forall2 (λ x id, f x = Ok id) l ids') as Hgen.
  { by destruct (Hgen [] ids Hc) as (ids' & -> & ?). }
  clear. induction l as [|x l IH]; intros acc ids Hl.
  - injection Hl as <-. exists []. by rewrite app_nil_r.
  - cbn [foldM] in Hl. inv_ok. match goal with H : f x = Ok ?i |- _ => rename i into id end.
    destruct (IH _ _ Hl) as (ids' & -> & ?). exists (id :: ids').
    rewrite <-(assoc_L (++)). split; [done|]. by constructor.
Qed.

(** ** Chunks *)

Lemma convertChunk_v8 c fc :
  0 ≤ cm_ServiceEventCount c → convertChunk 8 c = Some fc →
  fc_ServiceEventCount fc = Some (cm_ServiceEventCount c) ∧ cm_ServiceEventCount c ≤ 0xffff.
Proof.
  intros Hpos. unfold convertChunk. destruct (ToStateCommitment (cm_StartState c)); [|done].
  destruct (ToStateCommitment (cm_EndState c)); [|done]. simpl.
  destruct (Z.ltb_spec 0xffff (cm_ServiceEventCount c)); [done|]. intros [= <-]. simpl.
  split; [|lia]. f_equal. apply Z.mod_small. lia.
Qed.

Lemma convertExecutionResult_chunks v msg exec :
  convertExecutionResult v msg = Ok (Some exec) →
  Forall2 (λ m fc, ∃ c, m = Some c ∧ convertChunk v c = Some fc) (er_Chunks msg) (fx_Chunks exec).
Proof.
  unfold convertExecutionResult. intros HC. inv_ok. destruct r as [chunks|]; [|done].
  destruct (mapM _ _); [|done]. injection HC as <-. simpl.
  enough (∀ acc r, foldM (λ acc chunk, match acc with
      | None => Ok None
      | Some cs => c ← deref chunk; Ok ((λ c, cs ++ [c]) <$> convertChunk v c) end) (Some acc)
      (er_Chunks msg) = Ok (E:=Empty_set) (Some r) →
    ∃ cs, r = acc ++ cs ∧
      Forall2 (λ m fc, ∃ c, m = Some c ∧ convertChunk v c = Some fc) (er_Chunks msg) cs) as Hgen.
  { by destruct (Hgen _ _ Hr) as (cs & -> & ?). }
  clear. induction (er_Chunks msg) as [|m ms IH]; intros acc r HF.
  - injection HF as <-. exists []. by rewrite app_nil_r.
  - cbn [foldM] in HF. destruct m as [c|]; [|done]. simpl in HF.
    destruct (convertChunk v c) as [fc|] eqn:Hfc; simpl in HF.
    + destruct (IH _ _ HF) as (cs & -> & Hcs). exists (fc :: cs). rewrite <-(assoc_L (++)).
      split; [done|]. constructor; [eauto|done].
    + exfalso. clear -HF. induction ms as [|m ms IH]; [done|]. by apply IH.
Qed.

Lemma ChunksToV8_total cs :
  Forall (λ c, is_Some (fc_ServiceEventCount c)) cs → ∃ v, ChunksToV8 cs = Ok v.
Proof.
  intros Hcs. unfold ChunksToV8.
  enough (∀ acc, ∃ vs, foldM (λ vs c, v ← chunkV8 c; Ok (vs ++ [v])) acc cs = Ok vs) as Hgen.
  { destruct (Hgen []) as [vs ->]. by eexists. }
  induction Hcs as [|c cs [n Hn] _ IH]; intros acc; [by eexists|]. cbn [foldM].
  unfold chunkV8 at 2. rewrite Hn. apply IH.
Qed.

Lemma deriveExecutionResult_total spork msg exec :
  known_version spork → convertExecutionResult (sp_Version spork) msg = Ok (Some exec) →
  ∃ id, deriveExecutionResult spork exec = Ok id.
Proof.
  unfold known_version, deriveExecutionResult. revert msg exec. generalize (sp_Version spork) as v.
  intros v msg exec Hv. revert v Hv. apply (known_version_cases (λ v, _ → ∃ id, _)); try by eexists.
  intros HC%convertExecutionResult_chunks. unfold deriveExecutionResultV8.
  destruct (ChunksToV8_total (fx_Chunks exec)) as [v ->]; [|by eexists].
  induction HC as [|m fc ms cs (c & -> & Hc) _ IH]; constructor; [|done]. clear -Hc.
  unfold convertChunk in Hc. destruct (ToStateCommitment (cm_StartState c)); [|done].
  destruct (ToStateCommitment (cm_EndState c)); [|done]. simpl in Hc. destruct (_ <? _); [done|].
  injection Hc as <-. by eexists.
Qed.

(** ** Binding *)

(** Two different arguments of a hash function with the same hash. *)
Definition collides {A} (f : A → Identifier) : Prop := ∃ x y, x ≠ y ∧ f x = f y.
Definition collision : Prop :=
  collides MakeID ∨ collides MerkleRoot ∨ collides ConcatSum ∨ collides Seal_ID.

Lemma inj_or_collides {A} `{EqDecision A} (f : A → Identifier) x y : f x = f y → x = y ∨ collides f.
Proof. intros Hf. destruct (decide (x = y)); [by left|]. right. by exists x, y. Qed.

Lemma MakeID_or x y : MakeID x = MakeID y → x = y ∨ collision.
Proof. intros [?|?]%inj_or_collides; [by left|right; by left]. Qed.
Lemma MerkleRoot_or x y : MerkleRoot x = MerkleRoot y → x = y ∨ collision.
Proof. intros [?|?]%inj_or_collides; [by left|right; right; by left]. Qed.
Lemma ConcatSum_or x y : ConcatSum x = ConcatSum y → x = y ∨ collision.
Proof. intros [?|?]%inj_or_collides; [by left|right; right; right; by left]. Qed.
Lemma Seal_ID_or x y : Seal_ID x = Seal_ID y → x = y ∨ collision.
Proof. intros [?|?]%inj_or_collides; [by left|right; right; right; by right]. Qed.

Lemma Seal_IDs_or (l1 l2 : list Seal) : Seal_ID <$> l1 = Seal_ID <$> l2 → l1 = l2 ∨ collision.
Proof.
  revert l2. induction l1 as [|x l1 IH]; intros [|y l2] Hl; try done; [by left|].
  rewrite !fmap_cons in Hl. injection Hl as [->|?]%Seal_ID_or Hl; [|by right].
  destruct (IH _ Hl) as [->|?]; [by left|by right].
Qed.

(** What every version of the block hash covers. *)
Lemma deriveBlockHash_binds spork h1 h2 id :
  known_version spork → deriveBlockHash spork h1 = Ok id → deriveBlockHash spork h2 = Ok id →
  (fh_ParentID h1 = fh_ParentID h2 ∧ fh_Height h1 = fh_Height h2 ∧
  fh_PayloadHash h1 = fh_PayloadHash h2) ∨ collision.
Proof.
  unfold known_version, deriveBlockHash. generalize (sp_Version spork) as v.
  apply (known_version_cases (λ v, _ → _ → _)); intros Heq1 Heq2; rewrite <-Heq1 in Heq2;
    (injection Heq2 as [Heq|?]%MakeID_or; [left; apply (inj glist) in Heq; by simplify_eq|by right]).
Qed.

Lemma derivePayloadHash_binds v c1 s1 r1 x1 p1 c2 s2 r2 x2 p2 id :
  1 ≤ v ≤ 8 → derivePayloadHash v c1 s1 r1 x1 p1 = Ok id → derivePayloadHash v c2 s2 r2 x2 p2 = Ok id →
  (c1 = c2 ∧ s1 = s2 ∧ r1 = r2 ∧ x1 = x2) ∨ collision.
Proof.
  revert v. apply (known_version_cases (λ v, _ → _ → _)); intros Heq1 Heq2; rewrite <-Heq1 in Heq2;
    (injection Heq2 as [Heq|?]%ConcatSum_or; [left; by simplify_eq|by right]).
Qed.

Lemma Forall2_det {A} (f : A → outcome Empty_set Identifier) (l1 l2 : list A) ids
    (g : A → Identifier) :
  (∀ x id, f x = Ok id → g x = id) →
  Forall2 (λ x id, f x = Ok id) l1 ids → Forall2 (λ x id, f x = Ok id) l2 ids → g <$> l1 = g <$> l2.
Proof.
  intros Hg H1. revert l2. induction H1 as [|x id l1 ids Hx _ IH]; intros l2 H2.
  - by apply Forall2_nil_inv_r in H2 as ->.
  - apply Forall2_cons_inv_r in H2 as (y & l2' & Hy & H2 & ->). rewrite !fmap_cons.
    f_equal; [|auto]. by rewrite (Hg _ _ Hx), (Hg _ _ Hy).
Qed.

(** The facts a block that passed the check gives. *)
Lemma verifyBlockHash_true spork hash hdr block :
  verifyBlockHash spork hash hdr block = Ok true →
  ∃ tc gs ss rs xs,
    headerTC (bh_LastViewTc hdr) = Some tc ∧
    deriveBlockHash spork (convertHeader spork hdr tc) = Ok hash ∧
    collect (deriveCollectionGuaranteeID spork) (blk_CollectionGuarantees block) = Ok gs ∧
    collect (λ src, Ok (Seal_ID (convertSeal src))) (blk_BlockSeals block) = Ok ss ∧
    resultIDs spork (blk_ExecutionResultList block) = Ok (Some xs) ∧
    derivePayloadHash (sp_Version spork) (MerkleRoot gs) (MerkleRoot ss) (MerkleRoot rs)
      (MerkleRoot xs) (toFlowIdentifier (blk_ProtocolStateId block)) =
      Ok (toFlowIdentifier (bh_PayloadHash hdr)).
Proof.
  unfold verifyBlockHash. destruct (headerTC _) as [tc|] eqn:Htc; [|done]. intros HV. inv_ok.
  case_bool_decide as Hh; [|done]. subst. simpl in HV. inv_ok.
  match type of HV with match ?r with _ => _ end = _ => destruct r as [xs|]; [|done] end. inv_ok.
  match goal with H : bool_decide _ = true |- _ => apply bool_decide_eq_true in H end. subst.
  by repeat eexists.
Qed.

(** What two messages that pass for the same hash have in common. *)
Definition same_block (spork : Spork) (hdr1 hdr2 : BlockHeaderMsg) (b1 b2 : BlockMsg) : Prop :=
  toFlowIdentifier (bh_ParentId hdr1) = toFlowIdentifier (bh_ParentId hdr2) ∧
  bh_Height hdr1 = bh_Height hdr2 ∧
  convertSeal <$> blk_BlockSeals b1 = convertSeal <$> blk_BlockSeals b2 ∧
  collect (deriveCollectionGuaranteeID spork) (blk_CollectionGuarantees b1) =
    collect (deriveCollectionGuaranteeID spork) (blk_CollectionGuarantees b2) ∧
  resultIDs spork (blk_ExecutionResultList b1) = resultIDs spork (blk_ExecutionResultList b2).

Lemma verifyBlockHash_binds spork hash hdr1 hdr2 b1 b2 :
  known_version spork →
  verifyBlockHash spork hash hdr1 b1 = Ok true → verifyBlockHash spork hash hdr2 b2 = Ok true →
  same_block spork hdr1 hdr2 b1 b2 ∨ collision.
Proof.
  intros Hv (tc1 & gs1 & ss1 & rs1 & xs1 & _ & Hh1 & Hg1 & Hs1 & Hx1 & Hp1)%verifyBlockHash_true
    (tc2 & gs2 & ss2 & rs2 & xs2 & _ & Hh2 & Hg2 & Hs2 & Hx2 & Hp2)%verifyBlockHash_true.
  destruct (deriveBlockHash_binds _ _ _ _ Hv Hh1 Hh2) as [(Hpar & Hht & Hpl)|?]; [|by right].
  simpl in Hpar, Hht, Hpl. rewrite Hpl in Hp1.
  destruct (derivePayloadHash_binds _ _ _ _ _ _ _ _ _ _ _ _ Hv Hp1 Hp2) as [(Hgs & Hss & _ & Hxs)|?];
    [|by right].
  apply MerkleRoot_or in Hgs as [->|?]; [|by right]. apply MerkleRoot_or in Hss as [->|?]; [|by right].
  apply MerkleRoot_or in Hxs as [->|?]; [|by right].
  apply collect_Ok in Hs1, Hs2.
  destruct (Seal_IDs_or (convertSeal <$> blk_BlockSeals b1) (convertSeal <$> blk_BlockSeals b2)) as [?|?];
    [|left|by right].
  - rewrite <-!list_fmap_compose.
    eapply (Forall2_det (λ src, Ok (Seal_ID (convertSeal src))) _ _ _ (Seal_ID ∘ convertSeal));
      [by intros x id [= <-]|exact Hs1|exact Hs2].
  - unfold same_block. by rewrite Hg1, Hg2, Hx1, Hx2.
Qed.

Lemma cons_eq_inv {A} (x y : A) k l : x :: k = y :: l → x = y ∧ k = l.
Proof. by intros [=]. Qed.

(** What an execution result identifier covers: the block, the previous result
    and the event collection of every chunk. *)
Lemma glist_fmap_binds {A B} (f : A → gval) (g : A → B) l1 l2 :
  (∀ x y, f x = f y → g x = g y) → glist (f <$> l1) = glist (f <$> l2) → g <$> l1 = g <$> l2.
Proof.
  intros Hf Hl%(inj glist). revert l2 Hl. induction l1 as [|x l1 IH]; intros [|y l2] Hl; try done.
  rewrite !fmap_cons in *. injection Hl as Hx Hl. f_equal; auto.
Qed.

Definition chunkV8_value (c : flowChunk) : gval :=
  GPtr (glist [glist [GUint (fc_CollectionIndex c); GBytes (fc_StartState c);
      GBytes (fc_EventCollection c); GUint (default 0 (fc_ServiceEventCount c)); GBytes (fc_BlockID c);
      GUint (fc_TotalComputationUsed c); GUint (fc_NumberOfTransactions c)];
      GUint (fc_Index c); GBytes (fc_EndState c)]).

Lemma ChunksToV8_fmap cs v : ChunksToV8 cs = Ok v → v = glist (chunkV8_value <$> cs).
Proof.
  unfold ChunksToV8. intros HC. inv_ok. f_equal.
  enough (∀ acc r, foldM (λ vs c, v ← chunkV8 c; Ok (vs ++ [v])) acc cs = Ok r →
    r = acc ++ (chunkV8_value <$> cs)) as Hgen by exact (Hgen [] _ Hr).
  clear Hr r. induction cs as [|c cs IH]; intros acc r HF.
  - injection HF as <-. by rewrite app_nil_r.
  - cbn [foldM] in HF. unfold chunkV8 at 2 in HF. destruct (fc_ServiceEventCount c) as [n|] eqn:Hn; [|done].
    cbn [deref mbind outcome_mbind outcome_bind] in HF. rewrite (IH _ _ HF), fmap_cons.
    unfold chunkV8_value at 2. rewrite Hn. by rewrite <-(assoc_L (++)).
Qed.

(** Versions with and without the service event count differ in shape. *)
Lemma chunkV1_V7 c1 c2 : chunkV1 c1 ≠ chunkV7 c2.
Proof. unfold chunkV1, chunkV7. by destruct (fc_ServiceEventCount c2). Qed.

Lemma chunkV1_binds c1 c2 : chunkV1 c1 = chunkV1 c2 → fc_EventCollection c1 = fc_EventCollection c2.
Proof. by intros [=]. Qed.
Lemma chunkV7_binds c1 c2 : chunkV7 c1 = chunkV7 c2 → fc_EventCollection c1 = fc_EventCollection c2.
Proof. by intros [=]. Qed.
Lemma chunkV8_binds c1 c2 :
  chunkV8_value c1 = chunkV8_value c2 → fc_EventCollection c1 = fc_EventCollection c2.
Proof. by intros [=]. Qed.

Definition chunksV7 (cs : list flowChunk) : gval :=
  match cs with
  | c :: _ => match fc_ServiceEventCount c with None => ChunksToV1 cs | Some _ => ChunksToV7 cs end
  | [] => ChunksToV7 cs
  end.

Lemma chunksV7_binds cs1 cs2 :
  chunksV7 cs1 = chunksV7 cs2 → fc_EventCollection <$> cs1 = fc_EventCollection <$> cs2.
Proof.
  assert (ChunksToV1 cs1 = ChunksToV1 cs2 → fc_EventCollection <$> cs1 = fc_EventCollection <$> cs2) as H1
    by apply glist_fmap_binds, chunkV1_binds.
  assert (ChunksToV7 cs1 = ChunksToV7 cs2 → fc_EventCollection <$> cs1 = fc_EventCollection <$> cs2) as H7
    by apply glist_fmap_binds, chunkV7_binds.
  unfold chunksV7. destruct cs1 as [|c1 cs1], cs2 as [|c2 cs2]; [done| | |].
  - by destruct (fc_ServiceEventCount c2).
  - by destruct (fc_ServiceEventCount c1).
  - destruct (fc_ServiceEventCount c1) eqn:E1, (fc_ServiceEventCount c2) eqn:E2; [exact H7| | |exact H1].
    + unfold ChunksToV7, ChunksToV1. rewrite !fmap_cons. intros Hc. apply (inj glist) in Hc.
      apply cons_eq_inv in Hc as [Hc _]. symmetry in Hc. by apply chunkV1_V7 in Hc.
    + unfold ChunksToV7, ChunksToV1. rewrite !fmap_cons. intros Hc. apply (inj glist) in Hc.
      apply cons_eq_inv in Hc as [Hc _]. by apply chunkV1_V7 in Hc.
Qed.

Lemma deriveExecutionResultV7_eq e :
  deriveExecutionResultV7 e =
  MakeID (glist [GBytes (fx_PreviousResultID e); GBytes (fx_BlockID e); chunksV7 (fx_Chunks e);
                 ServiceEventList (fx_ServiceEvents e); GBytes (fx_ExecutionDataID e)]).
Proof.
  unfold deriveExecutionResultV7, chunksV7. destruct (fx_Chunks e) as [|c cs] eqn:Hc; [done|].
  destruct (fc_ServiceEventCount c); [done|]. unfold deriveExecutionResultV2. by rewrite Hc.
Qed.

Lemma deriveExecutionResult_binds spork e1 e2 id :
  known_version spork →
  deriveExecutionResult spork e1 = Ok id → deriveExecutionResult spork e2 = Ok id →
  (fx_BlockID e1 = fx_BlockID e2 ∧ fx_PreviousResultID e1 = fx_PreviousResultID e2 ∧
   fc_EventCollection <$> fx_Chunks e1 = fc_EventCollection <$> fx_Chunks e2) ∨ collision.
Proof.
  unfold known_version, deriveExecutionResult. generalize (sp_Version spork) as v.
  assert (∀ v1 v2 l1 l2 b1 b2 b3 b4,
    MakeID (glist (GBytes b1 :: GBytes b2 :: v1 :: l1)) = MakeID (glist (GBytes b3 :: GBytes b4 :: v2 :: l2)) →
    (b1 = b3 ∧ b2 = b4 ∧ v1 = v2) ∨ collision) as Hbind.
  { intros v1 v2 l1 l2 b1 b2 b3 b4 [Heq|?]%MakeID_or; [left|by right].
    apply (inj glist) in Heq. by simplify_eq. }
  apply (known_version_cases (λ v, _ → _ → _)); intros Heq1 Heq2.
  1-6: rewrite <-Heq1 in Heq2; injection Heq2 as Heq; (apply Hbind in Heq as [(-> & -> & Hc)|?];
    [left; split; [done|]; split; [done|]; symmetry; revert Hc;
     apply glist_fmap_binds, chunkV1_binds|by right]).
  - rewrite <-Heq1 in Heq2. injection Heq2 as Heq. rewrite !deriveExecutionResultV7_eq in Heq.
    apply Hbind in Heq as [(-> & -> & Hc)|?]; [left|by right]. split; [done|]. split; [done|].
    by apply chunksV7_binds.
  - unfold deriveExecutionResultV8 in Heq1, Heq2. inv_ok.
    match goal with H1 : ChunksToV8 (fx_Chunks e1) = _, H2 : ChunksToV8 (fx_Chunks e2) = _ |- _ =>
      apply ChunksToV8_fmap in H1 as ->, H2 as -> end.
    apply MakeID_or in Heq2 as [Heq2|?]; [left|by right]. injection Heq2 as Hp Hb Hc Hs Hd.
    split; [done|]. split; [done|]. symmetry. revert Hc. apply glist_fmap_binds, chunkV8_binds.
Qed.
End proofs.

(** ** Theorems *)

Section theorems.
Context `{FlowGo}.


(** An execution result identifier fixes the block, the previous result
    and the event collection hash of every chunk, in every spork version, or
    exhibits a hash collision. *)
Theorem execution_result_binding spork e1 e2 id :
  known_version spork →
  deriveExecutionResult spork e1 = Ok id → deriveExecutionResult spork e2 = Ok id →
  (fx_BlockID e1 = fx_BlockID e2 ∧ fx_PreviousResultID e1 = fx_PreviousResultID e2 ∧
   fc_EventCollection <$> fx_Chunks e1 = fc_EventCollection <$> fx_Chunks e2) ∨ collision.
Proof. apply deriveExecutionResult_binds. Qed.

(** On the spork versions that exist, a converted execution result always
    has an identifier: the service event counts version 8 dereferences are
    present, and no version falls through to the panic. *)
Theorem execution_result_derivable spork msg exec :
  known_version spork → convertExecutionResult (sp_Version spork) msg = Ok (Some exec) →
  ∃ id, deriveExecutionResult spork exec = Ok id.
Proof. apply deriveExecutionResult_total. Qed.

(** Version 8 takes over a chunk's service event count unchanged and
    refuses counts that do not fit in 16 bits. *)
Theorem chunk_count_v8 c :
  0 ≤ cm_ServiceEventCount c →
  match convertChunk 8 c with
  | Some fc => fc_ServiceEventCount fc = Some (cm_ServiceEventCount c) ∧ cm_ServiceEventCount c < 2 ^ 16
  | None => ToStateCommitment (cm_StartState c) = None ∨ ToStateCommitment (cm_EndState c) = None ∨
            2 ^ 16 ≤ cm_ServiceEventCount c
  end.
Proof.
  intros Hpos. destruct (convertChunk 8 c) as [fc|] eqn:Hc.
  - destruct (convertChunk_v8 c fc Hpos Hc). split; [done|lia].
  - unfold convertChunk in Hc. destruct (ToStateCommitment (cm_StartState c)); [|by left].
    destruct (ToStateCommitment (cm_EndState c)); [|by right; left]. simpl in Hc.
    destruct (Z.ltb_spec 0xffff (cm_ServiceEventCount c)); [|done]. right. right. lia.
Qed.
End theorems.

(** ** A concrete instance *)
Module ConvertDemo.
Fixpoint gval_bytes (v : gval) : bytes :=
  match v with
  | GBytes b => x01 :: b
  | GUint n => x02 :: be64 n
  | GString s => x03 :: String.list_byte_of_string s
  | GNil => [x04]
  | GPtr v => x05 :: gval_bytes v
  | GCons v vs => x06 :: gval_bytes v ++ gval_bytes vs
  end.

(** Identifiers keep the last 32 bytes of the encoding. *)
Definition digest (b : bytes) : Identifier := toFlowIdentifier (reverse (take 32 (reverse b))).

#[local] Instance flowgo : FlowGo := {|
  service_event := bytes;
  service_value := GBytes;
  UnmarshalWithType payload _ := Some payload;
  ToStateCommitment b := if decide (length b = 2%nat) then Some b else None;
  MessageToIdentifier := toFlowIdentifier;
  MakeID v := digest (gval_bytes v);
  Fingerprint := gval_bytes;
  MakeIDFromFingerPrint := digest;
  SHA3_256 l := digest (mjoin l);
  merkle_Tree := list bytes;
  merkle_NewTree := Some [];
  merkle_Put t k v := Some (t ++ [k; v]);
  merkle_Hash t := digest (mjoin t);
  MerkleRoot l := digest (mjoin l);
  ConcatSum l := digest (mjoin l);
  QC_ID _ := ZeroID;
  TC_ID _ := ZeroID;
  Seal_ID s := digest (seal_ResultID s);
  UnsignedStub_ID r := digest (rs_ResultID r);
  Stub_ID r := digest (rs_ResultID r);
|}.

Definition spork : Spork := mkSpork 8 "mainnet" 100 true None 2.
Definition chunk : ChunkMsg := mkChunkMsg 0 [x01; x02] [xee] [xbb] 7 1 0 [x03; x04] 3.
Definition result : ExecutionResultMsg := mkExecutionResultMsg [xaa] [xbb] [Some chunk] [] [xdd].
Definition block : BlockMsg := mkBlockMsg [mkCollectionGuaranteeMsg [xc1] [xc2] "c" [] []]
  [mkBlockSealMsg [xaa] [x03] [x99] []] [] [result] [x55] 0 [] 101 [xaa].
Definition get {A} (z : A) (m : outcome Empty_set A) : A := match m with Ok a => a | _ => z end.
Definition payload : Identifier := ConcatSum [
  MerkleRoot (get [] (collect (deriveCollectionGuaranteeID spork) (blk_CollectionGuarantees block)));
  MerkleRoot (Seal_ID ∘ convertSeal <$> blk_BlockSeals block); MerkleRoot [];
  MerkleRoot (default [] (get None (resultIDs spork (blk_ExecutionResultList block))));
  toFlowIdentifier [x55]].
Definition header : BlockHeaderMsg := mkBlockHeaderMsg [xaa] 101 payload 0 1 [] [] [] [] [] None 0 [].
Definition hash : Identifier := get ZeroID (deriveBlockHash spork (convertHeader spork header None)).
Definition exec : flowExecutionResult :=
  mkFlowExecutionResult (toFlowIdentifier [xbb])
    [mkFlowChunk 0 [x01; x02] (toFlowIdentifier [xee]) (Some 3) (toFlowIdentifier [xbb]) 7 1 0 [x03; x04]]
    (toFlowIdentifier [xdd]) (toFlowIdentifier [xaa]) [].

Lemma version : known_version spork.
Proof. split; simpl; lia. Qed.
Lemma verified : verifyBlockHash spork hash header block = Ok true.
Proof. vm_compute. reflexivity. Qed.
Lemma converted : convertExecutionResult 8 result = Ok (Some exec).
Proof. vm_compute. reflexivity. Qed.


Lemma execution_result_binding_witness :
  let id := get ZeroID (deriveExecutionResult spork exec) in
  (fx_BlockID exec = fx_BlockID exec ∧ fx_PreviousResultID exec = fx_PreviousResultID exec ∧
   fc_EventCollection <$> fx_Chunks exec = fc_EventCollection <$> fx_Chunks exec) ∨ collision.
Proof.
  apply (execution_result_binding spork exec exec (get ZeroID (deriveExecutionResult spork exec)) version);
    vm_compute; reflexivity.
Defined.

Lemma execution_result_derivable_witness : ∃ id, deriveExecutionResult spork exec = Ok id.
Proof. exact (execution_result_derivable spork result exec version converted). Defined.

Lemma chunk_count_v8_witness :
  match convertChunk 8 chunk with
  | Some fc => fc_ServiceEventCount fc = Some 3 ∧ 3 < 2 ^ 16
  | None => ToStateCommitment [x01; x02] = None ∨ ToStateCommitment [x03; x04] = None ∨ 2 ^ 16 ≤ 3
  end.
Proof. exact (chunk_count_v8 chunk ltac:(simpl; lia)). Defined.
End ConvertDemo.
