(* ===== verification/Config.v ===== *)
(** * Configuration of the chain

    Model of [src/config/config.go]: validating the JSON configuration and the
    sporks it describes, and finding the spork of a height. A failed validation
    ends the process ([Fatal]). *)
From S2P Require Import Prelude Bytes Convert.
Local Open Scope Z_scope.

(** ** What [Init] asks of the environment

    The value of [$PORT], the number of CPUs, whether the data directory exists
    or can be created, whether the cache of a spork can be dropped, and the
    parsers of durations and of block hashes. *)
Class ConfigEnv := {
  Getenv_PORT : string;
  NumCPU : Z;
  dataDirReady : string → bool;
  DropAll : string → bool;
  ParseDuration : string → option Z;
  HexStringToIdentifier : string → option Identifier;
}.

Record Contracts := mkContracts {
  FlowFees : string;
  FlowToken : string;
  FungibleToken : string;
  FlowColdStorageProxy : string;
  FeeReceivers : list string;
}.

Record SeedNode := mkSeedNode { sn_Host : string; sn_Port : Z; sn_PublicKey : string }.
Record Consensus := mkConsensus {
  DisableSignatureCheck : bool;
  RootProtocolStateURL : string;
  RootProtocolStateSignatureURL : string;
  SeedNodes : list SeedNode;
  SigningKey : string;
}.
Record NodeConfig := mkNodeConfig { nc_Address : string; nc_PublicKey : string; nc_TLS : bool }.

Record sporkConfig := mkSporkConfig {
  sc_AccessNodes : list NodeConfig;
  sc_Consensus : option Consensus;
  sc_RootBlock : Z;
  sc_Version : Z;
}.

(** The decoded JSON; a spork may be [null]. *)
Record chainConfig := mkChainConfigJSON {
  cj_BalanceValidationInterval : string;
  cj_Cache : bool;
  cj_ConstructionAccessNodes : list NodeConfig;
  cj_Contracts : option Contracts;
  cj_DataDir : string;
  cj_DisableConsensusFollower : bool;
  cj_DropCache : bool;
  cj_MaxBackoffInterval : string;
  cj_Mode : string;
  cj_Network : string;
  cj_Originators : list string;
  cj_Port : Z;
  cj_PurgeProxyAccounts : bool;
  cj_ResyncFrom : Z;
  cj_SkipBlocks : list string;
  cj_SporkSealTolerance : Z;
  cj_Sporks : gmap Z (option sporkConfig);
  cj_Workers : Z;
}.

(** The settings of an online node; the pools of access nodes are the nodes
    they are built from. *)
Record Online := mkOnline {
  ch_BalanceValidationInterval : Z;
  ch_Cache : bool;
  ch_ConstructionAccessNodes : list NodeConfig;
  ch_DataDir : string;
  ch_MaxBackoffInterval : Z;
  ch_Originators : list bytes;
  ch_PurgeProxyAccounts : bool;
  ch_ResyncFrom : Z;
  ch_SkipBlocks : gset Identifier;
  ch_SporkSealTolerance : Z;
  ch_Sporks : list Spork;
  ch_UseConsensusFollower : bool;
  ch_Workers : Z;
}.

(** [Chain]; an offline node leaves the rest at its zero values. *)
Record Chain := mkChain {
  ch_Mode : string;
  ch_Network : string;
  ch_Port : Z;
  ch_Contracts : Contracts;
  ch_online : option Online;
}.

Abbreviation conf := (outcome Empty_set).

Definition check (b : bool) : conf unit := if b then Ok tt else Fatal.
Definition or_fatal {A} (o : option A) : conf A := match o with Some a => Ok a | None => Fatal end.
Definition str_eqb (a b : string) : bool := bool_decide (a = b).

(** ** Lookups *)

Definition IsProxyContractDeployed (c : Contracts) : bool :=
  negb (str_eqb (FlowColdStorageProxy c) "0000000000000000").

Definition FirstSpork (sporks : list Spork) : conf Spork := deref (sporks !! 0%nat).
Definition LatestSpork (sporks : list Spork) : conf Spork := deref (last sporks).

(** The walk along the [Next] pointers; [rest] are the sporks after [cur]. *)
Fixpoint sporkWalk (cur : Spork) (rest : list Spork) (height : Z) : Spork :=
  match rest with
  | [] => cur
  | next :: rest => if height <? sp_RootBlock next then cur else sporkWalk next rest height
  end.

(** [None] is the nil spork of a height below the first root block. *)
Definition SporkFor (sporks : list Spork) (height : Z) : conf (option Spork) :=
  match sporks with
  | [] => Panic
  | cur :: rest => Ok (if height <? sp_RootBlock cur then None else Some (sporkWalk cur rest height))
  end.

(** The raw eight-byte address of a hexadecimal one. *)
Definition parseAddress (raw : string) : conf bytes :=
  addr ← or_fatal (hex_decode raw);
  _ ← check (bool_decide (length addr = 8%nat));
  Ok addr.

Definition FeeAddresses (c : Contracts) : conf (gmap bytes bool) :=
  foldM (λ addrs src, addr ← parseAddress src; Ok (<[addr := true]> addrs)) ∅ (FlowFees c :: FeeReceivers c).

(** ** Validation *)

Definition parseAndValidateMode (c : chainConfig) : conf string :=
  if str_eqb (cj_Mode c) "online" || str_eqb (cj_Mode c) "offline" then Ok (cj_Mode c)
  else if str_eqb (cj_Mode c) "" then Ok "online"
  else Fatal.

Definition networks : list string := ["mainnet"; "testnet"; "localnet"; "emulator"].
Definition parseAndValidateNetwork (c : chainConfig) : conf string :=
  _ ← check (negb (str_eqb (cj_Network c) ""));
  _ ← check (existsb (str_eqb (cj_Network c)) networks);
  Ok (cj_Network c).

(** [strconv.ParseUint(s, 10, bits)]. *)
Fixpoint parse_digits (acc : Z) (s : string) : option Z :=
  match s with
  | EmptyString => Some acc
  | String ch s =>
      let n := Z.of_N (Ascii.N_of_ascii ch) - 48 in
      if (0 <=? n) && (n <=? 9) then parse_digits (acc * 10 + n) s else None
  end.
Definition ParseUint (s : string) (bits : Z) : option Z :=
  match s with
  | EmptyString => None
  | _ => n ← parse_digits 0 s; if n <? 2 ^ bits then Some n else None
  end.

Section init.
Context `{ConfigEnv}.

Definition parseAndValidatePort (c : chainConfig) : conf Z :=
  port ← (if str_eqb Getenv_PORT "" then Ok (cj_Port c) else or_fatal (ParseUint Getenv_PORT 16));
  _ ← check (negb (port =? 0));
  Ok port.

Definition parseAndValidateContracts (c : chainConfig) : conf Contracts :=
  ct ← or_fatal (cj_Contracts c);
  _ ← check (negb (str_eqb (FlowColdStorageProxy ct) ""));
  _ ← check (negb (str_eqb (FlowFees ct) ""));
  _ ← check (negb (str_eqb (FlowToken ct) ""));
  _ ← check (negb (str_eqb (FungibleToken ct) ""));
  Ok ct.

(** A duration in nanoseconds, with its default. *)
Definition parseInterval (raw : string) (dflt : Z) : conf Z :=
  if str_eqb raw "" then Ok dflt else or_fatal (ParseDuration raw).
Definition parseAndValidateBalanceValidationInterval (c : chainConfig) : conf Z :=
  parseInterval (cj_BalanceValidationInterval c) (10 ^ 9).
Definition parseAndValidateMaxBackoffInterval (c : chainConfig) : conf Z :=
  parseInterval (cj_MaxBackoffInterval c) (10 * 10 ^ 9).

Definition parseAndValidateDataDir (c : chainConfig) : conf string :=
  _ ← check (negb (str_eqb (cj_DataDir c) ""));
  _ ← check (dataDirReady (cj_DataDir c));
  Ok (cj_DataDir c).

Definition parseAndValidateOriginators (c : chainConfig) : conf (list bytes) :=
  foldM (λ acc raw, addr ← parseAddress raw; Ok (acc ++ [addr])) [] (cj_Originators c).

Definition parseAndValidateSkipBlocks (c : chainConfig) : conf (gset Identifier) :=
  foldM (λ skip raw, block ← or_fatal (HexStringToIdentifier raw); Ok ({[block]} ∪ skip))
    ∅ (cj_SkipBlocks c).

Definition parseAndValidateWorkers (c : chainConfig) : Z :=
  if cj_Workers c =? 0 then NumCPU * 2 else cj_Workers c.

Definition parseAndValidateConstructionAccessNodes (c : chainConfig) : conf (list NodeConfig) :=
  _ ← check (nonempty (cj_ConstructionAccessNodes c));
  Ok (cj_ConstructionAccessNodes c).

(** *** Sporks *)

Definition Spork_String (s : Spork) : string := sp_Network s +:+ "-" +:+ format_int (sp_ID s).

(** [prev.Next = spork]. *)
Definition set_Next (prev next : Spork) : Spork :=
  mkSpork (sp_Version prev) (sp_Network prev) (sp_RootBlock prev) (sp_hasPrev prev)
    (Some (sp_RootBlock next)) (sp_ID prev).

(** One round of the loop over the sorted ids; [prev] is the last spork so far. *)
Definition addSpork (c : chainConfig) (sporks : list Spork) (id : Z) : conf (list Spork) :=
  cfg ← deref (default None (cj_Sporks c !! id));
  _ ← check (nonempty (sc_AccessNodes cfg));
  let spork := mkSpork (sc_Version cfg) (cj_Network c) (sc_RootBlock cfg)
                 (bool_decide (is_Some (last sporks))) None id in
  _ ← check ((1 <=? sp_Version spork) && (sp_Version spork <=? 8));
  _ ← check (negb (cj_Cache c && cj_DropCache c) || DropAll (Spork_String spork +:+ "-cache"));
  match last sporks with
  | None => Ok (sporks ++ [spork])
  | Some prev =>
      _ ← check (id =? u64 (sp_ID prev + 1));
      _ ← check (sp_RootBlock prev <? sc_RootBlock cfg);
      Ok (removelast sporks ++ [set_Next prev spork; spork])
  end.

Definition sporkIDs (c : chainConfig) : list Z := merge_sort Z.le (elements (dom (cj_Sporks c))).

Definition parseAndValidateSporks (c : chainConfig) : conf (list Spork) :=
  _ ← check (1 <=? Z.of_nat (size (cj_Sporks c)));
  foldM (addSpork c) [] (sporkIDs c).

(** [cfg] is the consensus section of the latest spork. *)
Definition checkConsensus (cfg : option Consensus) : conf unit :=
  cfg ← or_fatal cfg;
  _ ← check (negb (str_eqb (RootProtocolStateURL cfg) ""));
  _ ← check (negb (str_eqb (RootProtocolStateSignatureURL cfg) "" && negb (DisableSignatureCheck cfg)));
  _ ← check (nonempty (SeedNodes cfg));
  _ ← check (forallb (λ n, negb (str_eqb (sn_Host n) "") && negb (sn_Port n =? 0) &&
                           negb (str_eqb (sn_PublicKey n) "")) (SeedNodes cfg));
  check (negb (str_eqb (SigningKey cfg) "")).

Definition parseAndValidateDisableConsensusFollower (c : chainConfig) (sporks : list Spork) : conf bool :=
  if cj_DisableConsensusFollower c then Ok false
  else
    latest ← LatestSpork sporks;
    cfg ← deref (default None (cj_Sporks c !! sp_ID latest));
    _ ← checkConsensus (sc_Consensus cfg);
    Ok true.

Definition Init (c : chainConfig) : conf Chain :=
  mode ← parseAndValidateMode c;
  network ← parseAndValidateNetwork c;
  port ← parseAndValidatePort c;
  contracts ← parseAndValidateContracts c;
  if str_eqb mode "offline" then Ok (mkChain mode network port contracts None)
  else
    interval ← parseAndValidateBalanceValidationInterval c;
    dataDir ← parseAndValidateDataDir c;
    backoff ← parseAndValidateMaxBackoffInterval c;
    originators ← parseAndValidateOriginators c;
    nodes ← parseAndValidateConstructionAccessNodes c;
    skip ← parseAndValidateSkipBlocks c;
    sporks ← parseAndValidateSporks c;
    follower ← parseAndValidateDisableConsensusFollower c sporks;
    Ok (mkChain mode network port contracts (Some {|
      ch_BalanceValidationInterval := interval;
      ch_Cache := cj_Cache c;
      ch_ConstructionAccessNodes := nodes;
      ch_DataDir := dataDir;
      ch_MaxBackoffInterval := backoff;
      ch_Originators := originators;
      ch_PurgeProxyAccounts := cj_PurgeProxyAccounts c;
      ch_ResyncFrom := cj_ResyncFrom c;
      ch_SkipBlocks := skip;
      ch_SporkSealTolerance := cj_SporkSealTolerance c;
      ch_Sporks := sporks;
      ch_UseConsensusFollower := follower;
      ch_Workers := parseAndValidateWorkers c;
    |})).
End init.
