(* ===== verification/ConfigMain.v ===== *)
(** * Validated configurations

    A configuration that passes [Init] has a chain of sporks in order, so every
    height belongs to exactly one spork and every hash function of [convert.go]
    knows the version of its spork. *)
From S2P Require Import Prelude Bytes Convert ConvertMain Config.
Local Open Scope Z_scope.

(** ** Sporks in order *)

(** [prev] and [next] are neighbours. *)
Definition succeeds (prev next : Spork) : Prop :=
  sp_RootBlock prev < sp_RootBlock next ∧ sp_ID next = u64 (sp_ID prev + 1).

(** The sporks are linked both ways; [hp] says whether one comes before. *)
Fixpoint linked (hp : bool) (l : list Spork) : Prop :=
  match l with
  | [] => True
  | s :: rest =>
      known_version s ∧ sp_hasPrev s = hp ∧ sp_NextRootBlock s = sp_RootBlock <$> head rest ∧
      (∀ next, head rest = Some next → succeeds s next) ∧ linked true rest
  end.

Lemma linked_snoc init prev next hp :
  linked hp (init ++ [prev]) → known_version next → sp_hasPrev next = true →
  sp_NextRootBlock next = None → succeeds prev next →
  linked hp (init ++ [set_Next prev next; next]).
Proof.
  revert hp. induction init as [|s init IH]; intros hp Hl Hv Hp Hn Hs.
  - cbn [app linked] in *. destruct Hl as (? & ? & _). do 3 (split; [done|]).
    split; [by intros n [= <-]|]. split; [done|]. split; [done|]. by split.
  - cbn [app linked] in *. destruct Hl as (? & ? & Hnx & Hsu & Hl). split; [done|]. split; [done|].
    split; [|split; [|by apply IH]].
    + rewrite Hnx. by destruct init.
    + destruct init as [|s1 init]; [|by apply Hsu]. intros n [= <-]. by apply (Hsu prev).
Qed.

Section sporks.
Context `{ConfigEnv}.

Lemma check_Ok b u : check b = Ok u → b = true.
Proof. by destruct b. Qed.

Lemma addSpork_linked c l id l' :
  linked false l → addSpork c l id = Ok l' → linked false l' ∧ l' ≠ [] ∧ sp_ID <$> l' = (sp_ID <$> l) ++ [id].
Proof.
  intros Hl HA. unfold addSpork in HA. inv_ok.
  repeat match goal with H : check _ = Ok _ |- _ => apply check_Ok in H end.
  cbn [sp_Version] in *.
  destruct l as [|prev init _] using rev_ind.
  - cbn in *. injection HA as <-. rewrite andb_true_iff in *.
    split; [|done]. split; [|done]. unfold known_version. simpl. lia.
  - rewrite last_snoc in HA. inv_ok.
    repeat match goal with H : check _ = Ok _ |- _ => apply check_Ok in H end.
    rewrite removelast_last. rewrite andb_true_iff in *. split; [|split].
    + apply linked_snoc; [done| |done|done|].
      * unfold known_version. simpl. lia.
      * split; simpl; lia.
    + by destruct init.
    + by rewrite !fmap_app, <-(assoc_L (++)).
Qed.

Lemma parseSporks_linked c sporks :
  parseAndValidateSporks c = Ok sporks →
  linked false sporks ∧ sporks ≠ [] ∧ sp_ID <$> sporks = sporkIDs c.
Proof.
  unfold parseAndValidateSporks. intros HP. inv_ok. apply check_Ok in Hr.
  assert (linked false sporks ∧ (sporkIDs c ≠ [] → sporks ≠ []) ∧ sp_ID <$> sporks = sporkIDs c) as (? & Hne & ?).
  { eapply (foldM_inv_prefix _ (λ ids l, linked false l ∧ (ids ≠ [] → l ≠ []) ∧ sp_ID <$> l = ids)); [| |exact HP].
    - intros ids x post a a' _ (Hl & _ & <-) HA. apply addSpork_linked in HA as (? & ? & ?); auto.
    - done. }
  split; [done|]. split; [|done]. apply Hne. intros Hnil.
  assert (size (cj_Sporks c) = 0%nat) as Hz; [|by rewrite Hz in Hr].
  rewrite <-size_dom. unfold size, set_size. cbn.
  apply (Permutation_length (l':=[])). rewrite <-Hnil. symmetry. apply merge_sort_Permutation.
Qed.

Lemma parseAddress_length raw a : parseAddress raw = Ok a → length a = 8%nat.
Proof.
  unfold parseAddress. intros HP. inv_ok. apply check_Ok in Hr0.
  by apply bool_decide_eq_true in Hr0.
Qed.

Lemma originators_length c l : parseAndValidateOriginators c = Ok l → Forall (λ a, length a = 8%nat) l.
Proof.
  intros HP. eapply (foldM_inv _ (Forall (λ a, length a = 8%nat))); [| |exact HP]; [|done].
  intros acc raw acc' _ Hacc HA. cbv beta in HA. inv_ok. apply Forall_app. split; [done|].
  apply Forall_singleton. by eapply parseAddress_length.
Qed.
End sporks.

(** ** The spork of a height *)

(** [s] covers [height]: from its root block up to the next one. *)
Definition covers (s : Spork) (height : Z) : Prop :=
  sp_RootBlock s ≤ height ∧ ∀ n, sp_NextRootBlock s = Some n → height < n.

Lemma linked_later hp s rest s' : linked hp (s :: rest) → s' ∈ rest → sp_RootBlock s < sp_RootBlock s'.
Proof.
  revert hp s. induction rest as [|s1 rest IH]; intros hp s; [by rewrite elem_of_nil|].
  intros (_ & _ & _ & Hs & Hl) Hin. destruct (Hs s1 eq_refl) as [Hlt _].
  apply elem_of_cons in Hin as [-> |Hin]; [done|]. specialize (IH _ _ Hl Hin). lia.
Qed.

Lemma sporkWalk_spec hp cur rest height :
  linked hp (cur :: rest) → sp_RootBlock cur ≤ height →
  sporkWalk cur rest height ∈ cur :: rest ∧ covers (sporkWalk cur rest height) height ∧
  ∀ s, s ∈ cur :: rest → covers s height → s = sporkWalk cur rest height.
Proof.
  revert hp cur. induction rest as [|next rest IH]; intros hp cur Hl Hle.
  - cbn [sporkWalk]. destruct Hl as (_ & _ & Hn & _). split; [left|]. split; [split; [done|]; intros n; by rewrite Hn|].
    intros s Hin _. by apply list_elem_of_singleton in Hin.
  - pose proof Hl as (_ & _ & Hn & _ & Hl'). cbn [sporkWalk].
    destruct (Z.ltb_spec height (sp_RootBlock next)) as [Hlt|Hge].
    + split; [left|]. split; [split; [done|]; rewrite Hn; by intros n [= <-]|].
      intros s Hin [Hs _]. apply elem_of_cons in Hin as [-> |Hin]; [done|].
      apply elem_of_cons in Hin as [-> |Hin]; [lia|]. pose proof (linked_later _ _ _ _ Hl' Hin). lia.
    + destruct (IH _ _ Hl' Hge) as (H1 & H2 & H3). split; [by right|]. split; [done|].
      intros s Hin Hc. apply elem_of_cons in Hin as [-> |Hin]; [|by apply H3].
      destruct Hc as [_ Hc]. rewrite Hn in Hc. specialize (Hc _ eq_refl). lia.
Qed.

(** ** Theorems *)

Section theorems.
Context `{ConfigEnv}.

(** The sporks of a validated configuration are those of the JSON in the
    order of their ids; ids are consecutive, root blocks increase, the [Prev] and
    [Next] pointers agree with the order, and every version is one the hash
    functions of [convert.go] support. *)
Theorem validated_sporks c sporks :
  parseAndValidateSporks c = Ok sporks →
  linked false sporks ∧ sporks ≠ [] ∧ sp_ID <$> sporks = sporkIDs c.
Proof. apply parseSporks_linked. Qed.

(** C39: In a validated configuration every height from the first root block on
    belongs to exactly one spork, and [SporkFor] returns it; a lower height gets
    the nil spork. *)
Theorem spork_for_height c sporks height :
  parseAndValidateSporks c = Ok sporks →
  ∃ first, FirstSpork sporks = Ok first ∧
    (height < sp_RootBlock first → SporkFor sporks height = Ok None) ∧
    (sp_RootBlock first ≤ height → ∃ s, SporkFor sporks height = Ok (Some s) ∧ s ∈ sporks ∧
       known_version s ∧ covers s height ∧ ∀ s', s' ∈ sporks → covers s' height → s' = s).
Proof.
  intros (Hl & Hne & _)%parseSporks_linked. destruct sporks as [|first rest]; [done|].
  exists first. split; [done|]. unfold SporkFor. split.
  - intros Hlt. by rewrite (proj2 (Z.ltb_lt _ _) Hlt).
  - intros Hle. rewrite (proj2 (Z.ltb_ge _ _) Hle). eexists. split; [done|].
    destruct (sporkWalk_spec _ _ _ _ Hl Hle) as (H1 & H2 & H3). split; [done|]. split; [|done].
    revert H1. generalize (sporkWalk first rest height). clear -Hl.
    revert Hl. generalize false. generalize (first :: rest). intros l.
    induction l as [|s l IH]; intros hp Hl s' Hin; [by apply elem_of_nil in Hin|].
    destruct Hl as (Hv & _ & _ & _ & Hl). apply elem_of_cons in Hin as [-> |Hin]; [done|by eapply IH].
Qed.

(** An accepted configuration is well formed: a known network, a port, and
    for an online node originators that are eight-byte addresses and at least one
    spork; a consensus follower only with a complete consensus section. *)
Theorem accepted_config c chain :
  Init c = Ok chain →
  ch_Network chain ∈ networks ∧ ch_Port chain ≠ 0 ∧
  match ch_online chain with
  | None => ch_Mode chain = "offline"
  | Some o =>
      ch_Mode chain = "online" ∧ Forall (λ a, length a = 8%nat) (ch_Originators o) ∧
      linked false (ch_Sporks o) ∧ ch_Sporks o ≠ [] ∧
      (ch_UseConsensusFollower o = true → ∃ latest cfg,
         last (ch_Sporks o) = Some latest ∧ cj_Sporks c !! sp_ID latest = Some (Some cfg) ∧
         checkConsensus (sc_Consensus cfg) = Ok tt)
  end.
Proof.
  unfold Init. intros HI. inv_ok.
  assert (r0 ∈ networks) as Hnet.
  { unfold parseAndValidateNetwork in Hr0. inv_ok. apply check_Ok, existsb_exists in Hr4 as (n & Hin & Hn).
    apply bool_decide_eq_true in Hn as ->. by apply list_elem_of_In. }
  assert (r1 ≠ 0) as Hport.
  { unfold parseAndValidatePort in Hr1. inv_ok. apply check_Ok in Hr4. lia. }
  destruct (str_eqb r "offline") eqn:Hmode.
  { inv_ok. apply bool_decide_eq_true in Hmode. done. }
  inv_ok. split; [done|]. split; [done|]. simpl. split; [|split; [by eapply originators_length|]].
  - unfold parseAndValidateMode in Hr. split_ok Hr; inv_ok; [|done].
    unfold str_eqb in *. apply bool_decide_eq_false in Hmode.
    apply orb_true_iff in Hb as [Hb%bool_decide_eq_true|Hb%bool_decide_eq_true]; done.
  - match goal with H : parseAndValidateSporks c = _ |- _ => apply parseSporks_linked in H as (? & ? & _) end.
    split; [done|]. split; [done|]. intros ->.
    match goal with H : parseAndValidateDisableConsensusFollower c _ = _ |- _ =>
      unfold parseAndValidateDisableConsensusFollower in H; split_ok H; inv_ok end.
    unfold LatestSpork, deref in *.
    repeat match goal with H : match ?o with _ => _ end = Ok _ |- _ => destruct o eqn:?; simplify_eq end.
    eexists _, _. split; [done|]. destruct (cj_Sporks c !! _) as [[cfg|]|]; simplify_eq/=.
    split; [done|]. by match goal with u : () |- _ => destruct u end.
Qed.

(** The fee accounts of a configuration are eight-byte addresses and always
    include the FlowFees contract. *)
Theorem fee_addresses ct addrs :
  FeeAddresses ct = Ok addrs →
  (∀ a b, addrs !! a = Some b → length a = 8%nat ∧ b = true) ∧
  (∃ a, hex_decode (FlowFees ct) = Some a ∧ addrs !! a = Some true) ∧
  (∀ r, r ∈ FeeReceivers ct → ∃ a, hex_decode r = Some a ∧ addrs !! a = Some true).
Proof.
  intros HF.
  assert ((∀ a b, addrs !! a = Some b → length a = 8%nat ∧ b = true) ∧
          ∀ r, r ∈ FlowFees ct :: FeeReceivers ct → ∃ a, hex_decode r = Some a ∧ addrs !! a = Some true)
    as [Hlen Hall].
  { eapply (foldM_inv_prefix _ (λ pre m, (∀ a b, m !! a = Some b → length a = 8%nat ∧ b = true) ∧
      ∀ r, r ∈ pre → ∃ a, hex_decode r = Some a ∧ m !! a = Some true)); [| |exact HF].
    - intros pre raw post m m' _ [Hlen Hall] HA. cbv beta in HA. inv_ok. rename r into addr. split.
      + intros a b. rewrite lookup_insert. case_decide; [|by apply Hlen]. intros [= <-]. subst.
        split; [by eapply parseAddress_length|done].
      + intros r [Hin|Hin]%elem_of_app.
        * destruct (Hall r Hin) as (a & Ha & Hm). exists a. split; [done|].
          rewrite lookup_insert. by case_decide.
        * apply list_elem_of_singleton in Hin as ->. exists addr. rewrite lookup_insert_eq. split; [|done]. unfold parseAddress, or_fatal in Hr. inv_ok.
          destruct (hex_decode raw); by simplify_eq.
    - split; [by intros a b; rewrite lookup_empty|]. intros r Hin. by apply elem_of_nil in Hin. }
  split; [done|]. split; [apply Hall; left|]. intros r Hin. apply Hall. by right.
Qed.
End theorems.

(** ** A concrete configuration *)
Module ConfigDemo.
#[local] Instance env : ConfigEnv := {|
  Getenv_PORT := "8080";
  NumCPU := 4;
  dataDirReady _ := true;
  DropAll _ := true;
  ParseDuration _ := None;
  HexStringToIdentifier s := b ← hex_decode s; if decide (length b = 32%nat) then Some b else None;
|}.

Definition node : NodeConfig := mkNodeConfig "access:9000" "" false.
Definition contracts : Contracts :=
  mkContracts "f919ee77447b7497" "1654653399040a61" "f233dcee88fe0abd" "0000000000000000" ["e467b9dd11fa00df"].
Definition json : chainConfig := {|
  cj_BalanceValidationInterval := "";
  cj_Cache := true;
  cj_ConstructionAccessNodes := [node];
  cj_Contracts := Some contracts;
  cj_DataDir := "data";
  cj_DisableConsensusFollower := true;
  cj_DropCache := true;
  cj_MaxBackoffInterval := "";
  cj_Mode := "";
  cj_Network := "mainnet";
  cj_Originators := ["0102030405060708"];
  cj_Port := 0;
  cj_PurgeProxyAccounts := false;
  cj_ResyncFrom := 0;
  cj_SkipBlocks := [];
  cj_SporkSealTolerance := 10;
  cj_Sporks := {[ 2 := Some (mkSporkConfig [node] None 100 8); 1 := Some (mkSporkConfig [node] None 5 1) ]};
  cj_Workers := 0;
|}.

Definition sporks : list Spork :=
  [mkSpork 1 "mainnet" 5 false (Some 100) 1; mkSpork 8 "mainnet" 100 true None 2].

Lemma parsed : parseAndValidateSporks json = Ok sporks.
Proof. vm_compute. reflexivity. Qed.

Lemma validated_sporks_witness : linked false sporks ∧ sporks ≠ [] ∧ sp_ID <$> sporks = sporkIDs json.
Proof. exact (validated_sporks json sporks parsed). Defined.

Lemma spork_for_height_witness :
  ∃ first, FirstSpork sporks = Ok first ∧
    (99 < sp_RootBlock first → SporkFor sporks 99 = Ok None) ∧
    (sp_RootBlock first ≤ 99 → ∃ s, SporkFor sporks 99 = Ok (Some s) ∧ s ∈ sporks ∧
       known_version s ∧ covers s 99 ∧ ∀ s', s' ∈ sporks → covers s' 99 → s' = s).
Proof. exact (spork_for_height json sporks 99 parsed). Defined.

Definition get {A} (z : A) (m : conf A) : A := match m with Ok a => a | _ => z end.
Definition chain : Chain := get (mkChain "" "" 0 contracts None) (Init json).

Lemma accepted : Init json = Ok chain.
Proof. assert (is_Ok (Init json) = true) as Hi by (vm_compute; reflexivity). unfold chain. by destruct (Init json). Qed.

Lemma accepted_config_witness : ch_Network chain ∈ networks ∧ ch_Port chain ≠ 0.
Proof. destruct (accepted_config json chain accepted) as (? & ? & _). auto. Defined.

Lemma fees : FeeAddresses contracts = Ok (get ∅ (FeeAddresses contracts)).
Proof.
  assert (is_Ok (FeeAddresses contracts) = true) as Hi by (vm_compute; reflexivity).
  by destruct (FeeAddresses contracts).
Qed.

Lemma fee_addresses_witness :
  ∃ a, hex_decode "e467b9dd11fa00df" = Some a ∧ get ∅ (FeeAddresses contracts) !! a = Some true.
Proof. apply (fee_addresses contracts _ fees). left. Defined.
End ConfigDemo.
