(* ===== verification/Api.v ===== *)
(** * The data endpoints

    Model of [src/api/account_service.go], [src/api/block_service.go] and what
    they use of [src/api/api.go] and [src/api/errors.go]: the handlers of
    /account/balance, /block and /block/transaction on top of the index. *)
From S2P Require Import Prelude Bytes Model Badger Config IndexDB.
From Stdlib Require Export Floats.SpecFloat.
Local Open Scope Z_scope.

(** ** Rosetta types *)

(** The errors of the handlers; the details of a wrapped error are left out. *)
Inductive api_err :=
  | errBroadcastFailed | errNotImplemented | errOfflineMode | errTransactionNotInMempool
  | errInvalidNumberOfAccountKeys | errTransactionExpired | errInvalidKeyID
  | errInternal | errMissingData | errProtobuf
  | errInvalidAccountAddress | errInvalidBlockHash | errInvalidBlockIdentifier
  | errInvalidBlockIndex | errInvalidConstructOptions | errInvalidCurrency
  | errInvalidMetadataField | errInvalidOpsIntent | errInvalidSignature
  | errInvalidTransactionHash | errInvalidTransactionPayload | errUnknownTransactionHash
  | errAccessNodeInaccessible | errBlockNotIndexed | errRateLimited
  | errInvalidIndexedState | errFailedAccessAPICall.
#[export] Instance api_err_eq_dec : EqDecision api_err.
Proof. solve_decision. Defined.

(** Code and retriable flag of an error. *)
Definition error_code (e : api_err) : Z * bool :=
  match e with
  | errBroadcastFailed => (101, false)
  | errNotImplemented => (102, false)
  | errOfflineMode => (103, false)
  | errTransactionNotInMempool => (104, false)
  | errInvalidNumberOfAccountKeys => (201, false)
  | errTransactionExpired => (202, false)
  | errInvalidKeyID => (203, false)
  | errInternal => (301, false)
  | errMissingData => (302, false)
  | errProtobuf => (303, false)
  | errInvalidAccountAddress => (401, false)
  | errInvalidBlockHash => (402, false)
  | errInvalidBlockIdentifier => (403, false)
  | errInvalidBlockIndex => (404, false)
  | errInvalidConstructOptions => (405, false)
  | errInvalidCurrency => (406, false)
  | errInvalidMetadataField => (407, false)
  | errInvalidOpsIntent => (408, false)
  | errInvalidSignature => (409, false)
  | errInvalidTransactionHash => (410, false)
  | errInvalidTransactionPayload => (411, false)
  | errUnknownTransactionHash => (412, false)
  | errAccessNodeInaccessible => (501, true)
  | errBlockNotIndexed => (502, true)
  | errRateLimited => (503, true)
  | errInvalidIndexedState => (504, true)
  | errFailedAccessAPICall => (505, true)
  end.

(** Values of type [interface{}] in a metadata object: the Go types the code
    tells apart. Decoded JSON has strings and [float64] numbers; [cadence.String]
    and [int64] appear in responses only. *)
Inductive any :=
  | AString (s : string)
  | ACadenceString (s : string)
  | AFloat64 (f : spec_float)
  | AInt64 (z : Z)
  | AOther (typ : string).

Record Currency := mkCurrency { cu_Symbol : string; cu_Decimals : Z }.
#[export] Instance Currency_eq_dec : EqDecision Currency.
Proof. solve_decision. Defined.
Record Amount := mkAmount { am_Currency : Currency; am_Value : string }.

Record RosettaOperation := mkRosettaOperation {
  ro_Account : option string;
  ro_Amount : option Amount;
  ro_Metadata : gmap string any;
  ro_Index : Z;
  ro_Related : list Z;
  ro_Status : option string;
  ro_Type : string;
}.

Record transferEvent := mkTransferEventJSON {
  ej_Amount : string; ej_Receiver : string; ej_Sender : string; ej_Type : string;
}.

Record RosettaTransaction := mkRosettaTransaction {
  rt_ErrorMessage : string;
  rt_Failed : bool;
  rt_Events : list transferEvent;
  rt_Operations : list RosettaOperation;
  rt_Hash : string;
}.

Record BlockIdentifier := mkBlockIdentifier { bi_Hash : string; bi_Index : Z }.
Record PartialBlockIdentifier := mkPartialBlockIdentifier { pb_Hash : option string; pb_Index : option Z }.

Record BlockResponse := mkBlockResponse {
  br_Block : BlockIdentifier;
  br_Parent : BlockIdentifier;
  br_Timestamp : Z;
  br_Transactions : list RosettaTransaction;
}.

Record AccountBalanceResponse := mkAccountBalanceResponse {
  ab_Block : BlockIdentifier;
  ab_Balances : list Amount;
  ab_SequenceNumber : option string;
}.

Definition flowCurrency : Currency := mkCurrency "FLOW" 8.
Definition opCreateAccount : string := "create_account".
Definition opCreateProxyAccount : string := "create_proxy_account".
Definition opDeployContract : string := "deploy_contract".
Definition opFee : string := "fee".
Definition opProxyTransfer : string := "proxy_transfer".
Definition opProxyTransferInner : string := "proxy_transfer_inner".
Definition opTransfer : string := "transfer".
Definition opUpdateContract : string := "update_contract".
Definition statusFailed : string := "FAILED".
Definition statusSuccess : string := "SUCCESS".

(** ** The access node behind the server

    The two calls of [getSequenceNumber]: the nonce of a proxy account at a block
    ([None] is a failed call, [Some None] a result of another type), and the keys
    of an account: their revoked flag and sequence number. *)
Class DataAccess := {
  execute_GetProxyNonce : bytes → bytes → option (option Z);
  AccountAtHeight : bytes → Z → option (list (bool * Z));
}.

(** The compiled Cadence scripts of the server. *)
Record Scripts := mkScripts {
  scriptBasicTransfer : bytes;
  scriptComputeFees : bytes;
  scriptCreateAccount : bytes;
  scriptCreateProxyAccount : bytes;
  scriptGetBalances : bytes;
  scriptGetBalancesBasic : bytes;
  scriptGetFeeReceivers : bytes;
  scriptGetProxyNonce : bytes;
  scriptGetProxyPublicKey : bytes;
  scriptProxyTransfer : bytes;
  scriptSetContract : bytes;
}.

(** The fields of [Server] the handlers read; [sv_genesis] is nil until the
    index has a genesis block, and a pool of access nodes is the list of their
    addresses. *)
Record Server (DB : Type) := mkServer {
  sv_Contracts : Contracts;
  sv_Network : string;
  sv_ConstructionAccessNodes : list string;
  sv_DataAccessNodes : list string;
  sv_Index : Store DB;
  sv_Synced : bool;
  sv_Offline : bool;
  sv_feeAddrs : gmap bytes bool;
  sv_genesis : option BlockMeta;
  sv_scripts : Scripts;
}.
Arguments mkServer {DB}.
Arguments sv_Contracts {DB}.
Arguments sv_Network {DB}.
Arguments sv_ConstructionAccessNodes {DB}.
Arguments sv_DataAccessNodes {DB}.
Arguments sv_Index {DB}.
Arguments sv_Synced {DB}.
Arguments sv_Offline {DB}.
Arguments sv_feeAddrs {DB}.
Arguments sv_genesis {DB}.
Arguments sv_scripts {DB}.

Abbreviation api := (outcome api_err).

Definition hexAddress (addr : bytes) : string := "0x" +:+ hex_encode addr.

Definition getAccount (addr : string) : api bytes :=
  if bool_decide (String.length addr ≠ 18%nat) || bool_decide (String.substring 0 2 addr ≠ "0x")
  then Err errInvalidAccountAddress
  else
    match hex_decode (String.substring 2 16 addr) with
    | None => Err errInvalidAccountAddress
    | Some acct => Ok acct
    end.

(** The error of a lookup in the index, for the client. *)
Definition of_index {A} (m : outcome err A) : api A :=
  match m with
  | Ok a => Ok a
  | Err ErrBlockNotIndexed => Err errBlockNotIndexed
  | Err _ => Err errInternal
  | Fatal => Fatal
  | Panic => Panic
  end.

(** A 64-digit hexadecimal block hash. *)
Definition parseHash (raw : string) : api bytes :=
  if bool_decide (String.length raw ≠ 64%nat) then Err errInvalidBlockHash
  else match hex_decode raw with None => Err errInvalidBlockHash | Some h => Ok h end.

Section handlers.
Context {DB : Type} `{!Badger DB, !Proto IndexedBlock, !Proto BlockMeta, !DataAccess}.
Implicit Types sv : Server DB.

(** ** /account/balance *)

Definition balanceResponse (v : BalanceData) : AccountBalanceResponse :=
  mkAccountBalanceResponse (mkBlockIdentifier (hex_encode (bd_Hash v)) (s64 (bd_Height v)))
    [mkAmount flowCurrency (format_int (bd_Balance v))] None.

Definition genesisBalance sv : api AccountBalanceResponse :=
  g ← deref (sv_genesis sv);
  Ok (mkAccountBalanceResponse (mkBlockIdentifier (hex_encode (bm_Hash g)) (s64 (bm_Height g)))
        [mkAmount flowCurrency "0"] None).

(** [None] is an error. *)
Definition getSequenceNumber sv (addr : bytes) (block : BlockMeta) : option Z :=
  nonce ← (if IsProxyContractDeployed (sv_Contracts sv)
           then r ← execute_GetProxyNonce (bm_Hash block) addr; n ← r; Some (if 0 <=? n then Some n else None)
           else Some None);
  match nonce with
  | Some n => Some n
  | None =>
      keys ← AccountAtHeight addr (bm_Height block);
      let valid := filter (λ k, k.1 = false) keys in
      match valid with [k] => Some k.2 | _ => None end
  end.

Definition checkCurrencies (cs : list (option Currency)) : bool :=
  forallb (λ c, match c with None => false | Some c => bool_decide (c = flowCurrency) end) cs.

Definition AccountBalance sv (account : option string) (currencies : list (option Currency))
    (id : option PartialBlockIdentifier) : api AccountBalanceResponse :=
  match account with
  | None => Err errInvalidAccountAddress
  | Some address =>
      acct ← getAccount address;
      if negb (checkCurrencies currencies) then Err errInvalidCurrency
      else
        match id with
        | None =>
            l ← of_index (Latest (sv_Index sv));
            let block := l.2 in
            if BlockMeta_Equal block (sv_genesis sv) then genesisBalance sv
            else if negb (sv_Synced sv) then Err errBlockNotIndexed
            else
              block ← deref block;
              match getSequenceNumber sv acct block with
              | None => Err errInternal
              | Some seq =>
                  v ← of_index (BalanceByHash (sv_Index sv) acct (bm_Hash block));
                  let resp := balanceResponse v in
                  Ok (mkAccountBalanceResponse (ab_Block resp) (ab_Balances resp) (Some (format_int seq)))
              end
        | Some id =>
            match pb_Index id, pb_Hash id with
            | Some height, _ =>
                g ← deref (sv_genesis sv);
                if height <? s64 (bm_Height g) then Err errInvalidBlockIndex
                else if height =? s64 (bm_Height g) then genesisBalance sv
                else
                  v ← of_index (BalanceByHeight (sv_Index sv) acct (u64 height));
                  Ok (balanceResponse v)
            | None, Some raw =>
                hash ← parseHash raw;
                g ← deref (sv_genesis sv);
                if bool_decide (hash = bm_Hash g) then genesisBalance sv
                else
                  v ← of_index (BalanceByHash (sv_Index sv) acct hash);
                  Ok (balanceResponse v)
            | None, None => Err errInvalidBlockIdentifier
            end
        end
  end.

Definition AccountCoins sv : api unit := if sv_Offline sv then Err errOfflineMode else Err errNotImplemented.

(** ** /block *)

(** The operation of an account; [value] is nil for an account creation. *)
Definition rosettaOp (index : Z) (addr : bytes) (value : option Z) (related : list Z)
    (md : gmap string any) (typ : string) : RosettaOperation :=
  mkRosettaOperation (Some (hexAddress addr)) ((λ v, mkAmount flowCurrency (format_int v)) <$> value) md index related
    (Some statusSuccess) typ.

(** [-int64(src.Amount)]. *)
Definition debit (amount : Z) : Z := s64 (- s64 amount).

(** One operation of the index, as the operations of a transaction. *)
Definition convertOperation (ops : list RosettaOperation) (src : Operation) : api (list RosettaOperation) :=
  let len := Z.of_nat (length ops) in
  match op_Type src with
  | FEE => Ok (ops ++ [rosettaOp len (op_Account src) (Some (debit (op_Amount src))) [] ∅ opFee])
  | TRANSFER | PROXY_TRANSFER =>
      let typ := if bool_decide (op_Type src = PROXY_TRANSFER) then opProxyTransfer else opTransfer in
      let sender := nonempty (op_Account src) in
      let ops :=
        if sender then ops ++ [rosettaOp len (op_Account src) (Some (debit (op_Amount src))) [] ∅ typ] else ops in
      let len := Z.of_nat (length ops) in
      Ok (if nonempty (op_Receiver src)
          then ops ++ [rosettaOp len (op_Receiver src) (Some (op_Amount src))
                         (if sender then [len - 1] else []) ∅ typ]
          else ops)
  | CREATE_ACCOUNT =>
      Ok (ops ++ [if nonempty (op_ProxyPublicKey src)
                  then rosettaOp len (op_Account src) None []
                         {["proxy_public_key" := AString (hex_encode (op_ProxyPublicKey src))]} opCreateProxyAccount
                  else rosettaOp len (op_Account src) None [] ∅ opCreateAccount])
  | _ => Panic
  end.

(** [TransferType.String]. *)
Definition TransferType_String (t : TransferType) : string :=
  match t with
  | TRANSFER_TYPE_UNSPECIFIED => "TRANSFER_TYPE_UNSPECIFIED"
  | DEPOSIT => "DEPOSIT"
  | FEE_DEPOSIT => "FEE_DEPOSIT"
  | PROXY_DEPOSIT => "PROXY_DEPOSIT"
  | PROXY_WITHDRAWAL => "PROXY_WITHDRAWAL"
  | WITHDRAWAL => "WITHDRAWAL"
  | TRANSFER_TYPE_UNRECOGNIZED n => format_int n
  end.

Definition encodeTransferEvents (src : list TransferEvent) : list transferEvent :=
  (λ event, mkTransferEventJSON (format_int (te_Amount event))
     (if nonempty (te_Receiver event) then hexAddress (te_Receiver event) else "")
     (if nonempty (te_Sender event) then hexAddress (te_Sender event) else "")
     (TransferType_String (te_Type event))) <$> src.

Definition convertTransaction (txn : IndexedTransaction) : api RosettaTransaction :=
  ops ← foldM convertOperation [] (it_Operations txn);
  Ok (mkRosettaTransaction (it_ErrorMessage txn) (it_Failed txn) (encodeTransferEvents (it_Events txn)) ops
        (hex_encode (it_Hash txn))).

Definition genesisBlock sv : api BlockData :=
  g ← deref (sv_genesis sv);
  Ok (mkBlockData (mkIndexedBlock (bm_Timestamp g) []) (bm_Hash g) (bm_Height g) (bm_Hash g) (bm_Height g)).

Definition getBlockData sv (id : option PartialBlockIdentifier) : api BlockData :=
  match id with
  | None => Err errInvalidBlockIdentifier
  | Some id =>
      match pb_Index id, pb_Hash id with
      | Some height, _ =>
          g ← deref (sv_genesis sv);
          if height <? s64 (bm_Height g) then Err errInvalidBlockIndex
          else if height =? s64 (bm_Height g) then genesisBlock sv
          else of_index (BlockByHeight (sv_Index sv) (u64 height))
      | None, Some raw =>
          hash ← parseHash raw;
          g ← deref (sv_genesis sv);
          if bool_decide (hash = bm_Hash g) then genesisBlock sv
          else of_index (BlockByHash (sv_Index sv) hash)
      | None, None => Err errInvalidBlockIdentifier
      end
  end.

(** Removing duplicates: of the transactions with one hash the first one stays,
    unless a later one has operations. *)
Definition dedup_step (st : gmap bytes nat * list IndexedTransaction) (txn : IndexedTransaction)
    : gmap bytes nat * list IndexedTransaction :=
  let '(seen, txns) := st in
  match seen !! it_Hash txn with
  | Some idx => (seen, if nonempty (it_Operations txn) then <[idx := txn]> txns else txns)
  | None => (<[it_Hash txn := length txns]> seen, txns ++ [txn])
  end.
Definition dedup (txns : list IndexedTransaction) : list IndexedTransaction :=
  (foldl dedup_step (∅, []) txns).2.

Definition getBlock sv (id : option PartialBlockIdentifier) : api BlockData :=
  data ← getBlockData sv id;
  Ok (mkBlockData (mkIndexedBlock (ib_Timestamp (bl_Block data)) (dedup (ib_Transactions (bl_Block data))))
        (bl_Hash data) (bl_Height data) (bl_ParentHash data) (bl_ParentHeight data)).

Definition Block sv (id : option PartialBlockIdentifier) : api BlockResponse :=
  if sv_Offline sv then Err errOfflineMode
  else
    data ← getBlock sv id;
    txns ← foldM (λ txns txn, t ← convertTransaction txn; Ok (txns ++ [t])) []
             (ib_Transactions (bl_Block data));
    Ok (mkBlockResponse (mkBlockIdentifier (hex_encode (bl_Hash data)) (s64 (bl_Height data)))
          (mkBlockIdentifier (hex_encode (bl_ParentHash data)) (s64 (bl_ParentHeight data)))
          (ib_Timestamp (bl_Block data) / 10 ^ 6) txns).

(** ** /block/transaction *)

Definition BlockTransaction sv (block : option BlockIdentifier) (txn : option string) : api RosettaTransaction :=
  if sv_Offline sv then Err errOfflineMode
  else
    match block, txn with
    | None, _ => Err errInvalidBlockIdentifier
    | Some _, None => Err errInvalidTransactionHash
    | Some block, Some txn =>
        match hex_decode txn with
        | None => Err errInvalidTransactionHash
        | Some txhash =>
            data ← getBlock sv (Some (mkPartialBlockIdentifier (Some (bi_Hash block)) (Some (bi_Index block))));
            match list_find (λ t, it_Hash t = txhash) (ib_Transactions (bl_Block data)) with
            | Some (_, t) => convertTransaction t
            | None => Err errUnknownTransactionHash
            end
        end
    end.
End handlers.

(** ** Validation of the index

    The status that [validateBalances] reports and the error that then fails
    every request. *)
Module Validation.
Record validation := mkValidation { v_accounts : Z; v_checked : Z; v_err : string; v_status : string }.
Record state := mkState { indexedStateErr : option string; status : validation }.

Definition init : state := mkState None (mkValidation 0 0 "" "not_started").

Definition setIndexedStateErr (msg : string) (st : state) : state :=
  let err := match indexedStateErr st with None => Some msg | e => e end in
  if bool_decide (v_status (status st) = "failure") then mkState err (status st)
  else mkState err (mkValidation 0 0 msg "failure").

Definition setValidationProgress (accounts checked : Z) (st : state) : state :=
  if bool_decide (v_status (status st) = "failure") || bool_decide (v_status (status st) = "success") then st
  else mkState (indexedStateErr st) (mkValidation accounts checked "" "in_progress").

Definition setValidationSuccess (accounts : Z) (st : state) : state :=
  if bool_decide (v_status (status st) = "failure") then st
  else mkState (indexedStateErr st) (mkValidation accounts 0 "" "success").

Record onchainData := mkOnchainData { DefaultBalance : Z; IsProxy : bool; ProxyBalance : Z }.

(** The comparison of one account: the new state and the number of mismatches. *)
Definition checkAccount (isProxy : bool) (indexed : Z) (onchain : onchainData) (st : state) : state * Z :=
  let '(st, failed) :=
    if bool_decide (isProxy ≠ IsProxy onchain)
    then (setIndexedStateErr "Mismatching proxy account status" st, 1) else (st, 0) in
  if IsProxy onchain then
    if negb (indexed =? ProxyBalance onchain)
    then (setIndexedStateErr "Mismatching proxy balance" st, failed + 1) else (st, failed)
  else if negb (indexed =? DefaultBalance onchain)
    then (setIndexedStateErr "Mismatching balance" st, failed + 1) else (st, failed).

(** One round over the accounts of the index, with what the chain says of each;
    proxy accounts are skipped while no proxy contract is [deployed]. *)
Definition checkStep (deployed : bool) (total : Z) (acc : state * Z * Z) (x : bool * Z * onchainData)
    : state * Z * Z :=
  let '(st, failed, done) := acc in
  let '(isProxy, indexed, onchain) := x in
  if isProxy && negb deployed then acc else
  let '(st, n) := checkAccount isProxy indexed onchain st in
  let failed := failed + n in
  let done := done + 1 in
  (if failed =? 0 then setValidationProgress total done st else st, failed, done).

Definition checkRound (deployed : bool) (accts : list (bool * Z * onchainData)) (st : state) : state :=
  let total := Z.of_nat (length accts) in
  let '(st, failed, _) := foldl (checkStep deployed total) (st, 0, 0) accts in
  if (0 <? total) && negb (0 <? failed) then setValidationSuccess total st else st.

(** [Wrapper]: a request is answered only while no error is recorded. *)
Definition gate {A} (st : state) (handler : outcome api_err A) : outcome (api_err + string) A :=
  match indexedStateErr st with
  | Some msg => Err (inr msg)
  | None => match handler with Ok a => Ok a | Err e => Err (inl e) | Fatal => Fatal | Panic => Panic end
  end.
End Validation.
