(* ===== verification/ApiMain.v ===== *)
(** * The promises of the data endpoints

    What the server tells about a block and about the balance of an account
    agree: the balance after a block is the balance before it plus the amounts
    of the operations the block is served with. *)
From S2P Require Import Prelude Bytes Model Badger Config IndexDB IndexSpec IndexProofs IndexTheorems IndexMain Api.
Local Open Scope Z_scope.

(** ** Addresses *)

Lemma substring_all s n : String.length s = n → String.substring 0 n s = s.
Proof. revert n. induction s as [|c s IH]; intros [|n] Hl; try done. simpl in *. by rewrite IH by lia. Qed.

#[export] Instance hexAddress_inj : Inj eq eq hexAddress.
Proof. intros a b [= Hab]. by apply (inj hex_encode). Qed.

Lemma getAccount_hexAddress acct : length acct = 8%nat → getAccount (hexAddress acct) = Ok acct.
Proof.
  intros Hl. pose proof (length_hex_encode acct) as Hh. pose proof (hex_decode_encode acct) as Hd.
  unfold getAccount, hexAddress. revert Hh Hd. generalize (hex_encode acct) as s. intros s Hh Hd. rewrite Hl in Hh.
  destruct (String.length ("0x" +:+ s)) as [|n] eqn:Hn; [done|]. change (S (S (String.length s)) = S n) in Hn.
  replace (S n) with 18%nat by lia. rewrite bool_decide_false by tauto.
  replace (String.substring 0 2 ("0x" +:+ s)) with "0x" by by destruct s.
  rewrite bool_decide_false by tauto. cbn [orb].
  change (String.substring 2 16 ("0x" +:+ s)) with (String.substring 0 16 s).
  by rewrite (substring_all s 16), Hd by lia.
Qed.

(** ** Operations as served *)

(** The amounts of the operations of an account. *)
Definition op_value (acct : bytes) (o : RosettaOperation) : option string :=
  if bool_decide (ro_Account o = Some (hexAddress acct)) then am_Value <$> ro_Amount o else None.
Definition values (acct : bytes) (ops : list RosettaOperation) : list string := omap (op_value acct) ops.
Definition served_values (acct : bytes) (b : BlockResponse) : list string :=
  values acct (mjoin (rt_Operations <$> br_Transactions b)).

(** Operations as the indexer builds them: a known type, an amount that fits an
    [int64], and no receiver on a fee. *)
Definition served_op (op : Operation) : Prop :=
  wf_op op ∧ 0 ≤ op_Amount op < 2 ^ 63 ∧ (op_Type op = FEE → op_Receiver op = []).

Lemma values_app acct l1 l2 : values acct (l1 ++ l2) = values acct l1 ++ values acct l2.
Proof. apply omap_app. Qed.

Lemma value_rosettaOp acct index addr value related md typ :
  op_value acct (rosettaOp index addr value related md typ) =
  if bool_decide (addr = acct) then format_int <$> value else None.
Proof.
  unfold op_value, rosettaOp. cbn [ro_Account ro_Amount].
  destruct (decide (addr = acct)) as [->|Hne].
  - rewrite !bool_decide_true by done. by destruct value.
  - rewrite !bool_decide_false; [done|done|]. intros [= Heq]. by apply Hne, (inj hex_encode).
Qed.

Lemma debit_neg a : 0 ≤ a < 2 ^ 63 → debit a = - a.
Proof. intros Ha. unfold debit. rewrite (s64_id a), (s64_id (- a)) by lia. done. Qed.

(** What an account sees of one side of a transfer. *)
Lemma side_values (acct addr : bytes) (z : Z) : acct ≠ [] →
  (if nonempty addr then if bool_decide (addr = acct) then [z] else [] else []) =
  (if bool_decide (addr = acct) then [z] else []).
Proof. intros Hne. destruct addr; [|done]. cbn. by rewrite bool_decide_false. Qed.

Lemma values_side acct addr index z related typ (ops : list RosettaOperation) :
  values acct (if nonempty addr then ops ++ [rosettaOp index addr (Some z) related ∅ typ] else ops) =
  values acct ops ++ (format_int <$> (if nonempty addr then if bool_decide (addr = acct) then [z] else [] else [])).
Proof.
  destruct (nonempty addr); [|by rewrite app_nil_r]. rewrite values_app. cbn [values omap list_omap].
  rewrite value_rosettaOp. by case_bool_decide.
Qed.

(** An operation is served with the amounts by which it changes the balance. *)
Lemma convertOperation_values acct ops op :
  acct ≠ [] → served_op op →
  ∃ ops' zs, convertOperation ops op = Ok ops' ∧ values acct ops' = values acct ops ++ (format_int <$> zs) ∧
    sumZ id zs = op_effect acct op.
Proof.
  intros Hne (Hwf & Ha & Hfee). unfold wf_op, convertOperation, op_effect in *.
  rewrite (bool_decide_true _ Hne), andb_true_r.
  destruct (op_Type op) eqn:Hty; try done; cbn [moves_tokens].
  - eexists _, []. split; [done|]. split; [|done]. rewrite values_app.
    destruct (nonempty (op_ProxyPublicKey op)); cbn [values omap list_omap]; rewrite value_rosettaOp;
      by case_bool_decide.
  - eexists _, (if bool_decide (op_Account op = acct) then [- op_Amount op] else []). split; [done|].
    rewrite values_app. cbn [values omap list_omap]. rewrite value_rosettaOp, (debit_neg _ Ha), (Hfee eq_refl).
    rewrite (bool_decide_false ([] = acct)) by done.
    case_bool_decide; cbn; (split; [done|]); unfold sumZ; simpl; lia.
  - eexists _, ((if bool_decide (op_Account op = acct) then [- op_Amount op] else []) ++
                (if bool_decide (op_Receiver op = acct) then [op_Amount op] else [])).
    split; [done|]. rewrite !values_side, !side_values, fmap_app, (assoc_L (++)), (debit_neg _ Ha) by done.
    split; [done|]. do 2 case_bool_decide; unfold sumZ; simpl; lia.
  - eexists _, ((if bool_decide (op_Account op = acct) then [- op_Amount op] else []) ++
                (if bool_decide (op_Receiver op = acct) then [op_Amount op] else [])).
    split; [done|]. rewrite !values_side, !side_values, fmap_app, (assoc_L (++)), (debit_neg _ Ha) by done.
    split; [done|]. do 2 case_bool_decide; unfold sumZ; simpl; lia.
Qed.

Lemma convertOperations_values acct ops0 ops :
  acct ≠ [] → Forall served_op ops →
  ∃ ops' zs, foldM convertOperation ops0 ops = Ok ops' ∧
    values acct ops' = values acct ops0 ++ (format_int <$> zs) ∧ sumZ id zs = ops_effect acct ops.
Proof.
  intros Hne Hops. revert ops0. induction Hops as [|op ops Hop _ IH]; intros ops0.
  - exists ops0, []. cbn. by rewrite app_nil_r.
  - destruct (convertOperation_values acct ops0 op Hne Hop) as (ops1 & z1 & H1 & Hv1 & Hs1).
    destruct (IH ops1) as (ops2 & z2 & H2 & Hv2 & Hs2). exists ops2, (z1 ++ z2). cbn [foldM].
    rewrite H1. cbn. split; [done|]. rewrite Hv2, Hv1, fmap_app, <-(assoc_L (++)). split; [done|].
    unfold ops_effect. rewrite sumZ_app, sumZ_cons, Hs1, Hs2. done.
Qed.

Definition txn_effect (acct : bytes) (t : IndexedTransaction) : Z := ops_effect acct (it_Operations t).

Lemma convertTransactions_values acct ts0 ts :
  acct ≠ [] → Forall (λ t, Forall served_op (it_Operations t)) ts →
  ∃ ts' zs, foldM (λ txns txn, t ← convertTransaction txn; Ok (txns ++ [t])) ts0 ts = Ok ts' ∧
    values acct (mjoin (rt_Operations <$> ts')) = values acct (mjoin (rt_Operations <$> ts0)) ++ (format_int <$> zs) ∧
    sumZ id zs = sumZ (txn_effect acct) ts.
Proof.
  intros Hne Hts. revert ts0. induction Hts as [|t ts Ht _ IH]; intros ts0.
  - exists ts0, []. cbn. by rewrite app_nil_r.
  - destruct (convertOperations_values acct [] _ Hne Ht) as (ops & z1 & H1 & Hv1 & Hs1).
    assert (∃ t', convertTransaction t = Ok t' ∧ rt_Operations t' = ops) as (t' & Hc & Ht').
    { unfold convertTransaction. rewrite H1. by eexists. }
    destruct (IH (ts0 ++ [t'])) as (ts' & z2 & H2 & Hv2 & Hs2). exists ts', (z1 ++ z2).
    split; [cbn [foldM]; rewrite Hc; exact H2|]. rewrite Hv2, fmap_app, join_app, values_app, fmap_app.
    change (mjoin (rt_Operations <$> [t'])) with (rt_Operations t' ++ []). rewrite app_nil_r, Ht', Hv1.
    split; [by rewrite <-(assoc_L (++))|]. rewrite sumZ_app, sumZ_cons, Hs1, Hs2. done.
Qed.

(** ** Duplicate transactions *)

(** Of the transactions with one hash at most one has operations. *)
Definition unique_ops (txns : list IndexedTransaction) : Prop :=
  ∀ pre t post, txns = pre ++ t :: post → it_Operations t ≠ [] →
    ∀ t', t' ∈ pre → it_Hash t' = it_Hash t → it_Operations t' = [].

Lemma sumZ_insert {A} (f : A → Z) l i x y : l !! i = Some x → sumZ f (<[i := y]> l) = sumZ f l - f x + f y.
Proof.
  revert i. induction l as [|a l IH]; intros [|i] Hi; try done; simpl in Hi.
  - injection Hi as ->. change (<[0%nat := y]> (x :: l)) with (y :: l). rewrite !sumZ_cons. lia.
  - change (<[S i := y]> (a :: l)) with (a :: <[i := y]> l). rewrite !sumZ_cons, (IH _ Hi). lia.
Qed.

Record dedup_inv (txns : list IndexedTransaction) (st : gmap bytes nat * list IndexedTransaction) : Prop := {
  di_seen : ∀ h idx, st.1 !! h = Some idx ↔ (it_Hash <$> st.2) !! idx = Some h;
  di_from : ∀ t, t ∈ st.2 → t ∈ txns;
  di_sum : ∀ acct, unique_ops txns → sumZ (txn_effect acct) st.2 = sumZ (txn_effect acct) txns;
}.

Lemma unique_ops_snoc txns t : unique_ops (txns ++ [t]) → unique_ops txns.
Proof. intros Hu pre t' post -> Hops. apply (Hu pre t' (post ++ [t])); [|done]. by rewrite <-(assoc_L (++)). Qed.

Lemma dedup_step_inv txns st t : dedup_inv txns st → dedup_inv (txns ++ [t]) (dedup_step st t).
Proof.
  destruct st as [seen out]. intros [Hseen Hfrom Hsum]. cbn [fst snd dedup_step] in *.
  destruct (seen !! it_Hash t) as [idx|] eqn:Hl.
  - assert (∃ t', out !! idx = Some t' ∧ it_Hash t' = it_Hash t) as (t' & Ht' & Hh).
    { apply Hseen in Hl. rewrite list_lookup_fmap in Hl. destruct (out !! idx) as [t'|]; [|done].
      exists t'. split; [done|]. by injection Hl. }
    destruct (it_Operations t) as [|op ops] eqn:Hops; cbn [nonempty]; split; cbn [fst snd].
    + done.
    + intros x Hx. apply elem_of_app. left. by apply Hfrom.
    + intros acct Hu. rewrite sumZ_app, sumZ_cons, sumZ_nil, (Hsum acct (unique_ops_snoc _ _ Hu)).
      assert (txn_effect acct t = 0) as -> by (unfold txn_effect; by rewrite Hops). lia.
    + intros h i. rewrite Hseen, list_fmap_insert. split; intros Hi.
      * destruct (decide (i = idx)) as [->|Hne]; [|by rewrite list_lookup_insert_ne].
        rewrite list_lookup_insert_eq by (rewrite length_fmap; by eapply lookup_lt_Some).
        rewrite list_lookup_fmap, Ht' in Hi. cbn in Hi. by rewrite <-Hh.
      * destruct (decide (i = idx)) as [->|Hne]; [|by rewrite list_lookup_insert_ne in Hi].
        rewrite list_lookup_insert_eq in Hi by (rewrite length_fmap; by eapply lookup_lt_Some).
        rewrite list_lookup_fmap, Ht'. cbn. by rewrite Hh.
    + intros x Hx. apply elem_of_app. apply list_elem_of_lookup in Hx as [i Hi].
      destruct (decide (i = idx)) as [->|Hne].
      * rewrite list_lookup_insert_eq in Hi by (by eapply lookup_lt_Some). injection Hi as <-. right. left.
      * rewrite list_lookup_insert_ne in Hi by done. left. by eapply Hfrom, list_elem_of_lookup_2.
    + intros acct Hu. rewrite (sumZ_insert _ _ _ _ _ Ht'), (Hsum acct (unique_ops_snoc _ _ Hu)).
      rewrite sumZ_app, sumZ_cons, sumZ_nil.
      assert (it_Operations t' = []) as Hnil.
      { apply (Hu txns t []); [done|by rewrite Hops|by eapply Hfrom, list_elem_of_lookup_2|done]. }
      assert (txn_effect acct t' = 0) as -> by (unfold txn_effect; by rewrite Hnil). lia.
  - split; cbn [fst snd].
    + intros h i. rewrite lookup_insert_Some, Hseen, fmap_app. split.
      * intros [[<- <-]|[_ Hi]].
        -- rewrite lookup_app_r, length_fmap, Nat.sub_diag by (by rewrite length_fmap). done.
        -- by apply lookup_app_l_Some.
      * intros [Hi|[Hlen Hi]]%lookup_app_Some.
        -- right. split; [|done]. intros <-. apply Hseen in Hi. congruence.
        -- rewrite length_fmap in *. destruct (i - length out)%nat eqn:Hd; [|done]. injection Hi as <-. left.
           split; [done|]. lia.
    + intros x [Hx|Hx]%elem_of_app; apply elem_of_app; [left; by apply Hfrom|by right].
    + intros acct Hu. by rewrite !sumZ_app, (Hsum acct (unique_ops_snoc _ _ Hu)).
Qed.

Lemma dedup_spec txns : dedup_inv txns (foldl dedup_step (∅, []) txns).
Proof.
  induction txns as [|t txns IH] using rev_ind.
  - split; cbn [foldl fst snd]; [|done|done]. intros h idx. by rewrite lookup_empty.
  - rewrite foldl_snoc. by apply dedup_step_inv.
Qed.

Lemma dedup_hashes txns : NoDup (it_Hash <$> dedup txns).
Proof.
  destruct (dedup_spec txns) as [Hseen _ _]. apply NoDup_alt. intros i j h Hi Hj.
  apply Hseen in Hi, Hj. rewrite Hi in Hj. by injection Hj.
Qed.

(** ** Balances *)

Lemma ledger_step g hist i p e acct :
  chain g hist → hist !! i = Some p → hist !! S i = Some e →
  ledger_balance hist acct (e_height e) = ledger_balance hist acct (e_height p) + block_effect acct (e_block e).
Proof.
  intros Hc Hp He. pose proof (chain_lookup_height _ _ _ _ Hc Hp) as Hhp.
  pose proof (chain_lookup_height _ _ _ _ Hc He) as Hhe.
  unfold ledger_balance. rewrite <-(take_drop_middle hist (S i) e He), !sumZ_app, !sumZ_cons.
  rewrite Z.leb_refl, (proj2 (Z.leb_gt _ _)) by lia.
  assert (∀ x, x ∈ take (S i) hist → e_height x ≤ e_height p) as Hlo.
  { intros x [j Hj]%list_elem_of_lookup. apply lookup_take_Some in Hj as [Hj Hlt].
    rewrite (chain_lookup_height _ _ _ _ Hc Hj). lia. }
  assert (∀ x, x ∈ drop (S (S i)) hist → e_height e < e_height x) as Hhi.
  { intros x [j Hj]%list_elem_of_lookup. rewrite lookup_drop in Hj.
    rewrite (chain_lookup_height _ _ _ _ Hc Hj). lia. }
  rewrite (sumZ_ext _ (λ x, if e_height x <=? e_height p then block_effect acct (e_block x) else 0) (take (S i) hist)).
  2: { intros x Hx. specialize (Hlo x Hx). by rewrite !(proj2 (Z.leb_le _ _)) by lia. }
  rewrite (sumZ_zero _ (drop (S (S i)) hist)), (sumZ_zero _ (drop (S (S i)) hist)); [lia|..].
  all: intros x Hx; specialize (Hhi x Hx); by rewrite (proj2 (Z.leb_gt _ _)) by lia.
Qed.

(** ** Validation *)

Module ValidationProofs.
Import Validation.

(** A failure is reported exactly when requests are refused. *)
Definition consistent (st : state) : Prop := v_status (status st) = "failure" ↔ is_Some (indexedStateErr st).

(** The index and the chain agree on an account. *)
Definition agrees (x : bool * Z * onchainData) : Prop :=
  let '(isProxy, indexed, onchain) := x in
  isProxy = IsProxy onchain ∧ indexed = if IsProxy onchain then ProxyBalance onchain else DefaultBalance onchain.
(** The accounts a round looks at. *)
Definition checked (deployed : bool) (x : bool * Z * onchainData) : Prop := x.1.1 && negb deployed = false.
#[export] Instance agrees_dec x : Decision (agrees x).
Proof. destruct x as [[p i] o]. unfold agrees. apply _. Defined.

(** An error that is recorded stays. *)
Definition kept_err (st st' : state) : Prop :=
  is_Some (indexedStateErr st) → indexedStateErr st' = indexedStateErr st.

Lemma setErr_spec msg st :
  consistent st → let st' := setIndexedStateErr msg st in
  consistent st' ∧ is_Some (indexedStateErr st') ∧ kept_err st st'.
Proof.
  intros Hc. unfold setIndexedStateErr, consistent, kept_err in *.
  destruct (indexedStateErr st) as [e|] eqn:He; case_bool_decide; cbn [indexedStateErr status v_status];
    (split; [|split; [by eexists|]]); try done; try (by intros [? [=]]).
Qed.

Lemma progress_spec a n st :
  consistent st → let st' := setValidationProgress a n st in
  consistent st' ∧ indexedStateErr st' = indexedStateErr st.
Proof.
  intros Hc. unfold setValidationProgress. case_bool_decide as Hf; [done|].
  case_bool_decide; [done|]. split; [|done]. unfold consistent in *. cbn. split; [done|]. tauto.
Qed.

Lemma success_spec a st :
  consistent st → let st' := setValidationSuccess a st in
  consistent st' ∧ indexedStateErr st' = indexedStateErr st ∧
  (indexedStateErr st = None → v_status (status st') = "success").
Proof.
  intros Hc. unfold setValidationSuccess, consistent in *. case_bool_decide as Hf.
  - split; [done|]. split; [done|]. intros He. rewrite He in Hc. destruct Hc as [Hc _].
    by destruct (Hc Hf) as [? [=]].
  - split; [|done]. cbn. split; [done|]. tauto.
Qed.

Lemma checkAccount_spec p i o st st' n :
  consistent st → checkAccount p i o st = (st', n) →
  consistent st' ∧ kept_err st st' ∧ 0 ≤ n ∧
  (agrees (p, i, o) → st' = st ∧ n = 0) ∧ (¬ agrees (p, i, o) → 0 < n ∧ is_Some (indexedStateErr st')).
Proof.
  intros Hc. unfold checkAccount, agrees.
  assert (∀ msg st1, consistent st1 → kept_err st st1 →
    let st2 := setIndexedStateErr msg st1 in consistent st2 ∧ kept_err st st2 ∧ is_Some (indexedStateErr st2)) as Hset.
  { intros msg st1 Hc1 Hk. destruct (setErr_spec msg st1 Hc1) as (H1 & H2 & H3). split; [done|]. split; [|done].
    intros Hs. rewrite (H3 ltac:(by rewrite (Hk Hs))). by apply Hk. }
  assert (kept_err st st) as Hk by done.
  destruct (Hset "Mismatching proxy account status" st Hc Hk) as (Hc1 & Hk1 & Hs1).
  case_bool_decide as Hp; destruct (IsProxy o) eqn:Ho;
    match goal with |- context [negb (i =? ?b)] => destruct (Z.eqb_spec i b) as [Hi|Hi] end; cbn [negb];
    intros [= <- <-]; try destruct (Hset "Mismatching proxy balance" _ Hc1 Hk1) as (Hc2 & Hk2 & Hs2);
    try destruct (Hset "Mismatching balance" _ Hc1 Hk1) as (Hc3 & Hk3 & Hs3);
    try destruct (Hset "Mismatching proxy balance" _ Hc Hk) as (Hc4 & Hk4 & Hs4);
    try destruct (Hset "Mismatching balance" _ Hc Hk) as (Hc5 & Hk5 & Hs5);
    (split; [done|]); (split; [done|]); (split; [lia|]); split; intros Hag; try tauto; try (split; [lia|done]).
Qed.

Lemma checkRound_spec deployed accts st :
  consistent st → let st' := checkRound deployed accts st in
  consistent st' ∧ kept_err st st' ∧
  (indexedStateErr st' = None ↔ indexedStateErr st = None ∧ Forall (λ x, checked deployed x → agrees x) accts) ∧
  (indexedStateErr st' = None → accts ≠ [] → v_status (status st') = "success").
Proof.
  intros Hc. unfold checkRound. set (total := Z.of_nat (length accts)).
  assert (∀ l st failed n, consistent st → 0 ≤ failed → (failed ≠ 0 → is_Some (indexedStateErr st)) →
    let '(st', failed', _) := foldl (checkStep deployed total) (st, failed, n) l in
    consistent st' ∧ kept_err st st' ∧ 0 ≤ failed' ∧ (failed' ≠ 0 → is_Some (indexedStateErr st')) ∧
    (indexedStateErr st' = None ↔ indexedStateErr st = None ∧ Forall (λ x, checked deployed x → agrees x) l)) as Hloop.
  { clear. induction l as [|[[p i] o] l IH]; intros st failed n Hc Hf Hs; cbn [foldl checkStep].
    { split; [done|]. split; [done|]. split; [done|]. split; [done|]. split; [by split|by intros []]. }
    destruct (p && negb deployed) eqn:Hskip.
    { specialize (IH st failed n Hc Hf Hs). destruct (foldl _ _ l) as [[st' failed'] n'].
      rewrite Forall_cons. unfold checked at 1. cbn [fst]. rewrite Hskip. naive_solver. }
    destruct (checkAccount p i o st) as [st1 n1] eqn:HA.
    destruct (checkAccount_spec _ _ _ _ _ _ Hc HA) as (Hc1 & Hk1 & Hn1 & Hag & Hnag).
    set (st2 := if failed + n1 =? 0 then setValidationProgress total (n + 1) st1 else st1).
    assert (consistent st2 ∧ indexedStateErr st2 = indexedStateErr st1) as [Hc2 He2].
    { unfold st2. destruct (_ =? 0); [by apply progress_spec|done]. }
    specialize (IH st2 (failed + n1) (n + 1) Hc2 ltac:(lia)).
    assert (failed + n1 ≠ 0 → is_Some (indexedStateErr st2)) as Hs2.
    { rewrite He2. intros Hne. destruct (decide (agrees (p, i, o))) as [Ha|Ha]; [|by apply Hnag].
      destruct (Hag Ha) as [-> ->]. apply Hs. lia. }
    specialize (IH Hs2). destruct (foldl _ _ l) as [[st' failed'] n']. destruct IH as (H1 & H2 & H3 & H4 & H5).
    split; [done|]. split; [|split; [done|split; [done|]]].
    - intros Hso. rewrite H2; [|rewrite He2, (Hk1 Hso); done]. by rewrite He2, (Hk1 Hso).
    - rewrite H5, He2, Forall_cons. unfold checked at 2. cbn [fst]. rewrite Hskip. destruct (decide (agrees (p, i, o))) as [Ha|Ha].
      + destruct (Hag Ha) as [-> _]. tauto.
      + destruct (Hnag Ha) as [_ [e He]]. rewrite He. split; [by intros [? _]|tauto]. }
  specialize (Hloop accts st 0 0 Hc ltac:(lia) ltac:(done)).
  destruct (foldl _ _ accts) as [[st1 failed] n]. destruct Hloop as (H1 & H2 & H3 & H4 & H5).
  destruct ((0 <? total) && negb (0 <? failed)) eqn:Hb.
  - destruct (success_spec total st1 H1) as (S1 & S2 & S3). split; [done|].
    split; [intros Hs; rewrite S2; by apply H2|]. rewrite S2. split; [done|]. intros He _. by apply S3.
  - split; [done|]. split; [done|]. split; [done|]. intros He Hne. exfalso.
    assert (0 < total) by (destruct accts; [done|unfold total; cbn [length]; lia]).
    apply andb_false_iff in Hb as [Hb|Hb]; [lia|]. apply negb_false_iff, Z.ltb_lt in Hb.
    destruct (H4 ltac:(lia)) as [e He']. congruence.
Qed.
End ValidationProofs.

(** ** Theorems *)

Section main.
Context {DB : Type} `{BadgerLaws DB, !BadgerReliable DB, !Proto IndexedBlock, !Proto BlockMeta, !DataAccess}.
Implicit Types sv : Server DB.

Definition at_height (h : Z) : option PartialBlockIdentifier := Some (mkPartialBlockIdentifier None (Some h)).

Lemma getBlockData_height sv g hist i p e :
  repr (sv_Index sv) g hist → sv_genesis sv = Some g → hist !! i = Some p → hist !! S i = Some e →
  e_height e < 2 ^ 63 →
  getBlockData sv (at_height (e_height e)) =
  Ok (mkBlockData (e_block e) (e_hash e) (e_height e) (e_hash p) (e_height p)).
Proof.
  intros Hrep Hg Hp He Hlt. pose proof (repr_chain _ _ _ Hrep) as Hc.
  pose proof (chain_lookup_height _ _ _ _ Hc He) as Hh. pose proof (chain_base _ _ Hc) as Hb.
  unfold getBlockData, at_height. cbn [pb_Index pb_Hash]. rewrite Hg. cbn [deref mbind outcome_mbind outcome_bind].
  rewrite s64_id by lia. rewrite (proj2 (Z.ltb_ge _ _)), (proj2 (Z.eqb_neq _ _)), u64_id by lia.
  by rewrite (BlockByHeight_entry _ _ _ (S i) e p Hrep He) by (unfold parent_of; by rewrite Nat.sub_1_r).
Qed.

Lemma AccountBalance_height sv g hist e acct :
  repr (sv_Index sv) g hist → sv_genesis sv = Some g → e ∈ hist → bm_Height g < e_height e < 2 ^ 63 →
  length acct = 8%nat →
  AccountBalance sv (Some (hexAddress acct)) [] (at_height (e_height e)) =
  Ok (mkAccountBalanceResponse (mkBlockIdentifier (hex_encode (e_hash e)) (e_height e))
        [mkAmount flowCurrency (format_int (u64 (ledger_balance hist acct (e_height e))))] None).
Proof.
  intros Hrep Hg He Hlt Hl. pose proof (chain_base _ _ (repr_chain _ _ _ Hrep)) as Hb.
  unfold AccountBalance, at_height. rewrite (getAccount_hexAddress _ Hl). cbn -[BalanceByHeight].
  rewrite Hg. cbn -[BalanceByHeight]. rewrite (s64_id (bm_Height g)) by lia.
  rewrite (proj2 (Z.ltb_ge _ _)), (proj2 (Z.eqb_neq _ _)), u64_id by lia. unfold BalanceByHeight.
  rewrite (balanceByHeight_ledger _ _ _ _ _ Hrep Hl) by (unfold u64_range_ok; lia).
  cbn -[HashForHeight]. rewrite (HashForHeight_entry _ _ _ e Hrep He). cbn. unfold balanceResponse.
  cbn [bd_Hash bd_Height bd_Balance]. by rewrite s64_id by lia.
Qed.

(** The balances before and after a block, and the block as it is served. *)
Lemma block_reconciles sv g hist i p e acct :
  repr (sv_Index sv) g hist → sv_genesis sv = Some g → sv_Offline sv = false →
  hist !! i = Some p → hist !! S i = Some e → e_height e < 2 ^ 63 →
  Forall (λ t, Forall served_op (it_Operations t)) (ib_Transactions (e_block e)) →
  unique_ops (ib_Transactions (e_block e)) → length acct = 8%nat →
  ∃ b zs bal, Block sv (at_height (e_height e)) = Ok b ∧
    br_Block b = mkBlockIdentifier (hex_encode (e_hash e)) (e_height e) ∧
    br_Parent b = mkBlockIdentifier (hex_encode (e_hash p)) (e_height p) ∧
    served_values acct b = format_int <$> zs ∧
    AccountBalance sv (Some (hexAddress acct)) [] (at_height (e_height e)) = Ok bal ∧
    ab_Block bal = br_Block b ∧
    ab_Balances bal =
      [mkAmount flowCurrency (format_int (u64 (ledger_balance hist acct (e_height p) + sumZ id zs)))] ∧
    foldM (λ txns txn, t ← convertTransaction txn; Ok (txns ++ [t])) []
      (dedup (ib_Transactions (e_block e))) = Ok (br_Transactions b).
Proof.
  intros Hrep Hg Hoff Hp He Hlt Hops Hu Hl. pose proof (repr_chain _ _ _ Hrep) as Hc.
  pose proof (chain_lookup_height _ _ _ _ Hc He) as Hhe. pose proof (chain_lookup_height _ _ _ _ Hc Hp) as Hhp.
  pose proof (chain_base _ _ Hc) as Hb. destruct (dedup_spec (ib_Transactions (e_block e))) as [_ Hfrom Hsum].
  destruct (convertTransactions_values acct [] (dedup (ib_Transactions (e_block e)))) as (ts & zs & HT & Hv & Hs).
  { by intros ->. }
  { rewrite Forall_forall in *. intros t Ht. by apply Hops, Hfrom. }
  unfold Block, getBlock. rewrite Hoff, (getBlockData_height sv g hist i p e Hrep Hg Hp He Hlt).
  rewrite !Ok_bind. cbn [bl_Block ib_Transactions]. rewrite HT, Ok_bind.
  eexists _, zs, _. split; [done|]. cbn [br_Block br_Parent bl_Hash bl_Height bl_ParentHash bl_ParentHeight].
  rewrite !s64_id by lia. split; [done|]. split; [done|]. split; [exact Hv|].
  rewrite (AccountBalance_height sv g hist e acct Hrep Hg (list_elem_of_lookup_2 _ _ _ He)) by (done || lia).
  split; [done|]. split; [done|]. split; [|reflexivity]. cbn [ab_Balances]. rewrite Hs.
  unfold dedup. rewrite (Hsum acct Hu), (ledger_step g hist i p e acct Hc Hp He).
  destruct (e_block e) as [ts' txns]. by rewrite block_effect_txns.
Qed.


(** Without a genesis block, as on an offline node, a request for the balance at
    a height dereferences nil: unlike the block handlers, this one does not check
    the mode. *)
Theorem balance_without_genesis_panics sv acct h :
  sv_genesis sv = None → length acct = 8%nat →
  AccountBalance sv (Some (hexAddress acct)) [] (at_height h) = Panic.
Proof. intros Hg Hl. unfold AccountBalance. rewrite (getAccount_hexAddress _ Hl). cbn. by rewrite Hg. Qed.
End main.

(** Balance validation: a round over the accounts ends without an error
    exactly when none was recorded before and index and chain agree on every
    account it looks at, and it then reports success; an error that was recorded is kept; the
    reported status is a failure exactly when requests are refused. *)
Theorem validation_verdict deployed accts st :
  ValidationProofs.consistent st →
  let st' := Validation.checkRound deployed accts st in
  ValidationProofs.consistent st' ∧ ValidationProofs.kept_err st st' ∧
  (Validation.indexedStateErr st' = None ↔
     Validation.indexedStateErr st = None ∧ 
     Forall (λ x, ValidationProofs.checked deployed x → ValidationProofs.agrees x) accts) ∧
  (Validation.indexedStateErr st' = None → accts ≠ [] →
     Validation.v_status (Validation.status st') = "success").
Proof. apply ValidationProofs.checkRound_spec. Qed.

(** ** A concrete server *)
Module ApiDemo.
#[local] Existing Instances Demo.proto_meta Demo.proto_block gmap_badger.
#[local] Instance access : DataAccess := {|
  execute_GetProxyNonce _ _ := None;
  AccountAtHeight _ _ := None;
|}.

Definition sv : Server (gmap bytes bytes) :=
  mkServer (mkContracts "" "" "" "0000000000000000" []) "testnet" [] [] Demo.s true false ∅ (Some Demo.g)
    (mkScripts [] [] [] [] [] [] [] [] [] [] []).

Lemma served : Forall (λ t, Forall served_op (it_Operations t)) (ib_Transactions (e_block Demo.e)).
Proof.
  repeat (apply Forall_cons; split); [..|constructor|constructor];
    (split; [vm_compute; tauto|split; [by vm_compute|done]]).
Qed.


Lemma validation_verdict_witness :
  Validation.v_status (Validation.status
    (Validation.checkRound true [(false, 90, Validation.mkOnchainData 90 false 0)] Validation.init)) = "success".
Proof.
  apply (validation_verdict true [(false, 90, Validation.mkOnchainData 90 false 0)] Validation.init).
  - split; [done|by intros [? [=]]].
  - vm_compute. reflexivity.
  - done.
Defined.
End ApiDemo.
