(* ===== verification/Txn.v ===== *)
(** * Transactions and their hashes

    The Flow transaction message and the hashes [src/model/model.go] derives
    from it: the one a payer signs and the one that identifies the transaction. *)
From S2P Require Import Prelude Bytes Model.
Local Open Scope Z_scope.

(** ** [entities.Transaction]

    The generated message. Decoding never leaves a nil element in a repeated
    field, so the signatures are plain values; the proposal key may be nil. *)
Record TransactionSignature := mkTransactionSignature {
  sg_Address : bytes;
  sg_KeyId : Z;
  sg_Signature : bytes;
}.
Record ProposalKey := mkProposalKey {
  pk_Address : bytes;
  pk_KeyId : Z;
  pk_SequenceNumber : Z;
}.
Record FlowTransaction := mkFlowTransaction {
  ft_Script : bytes;
  ft_Arguments : list bytes;
  ft_ReferenceBlockId : bytes;
  ft_GasLimit : Z;
  ft_ProposalKey : option ProposalKey;
  ft_Payer : bytes;
  ft_Authorizers : list bytes;
  ft_PayloadSignatures : list TransactionSignature;
  ft_EnvelopeSignatures : list TransactionSignature;
}.

(** The same transaction with other envelope signatures. *)
Definition set_EnvelopeSignatures (sigs : list TransactionSignature) (t : FlowTransaction) : FlowTransaction :=
  mkFlowTransaction (ft_Script t) (ft_Arguments t) (ft_ReferenceBlockId t) (ft_GasLimit t) (ft_ProposalKey t)
    (ft_Payer t) (ft_Authorizers t) (ft_PayloadSignatures t) sigs.

(** ** The structs that are hashed *)

Record flowTransactionSignature := mkFlowTransactionSignature {
  SignerIndex : Z;
  KeyIndex : Z;
  Signature : bytes;
}.
Record flowTransactionPayload := mkFlowTransactionPayload {
  fp_Script : bytes;
  fp_Arguments : list bytes;
  fp_ReferenceBlockID : bytes;
  fp_GasLimit : Z;
  fp_ProposalKeyAddress : bytes;
  fp_ProposalKeyIndex : Z;
  fp_ProposalKeySequenceNumber : Z;
  fp_Payer : bytes;
  fp_Authorizers : list bytes;
}.
Record flowEnvelope := mkFlowEnvelope {
  fe_Payload : flowTransactionPayload;
  fe_PayloadSignatures : list flowTransactionSignature;
}.
Record flowTransaction := mkFlowTransactionRLP {
  fx_Payload : flowTransactionPayload;
  fx_PayloadSignatures : list flowTransactionSignature;
  fx_EnvelopeSignatures : list flowTransactionSignature;
}.

(** ** Parameters

    RLP encoding of a Go type (package [rlp]) and SHA3-256 (package [sha3]). The
    recursive length prefix encoding of one type determines the value. *)
Class RLP (A : Type) := {
  EncodeToBytes : A → option bytes;
  EncodeToBytes_inj : ∀ a a' b, EncodeToBytes a = Some b → EncodeToBytes a' = Some b → a = a';
}.
#[export] Hint Mode RLP ! : typeclass_instances.

(** The digest of the bytes written to a hasher. *)
Class Sha3 := { sha3_256 : bytes → bytes }.

(** Two different inputs with one digest. *)
Definition sha3_collision `{Sha3} : Prop := ∃ a b, a ≠ b ∧ sha3_256 a = sha3_256 b.

Definition transactionTag : bytes :=
  String.list_byte_of_string "FLOW-V0.0-transaction" ++ make_bytes 11.

Section hashes.
Context `{!RLP flowEnvelope, !RLP flowTransaction, !Sha3}.

Definition payload_of {E} (t : FlowTransaction) : outcome E flowTransactionPayload :=
  pk ← deref (ft_ProposalKey t);
  Ok (mkFlowTransactionPayload (ft_Script t) (ft_Arguments t) (ft_ReferenceBlockId t) (ft_GasLimit t)
        (pk_Address pk) (pk_KeyId pk) (pk_SequenceNumber pk) (ft_Payer t) (ft_Authorizers t)).

Definition signature_of (sig : TransactionSignature) : flowTransactionSignature :=
  mkFlowTransactionSignature 0 (sg_KeyId sig) (sg_Signature sig).

(** [deriveHash]; the error, which has no cases to tell apart, is [tt]. *)
Definition deriveHash (t : FlowTransaction) (tag : option bytes) : outcome unit bytes :=
  payload ← payload_of t;
  let data :=
    match tag with
    | None =>
        EncodeToBytes (mkFlowTransactionRLP payload (signature_of <$> ft_PayloadSignatures t)
                         (signature_of <$> ft_EnvelopeSignatures t))
    | Some _ => EncodeToBytes (mkFlowEnvelope payload (signature_of <$> ft_PayloadSignatures t))
    end in
  match data with
  | None => Err tt
  | Some data => Ok (sha3_256 (default [] tag ++ data))
  end.

Definition TransactionEnvelopeHash (t : FlowTransaction) : outcome unit bytes :=
  deriveHash t (Some transactionTag).

Definition TransactionHash (t : FlowTransaction) : outcome unit bytes := deriveHash t None.

(** ** Lemmas *)

(** What a payer's signature does not cover: the envelope signatures. *)
Lemma envelope_hash_unsigned sigs t :
  TransactionEnvelopeHash (set_EnvelopeSignatures sigs t) = TransactionEnvelopeHash t.
Proof. done. Qed.

Lemma payload_of_inj t t' p :
  payload_of (E:=unit) t = Ok p → payload_of (E:=unit) t' = Ok p →
  ft_PayloadSignatures t = ft_PayloadSignatures t' →
  t' = set_EnvelopeSignatures (ft_EnvelopeSignatures t') t.
Proof.
  destruct t as [? ? ? ? [[]|] ? ? ? ?], t' as [? ? ? ? [[]|] ? ? ? ?]; try done.
  unfold payload_of. simpl. intros [= <-] [= <- <- <- <- <- <- <- <- <-] ->. done.
Qed.

(** The hash a payer signs determines everything but the envelope signatures and
    the fields of payload signatures that are not hashed, unless SHA3 collides. *)
Lemma envelope_hash_binding t t' h :
  ft_PayloadSignatures t = [] → ft_PayloadSignatures t' = [] →
  TransactionEnvelopeHash t = Ok h → TransactionEnvelopeHash t' = Ok h →
  t' = set_EnvelopeSignatures (ft_EnvelopeSignatures t') t ∨ sha3_collision.
Proof.
  intros Hs Hs'. unfold TransactionEnvelopeHash, deriveHash. rewrite Hs, Hs'.
  intros (p & Hp & He)%bind_Ok (p' & Hp' & He')%bind_Ok. cbv zeta in *. cbn [fmap list_fmap] in *.
  destruct (EncodeToBytes (mkFlowEnvelope p [])) as [d|] eqn:Hd; [|done].
  destruct (EncodeToBytes (mkFlowEnvelope p' [])) as [d'|] eqn:Hd'; [|done].
  injection He as <-. injection He' as He'. destruct (decide (d = d')) as [<-|Hne].
  - left. pose proof (EncodeToBytes_inj _ _ _ Hd Hd') as [= <-].
    by eapply payload_of_inj; [done|done|rewrite Hs, Hs'].
  - right. exists (transactionTag ++ d), (transactionTag ++ d'). split; [|done].
    intros Heq. by apply Hne, (app_inv_head transactionTag).
Qed.
End hashes.

(** ** [ConstructOpts]

    The options of the construction calls, of [model.proto]. *)
Record ConstructOpts := mkConstructOpts {
  co_BlockHash : bytes;
  co_BlockHashFromRemote : bool;
  co_BlockHashRemoteServer : string;
  co_ExecutionEffort : Z;
  co_Fees : Z;
  co_KeyId : Z;
  co_InclusionEffort : Z;
  co_Inner : bool;
  co_NewAccounts : Z;
  co_Payer : bytes;
  co_ProxyTransferPayload : string;
  co_SequenceNumber : Z;
}.

(** ** Encodings for concrete runs *)

#[export] Instance option_ser {A} `{Ser A} : Ser (option A).
Proof.
  apply (ser_iso (λ o : option A, match o with None => [] | Some a => [a] end)
    (λ l, match l with a :: _ => Some a | [] => None end)). abstract (by intros []).
Defined.
#[export] Instance TransactionSignature_ser : Ser TransactionSignature.
Proof.
  apply (ser_iso (λ s, (sg_Address s, sg_KeyId s, sg_Signature s))
    (λ '(a, b, c), mkTransactionSignature a b c)). abstract (by intros []).
Defined.
#[export] Instance ProposalKey_ser : Ser ProposalKey.
Proof.
  apply (ser_iso (λ s, (pk_Address s, pk_KeyId s, pk_SequenceNumber s))
    (λ '(a, b, c), mkProposalKey a b c)). abstract (by intros []).
Defined.
#[export] Instance FlowTransaction_ser : Ser FlowTransaction.
Proof.
  apply (ser_iso (λ t, (ft_Script t, ft_Arguments t, ft_ReferenceBlockId t, ft_GasLimit t, ft_ProposalKey t,
      ft_Payer t, ft_Authorizers t, ft_PayloadSignatures t, ft_EnvelopeSignatures t))
    (λ '(a, b, c, d, e, f, g, h, i), mkFlowTransaction a b c d e f g h i)). abstract (by intros []).
Defined.
#[export] Instance ConstructOpts_ser : Ser ConstructOpts.
Proof.
  apply (ser_iso (λ o, (co_BlockHash o, co_BlockHashFromRemote o, co_BlockHashRemoteServer o,
      co_ExecutionEffort o, co_Fees o, co_KeyId o, co_InclusionEffort o, co_Inner o, co_NewAccounts o,
      co_Payer o, co_ProxyTransferPayload o, co_SequenceNumber o))
    (λ '(a, b, c, d, e, f, g, h, i, j, k, l), mkConstructOpts a b c d e f g h i j k l)). abstract (by intros []).
Defined.
#[export] Instance flowTransactionSignature_ser : Ser flowTransactionSignature.
Proof.
  apply (ser_iso (λ s, (SignerIndex s, KeyIndex s, Signature s))
    (λ '(a, b, c), mkFlowTransactionSignature a b c)). abstract (by intros []).
Defined.
#[export] Instance flowTransactionPayload_ser : Ser flowTransactionPayload.
Proof.
  apply (ser_iso (λ p, (fp_Script p, fp_Arguments p, fp_ReferenceBlockID p, fp_GasLimit p,
      fp_ProposalKeyAddress p, fp_ProposalKeyIndex p, fp_ProposalKeySequenceNumber p, fp_Payer p, fp_Authorizers p))
    (λ '(a, b, c, d, e, f, g, h, i), mkFlowTransactionPayload a b c d e f g h i)). abstract (by intros []).
Defined.
#[export] Instance flowEnvelope_ser : Ser flowEnvelope.
Proof.
  apply (ser_iso (λ e, (fe_Payload e, fe_PayloadSignatures e)) (λ '(a, b), mkFlowEnvelope a b)).
  abstract (by intros []).
Defined.
#[export] Instance flowTransaction_ser : Ser flowTransaction.
Proof.
  apply (ser_iso (λ e, (fx_Payload e, fx_PayloadSignatures e, fx_EnvelopeSignatures e))
    (λ '(a, b, c), mkFlowTransactionRLP a b c)). abstract (by intros []).
Defined.

(** A self-delimiting encoding determines the value. *)
Definition ser_rlp (A : Type) `{Ser A} : RLP A.
Proof.
  refine {| EncodeToBytes a := Some (ser a) |}.
  abstract (intros a a' b [= <-] [= Hb]; pose proof (de_ser a []) as Ha; pose proof (de_ser a' []) as Ha';
    rewrite <-Hb, Ha' in Ha; by injection Ha).
Defined.
