(* ===== verification/Indexer.v ===== *)
(** * Turning events into operations

    Model of the transaction loop of [processBlock] in [src/state/process.go]
    with the helpers of [src/state/state.go] and [src/state/convert.go] it uses:
    the events of a transaction are decoded, accumulated per account, and turned
    into the operations the index stores. *)
From S2P Require Import Prelude Bytes Model Txn Crypto.
Local Open Scope Z_scope.

(** ** Cadence values

    The Cadence library is a parameter: the dynamic values events carry, the
    two decoders, and the type assertions and field lookups of the source. *)
Class Cadence := {
  cadence_Value : Type;
  cadence_Event : Type;
  HasMsgPrefix : bytes → bool;
  ccf_Decode : bytes → option cadence_Value;
  json_Decode : bytes → option cadence_Value;
  (** type assertions [v.(cadence.T)] *)
  as_Event : cadence_Value → option cadence_Event;
  as_Address : cadence_Value → option bytes;
  as_UFix64 : cadence_Value → option Z;
  as_String : cadence_Value → option string;
  as_Optional : cadence_Value → option (option cadence_Value);
  (** [cadence.Event{}] *)
  zero_Event : cadence_Event;
  (** [FieldsMappedByName] ([None] when it panics) and [SearchFieldByName]
      ([None] for a nil value) *)
  FieldsMappedByName : cadence_Event → option (gmap string cadence_Value);
  SearchFieldByName : cadence_Event → string → option cadence_Value;
  (** the identifiers of package [stdlib] *)
  AccountEventAddressParameter : string;
  AccountEventPublicKeyIndexParameter : string;
}.

(** [cadence.Address] is an eight-byte array and [cadence.UFix64] a [uint64]. *)
Class CadenceLaws `{Cadence} := {
  as_Address_length : ∀ v a, as_Address v = Some a → length a = 8%nat;
  as_UFix64_range : ∀ v n, as_UFix64 v = Some n → 0 ≤ n < 2 ^ 64;
}.

(** ** Access API messages, as far as the loop reads them *)

Record Event := mkEvent {
  ev_Type : string;
  ev_TransactionId : bytes;
  ev_TransactionIndex : Z;
  ev_EventIndex : Z;
  ev_Payload : bytes;
}.
Record TransactionResult := mkTransactionResult {
  tr_StatusCode : Z;
  tr_ErrorMessage : string;
  tr_Events : list Event;
  tr_BlockId : bytes;
  tr_TransactionId : bytes;
  tr_CollectionId : bytes;
}.

Record collectionData := mkCollectionData {
  cd_system : bool;
  cd_txns : list FlowTransaction;
  cd_txnResults : list TransactionResult;
}.
Record proxyTransfer := mkProxyTransfer { pt_amount : Z; pt_receiver : bytes; pt_sender : bytes }.

(** The fields of the [Indexer] the loop reads. *)
Record Indexer := mkIndexer {
  ix_accts : gmap bytes bool;
  ix_originators : gmap bytes bool;
  ix_feeAddrs : gmap bytes bool;
  typProxyCreated : string;
  typProxyDeposited : string;
  typProxyTransferred : string;
  typTokensDeposited : string;
  typTokensWithdrawn : string;
}.

Definition isProxy (ix : Indexer) (addr : bytes) (newAccounts : gmap bytes bool) : bool :=
  match ix_accts ix !! addr with
  | Some isProxy => isProxy
  | None => map_at false newAccounts addr
  end.

Definition isTracked (ix : Indexer) (addr : bytes) (newAccounts : gmap bytes bool) : bool :=
  match ix_accts ix !! addr with
  | Some _ => true
  | None =>
      match newAccounts !! addr with
      | Some _ => true
      | None => map_at false (ix_originators ix) addr
      end
  end.

(** How an attempt at a block ends without a result: [skipCache = true;
    continue outer], or a plain [continue outer], or a return because the
    context is done. [OutOfFuel] bounds the loops that have no bound of their
    own. *)
Inductive stop := RetrySkipCache | Retry | Cancelled | OutOfFuel.

Section events.
Context `{Cadence, Secp256k1}.

Definition decodePayload (payload : bytes) : option cadence_Value :=
  if HasMsgPrefix payload then ccf_Decode payload else json_Decode payload.

(** [decodeEvent]; [None] is an error. When the payload decodes to something
    that is not an event, the function logs and returns the zero event with the
    nil error of the decoding. *)
Definition decodeEvent (evt : Event) : option cadence_Event :=
  match decodePayload (ev_Payload evt) with
  | None => None
  | Some val =>
      match as_Event val with
      | None => Some zero_Event
      | Some event => Some event
      end
  end.

Definition retry {A} : outcome stop A := Err RetrySkipCache.

(** [if err != nil { skipCache = true; continue outer }], and the same for a
    type assertion that fails. *)
Definition or_retry {A} (o : option A) : outcome stop A :=
  match o with Some a => Ok a | None => retry end.

Definition decode (evt : Event) : outcome stop cadence_Event := or_retry (decodeEvent evt).
Definition fields_len (event : cadence_Event) : outcome stop Z :=
  (λ m, Z.of_nat (size m)) <$> deref (FieldsMappedByName event).
Definition expect_fields (n m : Z) : outcome stop unit := if n =? m then Ok tt else retry.

(** [cadence.SearchFieldByName(event, name).(T)] with the [ok] form. *)
Definition field {A} (as_T : cadence_Value → option A) (event : cadence_Event) (name : string)
    : outcome stop A :=
  or_retry (SearchFieldByName event name ≫= as_T).

(** [cadence.SearchFieldByName(event, name).(cadence.Optional).Value]: the form
    without [ok] panics when the field is not an optional. *)
Definition optional_field (event : cadence_Event) (name : string) : outcome stop (option cadence_Value) :=
  deref (SearchFieldByName event name ≫= as_Optional).

(** ** Accumulators of one transaction *)

Record acc := mkAcc {
  accountKeys : gmap bytes bytes;
  addrs : list bytes;
  newAccounts : gmap bytes bool;
  deposits : gmap bytes Z;
  fees : Z;
  proxyDeposits : gmap bytes Z;
  proxyTransfers : list proxyTransfer;
  withdrawals : gmap bytes Z;
  txnEvents : list TransferEvent;
}.

(** [m[k] += amount] on [map[string]uint64]. *)
Definition add_at (m : gmap bytes Z) (k : bytes) (amount : Z) : gmap bytes Z :=
  <[k := u64 (map_at 0 m k + amount)]> m.

Definition add_event (st : acc) (e : TransferEvent) : acc :=
  mkAcc (accountKeys st) (addrs st) (newAccounts st) (deposits st) (fees st) (proxyDeposits st)
    (proxyTransfers st) (withdrawals st) (txnEvents st ++ [e]).

Definition acc_init (newAccounts : gmap bytes bool) : acc :=
  mkAcc ∅ [] newAccounts ∅ 0 ∅ [] ∅ [].

(** ** The first pass over the events *)

Definition onAccountCreated (ix : Indexer) (payer : bytes) (st : acc) (evt : Event) : outcome stop acc :=
  event ← decode evt;
  n ← fields_len event;
  _ ← expect_fields n 1;
  addr ← field as_Address event AccountEventAddressParameter;
  if map_at false (ix_originators ix) addr || isTracked ix payer (newAccounts st) then
    Ok (mkAcc (<[addr := []]> (accountKeys st)) (addrs st ++ [addr]) (<[addr := false]> (newAccounts st))
          (deposits st) (fees st) (proxyDeposits st) (proxyTransfers st) (withdrawals st) (txnEvents st))
  else Ok st.

Definition onProxyCreated (ix : Indexer) (payer : bytes) (st : acc) (evt : Event) : outcome stop acc :=
  event ← decode evt;
  n ← fields_len event;
  if negb (isTracked ix payer (newAccounts st)) then Ok st
  else if bool_decide (accountKeys st = ∅) then retry
  else
    _ ← expect_fields n 2;
    addr ← field as_Address event "account";
    match accountKeys st !! addr with
    | None => retry
    | Some _ =>
        publicKey ← field as_String event AccountEventPublicKeyIndexParameter;
        uncompressed ← or_retry (hex_decode publicKey);
        match ConvertFlowPublicKey uncompressed with
        | Ok compressed =>
            Ok (mkAcc (<[addr := compressed]> (accountKeys st)) (addrs st)
                  (<[addr := true]> (newAccounts st)) (deposits st) (fees st) (proxyDeposits st)
                  (proxyTransfers st) (withdrawals st) (txnEvents st))
        | Err _ => retry
        | Fatal => Fatal
        | Panic => Panic
        end
    end.

Definition onProxyDeposited (ix : Indexer) (st : acc) (evt : Event) : outcome stop acc :=
  event ← decode evt;
  n ← fields_len event;
  _ ← expect_fields n 2;
  addr ← field as_Address event "account";
  amount ← field as_UFix64 event "amount";
  let st := add_event st {| te_Amount := amount; te_Receiver := addr; te_Sender := [];
                            te_Type := PROXY_DEPOSIT |} in
  if isProxy ix addr (newAccounts st) then
    Ok (mkAcc (accountKeys st) (addrs st) (newAccounts st) (deposits st) (fees st)
          (add_at (proxyDeposits st) addr amount) (proxyTransfers st) (withdrawals st) (txnEvents st))
  else Ok st.

Definition onProxyTransferred (ix : Indexer) (st : acc) (evt : Event) : outcome stop acc :=
  event ← decode evt;
  n ← fields_len event;
  _ ← expect_fields n 3;
  receiver ← field as_Address event "to";
  fromValue ← optional_field event "from";
  sender ← (match fromValue with
            | None => Ok (make_bytes 8)
            | Some v => or_retry (as_Address v)
            end);
  amount ← field as_UFix64 event "amount";
  let st := add_event st {| te_Amount := amount; te_Receiver := receiver; te_Sender := sender;
                            te_Type := PROXY_WITHDRAWAL |} in
  if isProxy ix sender (newAccounts st) then
    let transfer :=
      if isTracked ix receiver (newAccounts st)
      then mkProxyTransfer amount receiver sender
      else mkProxyTransfer amount [] sender in
    Ok (mkAcc (accountKeys st) (addrs st) (newAccounts st) (deposits st) (fees st) (proxyDeposits st)
          (proxyTransfers st ++ [transfer]) (withdrawals st) (txnEvents st))
  else Ok st.

Definition evtloop (ix : Indexer) (payer : bytes) (st : acc) (evt : Event) : outcome stop acc :=
  if bool_decide (ev_Type evt = "flow.AccountCreated") then onAccountCreated ix payer st evt
  else if bool_decide (ev_Type evt = typProxyCreated ix) then onProxyCreated ix payer st evt
  else if bool_decide (ev_Type evt = typProxyDeposited ix) then onProxyDeposited ix st evt
  else if bool_decide (ev_Type evt = typProxyTransferred ix) then onProxyTransferred ix st evt
  else Ok st.

(** ** The second pass *)

Definition onTokensDeposited (ix : Indexer) (st : acc) (evt : Event) : outcome stop acc :=
  event ← decode evt;
  n ← fields_len event;
  _ ← expect_fields n 2;
  amount ← field as_UFix64 event "amount";
  toValue ← optional_field event "to";
  match toValue with
  | None =>
      Ok (add_event st {| te_Amount := amount; te_Receiver := []; te_Sender := []; te_Type := DEPOSIT |})
  | Some v =>
      receiver ← or_retry (as_Address v);
      let st := add_event st {| te_Amount := amount; te_Receiver := receiver; te_Sender := [];
                                te_Type := DEPOSIT |} in
      if map_at false (ix_feeAddrs ix) receiver then
        Ok (mkAcc (accountKeys st) (addrs st) (newAccounts st) (deposits st) (u64 (fees st + amount))
              (proxyDeposits st) (proxyTransfers st) (withdrawals st) (txnEvents st))
      else if isTracked ix receiver (newAccounts st) && negb (isProxy ix receiver (newAccounts st)) then
        Ok (mkAcc (accountKeys st) (addrs st) (newAccounts st) (add_at (deposits st) receiver amount)
              (fees st) (proxyDeposits st) (proxyTransfers st) (withdrawals st) (txnEvents st))
      else Ok st
  end.

Definition onTokensWithdrawn (ix : Indexer) (st : acc) (evt : Event) : outcome stop acc :=
  event ← decode evt;
  n ← fields_len event;
  _ ← expect_fields n 2;
  amount ← field as_UFix64 event "amount";
  fromValue ← optional_field event "from";
  match fromValue with
  | None =>
      Ok (add_event st {| te_Amount := amount; te_Receiver := []; te_Sender := []; te_Type := WITHDRAWAL |})
  | Some v =>
      sender ← or_retry (as_Address v);
      let st := add_event st {| te_Amount := amount; te_Receiver := []; te_Sender := sender;
                                te_Type := WITHDRAWAL |} in
      if isTracked ix sender (newAccounts st) && negb (isProxy ix sender (newAccounts st)) then
        Ok (mkAcc (accountKeys st) (addrs st) (newAccounts st) (deposits st) (fees st)
              (proxyDeposits st) (proxyTransfers st) (add_at (withdrawals st) sender amount) (txnEvents st))
      else Ok st
  end.

Definition evtloop2 (ix : Indexer) (st : acc) (evt : Event) : outcome stop acc :=
  if bool_decide (ev_Type evt = typTokensDeposited ix) then onTokensDeposited ix st evt
  else if bool_decide (ev_Type evt = typTokensWithdrawn ix) then onTokensWithdrawn ix st evt
  else Ok st.
End events.

(** ** Operations *)

Section operations.
Context `{!MapRange bytes}.

Definition createOps (addrs : list bytes) (accountKeys : gmap bytes bytes) : list Operation :=
  (λ addr, {| op_Account := addr; op_Amount := 0; op_ProxyPublicKey := map_at [] accountKeys addr;
              op_Receiver := []; op_Type := CREATE_ACCOUNT |}) <$> addrs.

(** The fee operation, taken out of the payer's withdrawals. *)
Definition feeOps (ix : Indexer) (payer : bytes) (newAccounts : gmap bytes bool)
    (withdrawals : gmap bytes Z) (fees : Z) : outcome stop (gmap bytes Z * list Operation) :=
  if isTracked ix payer newAccounts && (0 <? fees) then
    if map_at 0 withdrawals payer <? fees then retry
    else
      Ok (<[payer := u64 (map_at 0 withdrawals payer - fees)]> withdrawals,
          [{| op_Account := payer; op_Amount := fees; op_ProxyPublicKey := []; op_Receiver := [];
              op_Type := FEE |}])
  else Ok (withdrawals, []).

Record proxyState := mkProxyState {
  ps_deposits : gmap bytes Z;
  ps_proxyDeposits : gmap bytes Z;
  ps_ops : list Operation;
}.

Definition proxyOp (t : proxyTransfer) : Operation :=
  {| op_Account := pt_sender t; op_Amount := pt_amount t; op_ProxyPublicKey := [];
     op_Receiver := pt_receiver t; op_Type := PROXY_TRANSFER |}.

(** The body of the loop over [proxyTransfers]. *)
Definition proxyOps_step (ix : Indexer) (newAccounts : gmap bytes bool) (st : proxyState)
    (t : proxyTransfer) : outcome stop proxyState :=
  if pt_amount t =? 0 then Ok st
  else if nonempty (pt_receiver t) then
    if isProxy ix (pt_receiver t) newAccounts then
      let have := map_at 0 (ps_proxyDeposits st) (pt_receiver t) in
      if have <? pt_amount t then retry
      else Ok (mkProxyState (ps_deposits st)
                 (<[pt_receiver t := u64 (have - pt_amount t)]> (ps_proxyDeposits st))
                 (ps_ops st ++ [proxyOp t]))
    else
      let have := map_at 0 (ps_deposits st) (pt_receiver t) in
      if have <? pt_amount t then retry
      else Ok (mkProxyState (<[pt_receiver t := u64 (have - pt_amount t)]> (ps_deposits st))
                 (ps_proxyDeposits st) (ps_ops st ++ [proxyOp t]))
  else Ok (mkProxyState (ps_deposits st) (ps_proxyDeposits st) (ps_ops st ++ [proxyOp t])).

(** [for acct, amount := range m { if amount > 0 { last = acct; rem[acct] = amount } }]. *)
Definition remaining (m : gmap bytes Z) (st : bytes * gmap bytes Z) : bytes * gmap bytes Z :=
  foldl (λ st x, if 0 <? x.2 then (x.1, <[x.1 := x.2]> st.2) else st) st (map_range m).

Definition transferOp (sender receiver : bytes) (amount : Z) : Operation :=
  {| op_Account := sender; op_Amount := amount; op_ProxyPublicKey := []; op_Receiver := receiver;
     op_Type := TRANSFER |}.

(** The remaining deposits and withdrawals, matched when there is one of each
    and the amounts agree. *)
Definition remainingOps (deposits proxyDeposits withdrawals : gmap bytes Z) : list Operation :=
  let '(receiver, remDeposits) := remaining proxyDeposits (remaining deposits ([], ∅)) in
  let '(sender, remWithdrawals) := remaining withdrawals ([], ∅) in
  if bool_decide (size remDeposits = 1%nat) && bool_decide (size remWithdrawals = 1%nat) &&
     (map_at 0 remDeposits receiver =? map_at 0 remWithdrawals sender)
  then [transferOp sender receiver (map_at 0 remDeposits receiver)]
  else ((λ x, transferOp [] x.1 x.2) <$> map_range remDeposits) ++
       ((λ x, transferOp x.1 [] x.2) <$> map_range remWithdrawals).

(** All operations of a transaction. *)
Definition txnOperations (ix : Indexer) (payer : bytes) (st : acc) : outcome stop (list Operation) :=
  let create := createOps (addrs st) (accountKeys st) in
  r ← feeOps ix payer (newAccounts st) (withdrawals st) (fees st);
  let '(withdrawals, fee) := (r : gmap bytes Z * list Operation) in
  ps ← foldM (proxyOps_step ix (newAccounts st)) (mkProxyState (deposits st) (proxyDeposits st) [])
         (proxyTransfers st);
  Ok (create ++ fee ++ ps_ops ps ++
      remainingOps (ps_deposits ps) (ps_proxyDeposits ps) withdrawals).
End operations.

(** ** Transactions and blocks *)

Section transactions.
Context `{Cadence, Secp256k1, !MapRange bytes}.

Definition processEvents (ix : Indexer) (payer : bytes) (newAccounts : gmap bytes bool)
    (evts : list Event) : outcome stop acc :=
  st ← foldM (evtloop ix payer) (acc_init newAccounts) evts;
  foldM (evtloop2 ix) st evts.

Definition processTransaction (ix : Indexer) (payer : bytes) (newAccounts : gmap bytes bool)
    (r : TransactionResult) : outcome stop (IndexedTransaction * gmap bytes bool) :=
  st ← processEvents ix payer newAccounts (tr_Events r);
  ops ← txnOperations ix payer st;
  let failed := negb (tr_StatusCode r =? 0) in
  Ok ({| it_ErrorMessage := if failed then tr_ErrorMessage r else EmptyString;
         it_Events := txnEvents st; it_Failed := failed; it_Hash := tr_TransactionId r;
         it_Operations := ops |},
      Indexer.newAccounts st).

(** The state of the loop over the results of all collections: the transactions
    so far, the accounts created in the block, and how often the context was
    polled; [ctxDone n] is what the n-th poll finds. *)
Record blockState := mkBlockState {
  bs_txns : list IndexedTransaction;
  bs_newAccounts : gmap bytes bool;
  bs_polls : nat;
}.

Definition processResult (ix : Indexer) (ctxDone : nat → bool) (skip : bool) (hash : bytes)
    (txns : list FlowTransaction) (st : blockState) (ir : nat * TransactionResult) : outcome stop blockState :=
  let '(idx, r) := ir in
  if ctxDone (bs_polls st) then Err Cancelled
  else
    let polls := S (bs_polls st) in
    txn ← deref (txns !! idx);
    let payer := ft_Payer txn in
    if negb (bool_decide (tr_BlockId r = hash)) then
      if skip then Ok (mkBlockState (bs_txns st) (bs_newAccounts st) polls) else retry
    else
      t ← processTransaction ix payer (bs_newAccounts st) r;
      Ok (mkBlockState (bs_txns st ++ [t.1]) t.2 polls).

Definition processCollection (ix : Indexer) (ctxDone : nat → bool) (skip : bool) (hash : bytes)
    (st : blockState) (col : collectionData) : outcome stop blockState :=
  foldM (processResult ix ctxDone skip hash (cd_txns col)) st
    (imap (λ idx r, (idx, r)) (cd_txnResults col)).

Definition processCollections (ix : Indexer) (ctxDone : nat → bool) (skip : bool) (hash : bytes)
    (cols : list collectionData) : outcome stop blockState :=
  foldM (processCollection ix ctxDone skip hash) (mkBlockState [] ∅ 0) cols.
End transactions.
