(* ===== verification/IndexerProofs.v ===== *)
(** * Events and operations agree

    The operations built for a transaction change the balance of every account
    the indexer already tracks by exactly what the transfer events of the
    transaction say. *)
From S2P Require Import Prelude Bytes Model Txn Crypto IndexDB IndexSpec Indexer.
Local Open Scope Z_scope.

(** ** Sums over events and operations *)

(** What an event of type [t] paid to, or from, an account. *)
Definition received (t : TransferType) (a : bytes) (e : TransferEvent) : Z :=
  if bool_decide (te_Type e = t) && bool_decide (te_Receiver e = a) then te_Amount e else 0.
Definition sent (t : TransferType) (a : bytes) (e : TransferEvent) : Z :=
  if bool_decide (te_Type e = t) && bool_decide (te_Sender e = a) then te_Amount e else 0.

(** The balance change the events of a transaction make to an account: the vault
    of a proxy account moves by the proxy events, that of any other account by
    the token events. *)
Definition events_effect (proxy : bool) (a : bytes) (evts : list TransferEvent) : Z :=
  if proxy then sumZ (received PROXY_DEPOSIT a) evts - sumZ (sent PROXY_WITHDRAWAL a) evts
  else sumZ (received DEPOSIT a) evts - sumZ (sent WITHDRAWAL a) evts.

Definition sent_by (a : bytes) (t : proxyTransfer) : Z :=
  if bool_decide (pt_sender t = a) then pt_amount t else 0.

Lemma received_bound t a e : 0 ≤ te_Amount e → 0 ≤ received t a e ≤ te_Amount e.
Proof. intros. unfold received. destruct (_ && _); lia. Qed.
Lemma sent_bound t a e : 0 ≤ te_Amount e → 0 ≤ sent t a e ≤ te_Amount e.
Proof. intros. unfold sent. destruct (_ && _); lia. Qed.

Lemma sumZ_le {A} (f g : A → Z) l : (∀ x, x ∈ l → f x ≤ g x) → sumZ f l ≤ sumZ g l.
Proof.
  induction l as [|x l IH]; intros Hfg; [done|]. rewrite !sumZ_cons.
  assert (f x ≤ g x) by (apply Hfg; left). assert (sumZ f l ≤ sumZ g l); [|lia].
  apply IH. intros y Hy. apply Hfg. by right.
Qed.

Lemma sumZ_snoc {A} (f : A → Z) l x : sumZ f (l ++ [x]) = sumZ f l + f x.
Proof. rewrite sumZ_app, sumZ_cons, sumZ_nil. lia. Qed.

Lemma if_same {A} (b : bool) (x : A) : (if b then x else x) = x.
Proof. by destruct b. Qed.

(** ** The accumulators follow the events *)

Lemma map_at_add m k a amount :
  map_at 0 (add_at m k amount) a =
  if bool_decide (k = a) then u64 (map_at 0 m a + amount) else map_at 0 m a.
Proof.
  unfold add_at, map_at. rewrite lookup_insert.
  destruct (decide (k = a)) as [->|Hne]; [by rewrite bool_decide_true|by rewrite bool_decide_false].
Qed.

Section events.
Context `{CadenceLaws, Secp256k1}.
Context (ix : Indexer) (a : bytes) (p : bool).
Context (Ha : ix_accts ix !! a = Some p) (Hfee : map_at false (ix_feeAddrs ix) a = false).

Lemma isProxy_a na : isProxy ix a na = p.
Proof using Ha. unfold isProxy. by rewrite Ha. Qed.
Lemma isTracked_a na : isTracked ix a na = true.
Proof using Ha. unfold isTracked. by rewrite Ha. Qed.

(** What the accumulators say about the account, given the events recorded. *)
Record follows (st : acc) : Prop := {
  f_deposits : map_at 0 (deposits st) a =
    if p then 0 else u64 (sumZ (received DEPOSIT a) (txnEvents st));
  f_withdrawals : map_at 0 (withdrawals st) a =
    if p then 0 else u64 (sumZ (sent WITHDRAWAL a) (txnEvents st));
  f_proxyDeposits : map_at 0 (proxyDeposits st) a =
    if p then u64 (sumZ (received PROXY_DEPOSIT a) (txnEvents st)) else 0;
  f_proxyTransfers : sumZ (sent_by a) (proxyTransfers st) =
    if p then sumZ (sent PROXY_WITHDRAWAL a) (txnEvents st) else 0;
  f_amounts : Forall (λ e, 0 ≤ te_Amount e < 2 ^ 64) (txnEvents st);
  f_transfers : Forall (λ t, 0 ≤ pt_amount t < 2 ^ 64) (proxyTransfers st);
}.

Lemma follows_init na : follows (acc_init na).
Proof using All. by split; destruct p. Qed.

Lemma or_retry_Ok {A} (o : option A) x : or_retry o = Ok x → o = Some x.
Proof using All. destruct o; [by intros [= ->]|done]. Qed.

Lemma field_UFix64 event name n : field as_UFix64 event name = Ok n → 0 ≤ n < 2 ^ 64.
Proof using All.
  unfold field. intros Hn%or_retry_Ok. destruct (SearchFieldByName event name); [|done].
  by eapply as_UFix64_range.
Qed.

(** One recorded event: the accumulators of the account move by its amount. *)
Lemma follows_step st st' e :
  follows st → txnEvents st' = txnEvents st ++ [e] → 0 ≤ te_Amount e < 2 ^ 64 →
  map_at 0 (deposits st') a =
    u64 (map_at 0 (deposits st) a + if p then 0 else received DEPOSIT a e) →
  map_at 0 (withdrawals st') a =
    u64 (map_at 0 (withdrawals st) a + if p then 0 else sent WITHDRAWAL a e) →
  map_at 0 (proxyDeposits st') a =
    u64 (map_at 0 (proxyDeposits st) a + if p then received PROXY_DEPOSIT a e else 0) →
  sumZ (sent_by a) (proxyTransfers st') =
    sumZ (sent_by a) (proxyTransfers st) + (if p then sent PROXY_WITHDRAWAL a e else 0) →
  Forall (λ t, 0 ≤ pt_amount t < 2 ^ 64) (proxyTransfers st') →
  follows st'.
Proof using All.
  intros [Hd Hw Hpd Hpt Ham Htr] He Hn Hd' Hw' Hpd' Hpt' Htr'.
  split; rewrite ?He, ?sumZ_snoc; [..|done].
  - rewrite Hd', Hd. destruct p; [done|]. apply u64_add_l.
  - rewrite Hw', Hw. destruct p; [done|]. apply u64_add_l.
  - rewrite Hpd', Hpd. destruct p; [|done]. apply u64_add_l.
  - rewrite Hpt', Hpt. destruct p; lia.
  - apply Forall_app. split; [done|]. by constructor.
Qed.

Lemma follows_u64 st :
  follows st →
  u64 (map_at 0 (deposits st) a) = map_at 0 (deposits st) a ∧
  u64 (map_at 0 (withdrawals st) a) = map_at 0 (withdrawals st) a ∧
  u64 (map_at 0 (proxyDeposits st) a) = map_at 0 (proxyDeposits st) a.
Proof using All.
  intros [Hd Hw Hpd _ _ _]. rewrite Hd, Hw, Hpd. by destruct p; rewrite ?u64_u64.
Qed.

(** Applies [follows_step]; the accumulators an event of another type does not
    touch are settled at once. *)
Ltac follow Hf :=
  eapply (follows_step _ _ _ Hf); simpl; [done|done|..];
  destruct (follows_u64 _ Hf) as (?Hud & ?Huw & ?Hupd);
  unfold received, sent; simpl; rewrite ?if_same, ?Z.add_0_r; try done; try apply (f_transfers _ Hf).

Lemma AccountCreated_follows payer st evt st' :
  follows st → onAccountCreated ix payer st evt = Ok st' → follows st'.
Proof using All.
  intros [] HO. unfold onAccountCreated in HO. inv_ok. destruct (_ || _); inv_ok; done.
Qed.

Lemma ProxyCreated_follows payer st evt st' :
  follows st → onProxyCreated ix payer st evt = Ok st' → follows st'.
Proof using All.
  intros Hf HO. unfold onProxyCreated in HO. inv_ok. destruct (negb _); inv_ok; [done|].
  case_bool_decide; inv_ok; [done|]. destruct (accountKeys st !! _); inv_ok; [|done].
  destruct (ConvertFlowPublicKey _); inv_ok; try done. by destruct Hf.
Qed.

Lemma ProxyDeposited_follows st evt st' :
  follows st → onProxyDeposited ix st evt = Ok st' → follows st'.
Proof using All.
  intros Hf HO. unfold onProxyDeposited in HO. inv_ok.
  match goal with H : field as_UFix64 _ _ = Ok _ |- _ => apply field_UFix64 in H as Hn end.
  simpl in HO. match type of HO with context [isProxy ix ?r _] => rename r into addr end.
  destruct (isProxy ix addr (newAccounts st)) eqn:Hp; inv_ok.
  - follow Hf. rewrite map_at_add. destruct (decide (addr = a)) as [->|Hne].
    + rewrite isProxy_a in Hp. rewrite Hp, !bool_decide_true by done. done.
    + rewrite !bool_decide_false by done. by rewrite if_same, Z.add_0_r.
  - follow Hf. destruct (decide (addr = a)) as [->|Hne].
    + rewrite isProxy_a in Hp. by rewrite Hp, Z.add_0_r.
    + rewrite !bool_decide_false by done. by rewrite if_same, Z.add_0_r.
Qed.

Lemma ProxyTransferred_follows st evt st' :
  follows st → onProxyTransferred ix st evt = Ok st' → follows st'.
Proof using All.
  intros Hf HO. unfold onProxyTransferred in HO. inv_ok.
  match goal with H : field as_UFix64 _ _ = Ok ?n |- _ =>
    apply field_UFix64 in H as Hn; rename n into amount end.
  simpl in HO. match type of HO with context [isProxy ix ?r _] => rename r into sender end.
  match type of HO with context [isTracked ix ?r _] => rename r into receiver end.
  destruct (isProxy ix sender (newAccounts st)) eqn:Hp; inv_ok.
  - set (t := if isTracked _ _ _ then _ else _).
    assert (pt_sender t = sender ∧ pt_amount t = amount) as [Hs Ham]
      by (unfold t; by destruct (isTracked _ _ _)).
    clearbody t. follow Hf.
    + rewrite sumZ_snoc. f_equal. unfold sent_by. rewrite Hs, Ham.
      destruct (decide (sender = a)) as [->|Hne].
      * rewrite isProxy_a in Hp. by rewrite Hp.
      * rewrite !bool_decide_false by done. by rewrite if_same.
    + apply Forall_app. split; [apply (f_transfers _ Hf)|]. constructor; [by rewrite Ham|done].
  - follow Hf. destruct (decide (sender = a)) as [->|Hne].
    + rewrite isProxy_a in Hp. by rewrite Hp, Z.add_0_r.
    + rewrite !bool_decide_false by done. by rewrite if_same, Z.add_0_r.
Qed.

Lemma TokensDeposited_follows st evt st' :
  follows st → a ≠ [] → onTokensDeposited ix st evt = Ok st' → follows st'.
Proof using All.
  intros Hf Hnil HO. unfold onTokensDeposited in HO. inv_ok.
  match goal with H : field as_UFix64 _ _ = Ok ?n |- _ =>
    apply field_UFix64 in H as Hn; rename n into amount end.
  match type of HO with match ?o with _ => _ end = _ => destruct o as [v|]; inv_ok end.
  2: { follow Hf. by rewrite bool_decide_false, if_same, Z.add_0_r by done. }
  simpl in HO. match type of HO with context [isTracked ix ?r _] => rename r into receiver end.
  destruct (map_at false (ix_feeAddrs ix) receiver) eqn:Hfr; inv_ok.
  { assert (receiver ≠ a) by congruence.
    follow Hf. by rewrite bool_decide_false, if_same, Z.add_0_r by done. }
  destruct (isTracked ix receiver (newAccounts st) && _) eqn:Ht; inv_ok.
  - follow Hf. rewrite map_at_add. destruct (decide (receiver = a)) as [->|Hne].
    + rewrite isProxy_a, isTracked_a in Ht. simpl in Ht. apply negb_true_iff in Ht.
      by rewrite Ht, !bool_decide_true.
    + rewrite !bool_decide_false by done. by rewrite if_same, Z.add_0_r.
  - follow Hf. destruct (decide (receiver = a)) as [->|Hne].
    + rewrite isProxy_a, isTracked_a in Ht. simpl in Ht. apply negb_false_iff in Ht.
      by rewrite Ht, Z.add_0_r.
    + rewrite !bool_decide_false by done. by rewrite if_same, Z.add_0_r.
Qed.

Lemma TokensWithdrawn_follows st evt st' :
  follows st → a ≠ [] → onTokensWithdrawn ix st evt = Ok st' → follows st'.
Proof using All.
  intros Hf Hnil HO. unfold onTokensWithdrawn in HO. inv_ok.
  match goal with H : field as_UFix64 _ _ = Ok ?n |- _ =>
    apply field_UFix64 in H as Hn; rename n into amount end.
  match type of HO with match ?o with _ => _ end = _ => destruct o as [v|]; inv_ok end.
  2: { follow Hf. by rewrite bool_decide_false, if_same, Z.add_0_r by done. }
  simpl in HO. match type of HO with context [isTracked ix ?r _] => rename r into sender end.
  destruct (isTracked ix sender (newAccounts st) && _) eqn:Ht; inv_ok.
  - follow Hf. rewrite map_at_add. destruct (decide (sender = a)) as [->|Hne].
    + rewrite isProxy_a, isTracked_a in Ht. simpl in Ht. apply negb_true_iff in Ht.
      by rewrite Ht, !bool_decide_true.
    + rewrite !bool_decide_false by done. by rewrite if_same, Z.add_0_r.
  - follow Hf. destruct (decide (sender = a)) as [->|Hne].
    + rewrite isProxy_a, isTracked_a in Ht. simpl in Ht. apply negb_false_iff in Ht.
      by rewrite Ht, Z.add_0_r.
    + rewrite !bool_decide_false by done. by rewrite if_same, Z.add_0_r.
Qed.

Lemma processEvents_follows payer na evts st :
  a ≠ [] → processEvents ix payer na evts = Ok st → follows st.
Proof using All.
  intros Hnil HP. unfold processEvents in HP. inv_ok.
  eapply (foldM_inv (evtloop2 ix) follows); [| |exact HP].
  - intros b x b' _ Hb. unfold evtloop2. repeat case_bool_decide.
    + by apply TokensDeposited_follows.
    + by apply TokensWithdrawn_follows.
    + by intros [= <-].
  - eapply (foldM_inv (evtloop ix payer) follows); [| |eassumption]; [|apply follows_init].
    intros b x b' _ Hb. unfold evtloop. repeat case_bool_decide.
    + by apply AccountCreated_follows.
    + by apply ProxyCreated_follows.
    + by apply ProxyDeposited_follows.
    + by apply ProxyTransferred_follows.
    + by intros [= <-].
Qed.
End events.

(** ** The operations pay out the accumulators *)

Section operations.
Context `{!MapRange bytes}.
Context (a : bytes) (Hnil : a ≠ []).

Lemma effect_moves op :
  moves_tokens (op_Type op) = true →
  op_effect a op = (if bool_decide (op_Receiver op = a) then op_Amount op else 0)
                   - (if bool_decide (op_Account op = a) then op_Amount op else 0).
Proof using Hnil. intros Hm. unfold op_effect. by rewrite Hm, bool_decide_true. Qed.

Lemma createOps_effect addrs keys : ops_effect a (createOps addrs keys) = 0.
Proof using All. apply sumZ_zero. intros op (x & -> & _)%list_elem_of_fmap. done. Qed.

Lemma feeOps_effect ix payer na w f w' ops :
  0 ≤ map_at 0 w payer < 2 ^ 64 → 0 ≤ f →
  feeOps ix payer na w f = Ok (w', ops) →
  ops_effect a ops - map_at 0 w' a = - map_at 0 w a.
Proof using All.
  intros Hw Hf HO. unfold feeOps in HO. destruct (isTracked ix payer na && _); [|by simplify_eq].
  destruct (Z.ltb_spec (map_at 0 w payer) f); [done|]. injection HO as <- <-.
  unfold ops_effect. rewrite sumZ_cons, sumZ_nil, effect_moves by done. simpl.
  rewrite (bool_decide_false ([] = a)) by congruence. unfold map_at at 1. rewrite lookup_insert.
  destruct (decide (payer = a)) as [->|Hne].
  - rewrite bool_decide_true by done. simpl. rewrite u64_id by lia. lia.
  - rewrite bool_decide_false by done. fold (map_at 0 w a). lia.
Qed.

(** The balance of the loop over proxy transfers: what is left to deposit and
    the operations so far make up the deposits less the transfers sent. *)
Lemma proxyOps_effect ix na d pd ts ps :
  0 ≤ map_at 0 d a < 2 ^ 64 → 0 ≤ map_at 0 pd a < 2 ^ 64 →
  Forall (λ t, 0 ≤ pt_amount t < 2 ^ 64) ts →
  foldM (proxyOps_step ix na) (mkProxyState d pd []) ts = Ok ps →
  ops_effect a (ps_ops ps) + map_at 0 (ps_deposits ps) a + map_at 0 (ps_proxyDeposits ps) a =
    map_at 0 d a + map_at 0 pd a - sumZ (sent_by a) ts ∧
  0 ≤ map_at 0 (ps_deposits ps) a ≤ map_at 0 d a ∧
  0 ≤ map_at 0 (ps_proxyDeposits ps) a ≤ map_at 0 pd a.
Proof using All.
  intros Hd Hpd Hts. apply (foldM_inv_prefix _ (λ pre ps,
    ops_effect a (ps_ops ps) + map_at 0 (ps_deposits ps) a + map_at 0 (ps_proxyDeposits ps) a =
      map_at 0 d a + map_at 0 pd a - sumZ (sent_by a) pre ∧
    0 ≤ map_at 0 (ps_deposits ps) a ≤ map_at 0 d a ∧
    0 ≤ map_at 0 (ps_proxyDeposits ps) a ≤ map_at 0 pd a)).
  2: { cbn [ps_ops ps_deposits ps_proxyDeposits]. rewrite sumZ_nil. unfold ops_effect.
       rewrite sumZ_nil. lia. }
  intros pre t post st st' -> (Heq & Hb1 & Hb2) HO.
  apply Forall_app in Hts as [_ [Ht _]%Forall_cons]. rewrite sumZ_snoc.
  assert (∀ m, map_at 0 (<[pt_receiver t := u64 (map_at 0 m (pt_receiver t) - pt_amount t)]> m) a =
    if bool_decide (pt_receiver t = a) then u64 (map_at 0 m a - pt_amount t) else map_at 0 m a) as Hins.
  { intros m. unfold map_at at 1. rewrite lookup_insert. case_decide as Hk.
    - rewrite bool_decide_true by done. by rewrite Hk.
    - by rewrite bool_decide_false. }
  assert (ops_effect a (ps_ops st ++ [proxyOp t]) = ops_effect a (ps_ops st) +
    (if bool_decide (pt_receiver t = a) then pt_amount t else 0) - sent_by a t) as Hop.
  { unfold ops_effect. rewrite sumZ_snoc, effect_moves by done. unfold sent_by. simpl. lia. }
  unfold proxyOps_step in HO. destruct (Z.eqb_spec (pt_amount t) 0) as [Hz|Hz].
  { injection HO as <-. assert (sent_by a t = 0) by (unfold sent_by; rewrite Hz; apply if_same). lia. }
  destruct (nonempty (pt_receiver t)) eqn:Hr.
  2: { injection HO as <-. apply nonempty_false in Hr. simpl. rewrite Hop, Hr.
       rewrite bool_decide_false by congruence. lia. }
  destruct (isProxy ix (pt_receiver t) na); cbv zeta in HO;
    match type of HO with (if ?x <? _ then _ else _) = _ => destruct (Z.ltb_spec x (pt_amount t)) end;
    try done; injection HO as <-; simpl; rewrite Hop, Hins; case_bool_decide as Hk; try lia;
    rewrite Hk in *; rewrite u64_id by lia; lia.
Qed.

(** What a loop that keeps the positive amounts leaves. *)
Definition keep_positive (st : bytes * gmap bytes Z) (x : bytes * Z) : bytes * gmap bytes Z :=
  if 0 <? x.2 then (x.1, <[x.1 := x.2]> st.2) else st.

Lemma keep_positive_lookup l st k :
  NoDup l.*1 →
  (foldl keep_positive st l).2 !! k =
  match (list_to_map l : gmap bytes Z) !! k with
  | Some v => if 0 <? v then Some v else st.2 !! k
  | None => st.2 !! k
  end.
Proof using All.
  revert st. induction l as [|[k' v] l IH]; intros st Hnd; [done|].
  apply NoDup_cons in Hnd as [Hni Hnd]. cbn [foldl]. rewrite IH by done. cbn [list_to_map foldr].
  rewrite lookup_insert. simpl. case_decide as Hk.
  - subst k'. rewrite (not_elem_of_list_to_map_1 l) by done. unfold keep_positive. simpl.
    destruct (0 <? v); [|done]. simpl. by rewrite lookup_insert_eq.
  - enough ((keep_positive st (k', v)).2 !! k = st.2 !! k) as -> by done.
    unfold keep_positive. simpl. destruct (0 <? v); [|done]. simpl. by rewrite lookup_insert_ne.
Qed.

Lemma keep_positive_last l st :
  (st.2 = ∅ ∨ is_Some (st.2 !! st.1)) →
  (foldl keep_positive st l).2 = ∅ ∨ is_Some ((foldl keep_positive st l).2 !! (foldl keep_positive st l).1).
Proof using All.
  revert st. induction l as [|x l IH]; intros st Hst; [done|]. cbn [foldl]. apply IH.
  unfold keep_positive. destruct (0 <? x.2); [|done]. right. simpl. rewrite lookup_insert_eq. eauto.
Qed.

Lemma list_to_map_range (m : gmap bytes Z) : list_to_map (map_range m) = m.
Proof using All.
  apply map_eq. intros k. apply option_eq. intros v.
  rewrite <-elem_of_list_to_map by apply map_range_NoDup. apply map_range_elem.
Qed.

Lemma remaining_at m st k :
  0 ≤ map_at 0 m k →
  map_at 0 (remaining m st).2 k = if 0 <? map_at 0 m k then map_at 0 m k else map_at 0 st.2 k.
Proof using All.
  intros Hm. unfold remaining, map_at in *.
  change (foldl _ st (map_range m)) with (foldl keep_positive st (map_range m)).
  rewrite keep_positive_lookup by apply map_range_NoDup. rewrite list_to_map_range.
  destruct (m !! k) as [v|]; [|done]. simpl. destruct (0 <? v) eqn:Hv; simpl; by rewrite ?Hv.
Qed.

Lemma remaining_last m st :
  st.2 = ∅ ∨ is_Some (st.2 !! st.1) →
  (remaining m st).2 = ∅ ∨ is_Some ((remaining m st).2 !! (remaining m st).1).
Proof using All. apply (keep_positive_last (map_range m)). Qed.

(** Single-sided operations pay out every entry once. *)
Lemma payout_sum (m : gmap bytes Z) (f : bytes * Z → Operation) (c : Z) :
  (∀ x, op_effect a (f x) = if bool_decide (x.1 = a) then c * x.2 else 0) →
  ops_effect a (f <$> map_range m) = c * map_at 0 m a.
Proof using All.
  intros Hf. unfold ops_effect. rewrite sumZ_map.
  rewrite <-(list_to_map_range m) at 2. pose proof (map_range_NoDup m) as Hnd.
  induction (map_range m) as [|[k v] l IH]; [by rewrite Z.mul_0_r|].
  apply NoDup_cons in Hnd as [Hni Hnd]. rewrite sumZ_cons, Hf, IH by done. cbn [list_to_map foldr].
  unfold map_at at 2. rewrite lookup_insert. simpl. case_decide as Hk.
  - subst k. rewrite bool_decide_true by done. unfold map_at.
    rewrite (not_elem_of_list_to_map_1 l) by done. simpl. lia.
  - rewrite bool_decide_false by done. fold (map_at 0 (list_to_map l) a). lia.
Qed.

Lemma single_at (m : gmap bytes Z) k :
  size m = 1%nat → (m = ∅ ∨ is_Some (m !! k)) →
  map_at 0 m a = if bool_decide (k = a) then map_at 0 m k else 0.
Proof using All.
  intros Hs [->|[v Hv]]; [by rewrite map_size_empty in Hs|]. case_bool_decide as Hk; [by rewrite Hk|].
  assert (delete k m = ∅) as Hd.
  { apply map_size_empty_iff. rewrite map_size_delete_Some by eauto. lia. }
  unfold map_at. rewrite <-(lookup_delete_ne m k a) by done. by rewrite Hd, lookup_empty.
Qed.

Lemma remainingOps_effect d pd w :
  0 ≤ map_at 0 d a → 0 ≤ map_at 0 pd a → 0 ≤ map_at 0 w a →
  map_at 0 d a = 0 ∨ map_at 0 pd a = 0 →
  ops_effect a (remainingOps d pd w) = map_at 0 d a + map_at 0 pd a - map_at 0 w a.
Proof using All.
  intros Hd Hpd Hw Hdis. unfold remainingOps.
  pose proof (remaining_at pd (remaining d ([], ∅)) a Hpd) as HD. rewrite (remaining_at d) in HD by done.
  pose proof (remaining_at w ([], ∅) a Hw) as HW. simpl in HD, HW.
  pose proof (remaining_last pd _ (remaining_last d ([], ∅) (or_introl eq_refl))) as HlD.
  pose proof (remaining_last w ([], ∅) (or_introl eq_refl)) as HlW.
  destruct (remaining pd _) as [receiver remD]. destruct (remaining w _) as [sender remW].
  simpl in HD, HW, HlD, HlW.
  assert (map_at 0 remD a = map_at 0 d a + map_at 0 pd a) as HD'.
  { rewrite HD. change (map_at 0 ∅ a) with 0.
    destruct (Z.ltb_spec 0 (map_at 0 pd a)), (Z.ltb_spec 0 (map_at 0 d a)); lia. }
  assert (map_at 0 remW a = map_at 0 w a) as HW'.
  { rewrite HW. change (map_at 0 ∅ a) with 0. destruct (Z.ltb_spec 0 (map_at 0 w a)); lia. }
  destruct (_ && _) eqn:Hm.
  - apply andb_true_iff in Hm as [[HsD%bool_decide_eq_true HsW%bool_decide_eq_true]%andb_true_iff Heq%Z.eqb_eq].
    unfold ops_effect. rewrite sumZ_cons, sumZ_nil, effect_moves by done. simpl.
    rewrite (single_at remD receiver HsD HlD) in HD'. rewrite (single_at remW sender HsW HlW) in HW'.
    rewrite Heq in *. repeat case_bool_decide; lia.
  - unfold ops_effect. rewrite sumZ_app. fold (ops_effect a).
    change (sumZ (op_effect a)) with (ops_effect a).
    rewrite (payout_sum remD _ 1), (payout_sum remW _ (-1)); [lia|..].
    + intros x. rewrite effect_moves by done. simpl. rewrite (bool_decide_false ([] = a)) by congruence.
      destruct (decide (x.1 = a)); [rewrite !bool_decide_true by done|rewrite !bool_decide_false by done]; lia.
    + intros x. rewrite effect_moves by done. simpl. rewrite (bool_decide_false ([] = a)) by congruence.
      destruct (decide (x.1 = a)); [rewrite !bool_decide_true by done|rewrite !bool_decide_false by done]; lia.
Qed.
End operations.

(** ** Transactions *)

Section transactions.
Context `{CadenceLaws, Secp256k1, !MapRange bytes}.

(** The amounts of a transaction fit in a [uint64] together. *)
Definition no_overflow (evts : list TransferEvent) : Prop := sumZ te_Amount evts < 2 ^ 64.

(** Fees and withdrawals belong to the second pass, and stay in range. *)
Definition in_range (m : gmap bytes Z) : Prop := ∀ k, 0 ≤ map_at 0 m k < 2 ^ 64.

Lemma in_range_add m k amount : in_range m → in_range (add_at m k amount).
Proof.
  intros Hm k'. rewrite map_at_add. case_bool_decide; [apply u64_range|apply Hm].
Qed.

Lemma evtloop_frame ix payer st evt st' :
  evtloop ix payer st evt = Ok st' → fees st' = fees st ∧ withdrawals st' = withdrawals st.
Proof.
  unfold evtloop. repeat case_bool_decide; intros HO; [..|by injection HO as <-].
  - unfold onAccountCreated in HO. inv_ok. destruct (_ || _); by inv_ok.
  - unfold onProxyCreated in HO. inv_ok. destruct (negb _); inv_ok; [done|].
    case_bool_decide; inv_ok; [done|]. destruct (accountKeys st !! _); inv_ok; [|done].
    destruct (ConvertFlowPublicKey _); by inv_ok.
  - unfold onProxyDeposited in HO. inv_ok. simpl in HO. destruct (isProxy _ _ _); by inv_ok.
  - unfold onProxyTransferred in HO. inv_ok. simpl in HO. destruct (isProxy _ _ _); by inv_ok.
Qed.

Lemma evtloop2_range ix st evt st' :
  0 ≤ fees st ∧ in_range (withdrawals st) → evtloop2 ix st evt = Ok st' →
  0 ≤ fees st' ∧ in_range (withdrawals st').
Proof.
  intros [Hf Hw]. unfold evtloop2. repeat case_bool_decide; [| |by intros [= <-]]; intros HO.
  - unfold onTokensDeposited in HO. inv_ok.
    match type of HO with match ?o with _ => _ end = _ => destruct o; inv_ok; [|done] end.
    simpl in HO. destruct (map_at _ _ _); inv_ok; simpl; [split; [apply u64_range|done]|].
    destruct (_ && _); by inv_ok.
  - unfold onTokensWithdrawn in HO. inv_ok.
    match type of HO with match ?o with _ => _ end = _ => destruct o; inv_ok; [|done] end.
    simpl in HO. destruct (_ && _); inv_ok; simpl; auto using in_range_add.
Qed.

Lemma processEvents_range ix payer na evts st :
  processEvents ix payer na evts = Ok st → 0 ≤ fees st ∧ in_range (withdrawals st).
Proof.
  unfold processEvents. intros HP. inv_ok.
  eapply (foldM_inv (evtloop2 ix) (λ st, 0 ≤ fees st ∧ in_range (withdrawals st)));
    [intros b x b' _; apply evtloop2_range| |exact HP].
  eapply (foldM_inv (evtloop ix payer) (λ st, 0 ≤ fees st ∧ in_range (withdrawals st)));
    [|..|eassumption]; [|by split; [|intros k]].
  intros b x b' _ Hb [-> ->]%evtloop_frame. done.
Qed.

Lemma txnOperations_effect ix payer st ops a :
  a ≠ [] → 0 ≤ fees st → in_range (withdrawals st) →
  0 ≤ map_at 0 (deposits st) a < 2 ^ 64 → 0 ≤ map_at 0 (proxyDeposits st) a < 2 ^ 64 →
  map_at 0 (deposits st) a = 0 ∨ map_at 0 (proxyDeposits st) a = 0 →
  Forall (λ t, 0 ≤ pt_amount t < 2 ^ 64) (proxyTransfers st) →
  txnOperations ix payer st = Ok ops →
  ops_effect a ops = map_at 0 (deposits st) a + map_at 0 (proxyDeposits st) a
    - map_at 0 (withdrawals st) a - sumZ (sent_by a) (proxyTransfers st).
Proof.
  intros Hnil Hf Hw Hd Hpd Hdis Hts HO. unfold txnOperations in HO. inv_ok. destruct r as [w fee].
  inv_ok. match goal with H : feeOps _ _ _ _ _ = Ok _ |- _ => rename H into Hfee end.
  pose proof (feeOps_effect a Hnil _ _ _ _ _ _ _ (Hw payer) Hf Hfee) as Hfe.
  match goal with H : foldM _ _ _ = Ok ?r |- _ => rename H into Hps; rename r into ps end.
  destruct (proxyOps_effect a Hnil _ _ _ _ _ _ Hd Hpd Hts Hps) as (Heq & Hb1 & Hb2).
  assert (0 ≤ map_at 0 w a) as Hwa.
  { unfold feeOps in Hfee. destruct (_ && _); [|by simplify_eq; apply Hw].
    destruct (_ <? _); [done|]. injection Hfee as <- _. unfold map_at. rewrite lookup_insert.
    case_decide; [apply u64_range|apply Hw]. }
  unfold ops_effect. rewrite !sumZ_app. change (sumZ (op_effect a)) with (ops_effect a).
  rewrite (createOps_effect a Hnil). 
  rewrite (remainingOps_effect a Hnil) by lia. lia.
Qed.

(** The operations of a transaction account for its events. *)
Lemma processTransaction_effect ix payer na r t na' a p :
  ix_accts ix !! a = Some p → map_at false (ix_feeAddrs ix) a = false → a ≠ [] →
  processTransaction ix payer na r = Ok (t, na') → no_overflow (it_Events t) →
  ops_effect a (it_Operations t) = events_effect p a (it_Events t).
Proof.
  intros Ha Hfee Hnil HP Hov. unfold processTransaction in HP. inv_ok. simpl in *.
  match goal with H : processEvents _ _ _ _ = Ok ?s |- _ => rename H into HE; rename s into st end.
  pose proof (processEvents_follows ix a p Ha Hfee payer na _ st Hnil HE) as [Hd Hw Hpd Hpt Ham Htr].
  destruct (processEvents_range _ _ _ _ _ HE) as [Hf Hrw].
  assert (∀ f, (∀ e, 0 ≤ te_Amount e → 0 ≤ f e ≤ te_Amount e) →
    u64 (sumZ f (txnEvents st)) = sumZ f (txnEvents st)) as Hu.
  { intros f Hfb. rewrite Forall_forall in Ham. apply u64_id. split.
    - apply sumZ_nonneg. intros e [? _]%Ham. by apply Hfb.
    - eapply Z.le_lt_trans; [|exact Hov]. apply sumZ_le. intros e [? _]%Ham. by apply Hfb. }
  rewrite Hu in Hd by apply received_bound. rewrite Hu in Hw by apply sent_bound.
  rewrite Hu in Hpd by apply received_bound.
  assert (∀ t a0, 0 ≤ sumZ (received t a0) (txnEvents st) < 2 ^ 64) as Hrange
    by (intros t a0; rewrite <-Hu by apply received_bound; apply u64_range).
  pose proof (Hrange DEPOSIT a). pose proof (Hrange PROXY_DEPOSIT a).
  match goal with H : txnOperations _ _ _ = Ok _ |- _ => rename H into HT end.
  rewrite (txnOperations_effect _ _ _ _ a Hnil Hf Hrw ltac:(rewrite Hd; destruct p; lia)
    ltac:(rewrite Hpd; destruct p; lia) ltac:(rewrite Hd, Hpd; destruct p; lia) Htr HT).
  rewrite Hd, Hw, Hpd, Hpt. unfold events_effect. destruct p; lia.
Qed.
End transactions.
