(* ===== verification/IndexerWf.v ===== *)
(** * Blocks the indexer builds are well formed

    Every operation built from events has a type the index knows and eight-byte
    addresses, which is what the index asks of a block. *)
From S2P Require Import Prelude Bytes Model Txn Crypto IndexDB IndexSpec Indexer.
Local Open Scope Z_scope.

Definition addr (a : bytes) : Prop := length a = 8%nat.
Definition addr_keys {A} (m : gmap bytes A) : Prop := ∀ k v, m !! k = Some v → addr k.

Lemma addr_keys_insert {A} (m : gmap bytes A) k v : addr_keys m → addr k → addr_keys (<[k := v]> m).
Proof. intros Hm Hk k' v'. rewrite lookup_insert. case_decide; [by subst|apply Hm]. Qed.

Lemma addr_keys_empty {A} : addr_keys (∅ : gmap bytes A).
Proof. intros k v. by rewrite lookup_empty. Qed.

Create HintDb addr.
#[export] Hint Resolve addr_keys_insert addr_keys_empty : addr.

(** The accounts the indexer starts from. *)
Definition ix_wf (ix : Indexer) : Prop :=
  addr_keys (ix_accts ix) ∧ ∀ a, map_at false (ix_originators ix) a = true → addr a.

Record acc_wf (st : acc) : Prop := {
  w_addrs : Forall addr (addrs st);
  w_newAccounts : addr_keys (newAccounts st);
  w_deposits : addr_keys (deposits st);
  w_proxyDeposits : addr_keys (proxyDeposits st);
  w_withdrawals : addr_keys (withdrawals st);
  w_transfers : Forall (λ t, addr (pt_sender t) ∧ (pt_receiver t = [] ∨ addr (pt_receiver t)))
                  (proxyTransfers st);
}.

Section wf.
Context `{CadenceLaws, Secp256k1, !MapRange bytes}.
Context (ix : Indexer) (Hix : ix_wf ix).

Lemma tracked_addr a na : addr_keys na → isTracked ix a na = true → addr a.
Proof using All.
  intros Hna. unfold isTracked. destruct Hix as [Ha Ho].
  destruct (ix_accts ix !! a) eqn:?; [eauto|]. destruct (na !! a) eqn:?; [eauto|]. apply Ho.
Qed.

Lemma field_Address event name a : field as_Address event name = Ok a → addr a.
Proof using All.
  unfold field. destruct (SearchFieldByName event name) as [v|]; [|done]. simpl.
  destruct (as_Address v) eqn:Hv; [|done]. intros [= <-]. by eapply as_Address_length.
Qed.

Lemma or_retry_Address v a : or_retry (as_Address v) = Ok a → addr a.
Proof using All. destruct (as_Address v) eqn:Hv; [|done]. intros [= <-]. by eapply as_Address_length. Qed.

Hint Resolve field_Address or_retry_Address : addr.

Lemma add_at_keys m k amount : addr_keys m → addr k → addr_keys (add_at m k amount).
Proof using All. unfold add_at. auto with addr. Qed.

Hint Resolve add_at_keys : addr.

(** Both passes keep the accumulators well formed. *)
Lemma evtloop_wf payer st evt st' : acc_wf st → evtloop ix payer st evt = Ok st' → acc_wf st'.
Proof using All.
  intros [] HO. unfold evtloop in HO. repeat case_bool_decide; [..|by injection HO as <-].
  - unfold onAccountCreated in HO. inv_ok. destruct (_ || _); inv_ok; split; simpl; eauto with addr.
    apply Forall_app. eauto with addr.
  - unfold onProxyCreated in HO. inv_ok. destruct (negb _); inv_ok; [done|].
    case_bool_decide; inv_ok; [done|]. destruct (accountKeys st !! _); inv_ok; [|done].
    destruct (ConvertFlowPublicKey _); inv_ok; try done. split; simpl; eauto with addr.
  - unfold onProxyDeposited in HO. inv_ok. simpl in HO. destruct (isProxy _ _ _); inv_ok;
      split; simpl; eauto with addr.
  - unfold onProxyTransferred in HO. inv_ok. simpl in HO.
    match type of HO with context [isProxy ix ?s _] => assert (addr s) as Hs end.
    { match goal with H : optional_field _ _ = Ok ?o |- _ => destruct o end; inv_ok;
        [eauto with addr|reflexivity]. }
    destruct (isProxy _ _ _); inv_ok; split; simpl; eauto.
    apply Forall_app. split; [done|]. constructor; [|done]. destruct (isTracked _ _ _); simpl;
      eauto with addr.
Qed.

Lemma evtloop2_wf st evt st' : acc_wf st → evtloop2 ix st evt = Ok st' → acc_wf st'.
Proof using All.
  intros [] HO. unfold evtloop2 in HO. repeat case_bool_decide; [..|by injection HO as <-].
  - unfold onTokensDeposited in HO. inv_ok.
    match type of HO with match ?o with _ => _ end = _ => destruct o; inv_ok; [|done] end.
    simpl in HO. destruct (map_at _ _ _); inv_ok; [done|].
    destruct (_ && _); inv_ok; split; simpl; eauto with addr.
  - unfold onTokensWithdrawn in HO. inv_ok.
    match type of HO with match ?o with _ => _ end = _ => destruct o; inv_ok; [|done] end.
    simpl in HO. destruct (_ && _); inv_ok; split; simpl; eauto with addr.
Qed.

Lemma processEvents_wf payer na evts st :
  addr_keys na → processEvents ix payer na evts = Ok st → acc_wf st.
Proof using All.
  intros Hna HP. unfold processEvents in HP. inv_ok.
  eapply (foldM_inv (evtloop2 ix) acc_wf); [intros b x b' _; apply evtloop2_wf| |exact HP].
  eapply (foldM_inv (evtloop ix payer) acc_wf); [intros b x b' _; apply evtloop_wf| |eassumption].
  split; simpl; auto with addr.
Qed.

Lemma remaining_keys m st :
  addr_keys m → addr_keys st.2 → (st.1 = [] ∨ addr st.1) →
  addr_keys (remaining m st).2 ∧ ((remaining m st).1 = [] ∨ addr (remaining m st).1).
Proof using All.
  intros Hm. unfold remaining.
  assert (∀ x, x ∈ map_range m → addr x.1) as Hl by (intros [k v] Hx%map_range_elem; eauto).
  revert st Hl. induction (map_range m) as [|x l IH]; intros st Hl Hst Hf; [done|]. cbn [foldl].
  apply IH; [set_solver|..]; destruct (0 <? x.2); simpl; auto.
  - apply addr_keys_insert; [done|]. apply Hl. left.
  - right. apply Hl. left.
Qed.

Lemma remainingOps_wf d pd w :
  addr_keys d → addr_keys pd → addr_keys w → Forall wf_op (remainingOps d pd w).
Proof using All.
  intros Hd Hpd Hw. unfold remainingOps.
  destruct (remaining_keys d ([], ∅)) as [Hd1 Hd2]; [done|auto with addr|by left|].
  destruct (remaining_keys pd _ Hpd Hd1 Hd2) as [HD HR].
  destruct (remaining_keys w ([], ∅)) as [HW HS]; [done|auto with addr|by left|].
  destruct (remaining pd _) as [receiver remD]. destruct (remaining w _) as [sender remW]. simpl in *.
  destruct (_ && _).
  - constructor; [|done]. unfold wf_op. simpl. done.
  - apply Forall_app. split; apply Forall_fmap, Forall_forall; intros [k v] Hx%map_range_elem;
      unfold wf_op; simpl; [apply HD in Hx|apply HW in Hx]; auto.
Qed.

Lemma txnOperations_wf payer st ops :
  acc_wf st → txnOperations ix payer st = Ok ops → Forall wf_op ops.
Proof using All.
  intros [] HO. unfold txnOperations in HO. inv_ok. destruct r as [w fee]. inv_ok.
  match goal with H : feeOps _ _ _ _ _ = Ok _ |- _ => rename H into Hfee end.
  match goal with H : foldM _ _ _ = Ok ?r |- _ => rename H into Hps; rename r into ps end.
  assert (Forall wf_op fee ∧ addr_keys w) as [Hfw Hww].
  { unfold feeOps in Hfee. destruct (isTracked ix payer (newAccounts st)) eqn:Ht;
      simpl in Hfee; [|by simplify_eq]. apply tracked_addr in Ht; [|done].
    destruct (0 <? fees st); [|by simplify_eq]. destruct (_ <? _); [done|]. simplify_eq.
    split; [|auto with addr]. constructor; [|done]. unfold wf_op; simpl; auto. }
  assert (Forall wf_op (ps_ops ps) ∧ addr_keys (ps_deposits ps) ∧ addr_keys (ps_proxyDeposits ps))
    as (Ho & Hpd & Hpp).
  { eapply (foldM_inv (proxyOps_step ix (newAccounts st)) (λ ps,
      Forall wf_op (ps_ops ps) ∧ addr_keys (ps_deposits ps) ∧ addr_keys (ps_proxyDeposits ps)));
      [|..|exact Hps]; [|done].
    intros b t b' Ht (Hb1 & Hb2 & Hb3) Hb'. rewrite Forall_forall in w_transfers0.
    destruct (w_transfers0 t Ht) as [Hs Hr]. unfold proxyOps_step in Hb'.
    assert (Forall wf_op (ps_ops b ++ [proxyOp t])) as Hop.
    { apply Forall_app. split; [done|]. constructor; [|done]. unfold wf_op; simpl; auto. }
    destruct (_ =? 0); [by simplify_eq|]. destruct (nonempty _) eqn:Hne; [|by simplify_eq].
    assert (addr (pt_receiver t)) by (destruct Hr as [Hr|Hr]; [by rewrite Hr in Hne|done]).
    destruct (isProxy _ _ _); destruct (_ <? _); simplify_eq; simpl; auto with addr. }
  rewrite !Forall_app. repeat split; [|done|done|by apply remainingOps_wf].
  apply Forall_fmap. eapply Forall_impl; [exact w_addrs0|]. by intros a Ha.
Qed.

(** The state of the loop over the collections. *)
Definition block_wf (bs : blockState) : Prop :=
  addr_keys (bs_newAccounts bs) ∧ Forall (λ t, Forall wf_op (it_Operations t)) (bs_txns bs).

Lemma processCollections_wf ctxDone skip hash cols bs :
  processCollections ix ctxDone skip hash cols = Ok bs → block_wf bs.
Proof using All.
  intros HP. eapply (foldM_inv _ block_wf); [|..|exact HP]; [|by split; [apply addr_keys_empty|]].
  intros b col b' _ Hb HC. eapply (foldM_inv _ block_wf); [|exact Hb|exact HC].
  clear -Hix H0. intros b [idx r] b' _ [Hn Ht] HR. unfold processResult in HR.
  destruct (ctxDone _); [done|]. inv_ok. destruct (negb _); [by destruct skip; inv_ok|].
  inv_ok. destruct r1 as [t na]. unfold processTransaction in Hr0. inv_ok.
  match goal with H : processEvents _ _ _ _ = Ok _ |- _ => apply processEvents_wf in H as Hw; [|done] end.
  split; simpl; [apply Hw|]. apply Forall_app. split; [done|]. constructor; [|done]. simpl.
  eapply txnOperations_wf; eassumption.
Qed.

Lemma processed_block_wf ctxDone skip hash cols bs ts :
  processCollections ix ctxDone skip hash cols = Ok bs → wf_block (mkIndexedBlock ts (bs_txns bs)).
Proof using All.
  intros [_ Ht]%processCollections_wf. unfold wf_block, block_operations. simpl.
  apply Forall_forall. intros op (l & Hop & (t & -> & Hin)%list_elem_of_fmap)%list_elem_of_join.
  rewrite Forall_forall in Ht. specialize (Ht t Hin). rewrite Forall_forall in Ht. auto.
Qed.
End wf.
