(* ===== verification/IndexerMain.v ===== *)
(** * The promises of the event processing

    From events to balances: the theorems about the transaction loop, the
    composition with the index database, and a small concrete run. *)
From S2P Require Import Prelude Bytes Model Txn Badger Crypto IndexDB IndexSpec IndexProofs IndexTheorems IndexMain.
From S2P Require Import Indexer IndexerProofs IndexerWf.
Local Open Scope Z_scope.

Section block.
Context `{CadenceLaws, Secp256k1, !MapRange bytes}.

(** The transactions of a processed block. *)
Lemma processCollections_effect ix ctxDone skip hash cols bs a p :
  ix_accts ix !! a = Some p → map_at false (ix_feeAddrs ix) a = false → a ≠ [] →
  processCollections ix ctxDone skip hash cols = Ok bs →
  Forall (λ t, no_overflow (it_Events t)) (bs_txns bs) →
  sumZ (λ t, ops_effect a (it_Operations t)) (bs_txns bs) =
  sumZ (λ t, events_effect p a (it_Events t)) (bs_txns bs).
Proof.
  intros Ha Hfee Hnil HP Hov. apply sumZ_ext. rewrite Forall_forall in Hov.
  enough (∀ t, t ∈ bs_txns bs → no_overflow (it_Events t) →
    ops_effect a (it_Operations t) = events_effect p a (it_Events t)) as Hall by eauto.
  clear Hov. eapply (foldM_inv _ (λ bs, ∀ t, t ∈ bs_txns bs → no_overflow (it_Events t) →
    ops_effect a (it_Operations t) = events_effect p a (it_Events t))); [|..|exact HP]; [|set_solver].
  intros b col b' _ Hb HC. eapply (foldM_inv _ (λ bs, ∀ t, t ∈ bs_txns bs → no_overflow (it_Events t) →
    ops_effect a (it_Operations t) = events_effect p a (it_Events t))); [|exact Hb|exact HC].
  clear b b' Hb HC. intros b [idx r] b' _ Hb HR. unfold processResult in HR.
  destruct (ctxDone _); [done|]. inv_ok. destruct (negb _); [by destruct skip; inv_ok|].
  inv_ok. match goal with H : processTransaction _ _ _ _ = Ok ?x |- _ => destruct x as [t na] end.
  simpl. intros t' [Ht| ->%list_elem_of_singleton]%elem_of_app; [by apply Hb|].
  by eapply processTransaction_effect.
Qed.

(** ** Theorems *)


(** C38: Every block built from events is well formed: the index meets only
    operation types it knows, and every address has eight bytes. *)
Theorem processed_block_well_formed ix ctxDone skip hash cols bs ts :
  ix_wf ix → processCollections ix ctxDone skip hash cols = Ok bs →
  wf_block (mkIndexedBlock ts (bs_txns bs)).
Proof. intros Hix. by apply processed_block_wf. Qed.

(** End to end: after a processed block is indexed, the balance the store
    reports for a tracked account is its previous ledger balance plus what the
    events of the block moved. *)
Theorem indexed_balance_follows_events {DB} `{!Badger DB, !BadgerLaws DB, !BadgerReliable DB}
    `{!Proto IndexedBlock, !Proto BlockMeta} (s s' : Store DB) g hist ix ctxDone skip cols bs hash ts a p :
  let block := mkIndexedBlock ts (bs_txns bs) in
  let height := top g hist + 1 in
  repr s g hist → height < 2 ^ 64 → hash ∉ e_hash <$> hist → ix_wf ix →
  processCollections ix ctxDone skip hash cols = Ok bs →
  Forall (λ t, no_overflow (it_Events t)) (bs_txns bs) →
  Index s height hash block = Ok s' →
  ix_accts ix !! a = Some p → map_at false (ix_feeAddrs ix) a = false →
  balanceByHeight s' a height =
    Ok (u64 (ledger_balance hist a height + sumZ (λ t, events_effect p a (it_Events t)) (bs_txns bs))).
Proof.
  intros block height Hrep Hlt Hf Hix HP Hov HI Ha Hfee.
  assert (length a = 8%nat) as Hl by (eapply (proj1 Hix); exact Ha).
  assert (a ≠ []) as Hnil by by intros ->.
  pose proof (Index_repr s g hist height hash block s' Hrep eq_refl Hlt Hf
    (processed_block_wf ix Hix ctxDone skip hash cols bs ts HP) HI) as Hrep'.
  pose proof (repr_top _ _ _ Hrep) as (_ & _ & _ & Hpos).
  rewrite (balanceByHeight_ledger _ _ _ _ _ Hrep' Hl) by (unfold u64_range_ok, height; lia).
  rewrite ledger_balance_snoc. cbn [e_height e_block]. rewrite Z.leb_refl.
  unfold block. rewrite block_effect_txns.
  by rewrite (processCollections_effect ix ctxDone skip hash cols bs a p Ha Hfee Hnil HP Hov).
Qed.
End block.

(** ** A concrete run *)
Module IndexerDemo.
(** Cadence values as a small inductive type; payloads are looked up in a
    table. *)
Inductive dval := DAddr (a : bytes) | DNum (n : Z) | DStr (s : string) | DOptAddr (o : option bytes).
Abbreviation devent := (list (string * dval)).

Definition alice : bytes := Demo.alice.
Definition bob : bytes := [x21; x22; x23; x24; x25; x26; x27; x28].
Definition feeAddr : bytes := [xf1; xf2; xf3; xf4; xf5; xf6; xf7; xf8].

Definition table (payload : bytes) : option (dval + devent) :=
  match payload with
  | [x01] => Some (inr [("amount", DNum 60); ("from", DOptAddr (Some alice))])
  | [x02] => Some (inr [("amount", DNum 50); ("to", DOptAddr (Some bob))])
  | [x03] => Some (inr [("amount", DNum 10); ("to", DOptAddr (Some feeAddr))])
  | _ => None
  end.

Definition fields (fs : devent) : gmap string (dval + devent) := inl <$> list_to_map fs.

#[local] Instance cadence : Cadence := {|
  cadence_Value := dval + devent;
  cadence_Event := devent;
  HasMsgPrefix _ := false;
  ccf_Decode _ := None;
  json_Decode := table;
  as_Event v := match v with inr fs => Some fs | _ => None end;
  as_Address v :=
    match v with inl (DAddr a) => if decide (length a = 8%nat) then Some a else None | _ => None end;
  as_UFix64 v :=
    match v with inl (DNum n) => if decide (0 ≤ n < 2 ^ 64) then Some n else None | _ => None end;
  as_String v := match v with inl (DStr s) => Some s | _ => None end;
  as_Optional v :=
    match v with inl (DOptAddr o) => Some ((λ a, inl (DAddr a)) <$> o) | _ => None end;
  zero_Event := [];
  FieldsMappedByName fs := Some (fields fs);
  SearchFieldByName fs name := fields fs !! name;
  AccountEventAddressParameter := "address";
  AccountEventPublicKeyIndexParameter := "publicKey";
|}.
#[local] Instance cadence_laws : CadenceLaws.
Proof.
  split.
  - intros [[]|] ? Hb; try done; simpl in Hb; by case_decide; simplify_eq.
  - intros [[]|] ? Hb; try done; simpl in Hb; by case_decide; simplify_eq.
Qed.
#[local] Existing Instance CryptoDemo.secp.
#[local] Existing Instances Demo.range Demo.proto_meta Demo.proto_block gmap_badger.

Definition ix : Indexer := mkIndexer {[alice := false; bob := false]} ∅ {[feeAddr := true]}
  "A.Proxy.Created" "A.Proxy.Deposited" "A.Proxy.Transferred" "A.Tokens.Deposited" "A.Tokens.Withdrawn".
Definition result : TransactionResult := mkTransactionResult 0 "" [
    mkEvent "A.Tokens.Withdrawn" [x77] 0 0 [x01];
    mkEvent "A.Tokens.Deposited" [x77] 0 1 [x02];
    mkEvent "A.Tokens.Deposited" [x77] 0 2 [x03]] [xcc] [x77] [].
Definition txn : IndexedTransaction := {|
  it_ErrorMessage := ""; it_Failed := false; it_Hash := [x77];
  it_Events := [mkTransferEvent 60 [] alice WITHDRAWAL; mkTransferEvent 50 bob [] DEPOSIT;
                mkTransferEvent 10 feeAddr [] DEPOSIT];
  it_Operations := [mkOperation alice 10 [] [] FEE; mkOperation alice 50 [] bob TRANSFER];
|}.
Definition transaction : FlowTransaction := mkFlowTransaction [] [] [] 0 None alice [] [] [].
Definition cols : list collectionData := [mkCollectionData true [transaction] [result]].

Lemma run : processTransaction ix alice ∅ result = Ok (txn, ∅).
Proof. vm_compute. reflexivity. Qed.


Lemma ix_ok : ix_wf ix.
Proof.
  split.
  - intros k v Hk. change (ix_accts ix) with (<[alice := false]> {[bob := false]} : gmap bytes bool) in Hk.
    apply lookup_insert_Some in Hk as [[<- _]|[_ [<- _]%lookup_singleton_Some]]; done.
  - done.
Qed.

Definition bs : blockState := mkBlockState [txn] ∅ 1.
Lemma run_block : processCollections ix (λ _, false) false [xcc] cols = Ok bs.
Proof. vm_compute. reflexivity. Qed.

Lemma processed_block_well_formed_witness : wf_block (mkIndexedBlock 2000 [txn]).
Proof. exact (processed_block_well_formed ix (λ _, false) false [xcc] cols bs 2000 ix_ok run_block). Defined.

(** The block on top of the demo store of the index. *)
Definition s' : Store (gmap bytes bytes) :=
  Demo.get Demo.empty (Index Demo.s 7 [xcc] (mkIndexedBlock 2000 [txn])).

Lemma index_block : Index Demo.s 7 [xcc] (mkIndexedBlock 2000 [txn]) = Ok s'.
Proof. apply Demo.get_ok. vm_compute. reflexivity. Qed.

Lemma indexed_balance_follows_events_witness : balanceByHeight s' alice 7 = Ok 30.
Proof.
  apply (indexed_balance_follows_events Demo.s s' Demo.g Demo.hist ix (λ _, false) false cols bs
    [xcc] 2000 alice false Demo.repr_s ltac:(vm_compute; reflexivity) ltac:(set_solver) ix_ok
    run_block ltac:(repeat constructor) index_block eq_refl eq_refl).
Defined.
End IndexerDemo.
