(* ===== verification/Process.v ===== *)
(** * Processing a block

    Model of [processBlock] in [src/state/process.go] around the transaction
    loop of [Indexer]: fetching a block in one or many calls, checking it
    against its execution result and seal, indexing it, and retrying. *)
From S2P Require Import Prelude Bytes Model Txn Badger Crypto Convert IndexDB Indexer.
Local Open Scope Z_scope.

(** ** The Access API

    The network is a parameter: a call takes and returns the state [W] of the
    outside world, and may fail with a gRPC error. The flag says whether the
    context asks to bypass the cache. [ctx_Done] polls the context. *)
Inductive grpc_code :=
  | Canceled | Unknown | InvalidArgument | NotFound | Internal | ResourceExhausted | Unimplemented | OtherCode (n : Z).
#[export] Instance grpc_code_eq_dec : EqDecision grpc_code.
Proof. solve_decision. Defined.

Record grpc_err := mkGrpcErr { ge_Code : grpc_code; ge_Error : string }.

Class AccessAPI (W : Type) := {
  api_BlockHeaderByHeight : bool → Z → W → (BlockHeaderMsg + grpc_err) * W;
  api_BlockByHeight : bool → Z → W → (BlockMsg + grpc_err) * W;
  api_TransactionsByBlockID : bool → bytes → W → (list FlowTransaction + grpc_err) * W;
  api_TransactionResultsByBlockID : bool → bytes → W → (list TransactionResult + grpc_err) * W;
  (** the transaction ids of a collection *)
  api_CollectionByID : bool → bytes → W → (list bytes + grpc_err) * W;
  api_Transaction : bool → bytes → W → (FlowTransaction + grpc_err) * W;
  api_TransactionResult : bool → bytes → Z → W → (TransactionResult + grpc_err) * W;
  api_ExecutionResultForBlockID : bool → bytes → W → (ExecutionResultMsg + grpc_err) * W;
  ctx_Done : W → bool * W;
}.
#[export] Hint Mode AccessAPI ! : typeclass_instances.

(** [strings.Contains] and [strings.HasSuffix]. *)
Fixpoint contains (s sub : string) : bool :=
  String.prefix sub s || match s with EmptyString => false | String _ s => contains s sub end.
Definition has_suffix (s suf : string) : bool :=
  bool_decide (String.substring (String.length s - String.length suf) (String.length suf) s = suf) &&
  (String.length suf <=? String.length s)%nat.

Definition rateLimitText : string := "rate limit reached".
Definition IsRateLimited (e : grpc_err) : bool :=
  bool_decide (ge_Code e = ResourceExhausted) && contains (ge_Error e) rateLimitText.

Definition useSlowPath (e : grpc_err) : bool :=
  if IsRateLimited e then false
  else
    match ge_Code e with
    | Internal =>
        if contains (ge_Error e) "ResourceExhausted" then true else contains (ge_Error e) "Unimplemented"
    | ResourceExhausted => true
    | Unimplemented => true
    | _ => false
    end.

(** The settings of [config.Chain] the indexer reads. *)
Record ChainConfig := mkChainConfig {
  cc_SkipBlocks : gset Identifier;
  cc_SporkSealTolerance : Z;
  cc_MaxBackoffInterval : Z;
}.

(** [nextBackoff] on [time.Duration], an [int64]. *)
Definition nextBackoff (c : ChainConfig) (d : Z) : Z :=
  let d := s64 (d * 2) in
  if cc_MaxBackoffInterval c <? d then cc_MaxBackoffInterval c else d.

(** ** Local state of [processBlock]

    The variables that outlive an iteration of the outer loop, with the world. *)
Record pst (W : Type) := mkPst {
  p_world : W;
  p_backoff : Z;
  p_skipCache : bool;
  p_slowPath : bool;
  p_unsealed : bool;
  (** whether [span] has been set *)
  p_span : bool;
}.
Arguments mkPst {W}.
Arguments p_world {W}.
Arguments p_backoff {W}.
Arguments p_skipCache {W}.
Arguments p_slowPath {W}.
Arguments p_unsealed {W}.
Arguments p_span {W}.

(** Code that reads and changes this state and may leave early. *)
Definition proc (W A : Type) : Type := pst W → outcome stop A * pst W.

#[export] Instance proc_mret W : MRet (proc W) := λ A a p, (Ok a, p).
#[export] Instance proc_mbind W : MBind (proc W) := λ A B f m p,
  match m p with
  | (Ok a, p') => f a p'
  | (Err e, p') => (Err e, p')
  | (Fatal, p') => (Fatal, p')
  | (Panic, p') => (Panic, p')
  end.

Definition lift {W A} (m : outcome stop A) : proc W A := λ p, (m, p).
Definition set_world {W} (w : W) (p : pst W) : pst W :=
  mkPst w (p_backoff p) (p_skipCache p) (p_slowPath p) (p_unsealed p) (p_span p).
Definition set_backoff {W} (d : Z) (p : pst W) : pst W :=
  mkPst (p_world p) d (p_skipCache p) (p_slowPath p) (p_unsealed p) (p_span p).
Definition set_slowPath {W} (p : pst W) : pst W :=
  mkPst (p_world p) (p_backoff p) (p_skipCache p) true (p_unsealed p) (p_span p).
Definition set_skipCache {W} (p : pst W) : pst W :=
  mkPst (p_world p) (p_backoff p) true (p_slowPath p) (p_unsealed p) (p_span p).
Definition set_unsealed {W} (p : pst W) : pst W :=
  mkPst (p_world p) (p_backoff p) (p_skipCache p) (p_slowPath p) true (p_span p).
Definition set_span {W} (p : pst W) : pst W :=
  mkPst (p_world p) (p_backoff p) (p_skipCache p) (p_slowPath p) (p_unsealed p) true.

(** One API call, with the cache flag of the current context. *)
Definition call {W A} (f : bool → W → (A + grpc_err) * W) : proc W (A + grpc_err) :=
  λ p, let '(r, w) := f (p_skipCache p) (p_world p) in (Ok r, set_world w p).

(** [select { case <-ctx.Done(): return; default: }]. *)
Definition poll {W} `{AccessAPI W} : proc W unit :=
  λ p, let '(d, w) := ctx_Done (p_world p) in
       (if d then Err Cancelled else Ok tt, set_world w p).

(** The same at the head of the outer loop: the deferred [span.End()] of a
    return there dereferences a nil span in the first iteration. *)
Definition poll_outer {W} `{AccessAPI W} : proc W unit :=
  λ p, let '(d, w) := ctx_Done (p_world p) in
       let p := set_world w p in
       if d then (if p_span p then Err Cancelled else Panic, p) else (Ok tt, set_span p).

(** Errors of [convert.go] have no values, only fatal ends and panics. *)
Definition of_convert {A} (m : outcome Empty_set A) : outcome stop A :=
  match m with Ok a => Ok a | Err e => match e with end | Fatal => Fatal | Panic => Panic end.

(** [for _, x := range l { ... }] in [proc]. *)
Fixpoint foldP {W A B} (f : A → B → proc W A) (a : A) (l : list B) : proc W A :=
  match l with
  | [] => mret a
  | x :: l => a' ← f a x; foldP f a' l
  end.

Section process.
Context {W DB : Type} `{!AccessAPI W, !Cadence, !Secp256k1, !FlowGo, !MapRange bytes}.
Context `{!Badger DB, !Proto IndexedBlock, !Proto BlockMeta}.

(** ** Fetching *)

(** [for { r, err := call; if err != nil { if Canceled return; sleep; continue }; break }]. *)
Fixpoint retry_call {A} (fuel : nat) (f : bool → W → (A + grpc_err) * W) : proc W A :=
  match fuel with
  | O => lift (Err OutOfFuel)
  | S fuel =>
      r ← call f;
      match r with
      | inl a => mret a
      | inr e =>
          if bool_decide (ge_Code e = Canceled) then lift (Err Cancelled) else retry_call fuel f
      end
  end.

(** The same, except that [NotFound] ends the search. *)
Fixpoint retry_call_found {A} (fuel : nat) (f : bool → W → (A + grpc_err) * W) : proc W (option A) :=
  match fuel with
  | O => lift (Err OutOfFuel)
  | S fuel =>
      r ← call f;
      match r with
      | inl a => mret (Some a)
      | inr e =>
          if bool_decide (ge_Code e = Canceled) then lift (Err Cancelled)
          else if bool_decide (ge_Code e = NotFound) then mret None
          else retry_call_found fuel f
      end
  end.

Definition u32 (z : Z) : Z := z mod 2 ^ 32.

(** One transaction of a collection: its body and its result. *)
Definition slowTransaction (fuel : nat) (hash : bytes) (st : Z * collectionData) (txnHash : bytes)
    : proc W (Z * collectionData) :=
  let '(txnIndex, col) := st in
  let txnIndex := txnIndex + 1 in
  info ← retry_call fuel (λ skip, api_Transaction skip txnHash);
  txnResult ← retry_call fuel (λ skip, api_TransactionResult skip hash (u32 txnIndex));
  mret (txnIndex, mkCollectionData (cd_system col) (cd_txns col ++ [info]) (cd_txnResults col ++ [txnResult])).

Definition slowCollection (fuel : nat) (hash : bytes) (st : Z * list collectionData)
    (cg : CollectionGuaranteeMsg) : proc W (Z * list collectionData) :=
  let '(txnIndex, cols) := st in
  ids ← retry_call fuel (λ skip, api_CollectionByID skip (cg_CollectionId cg));
  r ← foldP (slowTransaction fuel hash) (txnIndex, mkCollectionData false [] []) ids;
  mret (r.1, cols ++ [r.2]).

(** The results of the system collection after its first transaction: one per
    scheduled transaction and the final one, as far as they are found. *)
Fixpoint slowScheduled (fuel : nat) (hash : bytes) (n : nat) (txnIndex : Z) (results : list TransactionResult)
    : proc W (list TransactionResult) :=
  match n with
  | O => mret results
  | S n =>
      let txnIndex := txnIndex + 1 in
      r ← retry_call_found fuel (λ skip, api_TransactionResult skip hash (u32 txnIndex));
      match r with
      | None => mret results
      | Some txnResult => slowScheduled fuel hash n txnIndex (results ++ [txnResult])
      end
  end.

Definition scheduledTxs (r : TransactionResult) : nat :=
  length (filter (λ e, has_suffix (ev_Type e) ".FlowTransactionScheduler.PendingExecution" = true) (tr_Events r)).

Definition slowSystem (fuel : nat) (spork : Spork) (height : Z) (hash : bytes) (txnIndex : Z)
    : proc W collectionData :=
  if negb (sp_hasPrev spork && (height =? sp_RootBlock spork)) then
    let txnIndex := txnIndex + 1 in
    first ← retry_call fuel (λ skip, api_TransactionResult skip hash (u32 txnIndex));
    results ← (if 8 <=? sp_Version spork
               then slowScheduled fuel hash (scheduledTxs first + 1) txnIndex [first]
               else mret [first]);
    txns ← foldP (λ txns r,
        info ← retry_call fuel (λ skip, api_Transaction skip (tr_TransactionId r));
        mret (txns ++ [info])) [] results;
    mret (mkCollectionData true txns results)
  else mret (mkCollectionData true [] []).

Definition slowPathCollections (fuel : nat) (spork : Spork) (height : Z) (hash : bytes) (block : BlockMsg)
    : proc W (list collectionData) :=
  r ← foldP (slowCollection fuel hash) (-1, []) (blk_CollectionGuarantees block);
  sys ← slowSystem fuel spork height hash r.1;
  mret (r.2 ++ [sys]).

(** The fast path: the results of the whole block, cut where the collection id
    changes; the last part is the system collection. *)
Fixpoint groupFrom (cur : collectionData) (prev : bytes) (txns : list FlowTransaction)
    (results : list TransactionResult) : list collectionData :=
  match results with
  | [] => [cur]
  | r :: results =>
      let same := bool_decide (tr_CollectionId r = prev) in
      let cur' := if same then cur else mkCollectionData false [] [] in
      let cur' := mkCollectionData false
                    (match txns with t :: _ => cd_txns cur' ++ [t] | [] => cd_txns cur' end)
                    (cd_txnResults cur' ++ [r]) in
      let rest := groupFrom cur' (tr_CollectionId r) (tail txns) results in
      if same then rest else cur :: rest
  end.

Definition fastPathCollections (txns : list FlowTransaction) (results : list TransactionResult)
    : list collectionData :=
  let cols :=
    match results with
    | [] => [mkCollectionData false [] []]
    | r :: results =>
        groupFrom (mkCollectionData false (take 1 txns) [r]) (tr_CollectionId r) (tail txns) results
    end in
  match last cols with
  | Some c => removelast cols ++ [mkCollectionData true (cd_txns c) (cd_txnResults c)]
  | None => cols
  end.

(** The two calls of the fast path; [None] when the slow path is in use. The
    switch to the slow path sticks. *)
Definition fetchTransactions (c : ChainConfig) (hash : bytes) : proc W (option (list FlowTransaction)) := λ p,
  if p_slowPath p then (Ok None, p)
  else
    match call (λ skip, api_TransactionsByBlockID skip hash) p with
    | (Ok (inl txns), p) => (Ok (Some txns), p)
    | (Ok (inr e), p) =>
        if useSlowPath e then (Ok None, set_slowPath p)
        else (Err Retry,
              if bool_decide (ge_Code e = NotFound)
              then set_backoff (nextBackoff c (p_backoff p)) p else p)
    | (Err e, p) => (Err e, p)
    | (Fatal, p) => (Fatal, p)
    | (Panic, p) => (Panic, p)
    end.

Definition fetchResults (hash : bytes) : proc W (option (list TransactionResult)) := λ p,
  if p_slowPath p then (Ok None, p)
  else
    match call (λ skip, api_TransactionResultsByBlockID skip hash) p with
    | (Ok (inl results), p) => (Ok (Some results), p)
    | (Ok (inr e), p) => if useSlowPath e then (Ok None, set_slowPath p) else (Err Retry, p)
    | (Err e, p) => (Err e, p)
    | (Fatal, p) => (Fatal, p)
    | (Panic, p) => (Panic, p)
    end.

Definition if_slowPath {A} (slow fast : proc W A) : proc W A :=
  λ p, if p_slowPath p then slow p else fast p.

Definition fetchCollections (fuel : nat) (c : ChainConfig) (spork : Spork) (height : Z) (hash : bytes)
    (block : BlockMsg) : proc W (list collectionData) :=
  txns ← fetchTransactions c hash;
  results ← fetchResults hash;
  if_slowPath (slowPathCollections fuel spork height hash block)
    (mret (fastPathCollections (default [] txns) (default [] results))).

(** ** Integrity *)

Definition toFlowEvent (evt : Event) : flowEvent :=
  mkFlowEvent (ev_EventIndex evt) (ev_Payload evt) (toFlowIdentifier (ev_TransactionId evt))
    (ev_TransactionIndex evt) (ev_Type evt).

Definition colEvents (col : collectionData) : list flowEvent :=
  mjoin ((λ r, toFlowEvent <$> tr_Events r) <$> cd_txnResults col).

(** The self-sealed root block of a spork. *)
Definition selfSealed (spork : Spork) (height : Z) : bool :=
  sp_hasPrev spork && (height =? sp_RootBlock spork).

Definition eventHashes (spork : Spork) (height : Z) (cols : list collectionData)
    : outcome stop (list Identifier) :=
  if selfSealed spork height then Ok [ZeroID]
  else of_convert (collect (λ col, deriveEventsHash spork (colEvents col)) cols).

Fixpoint fetchExecResult (fuel : nat) (hash : bytes) : proc W ExecutionResultMsg :=
  match fuel with
  | O => lift (Err OutOfFuel)
  | S fuel =>
      _ ← poll;
      r ← call (λ skip, api_ExecutionResultForBlockID skip hash);
      match r with inl e => mret e | inr _ => fetchExecResult fuel hash end
  end.

(** Every chunk carries the hash of the events of its collection. *)
Definition checkChunks (chunks : list (option ChunkMsg)) (hashes : list Identifier) : bool :=
  bool_decide (length chunks = length hashes) &&
  forallb (λ ch, match ch.1 with
                 | None => false
                 | Some chunk => bool_decide (cm_EventCollection chunk = ch.2)
                 end) (zip chunks hashes).

(** The execution result must be the sealed one. *)
Definition checkSeal (c : ChainConfig) (spork : Spork) (height : Z) (sealed : option Identifier)
    (resultID : Identifier) : proc W unit :=
  let sealed := if selfSealed spork height then Some resultID else sealed in
  match sealed with
  | Some s => if bool_decide (resultID = s) then mret tt else lift retry
  | None =>
      match sp_NextRootBlock spork with
      | None => lift Fatal
      | Some next =>
          if u64 (next - cc_SporkSealTolerance c) <=? height
          then λ p, (Ok tt, set_unsealed p)
          else lift Fatal
      end
  end.

Definition checkIntegrity (c : ChainConfig) (spork : Spork) (height : Z) (sealed : option Identifier)
    (hashes : list Identifier) (execResult : ExecutionResultMsg) : proc W unit :=
  if negb (checkChunks (er_Chunks execResult) hashes) then lift retry
  else
    exec ← lift (of_convert (convertExecutionResult (sp_Version spork) execResult));
    match exec with
    | None => lift retry
    | Some exec =>
        resultID ← lift (of_convert (deriveExecutionResult spork exec));
        checkSeal c spork height sealed resultID
    end.

(** ** The indexer *)

(** The state of the [Indexer] a block can change. *)
Record IndexerState := mkIndexerState {
  is_ix : Indexer;
  is_store : Store DB;
  is_lastIndexed : BlockMeta;
  is_sealedResults : gmap bytes Identifier;
}.

(** [for { err = i.Store.Index(...); if err == nil { break }; sleep }]. *)
Fixpoint indexLoop (fuel : nat) (s : Store DB) (height : Z) (hash : bytes) (block : IndexedBlock)
    : proc W (Store DB) :=
  match fuel with
  | O => lift (Err OutOfFuel)
  | S fuel =>
      _ ← poll;
      match Index s height hash block with
      | Ok s => mret s
      | Err _ => indexLoop fuel s height hash block
      | Fatal => lift Fatal
      | Panic => lift Panic
      end
  end.

(** The transaction loop with the world's context. *)
Definition processResultP (ix : Indexer) (skip : bool) (hash : bytes) (txns : list FlowTransaction)
    (st : blockState) (ir : nat * TransactionResult) : proc W blockState :=
  _ ← poll;
  lift (processResult ix (λ _, false) skip hash txns st ir).
Definition processCollectionsP (ix : Indexer) (skip : bool) (hash : bytes) (cols : list collectionData)
    : proc W blockState :=
  foldP (λ st col, foldP (processResultP ix skip hash (cd_txns col)) st
                     (imap (λ idx r, (idx, r)) (cd_txnResults col)))
    (mkBlockState [] ∅ 0) cols.

(** [i.accts[acct] = isProxy] for every new account, the new [lastIndexed], and
    the seal no longer needed. *)
Definition finishBlock (st : IndexerState) (s : Store DB) (height : Z) (hash : bytes)
    (newAccounts : gmap bytes bool) : IndexerState :=
  let ix := is_ix st in
  {| is_ix := mkIndexer (newAccounts ∪ ix_accts ix) (ix_originators ix) (ix_feeAddrs ix)
                (typProxyCreated ix) (typProxyDeposited ix) (typProxyTransferred ix)
                (typTokensDeposited ix) (typTokensWithdrawn ix);
     is_store := s;
     is_lastIndexed := mkBlockMeta hash height (bm_Parent (is_lastIndexed st)) (bm_Timestamp (is_lastIndexed st));
     is_sealedResults := delete hash (is_sealedResults st) |}.

(** One iteration of the outer loop. *)
Definition attempt (fuel : nat) (c : ChainConfig) (spork : Spork) (height : Z) (hash : bytes)
    (st : IndexerState) : proc W IndexerState :=
  let skip := bool_decide (toFlowIdentifier hash ∈ cc_SkipBlocks c) in
  _ ← poll_outer;
  b ← call (λ skip, api_BlockByHeight skip height);
  match b with
  | inr _ => lift (Err Retry)
  | inl block =>
      cols ← fetchCollections fuel c spork height hash block;
      hashes ← lift (eventHashes spork height cols);
      execResult ← fetchExecResult fuel hash;
      _ ← (if skip then mret tt
           else checkIntegrity c spork height (is_sealedResults st !! hash) hashes execResult);
      bs ← processCollectionsP (is_ix st) skip hash cols;
      let data := mkIndexedBlock (u64 (UnixNano (blk_Timestamp block))) (bs_txns bs) in
      s ← indexLoop fuel (is_store st) height hash data;
      mret (finishBlock st s height hash (bs_newAccounts bs))
  end.

(** The outer loop. *)
Fixpoint outer (fuel : nat) (c : ChainConfig) (spork : Spork) (height : Z) (hash : bytes)
    (st : IndexerState) (p : pst W) : outcome stop IndexerState * pst W :=
  match fuel with
  | O => (Err OutOfFuel, p)
  | S n =>
      match attempt fuel c spork height hash st p with
      | (Err RetrySkipCache, p) => outer n c spork height hash st (set_skipCache p)
      | (Err Retry, p) => outer n c spork height hash st p
      | r => r
      end
  end.

(** [processBlock] starts with a backoff of one second; [nocache] says whether
    the context it is given already asks to bypass the cache. *)
Definition processBlock (fuel : nat) (c : ChainConfig) (nocache : bool) (spork : Spork) (height : Z)
    (hash : bytes) (st : IndexerState) (w : W) : outcome stop IndexerState * pst W :=
  outer fuel c spork height hash st (mkPst w (10 ^ 9) nocache false false false).
End process.
