(* ===== verification/ProcessProofs.v ===== *)
(** * Properties of block processing

    Fuel only bounds the loops; the fast path cuts the results of a block into
    its collections; a block that is indexed has passed the integrity checks. *)
From S2P Require Import Prelude Bytes Model Txn Badger Crypto Convert IndexDB Indexer Process.
Local Open Scope Z_scope.

(** ** Rules for [proc] *)

Section proc.
Context {W : Type}.

Lemma bindP_Ok {A B} (m : proc W A) (f : A → proc W B) p b p' :
  (m ≫= f) p = (Ok b, p') ↔ ∃ a p1, m p = (Ok a, p1) ∧ f a p1 = (Ok b, p').
Proof.
  unfold mbind, proc_mbind. split.
  - destruct (m p) as [[a| | |] p1]; try done. eauto.
  - by intros (a & p1 & -> & ?).
Qed.

Lemma lift_Ok {A} (m : outcome stop A) p (a : A) p' : lift (W:=W) m p = (Ok a, p') ↔ m = Ok a ∧ p' = p.
Proof. unfold lift. naive_solver. Qed.

Lemma mret_Ok {A} (a b : A) (p p' : pst W) : (mret a : proc W A) p = (Ok b, p') ↔ b = a ∧ p' = p.
Proof. unfold mret, proc_mret. naive_solver. Qed.

(** A loop in [proc] whose body only adds effects to a pure step is that loop. *)
Lemma foldP_foldM {A B} (f : A → B → proc W A) (g : A → B → outcome stop A) l a a' p p' :
  (∀ a x a' p p', f a x p = (Ok a', p') → g a x = Ok a') →
  foldP f a l p = (Ok a', p') → foldM g a l = Ok a'.
Proof.
  intros Hfg. revert a p. induction l as [|x l IH]; intros a p; cbn [foldP foldM].
  - intros [-> _]%mret_Ok. done.
  - intros (a1 & p1 & Hx & Hl)%bindP_Ok. rewrite (Hfg _ _ _ _ _ Hx). simpl. eauto.
Qed.

(** ** More fuel

    [m1] approximates [m2]: they agree unless [m1] runs out of fuel. *)
Definition approx {A} (m1 m2 : proc W A) : Prop := ∀ p, (m1 p).1 = Err OutOfFuel ∨ m2 p = m1 p.

#[export] Instance approx_refl {A} : Reflexive (@approx A).
Proof. intros m p. by right. Qed.

Lemma approx_id {A} (m : proc W A) : approx m m.
Proof. reflexivity. Qed.

Lemma approx_out {A} (m : proc W A) : approx (lift (Err OutOfFuel)) m.
Proof. intros p. by left. Qed.

Lemma approx_bind {A B} (m1 m2 : proc W A) (f1 f2 : A → proc W B) :
  approx m1 m2 → (∀ a, approx (f1 a) (f2 a)) → approx (m1 ≫= f1) (m2 ≫= f2).
Proof.
  intros Hm Hf p. unfold mbind, proc_mbind. destruct (Hm p) as [Ho| ->].
  - left. destruct (m1 p) as [[] ?]; simpl in *; try done. by simplify_eq.
  - destruct (m1 p) as [[a| | |] p']; try by right. apply Hf.
Qed.

Lemma approx_foldP {A B} (f1 f2 : A → B → proc W A) l a :
  (∀ a x, approx (f1 a x) (f2 a x)) → approx (foldP f1 a l) (foldP f2 a l).
Proof.
  intros Hf. revert a. induction l as [|x l IH]; intros a; cbn [foldP]; [done|].
  by apply approx_bind.
Qed.
End proc.

Create HintDb approx.
#[export] Hint Resolve approx_id approx_out approx_bind approx_foldP : approx.

Section fuel.
Context {W DB : Type} `{!AccessAPI W, !Cadence, !Secp256k1, !FlowGo, !MapRange bytes}.
Context `{!Badger DB, !Proto IndexedBlock, !Proto BlockMeta}.

Lemma retry_call_approx {A} n m (f : bool → W → (A + grpc_err) * W) :
  (n ≤ m)%nat → approx (retry_call n f) (retry_call m f).
Proof.
  revert m. induction n as [|n IH]; intros m Hle; [apply approx_out|].
  destruct m as [|m]; [lia|]. cbn [retry_call]. apply approx_bind; [done|].
  intros [a|e]; [done|]. case_bool_decide; [done|]. apply IH. lia.
Qed.

Lemma retry_call_found_approx {A} n m (f : bool → W → (A + grpc_err) * W) :
  (n ≤ m)%nat → approx (retry_call_found n f) (retry_call_found m f).
Proof.
  revert m. induction n as [|n IH]; intros m Hle; [apply approx_out|].
  destruct m as [|m]; [lia|]. cbn [retry_call_found]. apply approx_bind; [done|].
  intros [a|e]; [done|]. repeat (case_bool_decide; [done|]). apply IH. lia.
Qed.

Hint Resolve retry_call_approx retry_call_found_approx : approx.

Lemma slowScheduled_approx n m hash k idx rs :
  (n ≤ m)%nat → approx (slowScheduled (W:=W) n hash k idx rs) (slowScheduled m hash k idx rs).
Proof.
  intros Hle. revert idx rs. induction k as [|k IH]; intros idx rs; [done|].
  cbn [slowScheduled]. apply approx_bind; [auto with approx|]. intros [r|]; [apply IH|done].
Qed.

Lemma slowPath_approx n m spork height hash block :
  (n ≤ m)%nat →
  approx (slowPathCollections (W:=W) n spork height hash block)
         (slowPathCollections m spork height hash block).
Proof.
  intros Hle. unfold slowPathCollections. apply approx_bind.
  - apply approx_foldP. intros [idx cols] cg. unfold slowCollection.
    apply approx_bind; [auto with approx|]. intros ids. apply approx_bind; [|done].
    apply approx_foldP. intros [i col] h. unfold slowTransaction.
    apply approx_bind; [auto with approx|]. intros info. apply approx_bind; auto with approx.
  - intros r. apply approx_bind; [|done]. unfold slowSystem. destruct (negb _); [|done].
    apply approx_bind; [auto with approx|]. intros first. apply approx_bind.
    + destruct (8 <=? _); [by apply slowScheduled_approx|done].
    + intros rs. apply approx_bind; [|done]. apply approx_foldP. intros txns x.
      apply approx_bind; auto with approx.
Qed.

Lemma fetchExecResult_approx n m hash :
  (n ≤ m)%nat → approx (fetchExecResult (W:=W) n hash) (fetchExecResult m hash).
Proof.
  revert m. induction n as [|n IH]; intros m Hle; [apply approx_out|].
  destruct m as [|m]; [lia|]. cbn [fetchExecResult]. apply approx_bind; [done|]. intros _.
  apply approx_bind; [done|]. intros [e|e]; [done|]. apply IH. lia.
Qed.

Lemma indexLoop_approx n m s height hash block :
  (n ≤ m)%nat →
  approx (indexLoop (W:=W) (DB:=DB) n s height hash block) (indexLoop m s height hash block).
Proof.
  revert m. induction n as [|n IH]; intros m Hle; [apply approx_out|].
  destruct m as [|m]; [lia|]. cbn [indexLoop]. apply approx_bind; [done|]. intros _.
  destruct (Index s height hash block); [done| |done|done]. apply IH. lia.
Qed.

Lemma attempt_approx n m c spork height hash st :
  (n ≤ m)%nat →
  approx (attempt (W:=W) (DB:=DB) n c spork height hash st) (attempt m c spork height hash st).
Proof.
  intros Hle. unfold attempt. apply approx_bind; [done|]. intros _.
  apply approx_bind; [done|]. intros [block|e]; [|done]. apply approx_bind.
  - unfold fetchCollections. apply approx_bind; [done|]. intros txns. apply approx_bind; [done|].
    intros rs p. unfold if_slowPath. destruct (p_slowPath p); [by apply slowPath_approx|by right].
  - intros cols. apply approx_bind; [done|]. intros hashes.
    apply approx_bind; [by apply fetchExecResult_approx|]. intros er. apply approx_bind; [done|].
    intros _. apply approx_bind; [done|]. intros bs. apply approx_bind; [|done].
    by apply indexLoop_approx.
Qed.

Lemma outer_more_fuel n m c spork height hash (st : IndexerState (DB:=DB)) (p : pst W) :
  (n ≤ m)%nat → (outer n c spork height hash st p).1 ≠ Err OutOfFuel →
  outer m c spork height hash st p = outer n c spork height hash st p.
Proof.
  revert m p. induction n as [|n IH]; intros m p Hle Hne; [done|].
  destruct m as [|m]; [lia|]. cbn [outer] in *.
  destruct (attempt_approx (S n) (S m) c spork height hash st Hle p) as [Ho|Heq].
  - exfalso. destruct (attempt _ _ _ _ _ _ p) as [r p']. simpl in Ho. by subst r.
  - rewrite Heq. destruct (attempt _ _ _ _ _ _ p) as [[|[]| |] p']; try done; apply IH; auto; lia.
Qed.
End fuel.

(** ** What a successful run has done *)

Section ok.
Context {W DB : Type} `{!AccessAPI W, !Cadence, !Secp256k1, !FlowGo, !MapRange bytes}.
Context `{!Badger DB, !Proto IndexedBlock, !Proto BlockMeta}.

Lemma indexLoop_Ok n (s : Store DB) height hash block s' (p p' : pst W) :
  indexLoop n s height hash block p = (Ok s', p') → Index s height hash block = Ok s' ∧ p_unsealed p' = p_unsealed p.
Proof.
  revert p. induction n as [|n IH]; intros p; [done|]. cbn [indexLoop].
  intros ([] & p1 & Hpoll & Hx)%bindP_Ok.
  assert (p_unsealed p1 = p_unsealed p) as Hu.
  { unfold poll in Hpoll. destruct (ctx_Done _) as [[] w]; by simplify_eq. }
  destruct (Index s height hash block) as [s1| | |].
  - apply mret_Ok in Hx as [-> ->]. done.
  - rewrite <-Hu. eauto.
  - by apply lift_Ok in Hx as [? _].
  - by apply lift_Ok in Hx as [? _].
Qed.

Lemma processCollectionsP_Ok ix skip hash cols bs (p p' : pst W) :
  processCollectionsP ix skip hash cols p = (Ok bs, p') →
  processCollections ix (λ _, false) skip hash cols = Ok bs.
Proof.
  unfold processCollectionsP, processCollections. apply foldP_foldM. intros a col a' p1 p1'.
  unfold processCollection. apply foldP_foldM. intros a1 [i r] a1' p2 p2'. unfold processResultP.
  by intros ([] & p3 & _ & [? _]%lift_Ok)%bindP_Ok.
Qed.

Lemma processCollectionsP_unsealed ix skip hash cols (p : pst W) :
  p_unsealed (processCollectionsP ix skip hash cols p).2 = p_unsealed p.
Proof.
  assert (∀ {A B} (f : A → B → proc W A) l, (∀ a x p, p_unsealed (f a x p).2 = p_unsealed p) →
    ∀ a p, p_unsealed (foldP f a l p).2 = p_unsealed p) as Hfold.
  { intros A B f l Hf. induction l as [|x l IH]; intros a p0; [done|]. cbn [foldP].
    unfold mbind, proc_mbind. specialize (Hf a x p0).
    destruct (f a x p0) as [[a'| | |] p1]; simpl in *; try done. by rewrite IH. }
  apply Hfold. intros st col p0. apply Hfold. intros st' ir p1.
  unfold processResultP, mbind, proc_mbind, poll, lift.
  destruct (ctx_Done (p_world p1)) as [[] w]; done.
Qed.

(** The seal that stands against the result of a block. *)
Definition seal_ok (c : ChainConfig) (spork : Spork) (height : Z) (sealed : option Identifier)
    (id : Identifier) (unsealed : bool) : Prop :=
  selfSealed spork height = true ∨ sealed = Some id ∨
  sealed = None ∧ unsealed = true ∧
    ∃ next, sp_NextRootBlock spork = Some next ∧ u64 (next - cc_SporkSealTolerance c) ≤ height.

Lemma checkSeal_Ok c spork height sealed id (p p' : pst W) :
  checkSeal c spork height sealed id p = (Ok tt, p') → seal_ok c spork height sealed id (p_unsealed p').
Proof.
  unfold checkSeal, seal_ok. intros Hc. destruct (selfSealed spork height); [by left|]. right.
  destruct sealed as [s|].
  - revert Hc. case_bool_decide as Hs; [|done]. left. by rewrite Hs.
  - right. destruct (sp_NextRootBlock spork) as [next|]; [|done].
    destruct (Z.leb_spec (u64 (next - cc_SporkSealTolerance c)) height); [|done].
    injection Hc as <-. split; [done|]. split; [done|]. by exists next.
Qed.

Definition chunk_matches (chunk : option ChunkMsg) (h : Identifier) : Prop :=
  ∃ m, chunk = Some m ∧ cm_EventCollection m = h.

Lemma checkChunks_spec chunks hashes :
  checkChunks chunks hashes = true ↔ Forall2 chunk_matches chunks hashes.
Proof.
  unfold checkChunks. rewrite andb_true_iff, bool_decide_eq_true. split.
  - intros [Hl Hall]. revert hashes Hl Hall.
    induction chunks as [|ch chunks IH]; intros [|h hashes] Hl Hall; try done.
    cbn [zip zip_with forallb fst snd] in Hall. apply andb_prop in Hall as [Hm Hms].
    constructor; [|apply IH; [by injection Hl|done]]. destruct ch as [m|]; [|done].
    apply bool_decide_eq_true in Hm. by exists m.
  - intros Hall. split; [by eapply Forall2_length|].
    induction Hall as [|ch h chunks hashes (m & -> & <-) _ IH]; [done|].
    cbn [zip zip_with forallb fst snd]. by rewrite bool_decide_true.
Qed.

(** The execution result agrees with the events and with the seal. *)
Definition result_ok (c : ChainConfig) (spork : Spork) (height : Z) (sealed : option Identifier)
    (hashes : list Identifier) (er : ExecutionResultMsg) (unsealed : bool) : Prop :=
  Forall2 chunk_matches (er_Chunks er) hashes ∧
  ∃ exec id, convertExecutionResult (sp_Version spork) er = Ok (Some exec) ∧
    deriveExecutionResult spork exec = Ok id ∧ seal_ok c spork height sealed id unsealed.

Lemma of_convert_Ok {A} (m : outcome Empty_set A) a : of_convert m = Ok a → m = Ok a.
Proof. destruct m as [|[]| |]; naive_solver. Qed.

Lemma checkIntegrity_Ok c spork height sealed hashes er (p p' : pst W) :
  checkIntegrity c spork height sealed hashes er p = (Ok tt, p') →
  result_ok c spork height sealed hashes er (p_unsealed p').
Proof.
  unfold checkIntegrity. destruct (checkChunks _ _) eqn:Hc; [|by intros [? _]%lift_Ok]. cbn [negb].
  intros (exec & p1 & [He ->]%lift_Ok & Hx)%bindP_Ok. apply of_convert_Ok in He.
  destruct exec as [exec|]; [|by apply lift_Ok in Hx as [? _]].
  apply bindP_Ok in Hx as (id & p2 & [Hid ->]%lift_Ok & Hs). apply of_convert_Ok in Hid.
  split; [by apply checkChunks_spec|]. exists exec, id. eauto using checkSeal_Ok.
Qed.

Lemma call_Ok {A} (f : bool → W → (A + grpc_err) * W) r (p p' : pst W) :
  call f p = (Ok r, p') → f (p_skipCache p) (p_world p) = (r, p_world p').
Proof. unfold call. destruct (f _ _) as [r' w] eqn:Hf. by intros [= -> <-]. Qed.

Lemma fetchExecResult_Ok n hash er (p p' : pst W) :
  fetchExecResult n hash p = (Ok er, p') →
  ∃ nocache (w w' : W), api_ExecutionResultForBlockID nocache hash w = (inl er, w').
Proof.
  revert p. induction n as [|n IH]; intros p; [done|]. cbn [fetchExecResult].
  intros (_ & p1 & _ & Hx)%bindP_Ok. apply bindP_Ok in Hx as (r & p2 & Hc%call_Ok & Hx).
  destruct r as [er'|]; [|by eapply IH]. apply mret_Ok in Hx as [-> _]. eauto.
Qed.

(** One successful attempt: the block and its execution result come from the
    Access API, and the collections that are checked are those indexed. *)
Definition attempt_ok (c : ChainConfig) (spork : Spork) (height : Z) (hash : bytes)
    (st : IndexerState (DB:=DB)) (st' : IndexerState (DB:=DB)) (unsealed : bool)
    (cols : list collectionData) (bs : blockState) (ts : Z) : Prop :=
  let skip := bool_decide (toFlowIdentifier hash ∈ cc_SkipBlocks c) in
  processCollections (is_ix st) (λ _, false) skip hash cols = Ok bs ∧
  (∃ nocache (w w' : W) block, api_BlockByHeight nocache height w = (inl block, w') ∧
     ts = u64 (UnixNano (blk_Timestamp block))) ∧
  (skip = false → ∃ nocache (w w' : W) hashes er,
     api_ExecutionResultForBlockID nocache hash w = (inl er, w') ∧ eventHashes spork height cols = Ok hashes ∧
     result_ok c spork height (is_sealedResults st !! hash) hashes er unsealed) ∧
  ∃ s, Index (is_store st) height hash (mkIndexedBlock ts (bs_txns bs)) = Ok s ∧
       st' = finishBlock st s height hash (bs_newAccounts bs).

Lemma attempt_Ok n c spork height hash st st' (p p' : pst W) :
  attempt n c spork height hash st p = (Ok st', p') →
  ∃ cols bs ts, attempt_ok c spork height hash st st' (p_unsealed p') cols bs ts.
Proof.
  unfold attempt. intros (_ & p1 & _ & Hx)%bindP_Ok. apply bindP_Ok in Hx as (b & p2 & Hb%call_Ok & Hx).
  destruct b as [block|]; [|by apply lift_Ok in Hx as [? _]].
  apply bindP_Ok in Hx as (cols & p3 & _ & Hx).
  apply bindP_Ok in Hx as (hashes & p4 & [Hh ->]%lift_Ok & Hx).
  apply bindP_Ok in Hx as (er & p5 & (nc & w & w' & Her)%fetchExecResult_Ok & Hx).
  apply bindP_Ok in Hx as ([] & p6 & Hint & Hx).
  apply bindP_Ok in Hx as (bs & p7 & HP & Hx).
  pose proof (processCollectionsP_unsealed (is_ix st)
    (bool_decide (toFlowIdentifier hash ∈ cc_SkipBlocks c)) hash cols p6) as Hu.
  rewrite HP in Hu. simpl in Hu.
  apply bindP_Ok in Hx as (s & p8 & [HI Hu']%indexLoop_Ok & [-> ->]%mret_Ok).
  eexists cols, bs, _. split; [by eapply processCollectionsP_Ok|].
  split; [by eauto 8|]. split; [|by eauto].
  intros Hskip. rewrite Hskip in Hint. exists nc, w, w', hashes, er. split; [done|]. split; [done|].
  rewrite Hu', Hu. by eapply checkIntegrity_Ok.
Qed.

Lemma outer_Ok n c spork height hash st st' (p p' : pst W) :
  outer n c spork height hash st p = (Ok st', p') →
  ∃ cols bs ts, attempt_ok c spork height hash st st' (p_unsealed p') cols bs ts.
Proof.
  revert p. induction n as [|n IH]; intros p; [done|]. cbn [outer].
  destruct (attempt _ _ _ _ _ _ p) as [r p1] eqn:Ha.
  destruct r as [st1|[]| |]; try done; [|apply IH..].
  intros [= -> ->]. by eapply attempt_Ok.
Qed.
End ok.
