(* ===== verification/ProcessMain.v ===== *)
(** * The promises of block processing

    The fast path recovers the collections of a block, an indexed block has
    passed the integrity checks, and a processed block extends the index. *)
From S2P Require Import Prelude Bytes Model Txn Badger Crypto Convert IndexDB IndexSpec IndexProofs IndexTheorems.
From S2P Require Import IndexMain ConvertMain Indexer IndexerProofs IndexerWf IndexerMain Process ProcessProofs.
Local Open Scope Z_scope.

(** ** Grouping *)

Section grouping.

(** A collection of the block: one collection id, and a body for each result. *)
Definition uniform (id : bytes) (col : collectionData) : Prop :=
  Forall (λ r, tr_CollectionId r = id) (cd_txnResults col) ∧ cd_txnResults col ≠ [].
Definition aligned (col : collectionData) : Prop := length (cd_txns col) = length (cd_txnResults col).

(** The collection ids of neighbouring groups differ. *)
Fixpoint alternating (ids : list bytes) : Prop :=
  match ids with
  | id1 :: ((id2 :: _) as rest) => id1 ≠ id2 ∧ alternating rest
  | _ => True
  end.

Lemma alternating_cons id id' ids : alternating (id :: id' :: ids) ↔ id ≠ id' ∧ alternating (id' :: ids).
Proof. done. Qed.

Lemma groupFrom_spec results : ∀ cur prev txns,
  uniform prev cur →
  ∃ ids, Forall2 uniform (prev :: ids) (groupFrom cur prev txns results) ∧ alternating (prev :: ids) ∧
    mjoin (cd_txnResults <$> groupFrom cur prev txns results) = cd_txnResults cur ++ results ∧
    (aligned cur → (length results ≤ length txns)%nat →
     Forall aligned (groupFrom cur prev txns results) ∧
     mjoin (cd_txns <$> groupFrom cur prev txns results) = cd_txns cur ++ take (length results) txns).
Proof.
  induction results as [|r results IH]; intros cur prev txns [Hu Hne]; cbn [groupFrom].
  { exists []. split; [by repeat constructor|]. split; [done|]. cbn. rewrite !app_nil_r.
    split; [done|]. intros Ha _. by split; [constructor|]. }
  case_bool_decide as Hsame; cbv zeta.
  - set (cur' := mkCollectionData _ _ _).
    destruct (IH cur' (tr_CollectionId r) (tail txns)) as (ids & H1 & H2 & H3 & H4).
    { split; [|by destruct (cd_txnResults cur)]. apply Forall_app. rewrite Hsame. auto. }
    exists ids. rewrite <-Hsame. split; [done|]. split; [done|]. split.
    { rewrite H3. simpl. by rewrite <-(assoc_L (++)). }
    intros Ha Hl. destruct txns as [|t txns]; [simpl in Hl; lia|]. destruct H4 as [H4 H5].
    + unfold aligned, cur' in *. simpl. rewrite !length_app. simpl. lia.
    + simpl in *. lia.
    + split; [done|]. rewrite H5. simpl. by rewrite <-(assoc_L (++)).
  - set (cur' := mkCollectionData _ _ _).
    destruct (IH cur' (tr_CollectionId r) (tail txns)) as (ids & H1 & H2 & H3 & H4).
    { split; [|done]. by constructor. }
    exists (tr_CollectionId r :: ids). split; [constructor; [done|exact H1]|].
    split; [by rewrite alternating_cons|]. split.
    { rewrite fmap_cons. set (rest := groupFrom _ _ _ _) in *.
      change (mjoin (cd_txnResults cur :: (cd_txnResults <$> rest)))
        with (cd_txnResults cur ++ mjoin (cd_txnResults <$> rest)). by rewrite H3. }
    intros Ha Hl. destruct txns as [|t txns]; [simpl in Hl; lia|]. destruct H4 as [H4 H5].
    + done.
    + simpl in *. lia.
    + split; [by constructor|]. rewrite fmap_cons. set (rest := groupFrom _ _ _ _) in *.
      change (mjoin (cd_txns cur :: (cd_txns <$> rest))) with (cd_txns cur ++ mjoin (cd_txns <$> rest)).
      by rewrite H5.
Qed.

Lemma groupFrom_system results : ∀ cur prev txns, cd_system cur = false →
  Forall (λ col, cd_system col = false) (groupFrom cur prev txns results).
Proof.
  induction results as [|r results IH]; intros cur prev txns Hc; cbn [groupFrom]; [by repeat constructor|].
  case_bool_decide; [|constructor; [done|]]; by apply IH.
Qed.

(** What the grouping of a block owes to the results [results]. *)
Definition grouped (txns : list FlowTransaction) (results : list TransactionResult) (cols : list collectionData) : Prop :=
  mjoin (cd_txnResults <$> cols) = results ∧
  (results ≠ [] → ∃ ids, Forall2 uniform ids cols ∧ alternating ids) ∧
  ((length results ≤ length txns)%nat →
   Forall aligned cols ∧ mjoin (cd_txns <$> cols) = take (length results) txns).

(** Marking the last collection as the system collection keeps the grouping. *)
Lemma grouped_mark txns results init c :
  grouped txns results (init ++ [c]) →
  grouped txns results (init ++ [mkCollectionData true (cd_txns c) (cd_txnResults c)]).
Proof.
  unfold grouped. rewrite !fmap_app. intros (H1 & H2 & H3). split; [exact H1|]. split.
  - intros Hne. destruct (H2 Hne) as (ids & Hu & Ha). exists ids. split; [|done].
    apply Forall2_app_inv_r in Hu as (l1 & l2 & Hl1 & Hl2 & ->). apply Forall2_app; [done|].
    apply Forall2_cons_inv_r in Hl2 as (id & l & Hid & Hl & ->).
    apply Forall2_nil_inv_r in Hl as ->. constructor; [exact Hid|constructor].
  - intros Hle. destruct (H3 Hle) as [Hal Ht]. split; [|exact Ht].
    apply Forall_app in Hal as [Hi Hc]. apply Forall_app. split; [done|].
    inv Hc. by repeat constructor.
Qed.

Lemma fastPath_cols txns results :
  ∃ init c, fastPathCollections txns results = init ++ [mkCollectionData true (cd_txns c) (cd_txnResults c)] ∧
    grouped txns results (init ++ [c]) ∧ Forall (λ col, cd_system col = false) init.
Proof.
  unfold fastPathCollections. set (cols := match results with [] => _ | _ => _ end).
  assert (grouped txns results cols ∧ cols ≠ [] ∧ Forall (λ col, cd_system col = false) cols) as (Hg & Hne & Hs).
  { destruct results as [|r results].
    - split; [|by repeat constructor]. split; [done|]. split; [done|]. intros _. by repeat constructor.
    - unfold cols. split; [|split; [|by apply groupFrom_system]].
      + destruct (groupFrom_spec results (mkCollectionData false (take 1 txns) [r]) (tr_CollectionId r) (tail txns))
          as (ids & H1 & H2 & H3 & H4); [by split; [constructor|]|].
        split; [exact H3|]. split; [by eauto|]. intros Hle. destruct txns as [|t txns]; [simpl in Hle; lia|].
        destruct H4 as [H4 H5]; [done|simpl in *; lia|]. split; [exact H4|]. exact H5.
      + intros Hn. destruct (groupFrom_spec results (mkCollectionData false (take 1 txns) [r]) (tr_CollectionId r) (tail txns))
          as (ids & H1 & _); [by split; [constructor|]|]. rewrite Hn in H1. inv H1. }
  destruct cols as [|c init _] using rev_ind; [done|]. exists init, c.
  rewrite last_snoc, removelast_last. split; [done|]. split; [done|].
  by apply Forall_app in Hs as [? _].
Qed.
End grouping.

Section main.
Context {W DB : Type} `{!AccessAPI W, CadenceLaws, !Secp256k1, !FlowGo, !MapRange bytes}.
Context `{BadgerLaws DB, !BadgerReliable DB, !Proto IndexedBlock, !Proto BlockMeta}.

Lemma finishBlock_wf (st : IndexerState (DB:=DB)) s height hash na :
  ix_wf (is_ix st) → addr_keys na → ix_wf (is_ix (finishBlock st s height hash na)).
Proof.
  intros [Ha Ho] Hna. split; [|done]. intros k v. simpl.
  intros [Hk|[_ Hk]]%lookup_union_Some_raw; eauto.
Qed.

(** ** Theorems *)

(** The fast path cuts the results of a block into its collections: nothing
    is lost or reordered, a collection has one collection id and neighbours have
    different ids, every result keeps its own transaction, and exactly the last
    collection is the system collection. *)
Theorem fast_path_groups txns results :
  let cols := fastPathCollections txns results in
  grouped txns results cols ∧
  ∃ init sys, cols = init ++ [sys] ∧ cd_system sys = true ∧ Forall (λ col, cd_system col = false) init.
Proof.
  destruct (fastPath_cols txns results) as (init & c & Heq & Hg & Hs). cbv zeta. rewrite Heq. split.
  - by apply grouped_mark.
  - eauto.
Qed.

(** Fuel only bounds the number of retries: once [processBlock] ends, any
    larger fuel gives the same end and the same state of the world. *)
Theorem process_block_fuel n m c nc spork height hash (st : IndexerState (DB:=DB)) (w : W) :
  (n ≤ m)%nat → (processBlock n c nc spork height hash st w).1 ≠ Err OutOfFuel →
  processBlock m c nc spork height hash st w = processBlock n c nc spork height hash st w.
Proof. apply outer_more_fuel. Qed.

(** A cancelled context at the very start of [processBlock] is not a clean
    return: the deferred call on the span that was never set panics. *)
Theorem early_cancel_panics n c nc spork height hash (st : IndexerState (DB:=DB)) (w w' : W) :
  ctx_Done w = (true, w') → (processBlock (S n) c nc spork height hash st w).1 = Panic.
Proof.
  intros Hd. unfold processBlock. cbn [outer]. unfold attempt, mbind, proc_mbind, poll_outer.
  cbn [p_world]. by rewrite Hd.
Qed.


(** C12: Processing the block after the latest one extends the history the store
    represents by one well-formed block, records it as the last indexed one,
    forgets its seal, and keeps every account an eight-byte address. *)
Theorem processed_block_extends_index n c nc spork hash (st st' : IndexerState (DB:=DB)) (w0 : W) p' g hist :
  let height := top g hist + 1 in
  repr (is_store st) g hist → ix_wf (is_ix st) → height < 2 ^ 64 → hash ∉ e_hash <$> hist →
  processBlock n c nc spork height hash st w0 = (Ok st', p') →
  ∃ block, wf_block block ∧ repr (is_store st') g (hist ++ [mkEntry height hash block]) ∧
    bm_Hash (is_lastIndexed st') = hash ∧ bm_Height (is_lastIndexed st') = height ∧
    is_sealedResults st' = delete hash (is_sealedResults st) ∧
    ix_wf (is_ix st') ∧ dom (ix_accts (is_ix st)) ⊆ dom (ix_accts (is_ix st')).
Proof.
  intros height Hrep Hix Hlt Hf (cols & bs & ts & HP & _ & _ & s & HI & ->)%outer_Ok.
  pose proof (processed_block_wf _ Hix _ _ _ _ _ ts HP) as Hwf.
  exists (mkIndexedBlock ts (bs_txns bs)). split; [done|].
  split; [exact (Index_repr _ _ _ _ _ _ _ Hrep eq_refl Hlt Hf Hwf HI)|].
  do 3 (split; [done|]). split.
  - apply finishBlock_wf; [done|]. by eapply (processCollections_wf _ Hix).
  - simpl. rewrite dom_union_L. set_solver.
Qed.
End main.

(** ** A concrete run

    The first call for the block fails; the retry fetches it, checks it against
    its seal and indexes it on top of the demo store. *)
Module ProcessDemo.
#[local] Existing Instances ConvertDemo.flowgo IndexerDemo.cadence IndexerDemo.cadence_laws CryptoDemo.secp.
#[local] Existing Instances Demo.range Demo.proto_meta Demo.proto_block gmap_badger.

Definition spork : Spork := ConvertDemo.spork.
Definition hash : bytes := [xcc].
Definition hashes : list Identifier :=
  match eventHashes spork 7 IndexerDemo.cols with Ok l => l | _ => [] end.
Definition chunk (h : bytes) : ChunkMsg := mkChunkMsg 0 [x01; x02] h [xcc] 7 1 0 [x03; x04] 0.
Definition er : ExecutionResultMsg :=
  mkExecutionResultMsg [xaa] [xcc] ((λ h, Some (chunk h)) <$> hashes) [] [xdd].
Definition resultID : Identifier :=
  match convertExecutionResult 8 er with
  | Ok (Some exec) => match deriveExecutionResult spork exec with Ok id => id | _ => ZeroID end
  | _ => ZeroID
  end.

#[local] Instance api : AccessAPI nat := {|
  api_BlockHeaderByHeight _ _ w := (inl ConvertDemo.header, w);
  api_BlockByHeight _ _ w := match w with
    | O => (inr (mkGrpcErr NotFound ""), 1%nat)
    | _ => (inl (mkBlockMsg [] [] [] [] [] 2000 hash 7 [xbb]), w)
    end;
  api_TransactionsByBlockID _ _ w := (inl [IndexerDemo.transaction], w);
  api_TransactionResultsByBlockID _ _ w := (inl [IndexerDemo.result], w);
  api_CollectionByID _ _ w := (inl [], w);
  api_Transaction _ _ w := (inl IndexerDemo.transaction, w);
  api_TransactionResult _ _ _ w := (inl IndexerDemo.result, w);
  api_ExecutionResultForBlockID _ _ w := (inl er, w);
  ctx_Done w := (false, w);
|}.

Definition c : ChainConfig := mkChainConfig ∅ 0 60.
Definition w0 : nat := 0%nat.
Definition st : IndexerState (DB:=gmap bytes bytes) :=
  mkIndexerState IndexerDemo.ix Demo.s Demo.g {[hash := resultID]}.
Definition run := processBlock 2 c false spork 7 hash st w0.
Definition st' : IndexerState (DB:=gmap bytes bytes) := match run.1 with Ok st' => st' | _ => st end.

Lemma run_ok : run = (Ok st', run.2).
Proof.
  assert (is_Ok run.1 = true) as Hr by (vm_compute; reflexivity).
  unfold st'. destruct run as [[]]; try discriminate Hr. reflexivity.
Qed.

Lemma process_block_fuel_witness : processBlock 9 c false spork 7 hash st w0 = run.
Proof.
  apply (process_block_fuel 2 9 c false spork 7 hash st w0); [lia|]. fold run. by rewrite run_ok.
Defined.

(** The same world after the context is cancelled. *)
Definition cancelled : AccessAPI nat := {|
  api_BlockHeaderByHeight := api_BlockHeaderByHeight;
  api_BlockByHeight := api_BlockByHeight;
  api_TransactionsByBlockID := api_TransactionsByBlockID;
  api_TransactionResultsByBlockID := api_TransactionResultsByBlockID;
  api_CollectionByID := api_CollectionByID;
  api_Transaction := api_Transaction;
  api_TransactionResult := api_TransactionResult;
  api_ExecutionResultForBlockID := api_ExecutionResultForBlockID;
  ctx_Done w := (true, w);
|}.

Lemma early_cancel_panics_witness :
  (@processBlock _ _ cancelled _ _ _ _ _ _ _ 5 c false spork 7 hash st w0).1 = Panic.
Proof. apply (@early_cancel_panics _ _ cancelled _ _ _ _ _ _ _ 4 c false spork 7 hash st w0 w0 eq_refl). Defined.


Lemma processed_block_extends_index_witness :
  ∃ block, wf_block block ∧ repr (is_store st') Demo.g (Demo.hist ++ [mkEntry 7 hash block]) ∧
    bm_Hash (is_lastIndexed st') = hash ∧ bm_Height (is_lastIndexed st') = 7 ∧
    is_sealedResults st' = delete hash {[hash := resultID]} ∧
    ix_wf (is_ix st') ∧ dom (ix_accts IndexerDemo.ix) ⊆ dom (ix_accts (is_ix st')).
Proof.
  exact (processed_block_extends_index 2 c false spork hash st st' w0 run.2 Demo.g Demo.hist Demo.repr_s
    IndexerDemo.ix_ok eq_refl ltac:(set_solver) run_ok).
Defined.
End ProcessDemo.
