(* ===== verification/State.v ===== *)
(** * The indexer's main loops

    Model of [src/state/state.go]: starting up from the index, walking the hash
    chain of past sporks back from the live root block, and following the live
    spork block by block. *)
From S2P Require Import Prelude Bytes Model Badger Crypto Convert Config IndexDB Indexer Process.
Local Open Scope Z_scope.

(** ** The outside world

    Besides the access nodes of each spork: the context, the clock in
    nanoseconds, and the protocol state of the consensus follower, whose lookups
    fail with [true] for [storage.ErrNotFound] and [false] for other errors. *)
Class NodeEnv (W : Type) := {
  node_Done : W → bool * W;
  node_Now : W → Z * W;
  LookupBlockHeight : Z → W → (Identifier + bool) * W;
  LookupBySealedBlockID : Identifier → W → (Identifier + bool) * W;
  (** the block and the result of a seal *)
  RetrieveSeal : Identifier → W → (Identifier * Identifier + bool) * W;
}.
#[export] Hint Mode NodeEnv ! : typeclass_instances.

(** Code that changes the world and may leave early. *)
Definition act (W A : Type) : Type := W → outcome stop A * W.
#[export] Instance act_mret W : MRet (act W) := λ A a w, (Ok a, w).
#[export] Instance act_mbind W : MBind (act W) := λ A B f m w,
  match m w with
  | (Ok a, w') => f a w'
  | (Err e, w') => (Err e, w')
  | (Fatal, w') => (Fatal, w')
  | (Panic, w') => (Panic, w')
  end.
Definition pureA {W A} (m : outcome stop A) : act W A := λ w, (m, w).
Definition envA {W A} (f : W → A * W) : act W A := λ w, let '(a, w') := f w in (Ok a, w').

(** An error of the store ends the process where the indexer starts up. *)
Definition or_exit {E A} (m : outcome E A) : outcome stop A :=
  match m with Ok a => Ok a | Err _ => Fatal | Fatal => Fatal | Panic => Panic end.

Section state.
Context {W DB : Type} (client : Spork → AccessAPI W).
Context `{!NodeEnv W, !Cadence, !Secp256k1, !FlowGo, !MapRange bytes}.
Context `{!Badger DB, !Proto IndexedBlock, !Proto BlockMeta}.

Definition chain_config (o : Online) : ChainConfig :=
  mkChainConfig (ch_SkipBlocks o) (ch_SporkSealTolerance o) (ch_MaxBackoffInterval o).

(** ** Starting up *)

Fixpoint findRootBlock (fuel : nat) (spork : Spork) : act W (option BlockMeta) :=
  match fuel with
  | O => pureA (Err OutOfFuel)
  | S fuel =>
      done ← envA node_Done;
      if done : bool then mret None
      else
        b ← envA (@api_BlockByHeight W (client spork) false (sp_RootBlock spork));
        match b with
        | inr _ => findRootBlock fuel spork
        | inl block =>
            if blk_Height block =? sp_RootBlock spork
            then mret (Some (mkBlockMeta (blk_Id block) (blk_Height block) (blk_ParentId block)
                               (u64 (UnixNano (blk_Timestamp block)))))
            else findRootBlock fuel spork
        end
  end.

(** [None] is the early return of a cancelled context; otherwise the store,
    [lastIndexed] and [liveRoot]. *)
Definition initStore (fuel : nat) (o : Online) (s : Store DB)
    : act W (option (Store DB * option BlockMeta * BlockMeta)) :=
  g ← pureA (or_exit (Genesis s));
  latest ← pureA (or_exit (LatestSpork (ch_Sporks o)));
  match g.2 with
  | Some _ =>
      l ← pureA (or_exit (Latest g.1));
      root ← findRootBlock fuel latest;
      mret ((λ root, (l.1, l.2, root)) <$> root)
  | None =>
      first ← pureA (or_exit (FirstSpork (ch_Sporks o)));
      genesis ← findRootBlock fuel first;
      match genesis with
      | None => mret None
      | Some genesis =>
          s ← pureA (or_exit (SetGenesis g.1 genesis));
          root ← findRootBlock fuel latest;
          mret ((λ root, (s, Some genesis, root)) <$> root)
      end
  end.

Definition handlePurgeProxyAccounts (o : Online) (s : Store DB) : outcome stop (Store DB) :=
  if ch_PurgeProxyAccounts o then or_exit (PurgeProxyAccounts s) else Ok s.

Definition handleResyncFrom (o : Online) (s : Store DB) (lastIndexed : option BlockMeta)
    : outcome stop (Store DB * option BlockMeta) :=
  let height := ch_ResyncFrom o in
  if height =? 0 then Ok (s, lastIndexed)
  else
    g ← or_exit (Genesis s);
    genesis ← deref g.2;
    if height <? bm_Height genesis then Fatal
    else
      let '(s, r) := ResetTo g.1 height in
      _ ← or_exit r;
      l ← or_exit (Latest s);
      _ ← deref l.2;
      Ok l.

Definition eventType (addr name : string) : string := "A." +:+ addr +:+ "." +:+ name.

Definition initState (o : Online) (ct : Contracts) (s : Store DB) : outcome stop Indexer :=
  accts ← or_exit (Accounts s);
  feeAddrs ← or_exit (FeeAddresses ct);
  Ok (mkIndexer accts (foldl (λ m addr, <[addr := true]> m) ∅ (ch_Originators o)) feeAddrs
        (eventType (FlowColdStorageProxy ct) "FlowColdStorageProxy.Created")
        (eventType (FlowColdStorageProxy ct) "FlowColdStorageProxy.Deposited")
        (eventType (FlowColdStorageProxy ct) "FlowColdStorageProxy.Transferred")
        (eventType (FlowToken ct) "FlowToken.TokensDeposited")
        (eventType (FlowToken ct) "FlowToken.TokensWithdrawn")).

(** The state of the [Indexer] once it runs. *)
Record Node := mkNode {
  n_idx : IndexerState (DB:=DB);
  n_liveRoot : BlockMeta;
  n_synced : bool;
}.

(** ** Processing a block of a spork

    [processBlock] has no result: when it returns because the context is done,
    the caller goes on with the indexer as it was. *)
Definition runBlock (fuel : nat) (o : Online) (nocache : bool) (spork : Spork) (height : Z) (hash : bytes)
    (st : IndexerState (DB:=DB)) : act W (IndexerState (DB:=DB)) := λ w,
  let '(r, p) := @processBlock W DB (client spork) _ _ _ _ _ _ _ fuel (chain_config o) nocache spork
                 height hash st w in
  (match r with Err Cancelled => Ok st | r => r end, p_world p).

(** ** Past sporks *)

Definition add_seal (m : gmap bytes Identifier) (seal : BlockSealMsg) : gmap bytes Identifier :=
  <[bsl_BlockId seal := bsl_ResultId seal]> m.

(** The loop of [getVerifiedParent]: the parent of a block whose header and
    body are verified, and the results its seals record. *)
Fixpoint verifiedParent (fuel : nat) (spork : Spork) (hash : bytes) (height : Z) (skipCache : bool)
    (sealed : gmap bytes Identifier) : act W (option (bytes * gmap bytes Identifier)) :=
  match fuel with
  | O => pureA (Err OutOfFuel)
  | S fuel =>
      done ← envA node_Done;
      if done : bool then mret None
      else
        h ← envA (@api_BlockHeaderByHeight W (client spork) skipCache height);
        match h with
        | inr _ => verifiedParent fuel spork hash height skipCache sealed
        | inl hdr =>
            if negb (bool_decide (bh_Id hdr = hash)) then verifiedParent fuel spork hash height true sealed
            else
              b ← envA (@api_BlockByHeight W (client spork) skipCache height);
              match b with
              | inr _ => verifiedParent fuel spork hash height skipCache sealed
              | inl block =>
                  if negb (bool_decide (blk_Id block = hash)) then verifiedParent fuel spork hash height true sealed
                  else
                    ok ← pureA (of_convert (verifyBlockHash spork hash hdr block));
                    if negb ok then verifiedParent fuel spork hash height true sealed
                    else mret (Some (blk_ParentId block, foldl add_seal sealed (blk_BlockSeals block)))
              end
        end
  end.

Definition getVerifiedParent (fuel : nat) (o : Online) (hash : bytes) (height : Z)
    (sealed : gmap bytes Identifier) : act W (option (bytes * gmap bytes Identifier)) :=
  s ← pureA (or_exit (SporkFor (ch_Sporks o) height));
  spork ← pureA (deref s);
  verifiedParent fuel spork hash height false sealed.

(** The first loop of [indexPastSporks], from the live root down to
    [startHeight]; an empty parent id is decoded as nil. [None] is the early
    return. *)
Fixpoint walkBack (fuel : nat) (o : Online) (root : BlockMeta) (height startHeight : Z)
    (hashes : list bytes) (parent : bytes) (sealed : gmap bytes Identifier)
    : act W (gmap bytes Identifier * option (list bytes * bytes)) :=
  match fuel with
  | O => pureA (Err OutOfFuel)
  | S n =>
      if height <? startHeight then mret (sealed, Some (hashes, parent))
      else
        match hashes with
        | [] => walkBack n o root (u64 (height - 1)) startHeight [bm_Hash root] (bm_Parent root) sealed
        | _ =>
            let hash := parent in
            r ← getVerifiedParent fuel o hash height sealed;
            match r with
            | None => mret (sealed, None)
            | Some ([], sealed) => mret (sealed, None)
            | Some (parent, sealed) =>
                walkBack n o root (u64 (height - 1)) startHeight (hashes ++ [hash]) parent sealed
            end
        end
  end.

(** The second loop: the hashes found, oldest first. *)
Fixpoint indexHashes (fuel : nat) (o : Online) (height : Z) (hashes : list bytes)
    (st : IndexerState (DB:=DB)) : act W (IndexerState (DB:=DB)) :=
  match hashes with
  | [] => mret st
  | hash :: hashes =>
      done ← envA node_Done;
      if done : bool then mret st
      else
        s ← pureA (or_exit (SporkFor (ch_Sporks o) height));
        spork ← pureA (deref s);
        st ← runBlock fuel o false spork height hash st;
        indexHashes fuel o (u64 (height + 1)) hashes st
  end.

Definition set_sealed (st : IndexerState (DB:=DB)) (m : gmap bytes Identifier) : IndexerState (DB:=DB) :=
  mkIndexerState (is_ix st) (is_store st) (is_lastIndexed st) m.

Definition indexPastSporks (fuel : nat) (o : Online) (root lastIndexed : BlockMeta) (startHeight : Z)
    (st : IndexerState (DB:=DB)) : act W (IndexerState (DB:=DB)) :=
  r ← walkBack fuel o root (bm_Height root) startHeight [] [] (is_sealedResults st);
  let st := set_sealed st r.1 in
  match r.2 with
  | None => mret st
  | Some (hashes, parent) =>
      if negb (bool_decide (bm_Hash lastIndexed = parent)) then mret st
      else indexHashes fuel o startHeight (reverse hashes) st
  end.

(** ** The live spork *)

(** The variables of [indexLiveSpork]; [lv_skipCache] and [lv_backoff] are reset
    for every height. *)
Record live := mkLive {
  lv_blocks : gmap bytes Z;
  lv_height : Z;
  lv_parent : bytes;
  lv_backoff : Z;
  lv_skipCache : bool;
  lv_node : Node;
}.

Definition second : Z := 10 ^ 9.
Definition syncWindow : Z := 60 * second.

Definition set_idx (nd : Node) (st : IndexerState (DB:=DB)) : Node := mkNode st (n_liveRoot nd) (n_synced nd).
Definition with_skipCache (lv : live) : live :=
  mkLive (lv_blocks lv) (lv_height lv) (lv_parent lv) (lv_backoff lv) true (lv_node lv).
Definition with_backoff (d : Z) (lv : live) : live :=
  mkLive (lv_blocks lv) (lv_height lv) (lv_parent lv) d (lv_skipCache lv) (lv_node lv).

(** Whether the consensus follower has the seal of the block too. *)
Definition sealInConsensus (seal : BlockSealMsg) : act W bool :=
  sealID ← envA (LookupBySealedBlockID (toFlowIdentifier (bsl_BlockId seal)));
  match sealID with
  | inr _ => mret false
  | inl sealID =>
      blockSeal ← envA (RetrieveSeal sealID);
      match blockSeal with
      | inr _ => mret false
      | inl (blockID, resultID) =>
          mret (bool_decide (bsl_BlockId seal = blockID) && bool_decide (bsl_ResultId seal = resultID))
      end
  end.

(** The loop over the seals of a retrieved block. The result is false when it
    ends in [continue inner]; what it did before stays done. *)
Fixpoint processSeals (fuel : nat) (o : Online) (nocache : bool) (spork : Spork) (seals : list BlockSealMsg)
    (blocks : gmap bytes Z) (st : IndexerState (DB:=DB)) : act W (bool * gmap bytes Z * IndexerState (DB:=DB)) :=
  match seals with
  | [] => mret (true, blocks, st)
  | seal :: seals =>
      match blocks !! bsl_BlockId seal with
      | None => processSeals fuel o nocache spork seals blocks st
      | Some blockHeight =>
          ok ← (if ch_UseConsensusFollower o then sealInConsensus seal else mret true);
          if negb ok then mret (false, blocks, st)
          else
            let st := set_sealed st (add_seal (is_sealedResults st) seal) in
            st ← runBlock fuel o nocache spork blockHeight (bsl_BlockId seal) st;
            processSeals fuel o nocache spork seals (delete (bsl_BlockId seal) blocks) st
      end
  end.

(** The block of this height in the consensus follower: the next state to retry
    with, or [None] to go on. *)
Definition checkConsensusBlock (o : Online) (block : BlockMsg) (lv : live) : act W (option live) :=
  if ch_UseConsensusFollower o then
    id ← envA (LookupBlockHeight (lv_height lv));
    match id with
    | inr notFound =>
        mret (Some (if notFound : bool then with_backoff (nextBackoff (chain_config o) (lv_backoff lv)) lv else lv))
    | inl id => mret (if bool_decide (id = blk_Id block) then None else Some (with_skipCache lv))
    end
  else mret None.

(** A verified block: its seals, then on to the next height. *)
Definition acceptBlock (fuel : nat) (o : Online) (spork : Spork) (block : BlockMsg) (lv : live) : act W live :=
  r ← processSeals fuel o (lv_skipCache lv) spork (blk_BlockSeals block)
        (<[blk_Id block := lv_height lv]> (lv_blocks lv)) (n_idx (lv_node lv));
  let '(ok, blocks, st) := r in
  let nd := set_idx (lv_node lv) st in
  if negb ok then mret (mkLive blocks (lv_height lv) (lv_parent lv) (lv_backoff lv) (lv_skipCache lv) nd)
  else
    now ← envA node_Now;
    let synced := now - blk_Timestamp block <? syncWindow in
    mret (mkLive blocks (u64 (lv_height lv + 1)) (blk_Id block) second false
            (mkNode st (n_liveRoot nd) synced)).

(** One round of the inner loop; [None] is the return of a done context. *)
Definition liveStep (fuel : nat) (o : Online) (spork : Spork) (lv : live) : act W (option live) :=
  done ← envA node_Done;
  if done : bool then mret None
  else
    h ← envA (@api_BlockHeaderByHeight W (client spork) (lv_skipCache lv) (lv_height lv));
    match h with
    | inr _ => mret (Some lv)
    | inl hdr =>
        b ← envA (@api_BlockByHeight W (client spork) (lv_skipCache lv) (lv_height lv));
        match b with
        | inr _ => mret (Some lv)
        | inl block =>
            if negb (bool_decide (blk_ParentId block = lv_parent lv)) then mret (Some (with_skipCache lv))
            else
              ok ← pureA (of_convert (verifyBlockHash spork (blk_Id block) hdr block));
              if negb ok then mret (Some (with_skipCache lv))
              else
                c ← checkConsensusBlock o block lv;
                match c with
                | Some lv => mret (Some lv)
                | None => lv ← acceptBlock fuel o spork block lv; mret (Some lv)
                end
        end
    end.

(** Before the loop: the root block of a live spork is self-sealed. *)
Definition liveStart (fuel : nat) (o : Online) (spork : Spork) (lastIndexed : BlockMeta) (startHeight : Z)
    (nd : Node) : act W live :=
  if startHeight =? sp_RootBlock spork then
    st ← runBlock fuel o false spork startHeight (bm_Hash (n_liveRoot nd)) (n_idx nd);
    mret (mkLive ∅ (u64 (startHeight + 1)) (bm_Hash (n_liveRoot nd)) second false (set_idx nd st))
  else mret (mkLive ∅ startHeight (bm_Hash lastIndexed) second false nd).

Fixpoint liveLoop (fuel : nat) (o : Online) (spork : Spork) (lv : live) : act W Node :=
  match fuel with
  | O => pureA (Err OutOfFuel)
  | S n =>
      r ← liveStep fuel o spork lv;
      match r with
      | None => mret (lv_node lv)
      | Some lv => liveLoop n o spork lv
      end
  end.

Definition indexLiveSpork (fuel : nat) (o : Online) (spork : Spork) (lastIndexed : BlockMeta) (startHeight : Z)
    (nd : Node) : act W Node :=
  lv ← liveStart fuel o spork lastIndexed startHeight nd;
  liveLoop fuel o spork lv.

(** ** The whole indexer *)

Fixpoint indexBlocks (fuel : nat) (o : Online) (nd : Node) : act W Node :=
  match fuel with
  | O => pureA (Err OutOfFuel)
  | S n =>
      done ← envA node_Done;
      if done : bool then mret nd
      else
        let lastIndexed := Clone (is_lastIndexed (n_idx nd)) in
        let startHeight := u64 (bm_Height lastIndexed + 1) in
        s ← pureA (or_exit (SporkFor (ch_Sporks o) startHeight));
        spork ← pureA (deref s);
        match sp_NextRootBlock spork with
        | None => indexLiveSpork fuel o spork lastIndexed startHeight nd
        | Some _ =>
            st ← indexPastSporks fuel o (n_liveRoot nd) lastIndexed startHeight (n_idx nd);
            indexBlocks n o (set_idx nd st)
        end
  end.

(** What [Run] does before it starts indexing; [None] when it gives up early. *)
Definition startup (fuel : nat) (o : Online) (ct : Contracts) (s : Store DB) : act W (option Node) :=
  r ← initStore fuel o s;
  match r with
  | None => mret None
  | Some (s, lastIndexed, root) =>
      s ← pureA (handlePurgeProxyAccounts o s);
      r ← pureA (handleResyncFrom o s lastIndexed);
      ix ← pureA (initState o ct r.1);
      lastIndexed ← pureA (deref r.2);
      mret (Some (mkNode (mkIndexerState ix r.1 lastIndexed ∅) root false))
  end.

(** [Run], up to the cache workers and the consensus follower it starts, which
    do not change the state of the indexer. *)
Definition Run (fuel : nat) (o : Online) (ct : Contracts) (s : Store DB) : act W (option Node) :=
  r ← startup fuel o ct s;
  match r with
  | None => mret None
  | Some nd => nd ← indexBlocks fuel o nd; mret (Some nd)
  end.
End state.
