(* ===== verification/StateProofs.v ===== *)
(** * Lemmas on the main loops

    What a successful [runBlock] does to a store that represents a history, and
    the hash chains the loops build. *)
From S2P Require Import Prelude Bytes Model Badger Crypto Convert Config IndexDB IndexSpec IndexProofs IndexTheorems.
From S2P Require Import IndexMain Indexer IndexerProofs IndexerWf IndexerMain Process ProcessProofs ProcessMain State.
Local Open Scope Z_scope.

Section act.
Context {W : Type}.

Lemma bindA_Ok {A B} (m : act W A) (f : A → act W B) w b w' :
  (m ≫= f) w = (Ok b, w') ↔ ∃ a w1, m w = (Ok a, w1) ∧ f a w1 = (Ok b, w').
Proof.
  unfold mbind, act_mbind. split.
  - destruct (m w) as [[a| | |] w1]; try done. eauto.
  - by intros (a & w1 & -> & ?).
Qed.

Lemma pureA_Ok {A} (m : outcome stop A) w (a : A) w' : pureA (W:=W) m w = (Ok a, w') ↔ m = Ok a ∧ w' = w.
Proof. unfold pureA. naive_solver. Qed.

Lemma retA_Ok {A} (a b : A) (w w' : W) : (mret a : act W A) w = (Ok b, w') ↔ b = a ∧ w' = w.
Proof. unfold mret, act_mret. naive_solver. Qed.

Lemma envA_Ok {A} (f : W → A * W) w a w' : envA f w = (Ok a, w') → f w = (a, w').
Proof. unfold envA. destruct (f w). naive_solver. Qed.

Lemma or_exit_Ok {E A} (m : outcome E A) a : or_exit m = Ok a → m = Ok a.
Proof. destruct m; naive_solver. Qed.
End act.

(** Takes one step of a run that ended well. *)
Ltac step_act H x w Hx :=
  apply bindA_Ok in H as (x & w & Hx & H).

Section node.
Context {W DB : Type} (client : Spork → AccessAPI W).
Context `{!NodeEnv W, CadenceLaws, !Secp256k1, !FlowGo, !MapRange bytes}.
Context `{BadgerLaws DB, !BadgerReliable DB, !Proto IndexedBlock, !Proto BlockMeta}.
Implicit Types st : IndexerState (DB:=DB).

(** The indexer's state against a history. *)
Definition idx_ok (g : BlockMeta) (hist : list entry) st : Prop :=
  repr (is_store st) g hist ∧ ix_wf (is_ix st).

(** ** Where an indexed block comes from *)

(** What a block can change in the indexer: accounts are added, and an account can
    become a proxy account; fee addresses stay. *)
Definition evolves (ix ix' : Indexer) : Prop :=
  dom (ix_accts ix) ⊆ dom (ix_accts ix') ∧ ix_feeAddrs ix' = ix_feeAddrs ix.
#[export] Instance evolves_preorder : PreOrder evolves.
Proof.
  split; [done|]. intros ix1 ix2 ix3 [Hd Hf] [Hd' Hf']. split; [by etrans|congruence].
Qed.

(** A verified block holds a seal with this result for this block. *)
Definition sealed_by (hash : bytes) (result : Identifier) : Prop :=
  ∃ spork hdr block seal, verifyBlockHash spork (blk_Id block) hdr block = Ok true ∧
    seal ∈ blk_BlockSeals block ∧ bsl_BlockId seal = hash ∧ bsl_ResultId seal = result.
Definition seals_ok (m : gmap bytes Identifier) : Prop := map_Forall sealed_by m.

Lemma add_seal_ok m seal : seals_ok m → sealed_by (bsl_BlockId seal) (bsl_ResultId seal) → seals_ok (add_seal m seal).
Proof. intros Hm Hs. by apply map_Forall_insert_2. Qed.

Lemma add_seals_ok m seals :
  seals_ok m → (∀ seal, seal ∈ seals → sealed_by (bsl_BlockId seal) (bsl_ResultId seal)) →
  seals_ok (foldl add_seal m seals).
Proof.
  revert m. induction seals as [|seal seals IH]; intros m Hm Hs; [done|]. cbn [foldl]. apply IH.
  - apply add_seal_ok; [done|]. apply Hs. left.
  - intros x Hx. apply Hs. by right.
Qed.

(** The block of an entry was built by the indexer [x.1] from collections whose
    events have the hashes of an execution result, and that result is the one a
    verified block seals, unless the block is on the skip list, self-sealed or in
    the tolerated range. *)
Definition genuine (o : Online) (ix0 : Indexer) (x : Indexer * entry) : Prop :=
  let '(ix, e) := x in
  let skip := bool_decide (toFlowIdentifier (e_hash e) ∈ ch_SkipBlocks o) in
  evolves ix0 ix ∧ ix_wf ix ∧
  ∃ spork cols bs ts,
    processCollections ix (λ _, false) skip (e_hash e) cols = Ok bs ∧
    e_block e = mkIndexedBlock ts (bs_txns bs) ∧
    (skip = false → ∃ hashes er sealed unsealed,
       (∃ nocache (w w' : W), @api_ExecutionResultForBlockID W (client spork) nocache (e_hash e) w = (inl er, w')) ∧
       eventHashes spork (e_height e) cols = Ok hashes ∧
       result_ok (chain_config o) spork (e_height e) sealed hashes er unsealed ∧
       ∀ id, sealed = Some id → sealed_by (e_hash e) id).

Lemma finishBlock_evolves st s height hash na : evolves (is_ix st) (is_ix (finishBlock st s height hash na)).
Proof. split; [|done]. cbn. rewrite dom_union. set_solver. Qed.

Lemma runBlock_effect g hist fuel o nocache spork height hash st st' (w w' : W) :
  idx_ok g hist st → seals_ok (is_sealedResults st) → u64_range_ok height →
  runBlock client fuel o nocache spork height hash st w = (Ok st', w') →
  evolves (is_ix st) (is_ix st') ∧
  (idx_ok g hist st' ∨
   height = top g hist + 1 ∧
     (hash ∉ e_hash <$> hist → ∃ block, idx_ok g (hist ++ [mkEntry height hash block]) st' ∧
        genuine o (is_ix st) (is_ix st, mkEntry height hash block))).
Proof.
  intros [Hrep Hix] Hseals Hok. unfold runBlock.
  destruct (processBlock _ _ _ _ _ _ _ _) as [r p] eqn:HP. intros [= Hr _].
  destruct r as [st1|[]| |]; simplify_eq; [|by split; [|left]].
  apply outer_Ok in HP as (cols & bs & ts & HP & _ & Hver & s & HI & ->).
  split; [apply finishBlock_evolves|].
  assert (ix_wf (is_ix (finishBlock st s height hash (bs_newAccounts bs)))) as Hix'.
  { apply finishBlock_wf; [done|]. by eapply (processCollections_wf _ Hix). }
  destruct (Index_next_height _ _ _ _ _ _ _ Hrep Hok HI) as [[_ ->]|[Heq Hlt]]; [by left|].
  right. split; [done|]. intros Hf. eexists. split.
  - split; [|done].
    exact (Index_repr _ _ _ _ _ _ _ Hrep Heq Hlt Hf (processed_block_wf _ Hix _ _ _ _ _ ts HP) HI).
  - split; [done|]. split; [done|]. exists spork, cols, bs, ts. split; [exact HP|]. split; [done|].
    intros Hskip. destruct (Hver Hskip) as (nc & w1 & w2 & hashes & er & Her & Hh & Hres).
    exists hashes, er, (is_sealedResults st !! hash), (p_unsealed p). split; [by eexists _, _, _|].
    split; [done|]. split; [done|]. intros id Hid. exact (Hseals _ _ Hid).
Qed.

(** Processing a block only forgets seals. *)
Lemma runBlock_seals fuel o nocache spork height hash st st' (w w' : W) :
  seals_ok (is_sealedResults st) →
  runBlock client fuel o nocache spork height hash st w = (Ok st', w') → seals_ok (is_sealedResults st').
Proof.
  intros Hs. unfold runBlock. destruct (processBlock _ _ _ _ _ _ _ _) as [r p] eqn:HP. intros [= Hr _].
  destruct r as [st1|[]| |]; simplify_eq; [|done].
  apply outer_Ok in HP as (cols & bs & ts & _ & _ & _ & s & _ & ->). by apply map_Forall_delete.
Qed.

Lemma idx_ok_sealed g hist st m : idx_ok g hist (set_sealed st m) ↔ idx_ok g hist st.
Proof. done. Qed.

Lemma top_snoc g hist e : top g (hist ++ [e]) = top g hist + 1.
Proof. unfold top. rewrite length_app. simpl. lia. Qed.

Lemma top_app g hist l : top g (hist ++ l) = top g hist + Z.of_nat (length l).
Proof. unfold top. rewrite length_app. lia. Qed.

(** Indexing along a chain of hashes: what has been added since [hist], by an
    indexer that started as [ix0], are the first blocks of [chain], each genuine. *)
Definition grows_along (o : Online) (ix0 : Indexer) (g : BlockMeta) (hist : list entry) (chain : list bytes) st : Prop :=
  seals_ok (is_sealedResults st) ∧
  (NoDup ((e_hash <$> hist) ++ chain) →
   ∃ steps, idx_ok g (hist ++ steps.*2) st ∧ evolves ix0 (is_ix st) ∧
     e_hash <$> steps.*2 `prefix_of` chain ∧ Forall (genuine o ix0) steps).

Lemma grows_start o g hist chain st :
  idx_ok g hist st → seals_ok (is_sealedResults st) → grows_along o (is_ix st) g hist chain st.
Proof.
  intros Hok Hs. split; [done|]. intros _. exists []. rewrite app_nil_r.
  split; [done|]. split; [done|]. split; [apply prefix_nil|constructor].
Qed.

Lemma grows_extend o ix0 g hist chain ext st :
  grows_along o ix0 g hist chain st → grows_along o ix0 g hist (chain ++ ext) st.
Proof.
  intros [Hs Hf]. split; [done|]. intros Hnd. rewrite (assoc_L (++)) in Hnd. apply NoDup_app in Hnd as (Hnd & _).
  destruct (Hf Hnd) as (steps & ? & ? & Hp & ?). exists steps. split_and!; [done..| |done]. by apply prefix_app_r.
Qed.

Lemma grows_sealed o ix0 g hist chain st m :
  grows_along o ix0 g hist chain st → seals_ok m → grows_along o ix0 g hist chain (set_sealed st m).
Proof. by intros [_ Hf] Hm. Qed.

Lemma genuine_evolves o ix0 ix x : evolves ix0 ix → genuine o ix x → genuine o ix0 x.
Proof. destruct x as [ix' e]. intros He (He' & Hrest). split; [by etrans|done]. Qed.

(** Processing the block of the chain at [height] keeps to the chain, whether it
    is old, next, too far ahead or cancelled. *)
Lemma grows_step g hist chain ix0 fuel o nocache spork height hash st st' (w w' : W) :
  grows_along o ix0 g hist chain st → u64_range_ok height →
  (∃ i, height = top g hist + 1 + Z.of_nat i ∧ chain !! i = Some hash) →
  runBlock client fuel o nocache spork height hash st w = (Ok st', w') →
  grows_along o ix0 g hist chain st'.
Proof.
  intros [Hs Hf] Hok (i & Hi & Hc) HR. split; [by eapply runBlock_seals|]. intros Hnd.
  destruct (Hf Hnd) as (steps & Hidx & Hev & Hp & Hgen).
  destruct (runBlock_effect _ _ _ _ _ _ _ _ _ _ _ _ Hidx Hs Hok HR) as (Hev' & [Hold|[Htop Hnext]]).
  { exists steps. split_and!; [done|by etrans|done..]. }
  rewrite top_app, length_fmap in Htop. assert (i = length steps) as -> by lia.
  destruct Hp as [rest ->]. rewrite lookup_app_r in Hc by by rewrite !length_fmap.
  rewrite !length_fmap, Nat.sub_diag in Hc. destruct rest as [|h rest]; [done|]. injection Hc as ->.
  destruct Hnext as (block & Hblk & Hg).
  { rewrite fmap_app. rewrite (assoc_L (++)) in Hnd. apply NoDup_app in Hnd as (_ & Hd & _).
    intros Hin. apply (Hd _ Hin). left. }
  exists (steps ++ [(is_ix st, mkEntry height hash block)]). rewrite !fmap_app, (assoc_L (++)).
  split; [done|]. split; [by etrans|]. split; [exists rest; by rewrite <-(assoc_L (++))|].
  apply Forall_app. split; [done|]. constructor; [|done]. by eapply genuine_evolves.
Qed.
End node.
