(* ===== verification/StateMain.v ===== *)
(** * The promises of the main loops

    Blocks of past sporks are indexed along a chain of verified blocks from the last
    indexed block to the live root, blocks of the live spork along the verified
    chain that continues it, and the indexer starts from what is stored. *)
From S2P Require Import Prelude Bytes Model Badger Crypto Convert Config ConfigMain IndexDB IndexSpec IndexProofs.
From S2P Require Import IndexTheorems IndexReset IndexMain Indexer IndexerProofs IndexerWf IndexerMain.
From S2P Require Import ConvertMain Process ProcessProofs ProcessMain State StateProofs.
Local Open Scope Z_scope.

Section main.
Context {W DB : Type} (client : Spork → AccessAPI W).
Context `{!NodeEnv W, CadenceLaws, !Secp256k1, !FlowGo, !MapRange bytes}.
Context `{BadgerLaws DB, !BadgerReliable DB, !Proto IndexedBlock, !Proto BlockMeta}.
Implicit Types (st : IndexerState (DB:=DB)) (s : Store DB) (d : DB).

(** [hash] is the derived hash of a header and body, and the block message
    names [parent]. (The hash covers the header's parent, not the message's:
    [unverified_parent] below.) *)
Definition verified (spork : Spork) (hash parent : bytes) : Prop :=
  ∃ hdr block, verifyBlockHash spork hash hdr block = Ok true ∧ blk_Id block = hash ∧
               blk_ParentId block = parent.

(** ** Past sporks *)

Section past.
Context (o : Online) (root : BlockMeta).

(** A chain of hashes from [height] up to the live root, oldest first, each
    verified in the spork of its height; [parent] is what it grows from. *)
Fixpoint past_chain (height : Z) (parent : bytes) (hs : list bytes) : Prop :=
  match hs with
  | [] => False
  | [hash] => hash = bm_Hash root ∧ parent = bm_Parent root ∧ height = bm_Height root
  | hash :: rest =>
      (∃ spork, SporkFor (ch_Sporks o) height = Ok (Some spork) ∧ verified spork hash parent) ∧
      past_chain (height + 1) hash rest
  end.

Lemma past_chain_length height parent hs :
  past_chain height parent hs → height + Z.of_nat (length hs) = bm_Height root + 1.
Proof.
  revert height parent. induction hs as [|h [|h' hs] IH]; intros height parent; [done| |].
  - intros (_ & _ & ->). simpl. lia.
  - intros [_ Hp]. apply IH in Hp. cbn [length] in *. lia.
Qed.

Lemma verifiedParent_Ok fuel spork hash height skip sealed parent sealed' (w w' : W) :
  verifiedParent client fuel spork hash height skip sealed w = (Ok (Some (parent, sealed')), w') →
  verified spork hash parent ∧ (seals_ok sealed → seals_ok sealed').
Proof.
  revert skip w. induction fuel as [|fuel IH]; intros skip w Hr; [done|]. cbn [verifiedParent] in Hr.
  step_act Hr dn w1 Hd. destruct dn; [by apply retA_Ok in Hr as [? _]|].
  step_act Hr h w2 Hh. destruct h as [hdr|]; [|eapply IH, Hr].
  destruct (negb _); [by eapply IH|]. step_act Hr b w3 Hb. destruct b as [block|]; [|eapply IH, Hr].
  case_bool_decide as Hid; [|eapply IH, Hr]. cbn [negb] in Hr.
  step_act Hr ok w4 Hv. apply pureA_Ok in Hv as [Hv ->]. apply of_convert_Ok in Hv.
  destruct ok; [|eapply IH, Hr]. apply retA_Ok in Hr as [[= -> ->] _].
  split; [by exists hdr, block|]. intros Hs. apply add_seals_ok; [done|]. intros seal Hseal.
  exists spork, hdr, block, seal. by rewrite Hid.
Qed.

Lemma walkBack_spec fuel height startHeight hashes parent sealed sealed' hashes' parent' (w w' : W) :
  1 ≤ startHeight → height < 2 ^ 64 →
  (hashes = [] ∧ height = bm_Height root ∨
   startHeight ≤ height + 1 ∧ past_chain (height + 1) parent (reverse hashes)) →
  walkBack client fuel o root height startHeight hashes parent sealed w = (Ok (sealed', Some (hashes', parent')), w') →
  hashes' = [] ∨ past_chain startHeight parent' (reverse hashes').
Proof.
  intros Hs. revert height hashes parent sealed w.
  induction fuel as [|fuel IH]; intros height hashes parent sealed w Hh Hinv Hr; [done|].
  cbn [walkBack] in Hr. destruct (Z.ltb_spec height startHeight) as [Hlt|Hge].
  - apply retA_Ok in Hr as [[= -> -> ->] _]. destruct Hinv as [[-> _]|[Hle Hp]]; [by left|]. right.
    by replace startHeight with (height + 1) by lia.
  - assert (u64 (height - 1) = height - 1) as Hu by (apply u64_id; lia). rewrite Hu in Hr.
    destruct hashes as [|h hs].
    + apply IH in Hr; [done|lia|]. right. split; [lia|]. destruct Hinv as [[_ ->]|[_ Hp]]; [|done].
      cbn. split; [done|]. split; [done|]. lia.
    + step_act Hr r w1 Hg. destruct r as [[[|b0 bs] sealed1]|]; try by apply retA_Ok in Hr as [[=] _].
      unfold getVerifiedParent in Hg. step_act Hg s w2 Hsp. apply pureA_Ok in Hsp as [Hsp%or_exit_Ok ->].
      step_act Hg spork w3 Hd. apply pureA_Ok in Hd as [Hd ->].
      destruct s as [s|]; [|done]. injection Hd as ->. apply verifiedParent_Ok in Hg as [Hg _].
      eapply IH; [| |exact Hr]; [lia|]. right. split; [lia|]. rewrite reverse_snoc.
      replace (height - 1 + 1) with height by lia. destruct Hinv as [[[=] _]|[_ Hp]].
      assert (reverse (h :: hs) ≠ []) as Hne by (rewrite reverse_cons; by destruct (reverse hs)).
      destruct (reverse (h :: hs)) as [|x xs] eqn:Hrev; [done|]. split; [|done]. by exists spork.
Qed.

(** The seals collected on the way come from verified blocks. *)
Lemma walkBack_seals fuel height startHeight hashes parent sealed r (w w' : W) :
  seals_ok sealed →
  walkBack client fuel o root height startHeight hashes parent sealed w = (Ok r, w') → seals_ok r.1.
Proof.
  revert height hashes parent sealed w.
  induction fuel as [|fuel IH]; intros height hashes parent sealed w Hs Hr; [done|].
  cbn [walkBack] in Hr. destruct (height <? startHeight); [by apply retA_Ok in Hr as [-> _]|].
  destruct hashes as [|h hs]; [by eapply IH|]. step_act Hr x w1 Hg.
  destruct x as [[parent1 sealed1]|]; [|by apply retA_Ok in Hr as [-> _]].
  assert (seals_ok sealed1) as Hs1.
  { unfold getVerifiedParent in Hg. step_act Hg s w2 Hsp. step_act Hg spork w3 Hd.
    by apply verifiedParent_Ok in Hg as [_ Hg]; apply Hg. }
  destruct parent1; [by apply retA_Ok in Hr as [-> _]|by eapply IH].
Qed.

Lemma indexHashes_grows fuel ix0 g hist chain height hs st st' (w w' : W) :
  grows_along client o ix0 g hist chain st → 0 ≤ height → height + Z.of_nat (length hs) ≤ 2 ^ 64 →
  (∀ i hash, hs !! i = Some hash →
     ∃ j, height + Z.of_nat i = top g hist + 1 + Z.of_nat j ∧ chain !! j = Some hash) →
  indexHashes client fuel o height hs st w = (Ok st', w') → grows_along client o ix0 g hist chain st'.
Proof.
  revert height st w. induction hs as [|hash hs IH]; intros height st w Hf Hpos Hb Hc Hr; cbn [indexHashes] in Hr.
  { by apply retA_Ok in Hr as [-> _]. }
  step_act Hr dn w1 Hd. destruct dn; [by apply retA_Ok in Hr as [-> _]|].
  step_act Hr s w2 Hs. step_act Hr spork w3 Hsp. step_act Hr st1 w4 Hrun. cbn [length] in Hb.
  assert (grows_along client o ix0 g hist chain st1) as Hf1.
  { refine (grows_step client _ _ _ _ _ _ _ _ _ _ _ _ _ _ Hf _ _ Hrun); [unfold u64_range_ok; lia|].
    destruct (Hc 0%nat hash eq_refl) as (j & Hj & Hl). exists j. split; [lia|done]. }
  destruct hs as [|h' hs']. { by apply retA_Ok in Hr as [-> _]. }
  cbn [length] in Hb. rewrite u64_id in Hr by lia. eapply IH; [exact Hf1| | | |exact Hr].
  - lia.
  - cbn [length]. lia.
  - intros i hsh Hi. destruct (Hc (S i) hsh Hi) as (j & Hj & Hl). exists j. split; [lia|done].
Qed.

Lemma indexPastSporks_spec fuel lastIndexed g hist st st' (w w' : W) :
  idx_ok g hist st → seals_ok (is_sealedResults st) → u64_range_ok (bm_Height root) →
  indexPastSporks client fuel o root lastIndexed (top g hist + 1) st w = (Ok st', w') →
  idx_ok g hist st' ∧ is_ix st' = is_ix st ∧ seals_ok (is_sealedResults st') ∨
  ∃ hs, past_chain (top g hist + 1) (bm_Hash lastIndexed) hs ∧ grows_along client o (is_ix st) g hist hs st'.
Proof.
  intros Hok Hs0 Hroot Hr. unfold u64_range_ok in Hroot. destruct (repr_top _ _ _ (proj1 Hok)) as (_ & _ & _ & Hpos).
  unfold indexPastSporks in Hr. step_act Hr r w1 Hw. pose proof (walkBack_seals _ _ _ _ _ _ _ _ _ Hs0 Hw) as Hs1.
  destruct r as [sealed [[hashes parent]|]]; cbn [fst snd] in Hr, Hs1.
  2: { apply retA_Ok in Hr as [-> _]. by left. }
  apply walkBack_spec in Hw; [|lia|lia|by left].
  case_bool_decide as Hp; cbn [negb] in Hr; [|by apply retA_Ok in Hr as [-> _]; left].
  destruct Hw as [-> |Hc]; [apply retA_Ok in Hr as [-> _]; by left|].
  right. exists (reverse hashes). rewrite Hp. split; [done|].
  pose proof (past_chain_length _ _ _ Hc) as Hlen.
  eapply indexHashes_grows; [| | | |exact Hr].
  - exact (grows_start client o g hist _ (set_sealed st sealed) Hok Hs1).
  - lia.
  - lia.
  - intros i hash Hi. exists i. split; [lia|done].
Qed.
End past.

(** ** The live spork *)

Section live.
Context (o : Online) (ix0 : Indexer) (spork : Spork) (root lastHash : bytes) (g : BlockMeta) (hist : list entry).

(** Each block is verified and names the one before it. *)
Fixpoint verified_chain (parent : bytes) (hs : list bytes) : Prop :=
  match hs with
  | [] => True
  | hash :: rest => verified spork hash parent ∧ verified_chain hash rest
  end.

(** The chain the live loop follows: it grows from the last indexed block, or
    from the live root when that is where it starts. *)
Definition live_chain (hs : list bytes) : Prop :=
  if top g hist + 1 =? sp_RootBlock spork
  then ∃ rest, hs = root :: rest ∧ verified_chain root rest
  else verified_chain lastHash hs.

Definition tip (hs : list bytes) : bytes := default lastHash (last hs).

Lemma verified_chain_snoc parent hs hash :
  verified_chain parent hs → verified spork hash (default parent (last hs)) → verified_chain parent (hs ++ [hash]).
Proof.
  revert parent. induction hs as [|h hs IH]; intros parent; cbn [verified_chain app]; [done|].
  intros [Hv Hc] Hh. split; [done|]. apply IH; [done|].
  rewrite last_cons in Hh. by destruct (last hs).
Qed.

Lemma live_chain_snoc hs hash :
  live_chain hs → verified spork hash (tip hs) → live_chain (hs ++ [hash]).
Proof.
  unfold live_chain, tip. destruct (_ =? _); [|apply verified_chain_snoc].
  intros (rest & -> & Hc) Hh. exists (rest ++ [hash]). split; [done|]. apply verified_chain_snoc; [done|].
  rewrite last_cons in Hh. by destruct (last rest).
Qed.

(** The follower's answer to a height does not change: it holds finalized
    blocks only. *)
Definition finalized : Prop := ∀ h (w1 w2 w1' w2' : W) id1 id2,
  LookupBlockHeight h w1 = (inl id1, w1') → LookupBlockHeight h w2 = (inl id2, w2') → id1 = id2.

(** [pend] is a block at the current height that was accepted before the loop
    over its seals was cut short. *)
Record live_inv (lv : live (DB:=DB)) (hs pend : list bytes) : Prop := {
  li_top : 0 ≤ top g hist;
  li_chain : live_chain (hs ++ pend);
  li_height : lv_height lv = top g hist + 1 + Z.of_nat (length hs);
  li_parent : lv_parent lv = tip hs;
  li_pend : pend = [] ∨ ch_UseConsensusFollower o = true ∧ ∃ id (w w' : W),
    pend = [id] ∧ LookupBlockHeight (lv_height lv) w = (inl id, w');
  li_blocks : ∀ id h, lv_blocks lv !! id = Some h →
    u64_range_ok h ∧ ∃ i, h = top g hist + 1 + Z.of_nat i ∧ (hs ++ pend) !! i = Some id;
  li_grows : grows_along client o ix0 g hist (hs ++ pend) (n_idx (lv_node lv));
}.

(** Every block waiting for its seal is on the chain. *)
Definition on_chain (chain : list bytes) (blocks : gmap bytes Z) : Prop :=
  ∀ id h, blocks !! id = Some h → u64_range_ok h ∧ ∃ i, h = top g hist + 1 + Z.of_nat i ∧ chain !! i = Some id.

Lemma processSeals_grows fuel nocache seals chain blocks st ok blocks' st' (w w' : W) :
  grows_along client o ix0 g hist chain st → on_chain chain blocks →
  (∀ seal, seal ∈ seals → sealed_by (bsl_BlockId seal) (bsl_ResultId seal)) →
  processSeals client fuel o nocache spork seals blocks st w = (Ok (ok, blocks', st'), w') →
  grows_along client o ix0 g hist chain st' ∧ on_chain chain blocks' ∧ (ok = false → ch_UseConsensusFollower o = true).
Proof.
  revert blocks st w. induction seals as [|seal seals IH]; intros blocks st w Hf Hb Hsl Hr; cbn [processSeals] in Hr.
  { by apply retA_Ok in Hr as [[= -> -> ->] _]. }
  assert (∀ x, x ∈ seals → sealed_by (bsl_BlockId x) (bsl_ResultId x)) as Hsl' by (intros x Hx; apply Hsl; by right).
  destruct (blocks !! bsl_BlockId seal) as [h|] eqn:Hl; [|by eapply IH, Hr].
  step_act Hr sok w1 Hs. destruct sok; cbn [negb] in Hr.
  - step_act Hr st1 w2 Hrun. destruct (Hb _ _ Hl) as [Hh Hi].
    eapply IH; [| |exact Hsl'|exact Hr].
    + refine (grows_step client _ _ _ _ _ _ _ _ _ _ _ _ _ _ _ Hh Hi Hrun).
      apply grows_sealed; [exact Hf|]. apply add_seal_ok; [apply Hf|]. apply Hsl. left.
    + intros id h'. rewrite lookup_delete_Some. intros [_ Hl']. by apply Hb.
  - apply retA_Ok in Hr as [[= -> -> ->] _]. split; [done|]. split; [done|]. intros _.
    destruct (ch_UseConsensusFollower o); [done|]. by apply retA_Ok in Hs as [? _].
Qed.

Lemma acceptBlock_inv fuel block lv lv' hs pend (w w' : W) :
  finalized → live_inv lv hs pend → verified spork (blk_Id block) (lv_parent lv) →
  (∃ hdr, verifyBlockHash spork (blk_Id block) hdr block = Ok true) → lv_height lv + 1 < 2 ^ 64 →
  (ch_UseConsensusFollower o = true → ∃ w w' : W, LookupBlockHeight (lv_height lv) w = (inl (blk_Id block), w')) →
  acceptBlock client fuel o spork block lv w = (Ok lv', w') →
  ∃ hs' pend', live_inv lv' hs' pend'.
Proof.
  intros Hfin [Hpos Hc Hh Hp Hpend Hb Hf] Hv [hdr Hhdr] Hlt Hcons Hr. set (id := blk_Id block) in *.
  assert (pend = [] ∨ pend = [id]) as Hpend'.
  { destruct Hpend as [->|(Huse & id' & w1 & w1' & -> & Hl)]; [by left|]. right.
    destruct (Hcons Huse) as (w2 & w2' & Hl2). by rewrite (Hfin _ _ _ _ _ _ _ Hl Hl2). }
  assert (live_chain (hs ++ [id]) ∧ grows_along client o ix0 g hist (hs ++ [id]) (n_idx (lv_node lv)) ∧
          on_chain (hs ++ [id]) (lv_blocks lv)) as (Hc' & Hf' & Hb').
  { destruct Hpend' as [-> | ->]; [|done]. rewrite app_nil_r in *. split; [|split].
    - apply live_chain_snoc; [done|]. by rewrite <-Hp.
    - by apply grows_extend.
    - intros x h Hx. destruct (Hb x h Hx) as (? & i & ? & Hi). split; [done|]. exists i. split; [done|].
      by apply lookup_app_l_Some. }
  unfold acceptBlock in Hr. step_act Hr r w1 Hs. destruct r as [[ok blocks] st].
  apply (processSeals_grows _ _ _ (hs ++ [id])) in Hs as (Hf2 & Hb2 & Hok); [|done| |].
  2: { intros x h. rewrite lookup_insert_Some. intros [[<- <-]|[_ Hx]]; [|by apply Hb'].
       split; [unfold u64_range_ok; lia|]. exists (length hs). split; [done|].
       rewrite lookup_app_r, Nat.sub_diag by lia. done. }
  2: { intros seal Hseal. by exists spork, hdr, block, seal. }
  destruct ok; cbn [negb] in Hr.
  - step_act Hr now w2 Hn. apply retA_Ok in Hr as [-> _]. exists (hs ++ [id]), [].
    split; cbn [lv_height lv_parent lv_blocks lv_node n_idx]; rewrite ?app_nil_r; try done.
    + rewrite u64_id by lia. rewrite length_app, Hh. simpl. lia.
    + unfold tip. by rewrite last_snoc.
    + by left.
  - apply retA_Ok in Hr as [-> _]. exists hs, [id].
    split; cbn [lv_height lv_parent lv_blocks lv_node n_idx]; try done.
    right. split; [by apply Hok|]. destruct (Hcons (Hok eq_refl)) as (w2 & w2' & Hl). by exists id, w2, w2'.
Qed.

Lemma liveStep_inv fuel lv lv' hs pend (w w' : W) :
  finalized → live_inv lv hs pend → lv_height lv + 1 < 2 ^ 64 →
  liveStep client fuel o spork lv w = (Ok (Some lv'), w') →
  ∃ hs' pend', live_inv lv' hs' pend'.
Proof.
  intros Hfin Hinv Hlt Hr. unfold liveStep in Hr.
  assert (live_inv (with_skipCache lv) hs pend) as Hsk by by destruct Hinv.
  step_act Hr dn w1 Hd. destruct dn; [by apply retA_Ok in Hr as [? _]|].
  step_act Hr h w2 Hh. destruct h as [hdr|]; [|apply retA_Ok in Hr as [[= ->] _]; by eauto].
  step_act Hr b w3 Hb. destruct b as [block|]; [|apply retA_Ok in Hr as [[= ->] _]; by eauto].
  case_bool_decide as Hp; cbn [negb] in Hr; [|apply retA_Ok in Hr as [[= ->] _]; by eauto].
  step_act Hr ok w4 Hv. apply pureA_Ok in Hv as [Hv%of_convert_Ok ->].
  destruct ok; cbn [negb] in Hr; [|apply retA_Ok in Hr as [[= ->] _]; by eauto].
  step_act Hr c w5 Hc. unfold checkConsensusBlock in Hc.
  assert (verified spork (blk_Id block) (lv_parent lv)) as Hver by by exists hdr, block.
  destruct (ch_UseConsensusFollower o) eqn:Huse.
  - step_act Hc lid w6 Hid. apply envA_Ok in Hid. destruct lid as [bid|nf].
    + apply retA_Ok in Hc as [-> _]. case_bool_decide as Heq; [|apply retA_Ok in Hr as [[= ->] _]; by eauto].
      step_act Hr lv1 w7 Ha. apply retA_Ok in Hr as [[= ->] _].
      eapply acceptBlock_inv; [done|exact Hinv|exact Hver|by exists hdr|done| |exact Ha]. intros _. subst bid. by eauto.
    + apply retA_Ok in Hc as [-> _]. apply retA_Ok in Hr as [[= ->] _].
      destruct nf; [|by eauto]. exists hs, pend. by destruct Hinv.
  - apply retA_Ok in Hc as [-> _]. step_act Hr lv1 w7 Ha. apply retA_Ok in Hr as [[= ->] _].
    eapply acceptBlock_inv; [done|exact Hinv|exact Hver|by exists hdr|done| |exact Ha]. by rewrite Huse.
Qed.

(** The run of the live loop, as long as heights fit a [uint64]. *)
Inductive live_run (fuel : nat) : live (DB:=DB) → live (DB:=DB) → Prop :=
  | live_run_start lv : live_run fuel lv lv
  | live_run_step lv1 lv2 lv3 (w w' : W) :
      live_run fuel lv1 lv2 → lv_height lv2 + 1 < 2 ^ 64 →
      liveStep client fuel o spork lv2 w = (Ok (Some lv3), w') → live_run fuel lv1 lv3.

Lemma live_run_inv fuel lv lv' :
  finalized → (∃ hs pend, live_inv lv hs pend) → live_run fuel lv lv' → ∃ hs pend, live_inv lv' hs pend.
Proof.
  intros Hfin H0' Hrun. induction Hrun as [|lv1 lv2 lv3 w w' _ IH Hlt Hs]; [done|].
  destruct (IH H0') as (hs & pend & Hinv). by eapply liveStep_inv.
Qed.

Lemma liveStart_inv fuel lastIndexed nd lv (w w' : W) :
  bm_Hash lastIndexed = lastHash → bm_Hash (n_liveRoot nd) = root →
  idx_ok g hist (n_idx nd) → seals_ok (is_sealedResults (n_idx nd)) → is_ix (n_idx nd) = ix0 →
  top g hist + 2 < 2 ^ 64 →
  liveStart client fuel o spork lastIndexed (top g hist + 1) nd w = (Ok lv, w') →
  ∃ hs, live_inv lv hs [].
Proof.
  intros Hl Hroot Hok Hs0 Hix0 Hlt Hr. destruct (repr_top _ _ _ (proj1 Hok)) as (_ & _ & _ & Hpos).
  unfold liveStart in Hr. destruct (top g hist + 1 =? sp_RootBlock spork) eqn:Heq.
  - step_act Hr st w1 Hrun. apply retA_Ok in Hr as [-> _]. exists [root].
    split; cbn [lv_height lv_parent lv_blocks lv_node n_idx set_idx app]; try done.
    + unfold live_chain. rewrite Heq. by exists [].
    + rewrite u64_id by lia. simpl. lia.
    + by left.
    + rewrite <-Hix0.
      refine (grows_step client _ _ _ _ _ _ _ _ _ _ _ _ _ _ (grows_start _ _ _ _ _ _ Hok Hs0) _ _ Hrun).
      * unfold u64_range_ok. lia.
      * exists 0%nat. split; [lia|]. by rewrite Hroot.
  - apply retA_Ok in Hr as [-> _]. exists [].
    split; cbn [lv_height lv_parent lv_blocks lv_node n_idx]; try done.
    + unfold live_chain. by rewrite Heq.
    + simpl. lia.
    + by left.
    + rewrite <-Hix0. by apply grows_start.
Qed.
End live.

(** ** Starting up *)

Lemma accounts_wf s g hist m : repr s g hist → Accounts s = Ok m → addr_keys m.
Proof.
  intros Hrep HA acct b Hm. destruct (Accounts_spec _ _ _ Hrep) as (m' & Heq & Hspec).
  rewrite HA in Heq. injection Heq as <-. destruct (proj1 (proj1 (Hspec acct)) (ltac:(by eexists))) as (h & e & He & _ & Ht).
  pose proof (chain_wf _ _ (repr_chain _ _ _ Hrep)) as Hwf. rewrite Forall_forall in Hwf. specialize (Hwf e He).
  unfold block_touches, ops_touch in Ht. apply existsb_exists in Ht as (op & Hop & Hto).
  unfold wf_block in Hwf. rewrite Forall_forall in Hwf. apply list_elem_of_In in Hop.
  by apply (op_touches_length acct op (Hwf op Hop)).
Qed.

Lemma initState_wf o ct s g hist ix :
  repr s g hist → Forall (λ a, length a = 8%nat) (ch_Originators o) → initState o ct s = Ok ix → ix_wf ix.
Proof.
  intros Hrep Ho HI. unfold initState in HI. inv_ok. split; cbn [ix_accts ix_originators].
  - by eapply accounts_wf, or_exit_Ok.
  - assert (∀ l (m : gmap bytes bool), Forall (λ a, length a = 8%nat) l → addr_keys m →
      addr_keys (foldl (λ m addr, <[addr := true]> m) m l)) as Hfold.
    { induction l as [|a l IH]; intros m Hl Hm; [done|]. inv Hl. apply IH; [done|]. auto with addr. }
    intros a Ha. unfold map_at in Ha. destruct (_ !! a) eqn:Hl; [|done].
    by eapply (Hfold _ ∅ Ho addr_keys_empty).
Qed.

(** The tables of the indexer are those of a history: the accounts its operations
    touch, which of them are proxy accounts, and the configured fee addresses. *)
Definition tables_ok (ct : Contracts) (hist : list entry) (ix : Indexer) : Prop :=
  (∀ acct, (is_Some (ix_accts ix !! acct) ↔ ∃ h, touched_at hist acct h) ∧
           (ix_accts ix !! acct = Some true ↔ ∃ h, proxied_at hist acct h)) ∧
  FeeAddresses ct = Ok (ix_feeAddrs ix).

Lemma initState_tables o ct s g hist ix : repr s g hist → initState o ct s = Ok ix → tables_ok ct hist ix.
Proof.
  intros Hrep HI. unfold initState in HI. inv_ok.
  match goal with HA : or_exit (Accounts s) = Ok ?m, HF : or_exit (FeeAddresses ct) = Ok ?f |- _ =>
    apply or_exit_Ok in HA, HF; destruct (Accounts_spec _ _ _ Hrep) as (m' & Heq & Hspec);
    rewrite HA in Heq; injection Heq as <-; split; [exact Hspec|exact HF] end.
Qed.

(** The caches of a reopened store are filled from the database. *)
Lemma reopen d g m hist :
  repr (mkStore d (Some g) (Some m)) g hist →
  Genesis (mkStore d None None) = Ok (mkStore d (Some g) None, Some g) ∧
  Latest (mkStore d (Some g) None) = Ok (mkStore d (Some g) (Some m), Some m).
Proof.
  intros [_ Hd _ (m' & e & Hm & _ & _ & _ & _ & lv & Hlv & Hlg)]. cbn [s_latest s_db] in *. injection Hm as <-.
  destruct (repr_genesis _ _ _ Hd) as (gv & Hgv & Hgg). unfold Genesis, Latest, loadMeta. cbn [s_genesis s_latest s_db].
  rewrite (txn_get_some _ _ _ Hgg), (txn_get_some _ _ _ Hlg).
  rewrite (unmarshal_marshal _ _ Hgv), (unmarshal_marshal _ _ Hlv). cbn. by rewrite !Clone_id.
Qed.

(** The node agrees with a history: it continues where that ends. *)
Definition node_ok (g : BlockMeta) (hist : list entry) (nd : Node (DB:=DB)) : Prop :=
  idx_ok g hist (n_idx nd) ∧ bm_Height (is_lastIndexed (n_idx nd)) = top g hist ∧
  Some (bm_Hash (is_lastIndexed (n_idx nd))) = e_hash <$> last hist.

Lemma latest_ok s g hist l : repr s g hist → Latest s = Ok l →
  l.1 = s ∧ ∃ m, l.2 = Some m ∧ bm_Height m = top g hist ∧ Some (bm_Hash m) = e_hash <$> last hist.
Proof.
  intros Hrep. destruct (repr_s_latest _ _ _ Hrep) as (m & e & Hm & He & Hhash & _).
  destruct (repr_top _ _ _ Hrep) as (m' & Hm' & Htop & _). rewrite Hm in Hm'. injection Hm' as <-.
  unfold Latest. rewrite Hm, Clone_id. intros [= <-]. split; [done|]. exists m. rewrite He, Hhash. done.
Qed.

(** The history that [resync_from] leaves. *)
Definition resynced (o : Online) (hist : list entry) : list entry :=
  if ch_ResyncFrom o =? 0 then hist else kept (ch_ResyncFrom o) hist.

Lemma handleResyncFrom_ok o s g hist l r :
  (∀ m : BlockMeta, is_Some (marshal m)) → repr s g hist → Latest s = Ok (s, l) →
  handleResyncFrom o s l = Ok r →
  repr r.1 g (resynced o hist) ∧ Latest r.1 = Ok r.
Proof.
  intros Henc Hrep Hl Hr. unfold handleResyncFrom, resynced in *. destruct (ch_ResyncFrom o =? 0); [by inv_ok|].
  unfold Genesis in Hr. rewrite (repr_s_genesis _ _ _ Hrep), Clone_id in Hr.
  cbn -[ResetTo Latest] in Hr.
  destruct (Z.ltb_spec (ch_ResyncFrom o) (bm_Height g)) as [|Hge]; [done|].
  destruct (ResetTo_cut s g hist (ch_ResyncFrom o) Henc Hrep Hge) as (s' & HR & Hrep').
  rewrite HR in Hr. cbn -[Latest] in Hr. inv_ok. apply or_exit_Ok in Hr0.
  destruct (latest_ok _ _ _ _ Hrep' Hr0) as [Hs _]. rewrite Hs. done.
Qed.

(** From the store and [lastIndexed] that [initStore] returns. *)
Lemma startup_rest o ct s g hist l root nd (w w' : W) :
  (∀ m : BlockMeta, is_Some (marshal m)) →
  Forall (λ a, length a = 8%nat) (ch_Originators o) → ch_PurgeProxyAccounts o = false →
  repr s g hist → Latest s = Ok (s, l) →
  (s ← pureA (handlePurgeProxyAccounts o s);
   r ← pureA (handleResyncFrom o s l);
   ix ← pureA (initState o ct r.1);
   lastIndexed ← pureA (deref r.2);
   mret (Some (mkNode (mkIndexerState ix r.1 lastIndexed ∅) root false)) : act W (option Node)) w
    = (Ok (Some nd), w') →
  node_ok g (resynced o hist) nd ∧ is_sealedResults (n_idx nd) = ∅ ∧
  tables_ok ct (resynced o hist) (is_ix (n_idx nd)).
Proof.
  intros Henc Ho Hpurge Hrep Hl Hr.
  step_act Hr s1 w6 Hs. apply pureA_Ok in Hs as [Hs ->]. unfold handlePurgeProxyAccounts in Hs.
  rewrite Hpurge in Hs. injection Hs as <-.
  step_act Hr r w7 Hrs. apply pureA_Ok in Hrs as [Hrs ->].
  apply (handleResyncFrom_ok _ _ g hist) in Hrs as [Hrep' Hlat']; [|done..].
  destruct (latest_ok _ _ _ _ Hrep' Hlat') as (_ & m' & Hm' & Htop & Hhash).
  step_act Hr ix w8 Hix. apply pureA_Ok in Hix as [Hix ->]. rewrite Hm' in Hr.
  step_act Hr lm w9 Hla. apply pureA_Ok in Hla as [[= <-] ->]. apply retA_Ok in Hr as [[= ->] _].
  split; [|split; [done|by eapply initState_tables]]. split; [split; [done|]|done]. by eapply initState_wf.
Qed.

Lemma startup_stored fuel o ct d g m hist nd (w w' : W) :
  (∀ m : BlockMeta, is_Some (marshal m)) →
  Forall (λ a, length a = 8%nat) (ch_Originators o) → ch_PurgeProxyAccounts o = false →
  repr (mkStore d (Some g) (Some m)) g hist →
  startup client fuel o ct (mkStore d None None) w = (Ok (Some nd), w') →
  node_ok g (resynced o hist) nd ∧ is_sealedResults (n_idx nd) = ∅ ∧
  tables_ok ct (resynced o hist) (is_ix (n_idx nd)).
Proof.
  intros Henc Ho Hpurge Hrep Hr. destruct (reopen _ _ _ _ Hrep) as [HG HL]. unfold startup in Hr.
  step_act Hr r w1 Hi. unfold initStore in Hi. rewrite HG in Hi.
  step_act Hi g0 w2 Hg0. apply pureA_Ok in Hg0 as [[= <-] ->]. step_act Hi latest w3 Hlat.
  cbn [fst snd] in Hi. rewrite HL in Hi. step_act Hi l w4 Hl. apply pureA_Ok in Hl as [[= <-] ->].
  step_act Hi root w5 Hroot. apply retA_Ok in Hi as [-> ->].
  destruct root as [root|]; cbn [fmap option_fmap option_map fst snd] in Hr; [|by apply retA_Ok in Hr as [[=] _]].
  eapply startup_rest; [done..| |exact Hr]. unfold Latest. cbn. by rewrite Clone_id.
Qed.

Lemma findRootBlock_height fuel spork g (w w' : W) :
  findRootBlock client fuel spork w = (Ok (Some g), w') → bm_Height g = sp_RootBlock spork.
Proof.
  revert w. induction fuel as [|fuel IH]; intros w Hr; [done|]. cbn [findRootBlock] in Hr.
  step_act Hr dn w1 Hd. destruct dn; [by apply retA_Ok in Hr as [? _]|].
  step_act Hr b w2 Hb. destruct b as [block|]; [|eapply IH, Hr].
  destruct (Z.eqb_spec (blk_Height block) (sp_RootBlock spork)); [|eapply IH, Hr].
  by apply retA_Ok in Hr as [[= ->] _].
Qed.

Lemma startup_fresh fuel o ct d first nd (w w' : W) :
  (∀ m : BlockMeta, is_Some (marshal m)) →
  Forall (λ a, length a = 8%nat) (ch_Originators o) → ch_PurgeProxyAccounts o = false →
  (∀ k, db_get d k = None) → FirstSpork (ch_Sporks o) = Ok first → u64_range_ok (sp_RootBlock first) →
  startup client fuel o ct (mkStore d None None) w = (Ok (Some nd), w') →
  ∃ g, bm_Height g = sp_RootBlock first ∧ node_ok g (resynced o [genesis_entry g]) nd ∧
    tables_ok ct (resynced o [genesis_entry g]) (is_ix (n_idx nd)).
Proof.
  intros Henc Ho Hpurge Hempty Hfirst Hrange Hr. unfold startup in Hr.
  step_act Hr r w1 Hi. unfold initStore in Hi.
  assert (Genesis (mkStore d None None) = Ok (mkStore d None None, None)) as HG.
  { unfold Genesis, loadMeta. cbn [s_genesis s_db]. by rewrite txn_get_none. }
  rewrite HG in Hi. step_act Hi g0 w2 Hg0. apply pureA_Ok in Hg0 as [[= <-] ->].
  step_act Hi latest w3 Hlat. cbn [fst snd] in Hi. rewrite Hfirst in Hi.
  step_act Hi f w4 Hf. apply pureA_Ok in Hf as [[= <-] ->]. step_act Hi gb w5 Hgb.
  destruct gb as [g|]; [|apply retA_Ok in Hi as [-> ->]; by apply retA_Ok in Hr as [[=] _]].
  pose proof (findRootBlock_height _ _ _ _ _ Hgb) as Hheight. exists g. split; [done|].
  step_act Hi s w6 Hs. apply pureA_Ok in Hs as [Hs%or_exit_Ok ->].
  step_act Hi root w7 Hroot. apply retA_Ok in Hi as [-> ->].
  destruct root as [root|]; cbn [fmap option_fmap option_map fst snd] in Hr; [|by apply retA_Ok in Hr as [[=] _]].
  assert (repr s g [genesis_entry g]) as Hrep.
  { apply (SetGenesis_repr (mkStore d None None) g s); [done|by rewrite Hheight|done]. }
  enough (node_ok g (resynced o [genesis_entry g]) nd ∧ is_sealedResults (n_idx nd) = ∅ ∧
    tables_ok ct (resynced o [genesis_entry g]) (is_ix (n_idx nd))) as (? & _ & ?) by done.
  eapply startup_rest; [done..| |exact Hr]. unfold SetGenesis in Hs.
  repeat match type of Hs with context [match ?x with _ => _ end] => destruct x; try discriminate Hs end.
  injection Hs as <-. unfold Latest. cbn. by rewrite !Clone_id.
Qed.

(** ** The parent of a block message *)

(** The block message with another parent. *)
Definition with_parent (parent : bytes) (b : BlockMsg) : BlockMsg :=
  mkBlockMsg (blk_CollectionGuarantees b) (blk_BlockSeals b) (blk_ExecutionReceiptMetaList b)
    (blk_ExecutionResultList b) (blk_ProtocolStateId b) (blk_Timestamp b) (blk_Id b) (blk_Height b) parent.

Lemma verify_with_parent spork hash hdr b parent :
  verifyBlockHash spork hash hdr (with_parent parent b) = verifyBlockHash spork hash hdr b.
Proof. done. Qed.

Lemma processSeals_unknown (fuel : nat) (o : Online) (nocache : bool) (spork : Spork) (seals : list BlockSealMsg) (blocks : gmap bytes Z) st (w : W) :
  Forall (λ seal, blocks !! bsl_BlockId seal = None) seals →
  processSeals client fuel o nocache spork seals blocks st w = (Ok (true, blocks, st), w).
Proof. induction 1 as [|seal seals Hs _ IH]; [done|]. cbn [processSeals]. by rewrite Hs. Qed.

(** ** Theorems *)



(** C32: Restarting on a stored index resumes where it ends: the index is read
    back, cut at [resync_from] if that is set, the indexer's account table comes
    from it, and the last indexed block is the last one it holds. *)
Theorem startup_resumes fuel o ct d g m hist nd (w w' : W) :
  (∀ m : BlockMeta, is_Some (marshal m)) →
  Forall (λ a, length a = 8%nat) (ch_Originators o) → ch_PurgeProxyAccounts o = false →
  repr (mkStore d (Some g) (Some m)) g hist →
  startup client fuel o ct (mkStore d None None) w = (Ok (Some nd), w') →
  node_ok g (resynced o hist) nd ∧ is_sealedResults (n_idx nd) = ∅ ∧
  tables_ok ct (resynced o hist) (is_ix (n_idx nd)).
Proof. apply startup_stored. Qed.

(** On an empty database the indexer takes the root block of the first
    spork as genesis and starts from the history that holds just that block. *)
Theorem startup_from_empty fuel o ct d first nd (w w' : W) :
  (∀ m : BlockMeta, is_Some (marshal m)) →
  Forall (λ a, length a = 8%nat) (ch_Originators o) → ch_PurgeProxyAccounts o = false →
  (∀ k, db_get d k = None) → FirstSpork (ch_Sporks o) = Ok first → u64_range_ok (sp_RootBlock first) →
  startup client fuel o ct (mkStore d None None) w = (Ok (Some nd), w') →
  ∃ g, bm_Height g = sp_RootBlock first ∧ node_ok g (resynced o [genesis_entry g]) nd ∧
    tables_ok ct (resynced o [genesis_entry g]) (is_ix (n_idx nd)).
Proof. apply startup_fresh. Qed.

(** C16: The parent and the height of a block are taken from the answer of the
    access node and not from what its hash covers: without a consensus follower,
    any block that verifies is accepted as the next one of the live chain,
    whatever parent and height its header has, when the node puts the expected
    parent into the block message. (Here for a block with no seal of a pending
    block, which the loop just steps over.) *)
Theorem unverified_parent (fuel : nat) (o : Online) (spork : Spork) hdr block (lv : live (DB:=DB)) (w w1 w2 w3 : W) :
  let forged := with_parent (lv_parent lv) block in
  let blocks := <[blk_Id block := lv_height lv]> (lv_blocks lv) in
  verifyBlockHash spork (blk_Id block) hdr block = Ok true →
  bh_ParentId hdr ≠ lv_parent lv → bh_Height hdr ≠ lv_height lv → ch_UseConsensusFollower o = false →
  node_Done w = (false, w1) →
  @api_BlockHeaderByHeight W (client spork) (lv_skipCache lv) (lv_height lv) w1 = (inl hdr, w2) →
  @api_BlockByHeight W (client spork) (lv_skipCache lv) (lv_height lv) w2 = (inl forged, w3) →
  Forall (λ seal, blocks !! bsl_BlockId seal = None) (blk_BlockSeals block) →
  ∃ lv' w', liveStep client fuel o spork lv w = (Ok (Some lv'), w') ∧
    lv_parent lv' = blk_Id block ∧ lv_height lv' = u64 (lv_height lv + 1) ∧ lv_blocks lv' = blocks.
Proof.
  intros forged blocks Hv _ _ Huse Hd Hh Hb Hs.
  unfold liveStep, checkConsensusBlock, mbind, act_mbind, envA, pureA. rewrite Hd, Hh, Hb, Huse.
  change (blk_ParentId forged) with (lv_parent lv). rewrite bool_decide_eq_true_2 by done. cbn [negb].
  unfold forged at 1 2. rewrite verify_with_parent. cbn [blk_Id with_parent]. rewrite Hv. cbn [of_convert negb].
  unfold acceptBlock, mbind, act_mbind, envA. unfold forged. cbn [blk_BlockSeals blk_Id with_parent].
  unfold mret at 1, act_mret at 1. fold blocks. cbn beta iota. rewrite processSeals_unknown by done. cbn [negb]. destruct (node_Now w3) as [now w4].
  eexists _, _. split; [reflexivity|]. done.
Qed.
End main.

(** ** Concrete runs

    One access node that serves the verified demo block at every height. *)
Module StateDemo.
#[local] Existing Instances ConvertDemo.flowgo IndexerDemo.cadence IndexerDemo.cadence_laws CryptoDemo.secp.
#[local] Existing Instances Demo.range Demo.proto_meta Demo.proto_block gmap_badger.

Definition block : BlockMsg :=
  let b := ConvertDemo.block in
  mkBlockMsg (blk_CollectionGuarantees b) (blk_BlockSeals b) (blk_ExecutionReceiptMetaList b)
    (blk_ExecutionResultList b) (blk_ProtocolStateId b) 0 ConvertDemo.hash 5 [xbb].
Definition api : AccessAPI nat := {|
  api_BlockHeaderByHeight _ _ w := (inl ConvertDemo.header, w);
  api_BlockByHeight _ _ w := (inl block, w);
  api_TransactionsByBlockID := @api_TransactionsByBlockID _ ProcessDemo.api;
  api_TransactionResultsByBlockID := @api_TransactionResultsByBlockID _ ProcessDemo.api;
  api_CollectionByID := @api_CollectionByID _ ProcessDemo.api;
  api_Transaction := @api_Transaction _ ProcessDemo.api;
  api_TransactionResult := @api_TransactionResult _ ProcessDemo.api;
  api_ExecutionResultForBlockID := @api_ExecutionResultForBlockID _ ProcessDemo.api;
  ctx_Done w := (false, w);
|}.
Definition client (_ : Spork) : AccessAPI nat := api.
#[local] Instance env : NodeEnv nat := {|
  node_Done w := (false, w);
  node_Now w := (0, w);
  LookupBlockHeight _ w := (inr true, w);
  LookupBySealedBlockID _ w := (inr true, w);
  RetrieveSeal _ w := (inr true, w);
|}.

Definition spork : Spork := mkSpork 8 "mainnet" 5 false None 1.
Definition o : Online := {|
  ch_BalanceValidationInterval := second; ch_Cache := false; ch_ConstructionAccessNodes := [];
  ch_DataDir := "data"; ch_MaxBackoffInterval := 10 * second; ch_Originators := [IndexerDemo.alice];
  ch_PurgeProxyAccounts := false; ch_ResyncFrom := 0; ch_SkipBlocks := ∅; ch_SporkSealTolerance := 0;
  ch_Sporks := [spork]; ch_UseConsensusFollower := false; ch_Workers := 1;
|}.
Definition root : BlockMeta := mkBlockMeta [xcc] 7 [xbb] 2000.
Definition lastIndexed : BlockMeta := mkBlockMeta [xbb] 6 [xaa] 1000.
Definition st : IndexerState (DB:=gmap bytes bytes) :=
  mkIndexerState IndexerDemo.ix Demo.s lastIndexed {[[xcc] := ProcessDemo.resultID]}.

Definition val {A} (z : A) (r : outcome stop A * nat) : A := match r.1 with Ok a => a | _ => z end.
Lemma val_ok {A} (z : A) r : is_Ok r.1 = true → r = (Ok (val z r), r.2).
Proof. destruct r as [[]]; done. Qed.

(** A verified block that holds the seal of the block [xcc]. *)
Definition sealing0 : BlockMsg :=
  mkBlockMsg [] [mkBlockSealMsg [xcc] [x03] ProcessDemo.resultID []] [] [] [x55] 0 [] 9 [xcc].
Definition sealing_header : BlockHeaderMsg :=
  mkBlockHeaderMsg [xcc] 9 (ConcatSum [MerkleRoot []; MerkleRoot (Seal_ID ∘ convertSeal <$> blk_BlockSeals sealing0);
    MerkleRoot []; MerkleRoot []; toFlowIdentifier [x55]]) 0 1 [] [] [] [] [] None 0 [].
Definition sealing_hash : Identifier :=
  ConvertDemo.get ZeroID (deriveBlockHash ConvertDemo.spork (convertHeader ConvertDemo.spork sealing_header None)).
Definition sealing : BlockMsg :=
  mkBlockMsg [] (blk_BlockSeals sealing0) [] [] [x55] 0 sealing_hash 9 [xcc].

Lemma seals_st : seals_ok (is_sealedResults st).
Proof.
  apply map_Forall_singleton. exists ConvertDemo.spork, sealing_header, sealing.
  exists (mkBlockSealMsg [xcc] [x03] ProcessDemo.resultID []).
  split; [vm_compute; reflexivity|]. split; [left|done].
Qed.

Lemma idx_st : idx_ok Demo.g Demo.hist st.
Proof. split; [exact Demo.repr_s|exact IndexerDemo.ix_ok]. Qed.

(** The live root is indexed on top of the stored blocks. *)
Definition past := indexPastSporks client 3 o root lastIndexed 7 st 1%nat.
Lemma past_ok : past = (Ok (val st past), past.2).
Proof. apply val_ok. vm_compute. reflexivity. Qed.


(** The live loop retrieves one block. *)
Definition nd : Node (DB:=gmap bytes bytes) := mkNode st root false.
Definition lv0 : live (DB:=gmap bytes bytes) := mkLive ∅ 7 [xbb] second false nd.
Definition step := liveStep client 3 o spork lv0 1%nat.
Definition lv1 : live (DB:=gmap bytes bytes) := default lv0 (val None step).

Lemma step_ok : step = (Ok (Some lv1), step.2) ∧ lv_height lv1 = 8 ∧ lv_parent lv1 = ConvertDemo.hash.
Proof.
  assert (match step.1 with Ok (Some _) => true | _ => false end = true) as Hs by (vm_compute; reflexivity).
  split; [|split; vm_compute; reflexivity]. unfold lv1, val. destruct step as [[[]| | |] ?]; done.
Qed.


(** The block of [ConvertDemo.header], whose header has parent [xaa] and height
    101, is accepted as the block of height 7 on top of [xbb]. *)
Lemma unverified_parent_witness :
  ∃ lv' w', liveStep client 3 o spork lv0 1%nat = (Ok (Some lv'), w') ∧
    lv_parent lv' = ConvertDemo.hash ∧ lv_height lv' = 8 ∧ lv_blocks lv' = {[ConvertDemo.hash := 7]}.
Proof.
  apply (unverified_parent client 3 o spork ConvertDemo.header block lv0 1%nat 1%nat 1%nat 1%nat);
    [vm_compute; reflexivity|discriminate..|reflexivity|reflexivity|reflexivity|reflexivity|].
  repeat constructor.
Defined.

(** Restarting on the stored blocks, and on nothing. *)
Definition m : BlockMeta := match s_latest Demo.s with Some m => m | None => Demo.g end.
Lemma stored : repr (mkStore (s_db Demo.s) (Some Demo.g) (Some m)) Demo.g Demo.hist.
Proof.
  pose proof Demo.repr_s as Hrep. pose proof (repr_s_genesis _ _ _ Hrep) as Hg.
  destruct (repr_top _ _ _ Hrep) as (m' & Hm & _). unfold m. rewrite Hm.
  destruct Demo.s as [d g0 m0]. cbn [s_genesis s_latest s_db] in *. by subst.
Qed.

Definition starting (d : gmap bytes bytes) := startup client 3 o ConfigDemo.contracts (mkStore d None None) 1%nat.
Definition started (d : gmap bytes bytes) : Node (DB:=gmap bytes bytes) := default nd (val None (starting d)).

Lemma started_ok d :
  match (starting d).1 with Ok (Some _) => true | _ => false end = true →
  starting d = (Ok (Some (started d)), (starting d).2).
Proof. unfold started, val. destruct (starting d) as [[[]| | |] ?]; done. Qed.

Lemma resumed : starting (s_db Demo.s) = (Ok (Some (started (s_db Demo.s))), (starting (s_db Demo.s)).2).
Proof. apply started_ok. vm_compute. reflexivity. Qed.
Lemma began : starting ∅ = (Ok (Some (started ∅)), (starting ∅).2).
Proof. apply started_ok. vm_compute. reflexivity. Qed.

Lemma startup_resumes_witness :
  node_ok Demo.g Demo.hist (started (s_db Demo.s)) ∧ is_sealedResults (n_idx (started (s_db Demo.s))) = ∅ ∧
  tables_ok ConfigDemo.contracts Demo.hist (is_ix (n_idx (started (s_db Demo.s)))).
Proof.
  apply (startup_resumes client 3 o ConfigDemo.contracts (s_db Demo.s) Demo.g m Demo.hist
    (started (s_db Demo.s)) 1%nat (starting (s_db Demo.s)).2 Demo.marshal_total).
  - by constructor.
  - reflexivity.
  - exact stored.
  - exact resumed.
Defined.

Lemma startup_from_empty_witness :
  ∃ g, bm_Height g = 5 ∧ node_ok g (resynced o [genesis_entry g]) (started ∅) ∧
    tables_ok ConfigDemo.contracts (resynced o [genesis_entry g]) (is_ix (n_idx (started ∅))).
Proof.
  apply (startup_from_empty client 3 o ConfigDemo.contracts ∅ spork (started ∅) 1%nat (starting ∅).2
    Demo.marshal_total).
  - by constructor.
  - reflexivity.
  - done.
  - reflexivity.
  - unfold u64_range_ok. simpl. lia.
  - exact began.
Defined.
End StateDemo.
