(* ===== verification/EndToEnd.v ===== *)
(** * From the chain to the served balance

    The composition of start-up and the live loop ([src/state/state.go]), block
    processing ([src/state/process.go]), the database ([src/indexdb/indexdb.go])
    and /account/balance ([src/api/account_service.go]): a balance that the server
    reports is what was stored when it started plus what the events of verified
    and sealed blocks have moved since. *)
From S2P Require Import Prelude Bytes Model Txn Badger Crypto Convert ConvertMain Config ConfigMain IndexDB IndexSpec IndexProofs.
From S2P Require Import IndexTheorems IndexReset IndexMain Indexer IndexerProofs IndexerWf IndexerMain.
From S2P Require Import Process ProcessProofs ProcessMain State StateProofs StateMain Api ApiMain.
Local Open Scope Z_scope.

(** ** What the events of a block moved

    [x] is the block with the indexer that built it, which knows whether the
    account was a proxy account at the time. *)
Definition moved (acct : bytes) (x : Indexer * entry) : Z :=
  sumZ (λ t, events_effect (map_at false (ix_accts x.1) acct) acct (it_Events t)) (ib_Transactions (e_block x.2)).

Definition moved_until (acct : bytes) (h : Z) (steps : list (Indexer * entry)) : Z :=
  sumZ (λ x, if e_height x.2 <=? h then moved acct x else 0) steps.

Definition amounts_fit (x : Indexer * entry) : Prop :=
  Forall (λ t, no_overflow (it_Events t)) (ib_Transactions (e_block x.2)).

Section chain.
Context {W DB : Type} (client : Spork → AccessAPI W).
Context `{!NodeEnv W, CadenceLaws, !Secp256k1, !FlowGo, !MapRange bytes}.
Context `{BadgerLaws DB, !BadgerReliable DB, !Proto IndexedBlock, !Proto BlockMeta}.

Lemma genuine_moved o ix0 x acct :
  genuine client o ix0 x → is_Some (ix_accts ix0 !! acct) → map_at false (ix_feeAddrs ix0) acct = false →
  amounts_fit x → block_effect acct (e_block x.2) = moved acct x.
Proof.
  destruct x as [ix e]. intros ([Hd Hfees] & Hwf & spork & cols & bs & ts & HP & Hb & _) Htr Hfee Hov.
  assert (is_Some (ix_accts ix !! acct)) as [p Hp].
  { apply elem_of_dom, Hd, elem_of_dom. exact Htr. }
  assert (acct ≠ []) as Hnil by (intros ->; by apply (proj1 Hwf) in Hp).
  unfold moved, amounts_fit in *. cbn [fst snd] in *. rewrite Hb in Hov |- *. cbn [ib_Transactions] in *.
  rewrite block_effect_txns. unfold map_at. rewrite Hp. cbn [default].
  refine (processCollections_effect ix _ _ _ cols bs acct p Hp _ Hnil HP Hov). by rewrite Hfees.
Qed.

Lemma genuine_ledger o ix0 hist steps acct h :
  Forall (genuine client o ix0) steps → Forall amounts_fit steps →
  is_Some (ix_accts ix0 !! acct) → map_at false (ix_feeAddrs ix0) acct = false →
  ledger_balance (hist ++ steps.*2) acct h = ledger_balance hist acct h + moved_until acct h steps.
Proof.
  intros Hg Hov Htr Hfee. induction steps as [|x steps IH] using rev_ind.
  { cbn. rewrite app_nil_r. unfold moved_until. rewrite sumZ_nil. lia. }
  apply Forall_app in Hg as [Hg Hx], Hov as [Hov Hxo]. rewrite Forall_singleton in Hx, Hxo.
  rewrite fmap_app, (assoc_L (++)). change ([x].*2) with [x.2]. rewrite ledger_balance_snoc, (IH Hg Hov).
  unfold moved_until. rewrite sumZ_app, sumZ_cons, sumZ_nil, (genuine_moved o ix0 x acct Hx Htr Hfee Hxo). lia.
Qed.

(** ** What the server reports on such an index *)
Lemma genuine_served `{!DataAccess} o ix0 g hist steps st sv acct h :
  idx_ok g (hist ++ steps.*2) st → Forall (genuine client o ix0) steps → Forall amounts_fit steps →
  is_Some (ix_accts ix0 !! acct) → map_at false (ix_feeAddrs ix0) acct = false →
  sv_Index sv = is_store (DB:=DB) st → sv_genesis sv = Some g → length acct = 8%nat →
  bm_Height g < h ≤ top g (hist ++ steps.*2) → h < 2 ^ 63 →
  ∃ e, e ∈ hist ++ steps.*2 ∧ e_height e = h ∧
    AccountBalance sv (Some (hexAddress acct)) [] (at_height h) =
    Ok (mkAccountBalanceResponse (mkBlockIdentifier (hex_encode (e_hash e)) h)
          [mkAmount flowCurrency (format_int (u64 (ledger_balance hist acct h + moved_until acct h steps)))] None).
Proof.
  intros [Hrep _] Hg Hov Htr Hfee Hsv Hgen Hl Hh Hlt. rewrite <-Hsv in Hrep.
  pose proof (repr_chain _ _ _ Hrep) as Hc.
  assert (Z.to_nat (h - bm_Height g) < length (hist ++ steps.*2))%nat as Hi by (unfold top in Hh; lia).
  apply lookup_lt_is_Some in Hi as [e He]. pose proof (chain_lookup_height _ _ _ _ Hc He) as Heh.
  assert (e_height e = h) as Heq by lia. apply list_elem_of_lookup_2 in He.
  exists e. split; [done|]. split; [done|]. rewrite <-(genuine_ledger o ix0) by done. rewrite <-Heq at 1.
  rewrite (AccountBalance_height sv g _ e acct Hrep Hgen He) by (done || lia). by rewrite Heq.
Qed.

End chain.

(** ** A run

    Two blocks of the live spork, the second of which seals the first. *)
Module EndToEndDemo.
#[local] Existing Instances ConvertDemo.flowgo IndexerDemo.cadence IndexerDemo.cadence_laws CryptoDemo.secp.
#[local] Existing Instances Demo.range Demo.proto_meta Demo.proto_block gmap_badger StateDemo.env ApiDemo.access.

Definition spork : Spork := mkSpork 3 "mainnet" 5 false None 1.
Definition o : Online := {|
  ch_BalanceValidationInterval := second; ch_Cache := false; ch_ConstructionAccessNodes := [];
  ch_DataDir := "data"; ch_MaxBackoffInterval := 10 * second; ch_Originators := [Demo.alice];
  ch_PurgeProxyAccounts := false; ch_ResyncFrom := 0; ch_SkipBlocks := ∅; ch_SporkSealTolerance := 0;
  ch_Sporks := [spork]; ch_UseConsensusFollower := false; ch_Workers := 1;
|}.
Definition contracts : Contracts :=
  mkContracts "f1f2f3f4f5f6f7f8" "1654653399040a61" "f233dcee88fe0abd" "0000000000000000" [].

(** Alice sends 50 to Bob and pays a fee of 10. *)
Definition deposited : string := "A.1654653399040a61.FlowToken.TokensDeposited".
Definition withdrawn : string := "A.1654653399040a61.FlowToken.TokensWithdrawn".
Definition result (hash : bytes) : TransactionResult := mkTransactionResult 0 "" [
    mkEvent withdrawn [x77] 0 0 [x01]; mkEvent deposited [x77] 0 1 [x02]; mkEvent deposited [x77] 0 2 [x03]] hash [x77] [].

Definition body (seals : list BlockSealMsg) (id : bytes) (height : Z) (parent : bytes) : BlockMsg :=
  mkBlockMsg [] seals [] [] [x55] 0 id height parent.
Definition headerFor (seals : list BlockSealMsg) (height : Z) (parent : bytes) : BlockHeaderMsg :=
  mkBlockHeaderMsg parent height (ConcatSum [MerkleRoot []; MerkleRoot (Seal_ID ∘ convertSeal <$> seals);
    MerkleRoot []; MerkleRoot []]) 0 1 [] [] (be64 height) [] [] None 0 [].
Definition hashFor (h : BlockHeaderMsg) : Identifier :=
  ConvertDemo.get ZeroID (deriveBlockHash spork (convertHeader spork h None)).

Definition headerA : BlockHeaderMsg := headerFor [] 7 [xbb].
Definition hashA : Identifier := hashFor headerA.
Definition hashes : list Identifier :=
  match eventHashes spork 7 [mkCollectionData true [IndexerDemo.transaction] [result hashA]] with Ok l => l | _ => [] end.
Definition er : ExecutionResultMsg :=
  mkExecutionResultMsg [xaa] hashA ((λ h, Some (ProcessDemo.chunk h)) <$> hashes) [] [xdd].
Definition resultID : Identifier :=
  match convertExecutionResult (sp_Version spork) er with
  | Ok (Some exec) => match deriveExecutionResult spork exec with Ok id => id | _ => ZeroID end
  | _ => ZeroID
  end.
Definition sealsB : list BlockSealMsg := [mkBlockSealMsg hashA [x03] resultID []].
Definition headerB : BlockHeaderMsg := headerFor sealsB 8 hashA.
Definition hashB : Identifier := hashFor headerB.

Definition api : AccessAPI nat := {|
  api_BlockHeaderByHeight _ h w := (inl (if h =? 7 then headerA else headerB), w);
  api_BlockByHeight _ h w :=
    (inl (if h =? 7 then body [] hashA 7 [xbb] else if h =? 8 then body sealsB hashB 8 hashA else StateDemo.block), w);
  api_TransactionsByBlockID := @api_TransactionsByBlockID _ ProcessDemo.api;
  api_TransactionResultsByBlockID _ id w := (inl [result id], w);
  api_CollectionByID := @api_CollectionByID _ ProcessDemo.api;
  api_Transaction := @api_Transaction _ ProcessDemo.api;
  api_TransactionResult _ id _ w := (inl (result id), w);
  api_ExecutionResultForBlockID _ _ w := (inl er, w);
  ctx_Done w := (false, w);
|}.
Definition client (_ : Spork) : AccessAPI nat := api.

Definition starting := startup client 3 o contracts (mkStore (s_db Demo.s) None None) 1%nat.
Definition nd : Node (DB:=gmap bytes bytes) := default StateDemo.nd (StateDemo.val None starting).
Definition lv0 : live (DB:=gmap bytes bytes) := mkLive ∅ 7 [xbb] second false nd.
Definition step1 := liveStep client 3 o spork lv0 1%nat.
Definition lv1 : live (DB:=gmap bytes bytes) := default lv0 (StateDemo.val None step1).
Definition step2 := liveStep client 3 o spork lv1 1%nat.
Definition lv2 : live (DB:=gmap bytes bytes) := default lv0 (StateDemo.val None step2).

Lemma starting_ok : starting = (Ok (Some nd), starting.2).
Proof.
  assert (match starting.1 with Ok (Some _) => true | _ => false end = true) as Hs by (vm_compute; reflexivity).
  unfold nd, StateDemo.val. destruct starting as [[[]| | |] ?]; done.
Qed.
Lemma step1_ok : step1 = (Ok (Some lv1), step1.2).
Proof.
  assert (match step1.1 with Ok (Some _) => true | _ => false end = true) as Hs by (vm_compute; reflexivity).
  unfold lv1, StateDemo.val. destruct step1 as [[[]| | |] ?]; done.
Qed.
Lemma step2_ok : step2 = (Ok (Some lv2), step2.2).
Proof.
  assert (match step2.1 with Ok (Some _) => true | _ => false end = true) as Hs by (vm_compute; reflexivity).
  unfold lv2, StateDemo.val. destruct step2 as [[[]| | |] ?]; done.
Qed.
Lemma two_steps : live_run client o spork 3 lv0 lv2.
Proof.
  assert (lv_height lv0 + 1 < 2 ^ 64) as H0 by (vm_compute; reflexivity).
  assert (lv_height lv1 + 1 < 2 ^ 64) as H1 by (vm_compute; reflexivity).
  exact (live_run_step client o spork 3 lv0 lv1 lv2 1%nat step2.2
    (live_run_step client o spork 3 lv0 lv0 lv1 1%nat step1.2 (live_run_start client o spork 3 lv0) H0 step1_ok)
    H1 step2_ok).
Qed.
Lemma live_started : liveStart client 3 o spork (Clone (is_lastIndexed (n_idx nd))) 7 nd 1%nat = (Ok lv0, 1%nat).
Proof.
  assert (Clone (is_lastIndexed (n_idx nd)) = StateDemo.m) as -> by (vm_compute; reflexivity).
  reflexivity.
Qed.

(** The server on that index: Alice's balance goes from 90 to 30 with the block
    of height 7. *)
Definition sv : Server (gmap bytes bytes) :=
  mkServer contracts "mainnet" [] [] (is_store (n_idx (lv_node lv2))) true false ∅ (Some Demo.g)
    (mkScripts [] [] [] [] [] [] [] [] [] [] []).
Definition reported (h : Z) : option (list Amount) :=
  match AccountBalance sv (Some (hexAddress Demo.alice)) [] (at_height h) with
  | Ok r => Some (ab_Balances r)
  | _ => None
  end.
Lemma reported_ok : reported 6 = Some [mkAmount flowCurrency "90"] ∧ reported 7 = Some [mkAmount flowCurrency "30"].
Proof. split; vm_compute; reflexivity. Qed.

End EndToEndDemo.
