(* ===== verification/Follower.v ===== *)
(** * The consensus follower

    Model of the set-up of the follower in [src/state/state.go]: downloading the
    root protocol state with its signature, decoding the keys of the seed nodes,
    starting the follower. The network, OpenPGP, the keys of flow-go and the
    follower itself are a parameter. *)
From S2P Require Import Prelude Bytes Model Badger Crypto Convert Config IndexDB Indexer Process State.
Local Open Scope Z_scope.

(** ** The decoded snapshot *)
Record stateSnapshotHeader := mkStateSnapshotHeader { ss_ChainID : string; ss_Height : Z; ss_ParentID : string }.
Record stateSnapshotSeal := mkStateSnapshotSeal { ss_BlockID : string }.
Record stateSnapshot := mkStateSnapshot { ss_Head : stateSnapshotHeader; ss_LatestSeal : stateSnapshotSeal }.

(** Functions of other packages. *)
Class FollowerLib := {
  keyring : Type;
  public_key : Type;
  private_key : Type;
  (** [http.NewRequestWithContext] accepts the address *)
  request_ok : string → bool;
  (** [json.Unmarshal] into a snapshot *)
  decode_snapshot : bytes → option stateSnapshot;
  (** OpenPGP *)
  ReadArmoredKeyRing : string → option keyring;
  armor_Decode : bytes → option (string * bytes);
  CheckDetachedSignature : keyring → bytes → bytes → bool;
  (** the keys of flow-go *)
  GeneratePublicNetworkingKey : bytes → option private_key;
  DecodePublicKey : bytes → option public_key;
}.

(** Calls that depend on the world and change it. *)
Class FollowerEnv (W : Type) `{!FollowerLib} := {
  (** [httpClient.Do] and reading the body: no response, a body that cannot be
      read, or its bytes *)
  http_Do : string → W → option (option bytes) * W;
  (** the operating system: [os.MkdirAll], [os.WriteFile], [pebble.SafeOpen] and
      [rand.Read] succeed or fail *)
  os_MkdirAll : string → W → bool * W;
  os_WriteFile : string → bytes → W → bool * W;
  pebble_SafeOpen : string → W → bool * W;
  rand_Read : W → option bytes * W;
  (** the follower of flow-go *)
  NewConsensusFollower : private_key → string → list (string * Z * public_key) → string → W → bool * W;
}.
#[export] Hint Mode FollowerEnv ! - : typeclass_instances.

(** [filepath.Join] of clean parts *)
Definition filepath_Join (a b : string) : string := a +:+ "/" +:+ b.

Definition SignatureType : string := "PGP SIGNATURE".

Section follower.
Context {W : Type} `{!FollowerLib, !FollowerEnv W}.

(** a call that ends the process on failure *)
Definition or_die (f : W → bool * W) : act W unit :=
  ok ← envA f; if (ok : bool) then mret tt else pureA Fatal.
Definition some_or_die {A} (o : option A) : act W A := pureA (match o with Some a => Ok a | None => Fatal end).

(** ** [download]: until a response is read *)
Fixpoint download (fuel : nat) (src : string) : act W bytes :=
  match fuel with
  | O => pureA (Err OutOfFuel)
  | S fuel =>
      if negb (request_ok src) then pureA Fatal
      else
        resp ← envA (http_Do src);
        match resp with
        | Some (Some data) => mret data
        | _ => download fuel src
        end
  end.

(** ** [downloadRootState]

    What it leaves behind: the snapshot file and the decoded snapshot. *)
Definition snapshotFile (sporkDir : string) : string :=
  filepath_Join (filepath_Join sporkDir "public-root-information") "root-protocol-state-snapshot.json".

Definition checkSignature (fuel : nat) (cfg : Consensus) (data : bytes) : act W unit :=
  keys ← some_or_die (ReadArmoredKeyRing (SigningKey cfg));
  sig ← download fuel (RootProtocolStateSignatureURL cfg);
  block ← some_or_die (armor_Decode sig);
  if negb (bool_decide (block.1 = SignatureType)) then pureA Fatal
  else if CheckDetachedSignature keys data block.2 then mret tt else pureA Fatal.

Definition downloadRootState (fuel : nat) (cfg : Consensus) (sporkDir : string)
    : act W (string * bytes * stateSnapshot) :=
  let bootstrapDir := filepath_Join sporkDir "public-root-information" in
  _ ← or_die (os_MkdirAll bootstrapDir);
  data ← download fuel (RootProtocolStateURL cfg);
  let dst := filepath_Join bootstrapDir "root-protocol-state-snapshot.json" in
  _ ← or_die (os_WriteFile dst data);
  root ← some_or_die (decode_snapshot data);
  if DisableSignatureCheck cfg then mret (dst, data, root)
  else
    _ ← checkSignature fuel cfg data;
    mret (dst, data, root).

(** ** [runConsensusFollower] *)
Definition seedNode (node : SeedNode) : act W (string * Z * public_key) :=
  rawkey ← some_or_die (hex_decode (sn_PublicKey node));
  pubkey ← some_or_die (DecodePublicKey rawkey);
  mret (sn_Host node, sn_Port node, pubkey).

Fixpoint seedNodes (nodes : list SeedNode) : act W (list (string * Z * public_key)) :=
  match nodes with
  | [] => mret []
  | node :: nodes => n ← seedNode node; ns ← seedNodes nodes; mret (n :: ns)
  end.

Record following := mkFollowing {
  fo_file : string;
  fo_data : bytes;
  fo_root : stateSnapshot;
  fo_nodes : list (string * Z * public_key);
  fo_bootstrapDir : string;
}.

Definition runConsensusFollower (fuel : nat) (cfg : Consensus) (sporkDir : string) : act W following :=
  r ← downloadRootState fuel cfg sporkDir;
  let '(file, data, root) := r in
  _ ← or_die (pebble_SafeOpen (filepath_Join sporkDir "consensus"));
  seed ← envA rand_Read;
  seed ← some_or_die seed;
  key ← some_or_die (GeneratePublicNetworkingKey seed);
  nodes ← seedNodes (SeedNodes cfg);
  _ ← or_die (NewConsensusFollower key "0.0.0.0:8040" nodes sporkDir);
  mret (mkFollowing file data root nodes sporkDir).

(** ** Theorems *)
Lemma act_bind_Ok {A B} (m : act W A) (f : A → act W B) w b w' :
  (m ≫= f) w = (Ok b, w') ↔ ∃ a w1, m w = (Ok a, w1) ∧ f a w1 = (Ok b, w').
Proof.
  unfold mbind, act_mbind. destruct (m w) as [[a|e| |] w1]; split; try done.
  all: try (intros Hf; by eexists _, _). all: try (by intros (a' & w2 & [= <- <-] & Hf)).
  all: by intros (a' & w2 & [=] & _).
Qed.

Lemma some_or_die_Ok {A} (o : option A) w a w' : some_or_die o w = (Ok a, w') → o = Some a ∧ w' = w.
Proof. destruct o; by intros [= -> ->]. Qed.

Lemma or_die_Ok f w w' : or_die f w = (Ok tt, w') → f w = (true, w').
Proof. unfold or_die, envA, mbind, act_mbind. destruct (f w) as [[] w1]; by intros [= <-]. Qed.

(** what was downloaded came from that address *)
Definition fetched (src : string) (data : bytes) : Prop :=
  ∃ w w' : W, http_Do src w = (Some (Some data), w').

Lemma download_fetched fuel src w data w' : download fuel src w = (Ok data, w') → fetched src data.
Proof.
  revert w. induction fuel as [|fuel IH]; intros w; [done|]. cbn. destruct (request_ok src); [|done]. cbn.
  intros (resp & w1 & Hd & Hr)%act_bind_Ok. unfold envA in Hd. destruct (http_Do src w) as [r w2] eqn:Hh.
  injection Hd as -> ->. destruct resp as [[d|]|]; [|by apply IH in Hr..]. injection Hr as -> <-. by exists w, w1.
Qed.

(** The configured key signed these bytes, with the signature found at the
    configured address. *)
Definition signed_by (cfg : Consensus) (data : bytes) : Prop :=
  ∃ keys sig body, ReadArmoredKeyRing (SigningKey cfg) = Some keys ∧
    fetched (RootProtocolStateSignatureURL cfg) sig ∧
    armor_Decode sig = Some (SignatureType, body) ∧ CheckDetachedSignature keys data body = true.

Lemma checkSignature_signed fuel cfg data w w' :
  checkSignature fuel cfg data w = (Ok tt, w') → signed_by cfg data.
Proof.
  unfold checkSignature.
  intros (keys & w1 & [Hk ->]%some_or_die_Ok & Hr)%act_bind_Ok.
  apply act_bind_Ok in Hr as (sig & w2 & Hs%download_fetched & Hr).
  apply act_bind_Ok in Hr as ([typ body] & w3 & [Ha ->]%some_or_die_Ok & Hr). cbn [fst snd] in Hr.
  case_bool_decide; [subst typ|done]. cbn [negb] in Hr.
  destruct (CheckDetachedSignature keys data body) eqn:Hc; [|done]. by exists keys, sig, body.
Qed.

Lemma seedNodes_decoded nodes w ns w' :
  seedNodes nodes w = (Ok ns, w') →
  Forall2 (λ n x, ∃ raw key, hex_decode (sn_PublicKey n) = Some raw ∧ DecodePublicKey raw = Some key ∧
    x = (sn_Host n, sn_Port n, key)) nodes ns.
Proof.
  revert w ns w'. induction nodes as [|n nodes IH]; intros w ns w'; [by intros [= <- _]|]. cbn.
  intros (x & w1 & Hx & Hr)%act_bind_Ok. apply act_bind_Ok in Hr as (xs & w2 & Hxs & Hr).
  injection Hr as <- _. apply Forall2_cons. split; [|by eapply IH].
  apply act_bind_Ok in Hx as (raw & w3 & [Hraw ->]%some_or_die_Ok & Hx).
  apply act_bind_Ok in Hx as (key & w4 & [Hkey ->]%some_or_die_Ok & Hx).
  injection Hx as <- _. by exists raw, key.
Qed.

(** C23: A follower that was started bootstraps from the file that the snapshot
    was written to; the bytes in it came from the configured address, are the
    ones that were decoded, and are signed with the configured key unless the
    check is disabled; its peers are exactly the configured seed nodes, in order,
    with their decoded keys. *)
Theorem follower_root_signed fuel cfg sporkDir w f w' :
  runConsensusFollower fuel cfg sporkDir w = (Ok f, w') →
  fo_file f = snapshotFile (fo_bootstrapDir f) ∧
  (∃ w1 w2 : W, os_WriteFile (fo_file f) (fo_data f) w1 = (true, w2)) ∧
  fetched (RootProtocolStateURL cfg) (fo_data f) ∧
  decode_snapshot (fo_data f) = Some (fo_root f) ∧
  (DisableSignatureCheck cfg = false → signed_by cfg (fo_data f)) ∧
  Forall2 (λ n x, ∃ raw key, hex_decode (sn_PublicKey n) = Some raw ∧ DecodePublicKey raw = Some key ∧
    x = (sn_Host n, sn_Port n, key)) (SeedNodes cfg) (fo_nodes f).
Proof.
  unfold runConsensusFollower.
  intros ([[file data] root] & w1 & Hd & Hr)%act_bind_Ok.
  apply act_bind_Ok in Hr as (? & w2 & _ & Hr). apply act_bind_Ok in Hr as (seed & w3 & _ & Hr).
  apply act_bind_Ok in Hr as (seed' & w4 & _ & Hr). apply act_bind_Ok in Hr as (key & w5 & _ & Hr).
  apply act_bind_Ok in Hr as (nodes & w6 & Hn%seedNodes_decoded & Hr).
  apply act_bind_Ok in Hr as (? & w7 & _ & Hr). injection Hr as <- _. cbn [fo_file fo_data fo_root fo_nodes fo_bootstrapDir].
  unfold downloadRootState in Hd. apply act_bind_Ok in Hd as (? & v1 & _ & Hd).
  apply act_bind_Ok in Hd as (data' & v2 & Hdata%download_fetched & Hd).
  apply act_bind_Ok in Hd as ([] & v3 & Hw%or_die_Ok & Hd).
  apply act_bind_Ok in Hd as (root' & v4 & [Hroot ->]%some_or_die_Ok & Hd).
  destruct (DisableSignatureCheck cfg) eqn:Hdis.
  - injection Hd as <- <- <- _. split_and!; try done. by exists v2, v3.
  - apply act_bind_Ok in Hd as ([] & v5 & Hs%checkSignature_signed & Hd). injection Hd as <- <- <- _.
    split_and!; try done. by exists v2, v3.
Qed.
End follower.

(** ** A run *)
Module FollowerDemo.
(** A signature here is the key followed by the data. *)
#[local] Instance lib : FollowerLib := {|
  keyring := string; public_key := bytes; private_key := bytes;
  request_ok src := negb (bool_decide (src = ""));
  decode_snapshot data := Some (mkStateSnapshot (mkStateSnapshotHeader "flow-testnet" (Z.of_nat (length data)) "") (mkStateSnapshotSeal ""));
  ReadArmoredKeyRing key := Some key;
  armor_Decode data := Some (SignatureType, data);
  CheckDetachedSignature keys data body := bool_decide (body = String.list_byte_of_string keys ++ data);
  GeneratePublicNetworkingKey seed := Some seed;
  DecodePublicKey raw := Some raw;
|}.
(** The first request gets no response. *)
#[local] Instance world : FollowerEnv nat := {|
  http_Do src w := (if (w <? 1)%nat then None
                    else Some (Some (if bool_decide (src = "state") then [x01; x02]
                                     else String.list_byte_of_string "key" ++ [x01; x02])), S w);
  os_MkdirAll _ w := (true, w);
  os_WriteFile _ _ w := (true, w);
  pebble_SafeOpen _ w := (true, w);
  rand_Read w := (Some [x2a], w);
  NewConsensusFollower _ _ _ _ w := (true, w);
|}.
Definition cfg : Consensus := mkConsensus false "state" "signature" [mkSeedNode "host" 3569 "abcd"] "key".
Definition started : following :=
  match (runConsensusFollower 5 cfg "data/testnet-1" 0%nat).1 with
  | Ok f => f
  | _ => mkFollowing "" [] (mkStateSnapshot (mkStateSnapshotHeader "" 0 "") (mkStateSnapshotSeal "")) [] ""
  end.

(** A follower started after one retry, with a signed snapshot. *)
Lemma follower_root_signed_witness :
  fo_data started = [x01; x02] ∧ signed_by (W:=nat) cfg (fo_data started) ∧ length (fo_nodes started) = 1%nat.
Proof.
  assert (runConsensusFollower 5 cfg "data/testnet-1" 0%nat = (Ok started, 3%nat)) as Hrun by by vm_compute.
  destruct (follower_root_signed 5 cfg "data/testnet-1" 0%nat started 3%nat Hrun) as (_ & _ & _ & _ & Hs & Hn).
  split; [by vm_compute|]. split; [by apply Hs|]. by apply Forall2_length in Hn as <-.
Defined.
End FollowerDemo.
