(* ===== verification/Reconcile.v ===== *)
(** * The reconciliation tool

    Model of [src/cmd/reconciliation/reconciliation.go], which replays the
    operations of an account block by block and compares the sum with the balance
    the server reports, and the theorem that it finds no difference on a server
    whose index represents a history. *)
From S2P Require Import Prelude Bytes Text Model Badger Crypto Convert Config IndexDB IndexSpec IndexProofs IndexTheorems IndexReset IndexExport IndexMain Indexer Process Txn Api ApiMain.
Local Open Scope Z_scope.

(** Every error of the tool is a fatal one with a message. *)
#[local] Abbreviation tool := (outcome string).
Definition or_die_with {A} (msg : string) (o : option A) : tool A :=
  match o with Some a => Ok a | None => Err msg end.

(** ** [sort.Search]: binary search for the smallest index with [f] *)
Fixpoint sortSearch (fuel : nat) (f : nat → bool) (i j : nat) : nat :=
  match fuel with
  | O => i
  | S fuel =>
      if (i <? j)%nat then
        let h := ((i + j) / 2)%nat in
        if negb (f h) then sortSearch fuel f (S h) j else sortSearch fuel f i h
      else i
  end.

Section tool.
(** [client.Block] and [client.AccountBalance] at a height; [None] is an error *)
Context (fetchBlock : Z → option BlockResponse) (fetchBalance : Z → option (list Amount)).
Context (addr : string).

(** what an operation adds to the balance of the account *)
Definition opChange (op : RosettaOperation) : tool (option Z) :=
  account ← deref (ro_Account op);
  if negb (bool_decide (account = addr)) then Ok None
  else
    match ro_Amount op with
    | None => Ok None
    | Some amount =>
        if bool_decide (am_Value amount = "") then Ok None
        else Some <$> or_die_with "Failed to parse operation amount" (ParseInt64 (am_Value amount))
    end.

Definition addOp (inferred : Z) (op : RosettaOperation) : tool Z :=
  c ← opChange op; Ok (match c with Some amount => s64 (inferred + amount) | None => inferred end).

Definition addTransaction (inferred : Z) (txn : RosettaTransaction) : tool Z := foldM addOp inferred (rt_Operations txn).

(** the balance the server reports *)
Definition reported (height : Z) : tool Z :=
  amounts ← or_die_with "Failed to get account balance" (fetchBalance height);
  amount ← deref (amounts !! 0%nat);
  or_die_with "Failed to parse balance amount" (ParseInt64 (am_Value amount)).

Definition mismatch : string := "Mismatching account balances".

Definition reconcileBlock (inferred height : Z) : tool Z :=
  block ← or_die_with "Failed to get block" (fetchBlock (s64 height));
  inferred ← foldM addTransaction inferred (br_Transactions block);
  balance ← reported (s64 height);
  if negb (inferred =? balance) then Err mismatch else Ok inferred.

(** Which blocks to look at, and the balance before them: from the file, from a
    start height on, or all from a start to an end height. *)
Definition heightsBetween (start end_ : Z) : tool (list Z) :=
  if end_ =? 2 ^ 64 - 1 then Fatal else Ok (seqZ start (end_ - start + 1)).

Definition selectBlocks (blocks : list Z) (start end_ : option Z) : tool (list Z * Z) :=
  _ ← deref (E := string) (blocks !! 0%nat);
  match start with
  | None => Ok (blocks, 0)
  | Some start =>
      blocks ←
        match end_ with
        | Some end_ => heightsBetween start end_
        | None =>
            let count := length blocks in
            let idx := sortSearch count (λ i, start <=? nth i blocks 0) 0 count in
            if bool_decide (idx = count) then Err "Unable to find any blocks" else Ok (drop idx blocks)
        end;
      first ← or_die_with "Found no blocks to process" (blocks !! 0%nat);
      inferred ← reported (s64 (u64 (first - 1)));
      Ok (blocks, inferred)
  end.

(** The result is the final balance. *)
Definition reconcile (blocks : list Z) (start end_ : option Z) : tool Z :=
  r ← selectBlocks blocks start end_;
  foldM reconcileBlock r.2 r.1.

(** ** The file of accounts

    JSON as far as the exported accounts need it, what [ExportAccounts] writes,
    and decoding into [map[string][]uint64]. *)
Inductive json := JNull | JBool (b : bool) | JNum (n : Z) | JArr (l : list json) | JObj (l : list (string * json)).

Definition infoJSON (info : AccountInfo) : json :=
  JObj (("changes", JArr ((λ c, JArr [JNum c.1; JNum c.2]) <$> Changes info))
        :: (if Proxy info then [("proxy", JBool true)] else [])).

Definition decodeUint64 (j : json) : option Z :=
  match j with
  | JNum n => if (0 <=? n) && (n <? 2 ^ 64) then Some n else None
  | JNull => Some 0
  | _ => None
  end.
Definition decodeHeights (j : json) : option (list Z) :=
  match j with JArr l => mapM decodeUint64 l | JNull => Some [] | _ => None end.
Definition decodeAccounts (file : gmap string json) : option (gmap string (list Z)) :=
  if bool_decide (map_Forall (λ _ j, is_Some (decodeHeights j)) file) then Some (omap decodeHeights file) else None.

Definition addr_tail : tool string :=
  match addr with String _ (String _ rest) => Ok rest | _ => Panic end.

(** [main]; [ready] is whether the status, the options and the asserter of the
    client could be had. *)
Definition reconciliation (ready : bool) (file : gmap string json) (start end_ : option Z) : tool Z :=
  accounts ← or_die_with "Failed to JSON-decode" (decodeAccounts file);
  key ← addr_tail;
  blocks ← or_die_with "Failed to find account" (accounts !! key);
  if negb ready then Err "Failed to get network status" else reconcile blocks start end_.
End tool.

(** [ExportAccounts]; [write] is whether the file could be written *)
Definition ExportAccounts {DB} `{!Badger DB} (write : bool) (s : Store DB) : outcome err (gmap string json) :=
  match AccountsInfo s with
  | Ok data => if write then Ok (infoJSON <$> data) else Fatal
  | Err _ => Fatal
  | Fatal => Fatal
  | Panic => Panic
  end.

(** ** Binary search finds the first index *)
Lemma sortSearch_spec fuel f i j :
  (i ≤ j)%nat → (j - i ≤ fuel)%nat → (∀ a b, (a ≤ b < j)%nat → f a = true → f b = true) →
  let k := sortSearch fuel f i j in
  (i ≤ k ≤ j)%nat ∧ (∀ a, (i ≤ a < k)%nat → f a = false) ∧ (∀ a, (k ≤ a < j)%nat → f a = true).
Proof.
  revert i j. induction fuel as [|fuel IH]; intros i j Hij Hf Hmono; cbn [sortSearch].
  - split; [lia|]. split; intros; lia.
  - destruct (Nat.ltb_spec i j) as [Hlt|]; [|split; [lia|]; split; intros; lia].
    assert (i ≤ (i + j) / 2 < j)%nat as Hh.
    { split; [apply Nat.div_le_lower_bound; lia|apply Nat.Div0.div_lt_upper_bound; lia]. }
    destruct (f ((i + j) / 2)%nat) eqn:Hfh; cbn [negb].
    + destruct (IH i ((i + j) / 2)%nat) as (H1 & H2 & H3); [lia..|by intros; eapply Hmono; eauto; lia|]. split; [lia|]. split; [done|].
      intros a Ha. destruct (decide (a < (i + j) / 2)%nat); [apply H3; lia|]. apply (Hmono ((i + j) / 2)%nat); [lia|done].
    + destruct (IH (S ((i + j) / 2)) j) as (H1 & H2 & H3); [lia..|done|]. split; [lia|]. split; [|done].
      intros a Ha. destruct (decide (a ≤ (i + j) / 2)%nat); [|apply H2; lia].
      apply not_true_is_false. intros Ht. rewrite (Hmono a ((i + j) / 2)%nat) in Hfh by (done || lia). done.
Qed.

(** ** What the server prints, the tool reads *)

Lemma ParseInt64_format z : - 2 ^ 63 ≤ z < 2 ^ 63 → ParseInt64 (format_int z) = Some z.
Proof.
  intros Hz. unfold ParseInt64. assert (parse_decimal (format_int z) = Some z) as ->.
  { destruct (decide (0 ≤ z)); [by apply parse_format|]. destruct z as [|p|p]; [lia..|].
    change (format_int (Zneg p)) with (String dash (format_int (Zpos p))). by rewrite parse_format_neg. }
  cbn [mbind option_bind]. by rewrite (proj2 (Z.leb_le _ _)), (proj2 (Z.ltb_lt _ _)) by lia.
Qed.

Lemma format_int_nonempty z : format_int z ≠ "".
Proof.
  intros H. destruct (decide (0 ≤ z)).
  - pose proof (parse_format z) as Hp. rewrite H in Hp. by specialize (Hp ltac:(lia)).
  - destruct z as [|p|p]; [lia..|].
    change (format_int (Zneg p)) with (String dash (format_int (Zpos p))) in H. discriminate H.
Qed.

(** An operation with an account and, if any, an amount that is printed from an
    [int64]. *)
Definition readable_op (o : RosettaOperation) : Prop :=
  is_Some (ro_Account o) ∧
  ∀ am, ro_Amount o = Some am → ∃ z, am_Value am = format_int z ∧ - 2 ^ 63 ≤ z < 2 ^ 63.

Lemma rosettaOp_readable index addr value related md typ :
  (∀ z, value = Some z → - 2 ^ 63 ≤ z < 2 ^ 63) → readable_op (rosettaOp index addr value related md typ).
Proof.
  intros Hz. split; [by eexists|]. cbn. intros am. destruct value as [z|]; [|done]. intros [= <-].
  exists z. auto.
Qed.

Lemma convertOperation_readable ops op ops' :
  served_op op → Forall readable_op ops → convertOperation ops op = Ok ops' → Forall readable_op ops'.
Proof.
  intros (_ & Ha & _) Hops. pose proof (debit_neg _ Ha) as Hd.
  assert (∀ l o, Forall readable_op l → readable_op o → Forall readable_op (l ++ [o])) as Hsnoc.
  { intros l o Hl Ho. apply Forall_app. split; [done|]. apply Forall_cons. split; [done|constructor]. }
  assert (∀ i a md r t, readable_op (rosettaOp i a None r md t)) as Hnone by (intros; by apply rosettaOp_readable).
  assert (∀ i a md r t, readable_op (rosettaOp i a (Some (op_Amount op)) r md t) ∧
    readable_op (rosettaOp i a (Some (debit (op_Amount op))) r md t)) as Hsome.
  { intros. split; apply rosettaOp_readable; intros z [= <-]; lia. }
  unfold convertOperation. destruct (op_Type op); try done; intros [= <-].
  all: repeat match goal with |- context [if nonempty ?x then _ else _] => destruct (nonempty x) end.
  all: repeat apply Hsnoc; try done; apply Hsome || apply Hnone.
Qed.

Lemma served_readable txns ts :
  Forall (λ t, Forall served_op (it_Operations t)) txns →
  foldM (λ txns txn, t ← convertTransaction txn; Ok (txns ++ [t])) [] txns = Ok ts →
  Forall readable_op (mjoin (rt_Operations <$> ts)).
Proof.
  intros Hops. rewrite Forall_forall in Hops.
  apply (foldM_inv _ (λ ts, Forall readable_op (mjoin (rt_Operations <$> ts)))); [|constructor].
  intros b x b' Hx Hb Hs. apply bind_Ok in Hs as (t & Ht & Hs). injection Hs as <-.
  rewrite fmap_app, join_app. apply Forall_app. split; [done|].
  change (mjoin (rt_Operations <$> [t])) with (rt_Operations t ++ []). rewrite app_nil_r.
  unfold convertTransaction in Ht. apply bind_Ok in Ht as (ops & Ho & Ht). injection Ht as <-. cbn.
  specialize (Hops x Hx). rewrite Forall_forall in Hops.
  revert Ho. apply (foldM_inv _ (Forall readable_op)); [|constructor].
  intros a o a' Hin Ha Hstep. eapply convertOperation_readable; [by apply Hops|done|done].
Qed.

Lemma addTransactions_ops addr a ts :
  foldM (addTransaction addr) a ts = foldM (addOp addr) a (mjoin (rt_Operations <$> ts)).
Proof.
  revert a. induction ts as [|t ts IH]; intros a; [done|]. rewrite fmap_cons.
  change (mjoin (rt_Operations t :: (rt_Operations <$> ts))) with (rt_Operations t ++ mjoin (rt_Operations <$> ts)).
  rewrite foldM_app. cbn [foldM]. change (addTransaction addr a t) with (foldM (addOp addr) a (rt_Operations t)).
  unfold mbind, outcome_mbind. destruct (foldM (addOp addr) a (rt_Operations t)); cbn [outcome_bind]; [apply IH|done..].
Qed.

Lemma addOp_value acct a o :
  readable_op o →
  (op_value acct o = None ∧ addOp (hexAddress acct) a o = Ok a) ∨
  (∃ z, op_value acct o = Some (format_int z) ∧ addOp (hexAddress acct) a o = Ok (s64 (a + z))).
Proof.
  intros [[ad Had] Ham]. unfold op_value, addOp, opChange. rewrite Had. cbn [deref mbind outcome_mbind outcome_bind].
  destruct (decide (ad = hexAddress acct)) as [->|Hne].
  - rewrite !bool_decide_eq_true_2 by done. cbn [negb]. destruct (ro_Amount o) as [am|]; [right|by left].
    destruct (Ham am eq_refl) as (z & Hz & Hrange). exists z. cbn [fmap option_fmap option_map]. rewrite Hz.
    split; [done|]. by rewrite bool_decide_eq_false_2, ParseInt64_format by (done || apply format_int_nonempty).
  - left. by rewrite !bool_decide_eq_false_2 by congruence.
Qed.

(** The tool adds up the amounts of the account's operations. *)
Lemma addOps_values acct a ops zs :
  Forall readable_op ops → values acct ops = format_int <$> zs → - 2 ^ 63 ≤ a < 2 ^ 63 →
  foldM (addOp (hexAddress acct)) a ops = Ok (s64 (a + sumZ id zs)).
Proof.
  intros Hr. revert a zs. induction Hr as [|o ops Ho _ IH]; intros a zs Hv Ha.
  - destruct zs; [|done]. cbn. by rewrite sumZ_nil, Z.add_0_r, s64_id.
  - cbn [foldM]. unfold values in Hv. cbn [omap list_omap] in Hv.
    destruct (addOp_value acct a o Ho) as [[Hn ->]|(z & Hs & ->)].
    + rewrite Hn in Hv. cbn. by apply IH.
    + rewrite Hs in Hv. destruct zs as [|z0 zs]; [done|]. rewrite fmap_cons in Hv. injection Hv as Hv0 Hv.
      apply (inj pretty) in Hv0 as <-. rewrite Ok_bind, (IH _ zs Hv) by apply s64_range.
      rewrite sumZ_cons, s64_add_l. unfold id at 2. by rewrite Z.add_assoc.
Qed.

(** ** The tool and the server *)
Section server.
Context {DB : Type} `{BadgerLaws DB, !BadgerReliable DB, !Proto IndexedBlock, !Proto BlockMeta, !DataAccess}.
Context (sv : Server DB) (acct : bytes).

Definition serveBlock (height : Z) : option BlockResponse :=
  match Block sv (at_height height) with Ok b => Some b | _ => None end.
Definition serveBalance (height : Z) : option (list Amount) :=
  match AccountBalance sv (Some (hexAddress acct)) [] (at_height height) with
  | Ok r => Some (ab_Balances r) | _ => None
  end.

Context (g : BlockMeta) (hist : list entry).
Context (Hrep : repr (sv_Index sv) g hist) (Hg : sv_genesis sv = Some g) (Hon : sv_Offline sv = false).
Context (Hl : length acct = 8%nat) (Htop : top g hist < 2 ^ 63) (Hgen : hist !! 0%nat = Some (genesis_entry g)).
Context (Hserved : ∀ e, e ∈ hist →
  Forall (λ t, Forall served_op (it_Operations t)) (ib_Transactions (e_block e)) ∧
  unique_ops (ib_Transactions (e_block e))).

Definition balance_at (h : Z) : Z := u64 (ledger_balance hist acct h).

Lemma entry_at h : bm_Height g ≤ h ≤ top g hist →
  ∃ e, hist !! Z.to_nat (h - bm_Height g) = Some e ∧ e_height e = h.
Proof.
  intros Hh. unfold top in Hh. destruct (lookup_lt_is_Some_2 hist (Z.to_nat (h - bm_Height g))) as [e He]; [lia|].
  exists e. split; [done|]. rewrite (chain_lookup_height _ _ _ _ (repr_chain _ _ _ Hrep) He). lia.
Qed.

Lemma balance_at_bound h : bm_Height g ≤ h ≤ top g hist → 0 ≤ balance_at h < 2 ^ 63.
Proof.
  intros Hh. pose proof (chain_base _ _ (repr_chain _ _ _ Hrep)).
  apply (balance_bound (sv_Index sv) g hist acct h Hrep Hl). unfold u64_range_ok. lia.
Qed.

Lemma balance_at_genesis : balance_at (bm_Height g) = 0.
Proof.
  unfold balance_at, ledger_balance. rewrite sumZ_zero; [done|].
  intros x [i Hi]%list_elem_of_lookup.
  rewrite (chain_lookup_height g hist i x (repr_chain _ _ _ Hrep) Hi). destruct i as [|i].
  - rewrite Hgen in Hi. injection Hi as <-. by destruct (_ <=? _).
  - by rewrite (proj2 (Z.leb_gt _ _)) by lia.
Qed.

Lemma serveBalance_at h : bm_Height g ≤ h ≤ top g hist →
  reported serveBalance h = Ok (balance_at h).
Proof.
  intros Hh. pose proof (balance_at_bound h Hh) as Hb. pose proof (chain_base _ _ (repr_chain _ _ _ Hrep)) as Hbase.
  unfold reported, serveBalance. destruct (decide (h = bm_Height g)) as [->|Hne].
  - unfold AccountBalance, at_height. rewrite (getAccount_hexAddress _ Hl). cbn -[s64].
    rewrite Hg. cbn -[s64]. rewrite s64_id, Z.ltb_irrefl, Z.eqb_refl by lia. unfold genesisBalance. rewrite Hg. cbn.
    by rewrite balance_at_genesis.
  - destruct (entry_at h Hh) as (e & He & <-).
    rewrite (AccountBalance_height sv g hist e acct Hrep Hg (list_elem_of_lookup_2 _ _ _ He)) by (done || lia).
    cbn [ab_Balances or_die_with mbind outcome_mbind outcome_bind]. cbn [lookup list_lookup deref outcome_bind am_Value].
    rewrite Ok_bind. cbn [am_Value]. fold (balance_at (e_height e)). by rewrite ParseInt64_format by lia.
Qed.

(** One block: the tool gets from the balance before it to the one after it. *)
Lemma reconcileBlock_at h :
  bm_Height g < h ≤ top g hist →
  reconcileBlock serveBlock serveBalance (hexAddress acct) (balance_at (h - 1)) h = Ok (balance_at h).
Proof.
  intros Hh. pose proof (balance_at_bound (h - 1) ltac:(lia)) as Hb1. pose proof (balance_at_bound h ltac:(lia)) as Hb2.
  pose proof (repr_chain _ _ _ Hrep) as Hc. pose proof (chain_base _ _ Hc) as Hbase.
  destruct (entry_at (h - 1) ltac:(lia)) as (p & Hp & Hph). destruct (entry_at h ltac:(lia)) as (e & He & Heh).
  replace (Z.to_nat (h - bm_Height g)) with (S (Z.to_nat (h - 1 - bm_Height g))) in He by lia.
  destruct (Hserved e (list_elem_of_lookup_2 _ _ _ He)) as [Hops Hu].
  destruct (block_reconciles sv g hist _ p e acct Hrep Hg Hon Hp He ltac:(lia) Hops Hu Hl)
    as (b & zs & bal & Hblock & _ & _ & Hv & Hbal & _ & Hbals & Hts).
  unfold reconcileBlock. rewrite s64_id by lia. unfold serveBlock. rewrite <-Heh, Hblock, Heh.
  cbn [or_die_with mbind outcome_mbind outcome_bind]. rewrite addTransactions_ops.
  rewrite (addOps_values acct _ _ zs); [|eapply served_readable; [|exact Hts]|exact Hv|lia].
  2: { destruct (dedup_spec (ib_Transactions (e_block e))) as [_ Hfrom _]. rewrite Forall_forall in *. intros t Ht. by apply Hops, Hfrom. }
  rewrite Ok_bind, serveBalance_at, Ok_bind by lia.
  assert (s64 (balance_at (h - 1) + sumZ id zs) = balance_at h) as ->; [|by rewrite Z.eqb_refl].
  rewrite (AccountBalance_height sv g hist e acct Hrep Hg (list_elem_of_lookup_2 _ _ _ He)) in Hbal by (done || lia).
  injection Hbal as <-. injection Hbals as Hbals. apply (inj pretty) in Hbals. rewrite Heh, Hph in Hbals.
  fold (balance_at h) in Hbals. unfold balance_at at 1. rewrite <-s64_u64, u64_add_l, <-Hbals. by apply s64_id; lia.
Qed.

(** ** Lists of blocks *)

(** every block of the list is indexed, and nothing happens to the account
    between one block and the next *)
Fixpoint covers (prev : Z) (hs : list Z) : Prop :=
  match hs with
  | [] => True
  | h :: hs => bm_Height g < h ≤ top g hist ∧ balance_at (h - 1) = balance_at prev ∧ covers h hs
  end.

Lemma reconcile_covers prev hs :
  covers prev hs →
  foldM (reconcileBlock serveBlock serveBalance (hexAddress acct)) (balance_at prev) hs =
  Ok (balance_at (default prev (last hs))).
Proof.
  revert prev. induction hs as [|h hs IH]; intros prev; [done|]. intros (Hh & Hb & Hc). cbn [foldM].
  rewrite <-Hb, reconcileBlock_at, Ok_bind, (IH h Hc) by done. rewrite last_cons. by destruct (last hs).
Qed.

(** What the file lists for an account: in order, indexed heights, among them all
    at which its balance changes. *)
Record complete (blocks : list Z) : Prop := mkComplete {
  co_sorted : StronglySorted Z.lt blocks;
  co_indexed : Forall (λ h, bm_Height g < h ≤ top g hist) blocks;
  co_changes : ∀ e, e ∈ hist → block_effect acct (e_block e) ≠ 0 → e_height e ∈ blocks;
}.

Lemma quiet_between a b :
  a ≤ b → (∀ e, e ∈ hist → a < e_height e ≤ b → block_effect acct (e_block e) = 0) → balance_at b = balance_at a.
Proof.
  intros Hab Hq. unfold balance_at, ledger_balance. f_equal. apply sumZ_ext. intros e He.
  specialize (Hq e He). destruct (Z.leb_spec (e_height e) a), (Z.leb_spec (e_height e) b); try lia.
Qed.

Lemma covers_sorted prev pre hs :
  complete (pre ++ hs) → (∀ x, x ∈ pre → x ≤ prev) → (∀ x, x ∈ hs → prev < x) → covers prev hs.
Proof.
  revert prev pre. induction hs as [|h hs IH]; intros prev pre Hc Hpre Hhs; [done|].
  assert (prev < h) as Hlt by (apply Hhs; left).
  assert (∀ x, x ∈ hs → h < x) as Hgt.
  { apply Forall_forall. pose proof (StronglySorted_app_1_r _ _ _ (co_sorted _ Hc)) as Hs.
    by apply StronglySorted_cons in Hs as [Hs _]. }
  pose proof (co_indexed _ Hc) as Hi. rewrite Forall_app, Forall_cons in Hi. destruct Hi as (_ & Hh & _).
  cbn [covers]. split; [done|]. split.
  - apply quiet_between; [lia|]. intros e He Hr. destruct (decide (block_effect acct (e_block e) = 0)) as [|Hne]; [done|].
    exfalso. pose proof (co_changes _ Hc e He Hne) as Hin. rewrite elem_of_app, elem_of_cons in Hin.
    destruct Hin as [Hin|[Hin|Hin]]; [apply Hpre in Hin|..|apply Hgt in Hin]; lia.
  - apply (IH h (pre ++ [h])); [by rewrite <-(assoc_L (++))| |done].
    intros x. rewrite elem_of_app, list_elem_of_singleton. intros [Hx%Hpre| ->]; lia.
Qed.

Lemma covers_suffix pre h hs : complete (pre ++ h :: hs) → covers (h - 1) (h :: hs).
Proof.
  intros Hc. pose proof (co_indexed _ Hc) as Hi. rewrite Forall_app, Forall_cons in Hi. destruct Hi as (_ & Hh & _).
  pose proof (co_sorted _ Hc) as Hs. split; [done|]. split; [done|].
  apply (covers_sorted h (pre ++ [h])); [by rewrite <-(assoc_L (++))|..].
  - intros x. rewrite elem_of_app, list_elem_of_singleton. intros [Hx| ->]; [|lia].
    assert (x < h); [|lia]. apply (StronglySorted_app_1_elem_of _ pre (h :: hs)); [done|done|left].
  - apply Forall_forall. apply StronglySorted_app_1_r in Hs. by apply StronglySorted_cons in Hs as [Hs _].
Qed.

Lemma covers_range start n : bm_Height g < start → start + Z.of_nat n - 1 ≤ top g hist → covers (start - 1) (seqZ start (Z.of_nat n)).
Proof.
  revert start. induction n as [|n IH]; intros start Hs Hn; [done|]. rewrite seqZ_cons by lia.
  split; [lia|]. split; [done|]. replace start with (Z.succ start - 1) at 1 by lia.
  replace (Z.pred (Z.of_nat (S n))) with (Z.of_nat n) by lia. apply IH; lia.
Qed.

(** the balance before the first block *)
Lemma reported_before h : bm_Height g < h ≤ top g hist →
  reported serveBalance (s64 (u64 (h - 1))) = Ok (balance_at (h - 1)).
Proof.
  intros Hh. pose proof (chain_base _ _ (repr_chain _ _ _ Hrep)). rewrite u64_id, s64_id by lia.
  apply serveBalance_at. lia.
Qed.

Lemma select_from blocks start :
  complete blocks → (∃ h, h ∈ blocks ∧ start ≤ h) →
  ∃ pre h hs, blocks = pre ++ h :: hs ∧
    drop (sortSearch (length blocks) (λ i, start <=? nth i blocks 0) 0 (length blocks)) blocks = h :: hs ∧
    sortSearch (length blocks) (λ i, start <=? nth i blocks 0) 0 (length blocks) ≠ length blocks.
Proof.
  intros Hc (h0 & Hin & Hle). set (f := λ i, start <=? nth i blocks 0). set (n := length blocks).
  assert (∀ a b, (a ≤ b)%nat → (b < n)%nat → nth a blocks 0 ≤ nth b blocks 0) as Hmono.
  { intros a b Hab Hb. destruct (decide (a = b)) as [->|]; [lia|].
    destruct (lookup_lt_is_Some_2 blocks a) as [x Hx]; [unfold n in Hb; lia|].
    destruct (lookup_lt_is_Some_2 blocks b) as [y Hy]; [done|].
    rewrite (nth_lookup_Some _ _ _ _ Hx), (nth_lookup_Some _ _ _ _ Hy).
    assert (x < y); [|lia]. pose proof (co_sorted _ Hc) as Hs. rewrite <-(take_drop_middle blocks b y Hy) in Hs.
    apply (StronglySorted_app_1_elem_of _ _ _ _ _ Hs); [|left].
    apply list_elem_of_lookup. exists a. rewrite lookup_take_lt by lia. done. }
  destruct (sortSearch_spec n f 0 n) as (Hk & Hlo & Hhi); [lia..| |].
  { intros a b Hab. unfold f. rewrite !Z.leb_le. specialize (Hmono a b ltac:(lia) ltac:(lia)). lia. }
  set (k := sortSearch n f 0 n) in *. assert (k < n)%nat as Hkn.
  { apply list_elem_of_lookup in Hin as [i0 Hi0]. pose proof (lookup_lt_Some _ _ _ Hi0) as Hlt. fold n in Hlt.
    destruct (decide (k < n)%nat); [done|]. exfalso. specialize (Hlo i0 ltac:(lia)). unfold f in Hlo.
    rewrite (nth_lookup_Some _ _ _ _ Hi0) in Hlo. apply Z.leb_gt in Hlo. lia. }
  destruct (lookup_lt_is_Some_2 blocks k) as [h Hh]; [done|].
  exists (take k blocks), h, (drop (S k) blocks). split; [by rewrite take_drop_middle|].
  split; [by apply drop_S|lia].
Qed.

(** From a complete list of heights, from a start height in it, or for a range of
    indexed heights, the tool ends with the balance at the last block. *)
Lemma reconcile_complete blocks start end_ :
  complete blocks → blocks ≠ [] →
  match start, end_ with
  | None, _ => True
  | Some s, None => ∃ h, h ∈ blocks ∧ s ≤ h
  | Some s, Some e => bm_Height g < s ≤ e ∧ e ≤ top g hist
  end →
  ∃ sel first h, selectBlocks serveBalance blocks start end_ = Ok (sel, first) ∧ last sel = Some h ∧
    reconcile serveBlock serveBalance (hexAddress acct) blocks start end_ = Ok (balance_at h).
Proof.
  intros Hc Hne Hmode.
  assert (∀ sel h hs prev, sel = h :: hs → covers prev sel →
    selectBlocks serveBalance blocks start end_ = Ok (sel, balance_at prev) →
    ∃ sel first h, selectBlocks serveBalance blocks start end_ = Ok (sel, first) ∧ last sel = Some h ∧
      reconcile serveBlock serveBalance (hexAddress acct) blocks start end_ = Ok (balance_at h)) as Hdone.
  { intros sel h hs prev -> Hcov Hsel. destruct (last (h :: hs)) as [x|] eqn:Hx; [|by apply last_None in Hx].
    exists (h :: hs), (balance_at prev), x. split; [done|]. split; [done|]. unfold reconcile. rewrite Hsel, Ok_bind.
    cbn [fst snd]. by rewrite (reconcile_covers prev (h :: hs) Hcov), Hx. }
  destruct blocks as [|b0 bs] eqn:Hbl; [done|]. rewrite <-Hbl in *. clear Hne.
  assert (deref (E := string) (blocks !! 0%nat) = Ok b0) as H0th by by rewrite Hbl.
  destruct start as [s0|].
  - destruct end_ as [e0|].
    + apply (Hdone (seqZ s0 (e0 - s0 + 1)) s0 (seqZ (Z.succ s0) (Z.pred (e0 - s0 + 1))) (s0 - 1)).
      * by rewrite <-seqZ_cons by lia.
      * rewrite <-(Z2Nat.id (e0 - s0 + 1)) by lia. apply covers_range; lia.
      * unfold selectBlocks, heightsBetween. rewrite H0th, Ok_bind, (proj2 (Z.eqb_neq _ _)), Ok_bind by lia.
        rewrite seqZ_cons by lia. cbn [lookup list_lookup or_die_with]. rewrite Ok_bind, reported_before by lia. done.
    + destruct (select_from blocks s0 Hc Hmode) as (pre & h & hs & Heq & Hdrop & Hidx).
      apply (Hdone (h :: hs) h hs (h - 1)); [done| |].
      * apply (covers_suffix pre). by rewrite <-Heq.
      * unfold selectBlocks. rewrite H0th, Ok_bind, bool_decide_eq_false_2, Ok_bind, Hdrop by done.
        cbn [lookup list_lookup or_die_with]. rewrite Ok_bind, reported_before; [done|].
        pose proof (co_indexed _ Hc) as Hi. rewrite Heq, Forall_app, Forall_cons in Hi. tauto.
  - apply (Hdone blocks b0 bs (bm_Height g) Hbl).
    + apply (covers_sorted _ []); [done|set_solver|]. pose proof (co_indexed _ Hc) as Hi. rewrite Forall_forall in Hi.
      intros x Hx%Hi. lia.
    + unfold selectBlocks. by rewrite H0th, Ok_bind, balance_at_genesis.
Qed.

(** The recorded heights of an account are complete. *)
Lemma changes_complete : complete (changes_of hist acct).*1.
Proof.
  pose proof (repr_chain _ _ _ Hrep) as Hc. unfold changes_of. rewrite <-list_fmap_compose.
  set (touching := filter (λ e, block_touches acct (e_block e) = true) hist). split.
  - assert (StronglySorted (λ e1 e2, e_height e1 < e_height e2) touching) as Hs
      by apply StronglySorted_filter, (heights_sorted _ _ (chain_heights _ _ Hc)).
    clear -Hs. induction Hs as [|e l _ IH He]; [constructor|]. rewrite fmap_cons. constructor; [done|].
    by apply Forall_fmap.
  - apply Forall_fmap, Forall_forall. intros e [Ht He]%list_elem_of_filter. cbn [compose fst].
    pose proof (chain_height_elem _ _ _ Hc He) as Hr. split; [|lia].
    destruct (decide (e_height e = bm_Height g)) as [Heq|]; [|lia]. exfalso.
    apply list_elem_of_lookup in He as [i Hi]. pose proof (chain_lookup_height _ _ _ _ Hc Hi) as Hh.
    assert (i = 0%nat) as -> by lia. rewrite Hgen in Hi. injection Hi as <-. by vm_compute in Ht.
  - intros e He Hne. apply list_elem_of_fmap. exists e. split; [done|]. apply list_elem_of_filter. split; [|done].
    destruct (block_touches acct (e_block e)) eqn:Ht; [done|]. by apply ops_effect_untouched in Ht.
Qed.

(** a file in the format the tool reads, with the recorded heights *)
Definition heightsFile (data : gmap string AccountInfo) : gmap string json :=
  (λ info, JArr (JNum <$> (Changes info).*1)) <$> data.

Lemma decode_heights data :
  (∀ k info, data !! k = Some info → Forall (λ h, 0 ≤ h < 2 ^ 64) (Changes info).*1) →
  decodeAccounts (heightsFile data) = Some ((λ info, (Changes info).*1) <$> data).
Proof.
  intros Hok.
  assert (∀ k info, data !! k = Some info → decodeHeights (JArr (JNum <$> (Changes info).*1)) = Some (Changes info).*1) as Hdec.
  { intros k info Hk%Hok. cbn [decodeHeights]. induction Hk as [|h l Hh _ IH]; [done|].
    rewrite fmap_cons. cbn [mapM decodeUint64].
    rewrite (proj2 (Z.leb_le _ _)), (proj2 (Z.ltb_lt _ _)) by lia. cbn. by rewrite IH. }
  unfold decodeAccounts. rewrite bool_decide_true.
  - f_equal. apply map_eq. intros k. rewrite lookup_omap. unfold heightsFile. rewrite !lookup_fmap.
    destruct (data !! k) as [info|] eqn:Hk; [|done]. cbn [fmap option_fmap option_map mbind option_bind].
    by apply (Hdec k).
  - intros k j. unfold heightsFile. rewrite lookup_fmap. destruct (data !! k) as [info|] eqn:Hk; [|done].
    intros [= <-]. rewrite (Hdec k info Hk). done.
Qed.

End server.

(** ** A run *)
Module ReconcileDemo.
#[local] Existing Instances Demo.proto_meta Demo.proto_block gmap_badger ApiDemo.access.

Lemma demo_served e : e ∈ Demo.hist →
  Forall (λ t, Forall served_op (it_Operations t)) (ib_Transactions (e_block e)) ∧
  unique_ops (ib_Transactions (e_block e)).
Proof.
  intros [->|[->|[]%elem_of_nil]%elem_of_cons]%elem_of_cons.
  - split; [constructor|]. intros [|] t post Heq; discriminate Heq.
  - split; [exact ApiDemo.served|]. intros [|t0 pre] t post Heq Hops t' Ht'; [by apply elem_of_nil in Ht'|].
    apply (f_equal length) in Heq. rewrite length_app in Heq. cbn in Heq. lia.
Qed.

End ReconcileDemo.
