(* ===== verification/Construct.v ===== *)
(** * Transaction construction, offline part

    Model of [src/api/construction_service.go] except for the two endpoints that
    talk to access nodes: what a list of operations intends, the transaction and
    the bytes to sign for an intent, putting the signature in, and reading a
    transaction back as operations. *)
From S2P Require Import Prelude Bytes Text Model Badger Crypto Config IndexDB Indexer Txn Api.
Local Open Scope Z_scope.

(** ** Libraries *)

(** Building Cadence values, the type assertions on them, and the JSON encoding
    of package [jsoncdc] whose decoder is in [Cadence]. *)
Class CadenceJSON `{Cadence} := {
  cadence_String : string → cadence_Value;
  cadence_NewArray : list cadence_Value → cadence_Value;
  cadence_Bool : bool → cadence_Value;
  cadence_NewInt : Z → cadence_Value;
  cadence_BytesToAddress : bytes → cadence_Value;
  cadence_UFix64 : Z → cadence_Value;
  cadence_Int64 : Z → cadence_Value;
  as_Array : cadence_Value → option (list cadence_Value);
  as_Bool : cadence_Value → option bool;
  as_Int : cadence_Value → option Z;
  as_Int64 : cadence_Value → option Z;
  json_Encode : cadence_Value → option bytes;
}.

(** The encoding of a value decodes to a value of the same type and content.
    Text is kept as it is when it is ASCII. *)
Class CadenceJSONLaws `{CadenceJSON} := {
  json_String : ∀ s b, is_ascii s = true → json_Encode (cadence_String s) = Some b →
    ∃ v, json_Decode b = Some v ∧ as_String v = Some s;
  json_Strings : ∀ ss b, forallb is_ascii ss = true →
    json_Encode (cadence_NewArray (cadence_String <$> ss)) = Some b →
    ∃ v vs, json_Decode b = Some v ∧ as_Array v = Some vs ∧ as_String <$> vs = Some <$> ss;
  json_Bool : ∀ x b, json_Encode (cadence_Bool x) = Some b →
    ∃ v, json_Decode b = Some v ∧ as_Bool v = Some x;
  json_Int : ∀ z b, json_Encode (cadence_NewInt z) = Some b →
    ∃ v, json_Decode b = Some v ∧ as_Int v = Some z;
  json_Address : ∀ a b, length a = 8%nat → json_Encode (cadence_BytesToAddress a) = Some b →
    ∃ v, json_Decode b = Some v ∧ as_Address v = Some a;
  json_UFix64 : ∀ n b, 0 ≤ n < 2 ^ 64 → json_Encode (cadence_UFix64 n) = Some b →
    ∃ v, json_Decode b = Some v ∧ as_UFix64 v = Some n;
  json_Int64 : ∀ n b, - 2 ^ 63 ≤ n < 2 ^ 63 → json_Encode (cadence_Int64 n) = Some b →
    ∃ v, json_Decode b = Some v ∧ as_Int64 v = Some n;
}.

(** Package [parser] of the Rosetta SDK: descriptions of the operations wanted,
    and [MatchOperations], which gives for each description what [First] returns
    of its match: the operation and its amount. *)
Inductive AmountSign := NegativeAmountSign | PositiveAmountSign.
Record OperationDescription := mkOperationDescription {
  od_AccountExists : bool;
  od_AmountExists : bool;
  od_Currency : Currency;
  od_Sign : AmountSign;
  od_Type : string;
}.
Record Descriptions := mkDescriptions {
  ds_OperationDescriptions : list OperationDescription;
  ds_ErrUnmatched : bool;
}.
Class Parser := {
  MatchOperations : Descriptions → list RosettaOperation → option (list (option RosettaOperation * option Z));
}.

(** An operation fits a description that asks for an account and an amount. *)
Definition sign_fits (s : AmountSign) (z : Z) : bool :=
  match s with NegativeAmountSign => z <? 0 | PositiveAmountSign => 0 <? z end.
Definition fits (d : OperationDescription) (o : RosettaOperation) : option Z :=
  match ro_Account o, ro_Amount o with
  | Some _, Some am =>
      z ← parse_decimal (am_Value am);
      if bool_decide (ro_Type o = od_Type d) && bool_decide (am_Currency am = od_Currency d) &&
         sign_fits (od_Sign d) z
      then Some z else None
  | _, _ => None
  end.

Definition asks_all (d : OperationDescription) : bool := od_AccountExists d && od_AmountExists d.

(** Every match fits its description, and operations that fit the descriptions
    one by one are matched. *)
Class ParserLaws `{Parser} := {
  MatchOperations_sound : ∀ ds ops ms i d,
    MatchOperations ds ops = Some ms → ds_OperationDescriptions ds !! i = Some d → asks_all d = true →
    ∃ o z, ms !! i = Some (Some o, Some z) ∧ o ∈ ops ∧ fits d o = Some z;
  MatchOperations_complete : ∀ d1 d2 o1 o2 z1 z2,
    asks_all d1 = true → asks_all d2 = true → fits d1 o1 = Some z1 → fits d2 o2 = Some z2 →
    fits d2 o1 = None → fits d1 o2 = None →
    MatchOperations (mkDescriptions [d1; d2] true) [o1; o2] = Some [(Some o1, Some z1); (Some o2, Some z2)];
}.

(** ** Numbers in JSON

    [uint32(f)] on a [float64]: the fraction is dropped; the result for a value
    out of range is left to the implementation. *)
Definition float_trunc (f : spec_float) : option Z :=
  match f with
  | S754_zero _ => Some 0
  | S754_finite s m e => Some (let z := Z.shiftl (Zpos m) e in if s then - z else z)
  | _ => None
  end.
Class GoFloat := { uint32_overflow : spec_float → Z }.
Definition uint32_of_float `{GoFloat} (f : spec_float) : Z :=
  match float_trunc f with
  | Some z => if (0 <=? z) && (z <? 2 ^ 32) then z else uint32_overflow f mod 2 ^ 32
  | None => uint32_overflow f mod 2 ^ 32
  end.

(** ** Byte slices with room to grow

    [b[:n]] may reach past the length of a slice, up to its capacity. *)
Record slice := mkSlice { sl_data : bytes; sl_spare : bytes }.
Definition reslice {E} (s : slice) (n : nat) : outcome E bytes :=
  if bool_decide (n ≤ length (sl_data s) + length (sl_spare s))%nat
  then Ok (take n (sl_data s ++ sl_spare s)) else Panic.

(** ** Data *)

Record innerTxn := mkInnerTxn {
  in_amount : Z;
  in_nonce : Z;
  in_raw : bytes;
  in_receiver : bytes;
  in_sender : bytes;
}.

Record txnIntent := mkTxnIntent {
  amount : Z;
  contractCode : string;
  contractName : string;
  contractUpdate : bool;
  keyMessage : string;
  keyMetadata : string;
  keySignature : string;
  keys : list string;
  inner : bool;
  newKey : string;
  prevKeyIndex : Z;
  proxy : bool;
  receiver : bytes;
  sender : bytes;
}.

Record SigningPayload := mkSigningPayload { py_Address : string; py_Bytes : bytes; py_SignatureType : string }.
Record PayloadsResponse := mkPayloadsResponse { pr_Payloads : list SigningPayload; pr_UnsignedTransaction : string }.
Record ParseResponse := mkParseResponse { pa_Signers : list string; pa_Operations : list RosettaOperation }.

Definition txnTypeFlow : byte := x01.
Definition txnTypeInner : byte := x02.
Definition userTag : bytes := String.list_byte_of_string "FLOW-V0.0-user" ++ make_bytes 18.
Definition innerTag : bytes := String.list_byte_of_string "inner-transaction-tag".

(** ** Helpers of the translation *)

Definition of_option {A} (e : api_err) (o : option A) : api A :=
  match o with Some a => Ok a | None => Err e end.
Definition of_outcome {E A} (e : api_err) (m : outcome E A) : api A :=
  match m with Ok a => Ok a | Err _ => Err e | Fatal => Fatal | Panic => Panic end.

(** [val, ok := md[key]] followed by [val.(string)]. *)
Definition getString (e : api_err) (md : gmap string any) (key : string) : api string :=
  match md !! key with Some (AString s) => Ok s | _ => Err e end.
Definition getFloat (e : api_err) (md : gmap string any) (key : string) : api spec_float :=
  match md !! key with Some (AFloat64 f) => Ok f | _ => Err e end.
Definition reject (b : bool) (e : api_err) : api unit := if b then Err e else Ok tt.
Definition is_empty (s : string) : bool := bool_decide (s = "").
Definition either (typ a b : string) : bool := bool_decide (typ = a) || bool_decide (typ = b).

Section construct.
Context `{!Cadence, !CadenceJSON, !Parser, !GoFloat, !Secp256k1, !Sha3}.
Context `{!RLP flowEnvelope, !RLP flowTransaction, !Proto FlowTransaction, !Proto ConstructOpts}.
Context {DB : Type}.
Implicit Types sv : Server DB.

(** ** What operations intend *)

Definition convertPublicKey (e : api_err) (raw : string) : api string :=
  compressed ← of_option e (hex_decode raw);
  pub ← of_outcome e (ConvertRosettaPublicKey compressed);
  Ok (hex_encode pub).

(** [case opCreateAccount, opCreateProxyAccount]. *)
Definition parseCreateAccount (typ : string) (ops : list RosettaOperation) : api txnIntent :=
  ks ← foldM (λ ks op,
         raw ← getString errInvalidOpsIntent (ro_Metadata op) "public_key";
         key ← convertPublicKey errInvalidOpsIntent raw;
         Ok (ks ++ [key])) [] ops;
  let isProxy := bool_decide (typ = opCreateProxyAccount) in
  _ ← reject (isProxy && bool_decide (1 < length ops)%nat) errInvalidOpsIntent;
  Ok (mkTxnIntent 0 "" "" false "" "" "" ks false "" 0 isProxy [] []).

(** [case opDeployContract, opUpdateContract]. *)
Definition parseContract (typ : string) (op : RosettaOperation) : api txnIntent :=
  let e := errInvalidOpsIntent in
  let md := ro_Metadata op in
  name ← getString e md "contract_name";
  _ ← reject (is_empty name) e;
  code ← getString e md "contract_code";
  _ ← of_option e (hex_decode code);
  _ ← reject (is_empty code) e;
  prevKeyIndex ← getFloat e md "prev_key_index";
  rawKey ← getString e md "new_key";
  srcKey ← of_option e (hex_decode rawKey);
  _ ← reject (negb (nonempty srcKey)) e;
  newKey ← of_outcome e (ConvertRosettaPublicKey srcKey);
  keyMessage ← getString e md "key_message";
  _ ← reject (is_empty keyMessage) e;
  keySignature ← getString e md "key_signature";
  _ ← reject (is_empty keySignature) e;
  keySignature ← of_outcome e (ConvertDERSignature keySignature);
  keyMetadata ← getString e md "key_metadata";
  _ ← reject (is_empty keyMetadata) e;
  Ok (mkTxnIntent 0 code name (bool_decide (typ = opUpdateContract)) keyMessage keyMetadata keySignature []
        false (hex_encode newKey) (uint32_of_float prevKeyIndex) false [] []).

Definition transferDescriptions (typ : string) : Descriptions :=
  mkDescriptions
    [mkOperationDescription true true flowCurrency NegativeAmountSign typ;
     mkOperationDescription true true flowCurrency PositiveAmountSign typ] true.

(** [case opProxyTransfer, opProxyTransferInner, opTransfer]; a match without an
    operation or an amount is dereferenced. *)
Definition parseTransfer (typ : string) (ops : list RosettaOperation) : api txnIntent :=
  matches ← of_option errInvalidOpsIntent (MatchOperations (transferDescriptions typ) ops);
  m0 ← deref (matches !! 0%nat);
  senderOp ← deref m0.1;
  senderAccount ← deref (ro_Account senderOp);
  sender ← getAccount senderAccount;
  m1 ← deref (matches !! 1%nat);
  receiverOp ← deref m1.1;
  value ← deref m1.2;
  receiverAccount ← deref (ro_Account receiverOp);
  receiver ← getAccount receiverAccount;
  Ok (mkTxnIntent (u64 value) "" "" false "" "" "" [] (bool_decide (typ = opProxyTransferInner)) "" 0
        (bool_decide (typ = opProxyTransfer)) receiver sender).

Definition parseIntent (ops : list (option RosettaOperation)) : api txnIntent :=
  let e := errInvalidOpsIntent in
  match ops with
  | [] => Err e
  | None :: _ => Err e
  | Some op0 :: _ =>
      let typ := ro_Type op0 in
      ops ← foldM (λ acc op,
              match op with
              | None => Err e
              | Some op => _ ← reject (bool_decide (ro_Type op ≠ typ)) e; Ok (acc ++ [op])
              end) [] ops;
      if either typ opCreateAccount opCreateProxyAccount then parseCreateAccount typ ops
      else if either typ opDeployContract opUpdateContract then
        _ ← reject (bool_decide (1 < length ops)%nat) e;
        parseContract typ op0
      else if either typ opProxyTransfer opProxyTransferInner || bool_decide (typ = opTransfer)
      then parseTransfer typ ops
      else Err e
  end.

(** ** Reading transactions and options *)

(** The part before the options, when there are options. *)
Definition transactionText (src : string) : string :=
  match split_on colon src with [a; _] => a | _ => src end.
Definition optionsText (src : string) : string :=
  match split_on colon src with [_; b] => b | _ => "" end.

(** A Flow transaction or an inner one. *)
Definition decodeTransaction (src : string) (signed : bool) : api (FlowTransaction + innerTxn) :=
  let e := errInvalidTransactionPayload in
  raw ← of_option e (hex_decode (transactionText src));
  match raw with
  | [] => Err e
  | tag :: body =>
      if bool_decide (tag = txnTypeFlow) then
        txn ← of_option errProtobuf (unmarshal body);
        _ ← reject (signed && negb (bool_decide (length (ft_EnvelopeSignatures txn) = 1%nat))) e;
        Ok (inl txn)
      else if bool_decide (tag = txnTypeInner) then
        _ ← reject (negb (bool_decide (length raw = if signed then 97%nat else 33%nat))) e;
        amount ← uint64_be (drop 1 raw);
        nonce ← uint64_be (drop 9 raw);
        Ok (inr (mkInnerTxn amount nonce raw (take 8 (drop 17 raw)) (take 8 (drop 25 raw))))
      else Err e
  end.

Definition getConstructOpts (md : gmap string any) : api (string * ConstructOpts) :=
  raw ← getString errInvalidConstructOptions md "protobuf";
  enc ← of_option errInvalidConstructOptions (hex_decode raw);
  opts ← of_option errProtobuf (unmarshal enc);
  Ok (raw, opts).

(** [None] is a nil result. *)
Definition decodeOptsFromTransaction (src : string) : option ConstructOpts :=
  match split_on colon src with
  | [_; opts] =>
      if is_empty opts then None
      else raw ← hex_decode opts; unmarshal raw
  | _ => None
  end.

(** The text of a Flow transaction and its options. *)
Definition flowText (enc : bytes) (rawOpts : string) : string :=
  hex_encode (txnTypeFlow :: enc) +:+ String colon rawOpts.

(** ** /construction/payloads *)

Definition encodeArg (v : cadence_Value) : api bytes := of_option errInvalidOpsIntent (json_Encode v).

Definition innerPayload (intent : txnIntent) (sequenceNumber : Z) : bytes :=
  let enc := go_copy (make_bytes 33) 0 1 [txnTypeInner] in
  let enc := go_copy enc 1 9 (be64 (amount intent)) in
  let enc := go_copy enc 9 17 (be64 (u64 sequenceNumber)) in
  let enc := go_copy enc 17 33 (receiver intent) in
  go_copy enc 25 33 (sender intent).

(** The arguments that carry the inner transaction of a proxy transfer; a
    payload that holds a Flow transaction leaves [inner] nil. *)
Definition proxyArgs (opts : ConstructOpts) : api (list bytes) :=
  _ ← reject (is_empty (co_ProxyTransferPayload opts)) errInvalidConstructOptions;
  r ← decodeTransaction (co_ProxyTransferPayload opts) true;
  match r with
  | inl _ => Panic
  | inr inner =>
      nonce ← encodeArg (cadence_Int64 (s64 (in_nonce inner)));
      sig ← encodeArg (cadence_String (hex_encode (drop 33 (in_raw inner))));
      Ok [nonce; sig]
  end.

(** The script and the arguments of an intent. *)
Definition scriptAndArgs sv (intent : txnIntent) (opts : ConstructOpts) : api (bytes * list bytes) :=
  let scripts := sv_scripts sv in
  match keys intent with
  | key :: _ =>
      if proxy intent then
        arg ← encodeArg (cadence_String key);
        Ok (scriptCreateProxyAccount scripts, [arg])
      else
        arg ← encodeArg (cadence_NewArray (cadence_String <$> keys intent));
        Ok (scriptCreateAccount scripts, [arg])
  | [] =>
      if negb (is_empty (contractCode intent)) then
        a0 ← encodeArg (cadence_Bool (contractUpdate intent));
        a1 ← encodeArg (cadence_String (contractName intent));
        a2 ← encodeArg (cadence_String (contractCode intent));
        a3 ← encodeArg (cadence_NewInt (prevKeyIndex intent));
        a4 ← encodeArg (cadence_String (newKey intent));
        a5 ← encodeArg (cadence_String (keyMessage intent));
        a6 ← encodeArg (cadence_String (keySignature intent));
        a7 ← encodeArg (cadence_String (keyMetadata intent));
        Ok (scriptSetContract scripts, [a0; a1; a2; a3; a4; a5; a6; a7])
      else
        a0 ← (if proxy intent then a ← encodeArg (cadence_BytesToAddress (sender intent)); Ok [a] else Ok []);
        a1 ← encodeArg (cadence_BytesToAddress (receiver intent));
        a2 ← encodeArg (cadence_UFix64 (amount intent));
        a3 ← (if proxy intent then proxyArgs opts else Ok []);
        Ok (if proxy intent then scriptProxyTransfer scripts else scriptBasicTransfer scripts,
            a0 ++ [a1; a2] ++ a3)
  end.

Definition buildTransaction (opts : ConstructOpts) (script : bytes) (args : list bytes) : FlowTransaction :=
  let payer := co_Payer opts in
  mkFlowTransaction script args (co_BlockHash opts) 9999
    (Some (mkProposalKey payer (co_KeyId opts) (u64 (co_SequenceNumber opts)))) payer [payer] [] [].

Definition ecdsa : string := "ecdsa".

Definition ConstructionPayloads sv (metadata : gmap string any) (ops : list (option RosettaOperation))
    : api PayloadsResponse :=
  o ← getConstructOpts metadata;
  let '(rawOpts, opts) := o in
  let payer := co_Payer opts in
  intent ← parseIntent ops;
  _ ← reject (co_SequenceNumber opts <? 0) errInvalidConstructOptions;
  if inner intent then
    let enc := innerPayload intent (co_SequenceNumber opts) in
    Ok (mkPayloadsResponse
          [mkSigningPayload (hexAddress (sender intent))
             (sha3_256 (userTag ++ receiver intent ++ take 16 (drop 1 enc))) ecdsa]
          (hex_encode enc))
  else
    sa ← scriptAndArgs sv intent opts;
    let txn := buildTransaction opts sa.1 sa.2 in
    hash ← of_outcome errInternal (TransactionEnvelopeHash txn);
    enc ← of_option errProtobuf (marshal txn);
    Ok (mkPayloadsResponse [mkSigningPayload (hexAddress payer) hash ecdsa]
          (flowText enc rawOpts)).

(** ** /construction/combine *)

Definition ConstructionCombine (unsigned : string) (signatures : list (option slice)) : api string :=
  match signatures with
  | [Some sg] =>
      r ← decodeTransaction unsigned false;
      sig ← reslice sg 64;
      match r with
      | inl txn =>
          pk ← deref (ft_ProposalKey txn);
          let txn := set_EnvelopeSignatures [mkTransactionSignature (ft_Payer txn) (pk_KeyId pk) sig] txn in
          enc ← of_option errProtobuf (marshal txn);
          Ok (flowText enc (optionsText unsigned))
      | inr inner => Ok (hex_encode (in_raw inner ++ sig))
      end
  | _ => Err errInvalidSignature
  end.

(** ** /construction/hash *)

Definition ConstructionHash (signed : string) : api string :=
  r ← decodeTransaction signed true;
  match r with
  | inl txn =>
      hash ← of_outcome errInternal (TransactionHash txn);
      Ok (hex_encode hash)
  | inr inner => Ok (hex_encode (sha3_256 (innerTag ++ in_raw inner)))
  end.

(** ** /construction/derive: always an empty answer *)

Definition ConstructionDerive : api unit := Ok tt.

(** ** /construction/parse *)

(** [jsoncdc.Decode] and a type assertion. *)
Definition decodeArg {A} (as_type : cadence_Value → option A) (arg : option bytes) : api A :=
  arg ← deref arg;
  v ← of_option errInvalidTransactionPayload (json_Decode arg);
  of_option errInvalidTransactionPayload (as_type v).

Definition txnOps (payer : bytes) (ops : list RosettaOperation) (signed : bool) : ParseResponse :=
  mkParseResponse (if signed then [hexAddress payer] else []) ops.

(** The two operations of a transfer. *)
Definition transferOps (typ : string) (sender receiver : bytes) (amount : Z) : list RosettaOperation :=
  [mkRosettaOperation (Some (hexAddress sender)) (Some (mkAmount flowCurrency (String dash (format_int amount))))
     ∅ 0 [] None typ;
   mkRosettaOperation (Some (hexAddress receiver)) (Some (mkAmount flowCurrency (format_int amount)))
     ∅ 1 [0] None typ].

(** An operation that carries only metadata. *)
Definition metadataOp (index : Z) (md : gmap string any) (typ : string) : RosettaOperation :=
  mkRosettaOperation None None md index [] None typ.

Definition decodeTransferOps (txn : FlowTransaction) (isProxy signed : bool) : api ParseResponse :=
  let e := errInvalidTransactionPayload in
  let args := ft_Arguments txn in
  _ ← reject (negb (bool_decide (length args = if isProxy then 5%nat else 2%nat))) e;
  sender ← (if isProxy then decodeArg as_Address (args !! 0%nat) else Ok (ft_Payer txn));
  let idx := if isProxy then 1%nat else 0%nat in
  receiver ← decodeArg as_Address (args !! idx);
  amount ← decodeArg as_UFix64 (args !! S idx);
  _ ← (if isProxy then
         _ ← decodeArg as_Int64 (args !! 3%nat);
         _ ← decodeArg as_String (args !! 4%nat);
         Ok tt
       else Ok tt);
  Ok (txnOps (ft_Payer txn)
        (transferOps (if isProxy then opProxyTransfer else opTransfer) sender receiver amount) signed).

Definition decodePublicKey (key : string) : api string :=
  let e := errInvalidTransactionPayload in
  pub ← of_option e (hex_decode key);
  pub ← of_outcome e (ConvertFlowPublicKey pub);
  Ok (hex_encode pub).

Definition createAccountOp (index : Z) (key typ : string) : RosettaOperation :=
  metadataOp index {["public_key" := AString key]} typ.

Definition decodeCreateAccountOps (txn : FlowTransaction) (isProxy signed : bool) : api ParseResponse :=
  let e := errInvalidTransactionPayload in
  let args := ft_Arguments txn in
  _ ← reject (negb (bool_decide (length args = 1%nat))) e;
  ops ← (if isProxy then
           key ← decodeArg as_String (args !! 0%nat);
           pub ← decodePublicKey key;
           Ok [createAccountOp 0 pub opCreateProxyAccount]
         else
           xs ← decodeArg as_Array (args !! 0%nat);
           foldM (λ ops val,
             key ← of_option e (as_String val);
             pub ← decodePublicKey key;
             Ok (ops ++ [createAccountOp (Z.of_nat (length ops)) pub opCreateAccount])) [] xs);
  Ok (txnOps (ft_Payer txn) ops signed).

Definition decodeContractOps (txn : FlowTransaction) (signed : bool) : api ParseResponse :=
  let e := errInvalidTransactionPayload in
  let args := ft_Arguments txn in
  _ ← reject (negb (bool_decide (length args = 8%nat))) e;
  update ← decodeArg as_Bool (args !! 0%nat);
  let typ := if update : bool then opUpdateContract else opDeployContract in
  name ← decodeArg as_String (args !! 1%nat);
  code ← decodeArg as_String (args !! 2%nat);
  prevKeyIndex ← decodeArg as_Int (args !! 3%nat);
  rawKey ← decodeArg as_String (args !! 4%nat);
  newKey ← decodePublicKey rawKey;
  keyMessage ← decodeArg as_String (args !! 5%nat);
  rawSignature ← decodeArg as_String (args !! 6%nat);
  keySignature ← of_outcome e (ConvertFlowSignature rawSignature);
  keyMetadata ← decodeArg as_String (args !! 7%nat);
  Ok (txnOps (ft_Payer txn)
        [metadataOp 0
           (<["contract_code" := ACadenceString code]> (<["contract_name" := ACadenceString name]>
            (<["key_message" := ACadenceString keyMessage]> (<["key_metadata" := ACadenceString keyMetadata]>
            (<["key_signature" := AString keySignature]> (<["new_key" := AString newKey]>
            {["prev_key_index" := AInt64 (s64 prevKeyIndex)]})))))) typ] signed).

Definition ConstructionParse sv (transaction : string) (signed : bool) : api ParseResponse :=
  let scripts := sv_scripts sv in
  r ← decodeTransaction transaction signed;
  match r with
  | inl txn =>
      let script := ft_Script txn in
      if bool_decide (script = scriptBasicTransfer scripts) then decodeTransferOps txn false signed
      else if bool_decide (script = scriptProxyTransfer scripts) then decodeTransferOps txn true signed
      else if bool_decide (script = scriptCreateAccount scripts) then decodeCreateAccountOps txn false signed
      else if bool_decide (script = scriptCreateProxyAccount scripts) then decodeCreateAccountOps txn true signed
      else if bool_decide (script = scriptSetContract scripts) then decodeContractOps txn signed
      else Err errInvalidTransactionPayload
  | inr inner =>
      Ok (txnOps (in_sender inner)
            (transferOps opProxyTransferInner (in_sender inner) (in_receiver inner) (in_amount inner)) signed)
  end.

(** ** /construction/preprocess *)

(** The constants of [src/fees/fees.go]. *)
Definition CreateAccountEffort : Z := 70.
Definition CreateProxyAccountEffort : Z := 110.
Definition DeployContractEffort : Z := 550.
Definition FlowTransferEffort : Z := 30.
Definition InclusionEffort : Z := 100000000.
Definition MinimumAccountBalance : Z := 100000.
Definition ProxyTransferEffort : Z := 80.
Definition UpdateContractEffort : Z := 480.

Definition executionEffort (intent : txnIntent) : Z :=
  if negb (is_empty (contractCode intent)) then
    if contractUpdate intent then UpdateContractEffort else DeployContractEffort
  else if nonempty (keys intent) then
    if proxy intent then CreateProxyAccountEffort
    else u64 (CreateAccountEffort * Z.of_nat (length (keys intent)))
  else
    if proxy intent then FlowTransferEffort else ProxyTransferEffort.

(** [metadata.sequence_number], or -1 when there is none. *)
Definition sequenceNumber (md : gmap string any) : api Z :=
  match md !! "sequence_number" with
  | None => Ok (-1)
  | Some _ =>
      raw ← getString errInvalidMetadataField md "sequence_number";
      seq ← of_option errInvalidMetadataField (ParseInt64 raw);
      _ ← reject (seq <? 0) errInvalidMetadataField;
      Ok seq
  end.

Definition ConstructionPreprocess sv (ops : list (option RosettaOperation)) (md : gmap string any)
    : api (gmap string any) :=
  intent ← parseIntent ops;
  _ ← reject (map_at false (sv_feeAddrs sv) (receiver intent)) errInvalidOpsIntent;
  payload ← (if proxy intent && negb (nonempty (keys intent))
             then getString errInvalidMetadataField md "proxy_transfer_payload" else Ok "");
  let keyId := if negb (is_empty (contractCode intent)) then prevKeyIndex intent else 0 in
  seq ← sequenceNumber md;
  payer ← (if inner intent then Ok (sender intent)
           else
             raw ← getString errInvalidMetadataField md "payer";
             of_outcome errInvalidMetadataField (getAccount raw));
  let opts := mkConstructOpts [] false "" (executionEffort intent) 0 keyId InclusionEffort (inner intent)
                (Z.of_nat (length (keys intent))) payer payload seq in
  data ← of_option errProtobuf (marshal opts);
  Ok {["protobuf" := AString (hex_encode data)]}.
End construct.
