(* ===== verification/ConstructProofs.v ===== *)
(** * Lemmas on transaction construction

    Reading back what the construction endpoints write: transactions, their
    arguments, and the operations they stand for. *)
From S2P Require Import Prelude Bytes Text Model Badger Crypto Config IndexDB Indexer Txn Api ApiMain Construct.
Local Open Scope Z_scope.

(** ** Addresses and text *)

Lemma substring_length s n m : String.length s = (n + m)%nat → String.length (String.substring n m s) = m.
Proof.
  revert n m. induction s as [|c s IH]; intros [|n] [|m] Hl; simpl in *; try done; try lia.
  - f_equal. apply IH. simpl. lia.
  - apply (IH n 0%nat). lia.
  - apply (IH n (S m)). lia.
Qed.

Lemma getAccount_length s a : getAccount s = Ok a → length a = 8%nat.
Proof.
  unfold getAccount. destruct (decide (String.length s = 18%nat)) as [Hl|Hl].
  2: by rewrite (bool_decide_true _ Hl).
  rewrite bool_decide_false by tauto. case_bool_decide; [done|]. cbn [orb].
  destruct (hex_decode _) as [b|] eqn:Hb; [|done]. intros [= <-]. apply length_hex_decode in Hb.
  rewrite (substring_length s 2 16) in Hb by done. lia.
Qed.

Lemma hex_val_is_ascii c z : hex_val c = Some z → (Ascii.N_of_ascii c <? 128)%N = true.
Proof. destruct c as [[] [] [] [] [] [] [] []]; by vm_compute. Qed.

Lemma hex_is_ascii s b : hex_decode s = Some b → is_ascii s = true.
Proof.
  revert b. induction s as [s IH] using (induction_ltof1 _ String.length). unfold ltof in IH.
  destruct s as [|x [|y s]]; intros b Hs; try done. cbn [hex_decode] in Hs.
  destruct (hex_val x) eqn:Hx; [|done]. destruct (hex_val y) eqn:Hy; [|done]. simpl in Hs.
  destruct (hex_decode s) as [b'|] eqn:Hs'; [|done].
  unfold is_ascii. cbn [all_chars]. rewrite (hex_val_is_ascii _ _ Hx), (hex_val_is_ascii _ _ Hy). simpl.
  apply (IH s) with b'; [simpl; lia|done].
Qed.

Lemma hex_encode_nonempty b : b ≠ [] → is_empty (hex_encode b) = false.
Proof. intros Hb. apply bool_decide_eq_false_2. by destruct b. Qed.

(** ** Steps that may be rejected *)

Lemma reject_Ok b e u : reject b e = Ok u → b = false.
Proof. by destruct b. Qed.

Lemma of_option_Ok {A} e (o : option A) a : of_option e o = Ok a → o = Some a.
Proof. destruct o; [by intros [= ->]|done]. Qed.

Lemma of_outcome_Ok {E A} e (m : outcome E A) a : of_outcome e m = Ok a → m = Ok a.
Proof. destruct m; try done. by intros [= ->]. Qed.

Lemma getString_Ok e md k s : getString e md k = Ok s → md !! k = Some (AString s).
Proof. unfold getString. destruct (md !! k) as [[]|]; try done. by intros [= ->]. Qed.

Lemma getFloat_Ok e md k f : getFloat e md k = Ok f → md !! k = Some (AFloat64 f).
Proof. unfold getFloat. destruct (md !! k) as [[]|]; try done. by intros [= ->]. Qed.

Lemma is_empty_false s : is_empty s = false ↔ s ≠ "".
Proof. apply bool_decide_eq_false. Qed.

(** Turns the steps of a successful run into facts. *)
Ltac inv_steps :=
  inv_ok;
  repeat match goal with
  | H : reject _ _ = Ok ?u |- _ => apply reject_Ok in H; try clear u
  | H : of_option _ _ = Ok _ |- _ => apply of_option_Ok in H
  | H : of_outcome _ _ = Ok _ |- _ => apply of_outcome_Ok in H
  | H : getString _ _ _ = Ok _ |- _ => apply getString_Ok in H
  | H : getFloat _ _ _ = Ok _ |- _ => apply getFloat_Ok in H
  | H : deref ?o = Ok _ |- _ => destruct o eqn:?; [injection H as H; subst|discriminate H]
  | H : is_empty _ = false |- _ => apply is_empty_false in H
  end.

(** ** Transactions as text *)

Lemma split_flowText enc raw b : hex_decode raw = Some b →
  split_on colon (flowText enc raw) = [hex_encode (txnTypeFlow :: enc); raw].
Proof. intros Hraw. apply split_pair; [apply hex_encode_free|by eapply hex_free]. Qed.

Section text.
Context `{!Proto FlowTransaction}.

Lemma decode_flowText enc raw b signed txn :
  hex_decode raw = Some b → unmarshal enc = Some txn →
  (signed = true → length (ft_EnvelopeSignatures txn) = 1%nat) →
  decodeTransaction (flowText enc raw) signed = Ok (inl txn).
Proof.
  intros Hraw Henc Hsig. unfold decodeTransaction, transactionText.
  rewrite (split_flowText _ _ _ Hraw), hex_decode_encode. cbn [of_option mbind outcome_mbind outcome_bind].
  rewrite (bool_decide_true (txnTypeFlow = txnTypeFlow)), Henc by done.
  cbn [of_option mbind outcome_mbind outcome_bind].
  destruct signed; [|done]. by rewrite (Hsig eq_refl), bool_decide_true by done.
Qed.

Lemma decode_innerText (enc : bytes) (signed : bool) :
  length enc = (if signed then 97%nat else 33%nat) → enc !! 0%nat = Some txnTypeInner →
  decodeTransaction (hex_encode enc) signed =
    Ok (inr (mkInnerTxn (be_get (take 8 (drop 1 enc))) (be_get (take 8 (drop 9 enc))) enc
               (take 8 (drop 17 enc)) (take 8 (drop 25 enc)))).
Proof.
  intros Hlen Htag. unfold decodeTransaction, transactionText. rewrite split_free by apply hex_encode_free.
  rewrite hex_decode_encode. cbn [of_option mbind outcome_mbind outcome_bind].
  destruct enc as [|tag body]; [done|]. injection Htag as ->. rewrite (bool_decide_false (txnTypeInner = txnTypeFlow)) by done.
  rewrite !bool_decide_true by done. cbn [negb reject mbind outcome_mbind outcome_bind].
  unfold uint64_be. assert (33 ≤ length (txnTypeInner :: body))%nat by (rewrite Hlen; destruct signed; lia).
  rewrite !bool_decide_false by (rewrite length_drop; lia). done.
Qed.
End text.

(** ** Arguments *)

Section args.
Context `{CadenceJSONLaws}.

Lemma decodeArg_ok {A} (as_type : cadence_Value → option A) b x :
  (∃ v, json_Decode b = Some v ∧ as_type v = Some x) → decodeArg as_type (Some b) = Ok x.
Proof. intros (v & Hv & Hx). unfold decodeArg. cbn. rewrite Hv. cbn. by rewrite Hx. Qed.

Lemma decodeArg_String s b :
  is_ascii s = true → encodeArg (cadence_String s) = Ok b → decodeArg as_String (Some b) = Ok s.
Proof. intros Hs Hb%of_option_Ok. by apply decodeArg_ok, json_String. Qed.

Lemma decodeArg_Bool x b : encodeArg (cadence_Bool x) = Ok b → decodeArg as_Bool (Some b) = Ok x.
Proof. intros Hb%of_option_Ok. by apply decodeArg_ok, json_Bool. Qed.

Lemma decodeArg_Int z b : encodeArg (cadence_NewInt z) = Ok b → decodeArg as_Int (Some b) = Ok z.
Proof. intros Hb%of_option_Ok. by apply decodeArg_ok, json_Int. Qed.

Lemma decodeArg_Address a b :
  length a = 8%nat → encodeArg (cadence_BytesToAddress a) = Ok b → decodeArg as_Address (Some b) = Ok a.
Proof. intros Ha Hb%of_option_Ok. by apply decodeArg_ok, json_Address. Qed.

Lemma decodeArg_UFix64 n b :
  0 ≤ n < 2 ^ 64 → encodeArg (cadence_UFix64 n) = Ok b → decodeArg as_UFix64 (Some b) = Ok n.
Proof. intros Hn Hb%of_option_Ok. by apply decodeArg_ok, json_UFix64. Qed.

Lemma decodeArg_Int64 n b :
  - 2 ^ 63 ≤ n < 2 ^ 63 → encodeArg (cadence_Int64 n) = Ok b → decodeArg as_Int64 (Some b) = Ok n.
Proof. intros Hn Hb%of_option_Ok. by apply decodeArg_ok, json_Int64. Qed.
End args.
#[export] Hint Resolve hex_encode_ascii s64_range : rosetta.

(** Decodes the arguments of a transaction whose encoding is known. *)
Ltac decode_args :=
  repeat match goal with
  | Ha : encodeArg (cadence_BytesToAddress _) = Ok _ |- _ => apply decodeArg_Address in Ha; [|assumption]
  | Ha : encodeArg (cadence_UFix64 _) = Ok _ |- _ => apply decodeArg_UFix64 in Ha; [|assumption]
  | Ha : encodeArg (cadence_Int64 _) = Ok _ |- _ => apply decodeArg_Int64 in Ha; [|solve [auto with rosetta]]
  | Ha : encodeArg (cadence_String _) = Ok _ |- _ => apply decodeArg_String in Ha; [|solve [auto with rosetta]]
  | Ha : encodeArg (cadence_Bool _) = Ok _ |- _ => apply decodeArg_Bool in Ha
  | Ha : encodeArg (cadence_NewInt _) = Ok _ |- _ => apply decodeArg_Int in Ha
  end;
  repeat match goal with
  | Ha : decodeArg ?f (Some ?b) = Ok _ |- context [decodeArg ?f (Some ?b)] => rewrite Ha, ?Ok_bind
  end.

(** ** Operations on their way to a client and back

    A response is encoded as JSON and read back: text becomes a string and an
    integer a [float64] of that value. *)
Inductive json_any : any → any → Prop :=
  | json_string s : json_any (AString s) (AString s)
  | json_cadence_string s : json_any (ACadenceString s) (AString s)
  | json_int z f : float_trunc f = Some z → json_any (AInt64 z) (AFloat64 f)
  | json_float f : json_any (AFloat64 f) (AFloat64 f)
  | json_other t : json_any (AOther t) (AOther t).

Record json_op (o o' : RosettaOperation) : Prop := {
  json_Account : ro_Account o' = ro_Account o;
  json_Amount : ro_Amount o' = ro_Amount o;
  json_Metadata : ∀ k v, ro_Metadata o !! k = Some v → ∃ v', ro_Metadata o' !! k = Some v' ∧ json_any v v';
  json_Type : ro_Type o' = ro_Type o;
}.

Lemma json_getString o o' e k s :
  json_op o o' → ro_Metadata o !! k = Some (AString s) ∨ ro_Metadata o !! k = Some (ACadenceString s) →
  getString e (ro_Metadata o') k = Ok s.
Proof.
  intros Ho [Hk|Hk]; destruct (json_Metadata _ _ Ho _ _ Hk) as (v' & Hv' & Hj); inversion Hj; subst;
    unfold getString; by rewrite Hv'.
Qed.

Lemma json_getInt o o' e k z :
  json_op o o' → ro_Metadata o !! k = Some (AInt64 z) →
  ∃ f, getFloat e (ro_Metadata o') k = Ok f ∧ float_trunc f = Some z.
Proof.
  intros Ho Hk. destruct (json_Metadata _ _ Ho _ _ Hk) as (v' & Hv' & Hj). inversion Hj; subst.
  unfold getFloat. rewrite Hv'. eauto.
Qed.

Lemma uint32_of_trunc `{!GoFloat} f z : float_trunc f = Some z → 0 ≤ z < 2 ^ 32 → uint32_of_float f = z.
Proof.
  intros Hf Hz. unfold uint32_of_float. rewrite Hf.
  by rewrite (proj2 (Z.leb_le 0 z)), (proj2 (Z.ltb_lt z (2 ^ 32))) by lia.
Qed.

Lemma uint32_of_float_range `{!GoFloat} f : 0 ≤ uint32_of_float f < 2 ^ 32.
Proof.
  unfold uint32_of_float. assert (∀ x, 0 ≤ x mod 2 ^ 32 < 2 ^ 32) by (intros; by apply Z.mod_pos_bound).
  destruct (float_trunc f); [|done]. destruct (_ && _) eqn:Hb; [lia|done].
Qed.

(** ** Intents *)

Section intents.
Context `{!Cadence, !CadenceJSON, ParserLaws, !GoFloat, Secp256k1Laws}.

(** The check of the types accepts a list of one type and nothing else. *)
Lemma one_type_ok (typ : string) ops acc :
  Forall (λ o, ro_Type o = typ) ops →
  foldM (λ acc op, match op with
         | None => Err errInvalidOpsIntent
         | Some op => _ ← reject (bool_decide (ro_Type op ≠ typ)) errInvalidOpsIntent; Ok (acc ++ [op])
         end) acc (Some <$> ops) = Ok (acc ++ ops).
Proof.
  intros Hops. revert acc. induction Hops as [|o ops Ho _ IH]; intros acc; cbn [fmap list_fmap foldM].
  - by rewrite app_nil_r.
  - rewrite bool_decide_false by tauto. cbn [reject mbind outcome_mbind outcome_bind].
    fold (fmap (M:=list) Some ops). by rewrite IH, <-(assoc_L (++)).
Qed.

Lemma one_type_inv (typ : string) ops acc ops' :
  foldM (λ acc op, match op with
         | None => Err errInvalidOpsIntent
         | Some op => _ ← reject (bool_decide (ro_Type op ≠ typ)) errInvalidOpsIntent; Ok (acc ++ [op])
         end) acc ops = Ok ops' →
  ∃ l, ops = Some <$> l ∧ ops' = acc ++ l ∧ Forall (λ o, ro_Type o = typ) l.
Proof.
  revert acc. induction ops as [|[o|] ops IH]; intros acc; cbn [foldM].
  - intros [= <-]. exists []. by rewrite app_nil_r.
  - destruct (decide (ro_Type o = typ)) as [Ho|Ho].
    + rewrite bool_decide_false by tauto. cbn [reject mbind outcome_mbind outcome_bind].
      intros (l & -> & -> & Hl)%IH. exists (o :: l). rewrite <-(assoc_L (++)). by repeat constructor.
    + by rewrite bool_decide_true by done.
  - done.
Qed.

(** The three kinds of intent. *)
Inductive intends (ops : list RosettaOperation) (intent : txnIntent) : string → Prop :=
  | intends_create typ : either typ opCreateAccount opCreateProxyAccount = true →
      parseCreateAccount typ ops = Ok intent → intends ops intent typ
  | intends_contract typ op : either typ opDeployContract opUpdateContract = true →
      ops = [op] → parseContract typ op = Ok intent → intends ops intent typ
  | intends_transfer typ : either typ opProxyTransfer opProxyTransferInner || bool_decide (typ = opTransfer) = true →
      parseTransfer typ ops = Ok intent → intends ops intent typ.

Lemma either_cases typ a b : either typ a b = true → typ = a ∨ typ = b.
Proof. unfold either. intros [?%bool_decide_eq_true_1|?%bool_decide_eq_true_1]%orb_true_iff; auto. Qed.

Lemma parseIntent_inv ops intent :
  parseIntent ops = Ok intent →
  ∃ l typ, ops = Some <$> l ∧ l ≠ [] ∧ Forall (λ o, ro_Type o = typ) l ∧ intends l intent typ.
Proof.
  unfold parseIntent. destruct ops as [|[op0|] ops]; try done. intros (l & Hl & Hi)%bind_Ok.
  apply one_type_inv in Hl as (l' & Hl' & -> & Ht). cbn [app] in *. exists l', (ro_Type op0).
  destruct l' as [|o l']; [done|]. injection Hl' as -> Hl'. rewrite Hl'. repeat (split; [done|]).
  destruct (either _ opCreateAccount _) eqn:Hc1; [by eapply intends_create|].
  destruct (either _ opDeployContract _) eqn:Hc2; [|destruct (_ || _) eqn:Hc3; [by eapply intends_transfer|done]].
  apply bind_Ok in Hi as ([] & Hlen%reject_Ok & Hi). apply bool_decide_eq_false in Hlen.
  destruct l' as [|? ?]; [|simpl in Hlen; lia]. by eapply intends_contract.
Qed.

Lemma parseIntent_intends l intent typ :
  l ≠ [] → Forall (λ o, ro_Type o = typ) l → intends l intent typ → parseIntent (Some <$> l) = Ok intent.
Proof.
  intros Hne Ht Hi. destruct l as [|op0 l]; [done|]. unfold parseIntent. cbn [fmap list_fmap].
  apply Forall_cons in Ht as Ht'. destruct Ht' as [Ht0 _]. rewrite Ht0.
  pose proof (one_type_ok typ (op0 :: l) [] Ht) as Hf. cbn [fmap list_fmap app] in Hf. rewrite Hf, Ok_bind.
  destruct Hi as [typ Hc1 Hi|typ op Hc1 Hops Hi|typ Hc1 Hi].
  - by rewrite Hc1.
  - injection Hops as -> ->. rewrite Hc1. destruct (either_cases _ _ _ Hc1) as [->| ->]; exact Hi.
  - rewrite Hc1. destruct (either typ opCreateAccount _) eqn:Hc2.
    { by destruct (either_cases _ _ _ Hc2) as [->| ->]. }
    destruct (either typ opDeployContract _) eqn:Hc3; [|done].
    by destruct (either_cases _ _ _ Hc3) as [->| ->].
Qed.

(** ** Transfers *)

Definition transferIntent (typ : string) (n : Z) (receiver sender : bytes) : txnIntent :=
  mkTxnIntent n "" "" false "" "" "" [] (bool_decide (typ = opProxyTransferInner)) "" 0
    (bool_decide (typ = opProxyTransfer)) receiver sender.

Lemma parseTransfer_inv typ ops intent :
  parseTransfer typ ops = Ok intent →
  ∃ n r s, intent = transferIntent typ n r s ∧ length r = 8%nat ∧ length s = 8%nat ∧ 0 ≤ n < 2 ^ 64.
Proof.
  unfold parseTransfer. intros Hp. inv_ok.
  repeat match goal with Hg : getAccount _ = Ok _ |- _ => apply getAccount_length in Hg end.
  eexists (u64 _), _, _. split; [done|]. repeat split; try done; apply u64_range.
Qed.

Lemma fits_op (d : OperationDescription) acct s md i rel st typ z :
  parse_decimal s = Some z → od_Currency d = flowCurrency → od_Type d = typ →
  fits d (mkRosettaOperation (Some acct) (Some (mkAmount flowCurrency s)) md i rel st typ) =
  if sign_fits (od_Sign d) z then Some z else None.
Proof.
  intros Hz Hc Ht. unfold fits. cbn [ro_Account ro_Amount am_Value am_Currency ro_Type].
  rewrite Hz, Hc, Ht, !bool_decide_true by done. done.
Qed.

Lemma reparse_transfer typ n r s ops :
  length r = 8%nat → length s = 8%nat → 0 < n < 2 ^ 64 →
  Forall2 json_op (transferOps typ s r n) ops →
  parseTransfer typ ops = Ok (transferIntent typ n r s).
Proof.
  intros Hr Hs Hn Hops. inversion_clear Hops as [|? o1 ? ops1 Ho1 Hops1].
  inversion_clear Hops1 as [|? o2 ? ops2 Ho2 Hops2]. inversion_clear Hops2.
  unfold parseTransfer, transferDescriptions.
  assert (∀ d o o', json_op o o' → fits d o' = fits d o) as Hfit.
  { intros d o o' Ho. unfold fits. by rewrite (json_Account _ _ Ho), (json_Amount _ _ Ho), (json_Type _ _ Ho). }
  rewrite (MatchOperations_complete _ _ o1 o2 (- n) n); [|done|done|..].
  - cbn [of_option mbind outcome_mbind outcome_bind lookup list_lookup deref fst snd].
    rewrite (json_Account _ _ Ho1), (json_Account _ _ Ho2).
    cbn [ro_Account deref mbind outcome_mbind outcome_bind]. rewrite !getAccount_hexAddress by done.
    cbn [mbind outcome_mbind outcome_bind]. by rewrite u64_id by lia.
  - rewrite (Hfit _ _ _ Ho1), (fits_op _ _ _ _ _ _ _ _ (- n)) by (done || apply parse_format_neg; lia). cbn [sign_fits od_Sign].
    by rewrite (proj2 (Z.ltb_lt (- n) 0)) by lia.
  - rewrite (Hfit _ _ _ Ho2), (fits_op _ _ _ _ _ _ _ _ n) by (done || apply parse_format; lia). cbn [sign_fits od_Sign].
    by rewrite (proj2 (Z.ltb_lt 0 n)) by lia.
  - rewrite (Hfit _ _ _ Ho1), (fits_op _ _ _ _ _ _ _ _ (- n)) by (done || apply parse_format_neg; lia). cbn [sign_fits od_Sign].
    by rewrite (proj2 (Z.ltb_ge 0 (- n))) by lia.
  - rewrite (Hfit _ _ _ Ho2), (fits_op _ _ _ _ _ _ _ _ n) by (done || apply parse_format; lia). cbn [sign_fits od_Sign].
    by rewrite (proj2 (Z.ltb_ge n 0)) by lia.
Qed.

(** ** Accounts *)

Definition createIntent (typ : string) (flows : list bytes) : txnIntent :=
  mkTxnIntent 0 "" "" false "" "" "" (hex_encode <$> flows) false "" 0 (bool_decide (typ = opCreateProxyAccount)) [] [].

(** An operation that asks for an account with the given key, in Flow's format. *)
Definition creates (flow : bytes) (o : RosettaOperation) : Prop :=
  ∃ raw sec, ro_Metadata o !! "public_key" = Some (AString raw) ∧ hex_decode raw = Some sec ∧
    ConvertRosettaPublicKey sec = Ok flow.

Lemma parseKeys_inv ops ks ks' :
  foldM (λ ks op,
    raw ← getString errInvalidOpsIntent (ro_Metadata op) "public_key";
    key ← convertPublicKey errInvalidOpsIntent raw;
    Ok (ks ++ [key])) ks ops = Ok ks' →
  ∃ flows, ks' = ks ++ (hex_encode <$> flows) ∧ Forall2 creates flows ops.
Proof.
  revert ks. induction ops as [|o ops IH]; intros ks; cbn [foldM].
  - intros [= <-]. exists []. by rewrite app_nil_r.
  - intros (ks1 & Hk & (flows & -> & Hf)%IH)%bind_Ok. unfold convertPublicKey in Hk. inv_steps.
    eexists (_ :: flows). split; [by rewrite <-(assoc_L (++))|]. constructor; [|done]. by eexists _, _.
Qed.

Lemma parseKeys_ok ops flows ks :
  Forall2 creates flows ops →
  foldM (λ ks op,
    raw ← getString errInvalidOpsIntent (ro_Metadata op) "public_key";
    key ← convertPublicKey errInvalidOpsIntent raw;
    Ok (ks ++ [key])) ks ops = Ok (ks ++ (hex_encode <$> flows)).
Proof.
  intros Hf. revert ks. induction Hf as [|flow o flows ops (raw & sec & Hraw & Hsec & Hkey) _ IH]; intros ks.
  - cbn. by rewrite app_nil_r.
  - cbn [foldM]. unfold getString, convertPublicKey. rewrite Hraw, Ok_bind, Hsec.
    cbn [of_option]. rewrite Ok_bind, Hkey. cbn [of_outcome]. rewrite !Ok_bind. cbn [fmap list_fmap].
    setoid_rewrite IH. by rewrite <-(assoc_L (++)).
Qed.

Lemma parseCreateAccount_inv typ ops intent :
  parseCreateAccount typ ops = Ok intent →
  ∃ flows, intent = createIntent typ flows ∧ Forall2 creates flows ops ∧
    (typ = opCreateProxyAccount → (length ops ≤ 1)%nat).
Proof.
  unfold parseCreateAccount. intros (ks & Hks & Hi)%bind_Ok. apply parseKeys_inv in Hks as (flows & -> & Hf).
  apply bind_Ok in Hi as ([] & Hr%reject_Ok & [= <-]). exists flows. split; [done|]. split; [done|].
  intros ->. rewrite bool_decide_true in Hr by done. apply bool_decide_eq_false in Hr. lia.
Qed.

Lemma reparse_create typ flows ops :
  Forall2 creates flows ops → (typ = opCreateProxyAccount → (length ops ≤ 1)%nat) →
  parseCreateAccount typ ops = Ok (createIntent typ flows).
Proof.
  intros Hf Hl. unfold parseCreateAccount. rewrite (parseKeys_ok _ _ _ Hf), Ok_bind. cbn [app].
  destruct (bool_decide (typ = opCreateProxyAccount)) eqn:Ht.
  - apply bool_decide_eq_true in Ht as Ht'. rewrite bool_decide_false by (specialize (Hl Ht'); lia).
    unfold createIntent. by rewrite Ht.
  - unfold createIntent. by rewrite Ht.
Qed.

Lemma decodePublicKey_ok flow sec0 :
  ConvertRosettaPublicKey sec0 = Ok flow →
  ∃ sec, decodePublicKey (hex_encode flow) = Ok (hex_encode sec) ∧ sec ≠ [] ∧ ConvertRosettaPublicKey sec = Ok flow.
Proof.
  intros (sec & Hs & Hne & Hr)%ConvertRosettaPublicKey_roundtrip. exists sec. split; [|done].
  unfold decodePublicKey. rewrite hex_decode_encode. cbn [of_option]. by rewrite Ok_bind, Hs.
Qed.

(** ** Contracts *)

Record contract := mkContract {
  c_update : bool;
  c_code : string;
  c_name : string;
  c_message : string;
  c_metadata : string;
  (** the components of the signature *)
  c_r : bytes;
  c_s : bytes;
  (** the new key in Flow's format *)
  c_flow : bytes;
  c_index : Z;
}.

Record contract_wf (c : contract) : Prop := {
  wf_code : c_code c ≠ "" ∧ ∃ b, hex_decode (c_code c) = Some b;
  wf_name : c_name c ≠ "";
  wf_message : c_message c ≠ "";
  wf_metadata : c_metadata c ≠ "";
  wf_signature : component (c_r c) ∧ component (c_s c);
  wf_flow : ∃ sec, ConvertRosettaPublicKey sec = Ok (c_flow c);
  wf_index : 0 ≤ c_index c < 2 ^ 32;
}.

Definition contractIntent (c : contract) : txnIntent :=
  mkTxnIntent 0 (c_code c) (c_name c) (c_update c) (c_message c) (c_metadata c)
    (hex_encode (c_r c ++ c_s c)) [] false (hex_encode (c_flow c)) (c_index c) false [] [].

Lemma parseContract_inv typ op intent :
  parseContract typ op = Ok intent →
  ∃ c, intent = contractIntent c ∧ contract_wf c ∧ c_update c = bool_decide (typ = opUpdateContract).
Proof.
  unfold parseContract. intros Hp. inv_steps.
  match goal with Hd : ConvertDERSignature _ = Ok _ |- _ =>
    apply ConvertDERSignature_components in Hd as (sigR & sigS & HsR & HsS & ->) end.
  eexists (mkContract _ _ _ _ _ sigR sigS _ _). split; [done|]. split; [|done].
  split; cbn; try done; eauto using uint32_of_float_range.
Qed.

(** The operation /parse shows for a contract. *)
Definition contractOp (c : contract) (sig key : string) : RosettaOperation :=
  metadataOp 0
    (<["contract_code" := ACadenceString (c_code c)]> (<["contract_name" := ACadenceString (c_name c)]>
     (<["key_message" := ACadenceString (c_message c)]> (<["key_metadata" := ACadenceString (c_metadata c)]>
     (<["key_signature" := AString sig]> (<["new_key" := AString key]>
     {["prev_key_index" := AInt64 (c_index c)]}))))))
    (if c_update c then opUpdateContract else opDeployContract).

Lemma reject_false e : reject false e = Ok tt.
Proof. done. Qed.

Lemma reparse_contract c sig sec o :
  contract_wf c → ConvertDERSignature sig = Ok (hex_encode (c_r c ++ c_s c)) →
  sec ≠ [] → ConvertRosettaPublicKey sec = Ok (c_flow c) →
  json_op (contractOp c sig (hex_encode sec)) o →
  parseContract (ro_Type o) o = Ok (contractIntent c).
Proof.
  intros Hc Hsig Hne Hkey Ho. unfold parseContract. cbv zeta.
  assert (sig ≠ "") as Hsig0 by (intros ->; discriminate Hsig).
  destruct (wf_code c Hc) as [Hcode [b Hb]].
  destruct (json_getInt _ o errInvalidOpsIntent "prev_key_index" (c_index c) Ho eq_refl) as (f & Hf & Hft).
  rewrite (json_getString _ o _ "contract_name" (c_name c) Ho) by (by right).
  rewrite (json_getString _ o _ "contract_code" (c_code c) Ho) by (by right).
  rewrite (json_getString _ o _ "new_key" (hex_encode sec) Ho) by (by left).
  rewrite (json_getString _ o _ "key_message" (c_message c) Ho) by (by right).
  rewrite (json_getString _ o _ "key_signature" sig Ho) by (by left).
  rewrite (json_getString _ o _ "key_metadata" (c_metadata c) Ho) by (by right).
  pose proof (proj2 (is_empty_false _) (wf_name c Hc)) as H1'.
  pose proof (proj2 (is_empty_false _) Hcode) as H2'.
  pose proof (proj2 (is_empty_false _) (wf_message c Hc)) as H3'.
  pose proof (proj2 (is_empty_false _) (wf_metadata c Hc)) as H4'.
  pose proof (proj2 (is_empty_false _) Hsig0) as H5'. pose proof (proj2 (nonempty_true _) Hne) as H6'.
  rewrite Hf.
  repeat first [rewrite Ok_bind | rewrite Hb | rewrite Hsig | rewrite hex_decode_encode | rewrite H1' | rewrite H2' | rewrite H3' | rewrite H4' | rewrite H5' | rewrite H6'
               | rewrite Hkey | rewrite reject_false | progress cbn [of_option of_outcome negb]].
  rewrite (uint32_of_trunc f (c_index c) Hft (wf_index c Hc)), (json_Type _ _ Ho).
  unfold contractIntent, contractOp. cbn [ro_Type metadataOp]. by destruct (c_update c).
Qed.

(** ** Operations that express an intent

    Whatever way the operations come back from a client, they are read as the
    intent. *)
Definition expresses (ops : list RosettaOperation) (intent : txnIntent) : Prop :=
  ∀ ops', Forall2 json_op ops ops' → parseIntent (Some <$> ops') = Ok intent.

Lemma json_types typ ops ops' :
  Forall2 json_op ops ops' → Forall (λ o, ro_Type o = typ) ops → Forall (λ o, ro_Type o = typ) ops'.
Proof.
  induction 1 as [|o o' ops ops' Ho _ IH]; [done|]. intros [Ht Hts]%Forall_cons. constructor; [|auto].
  by rewrite (json_Type _ _ Ho).
Qed.

Lemma expresses_transfer typ n r s :
  either typ opProxyTransfer opProxyTransferInner || bool_decide (typ = opTransfer) = true →
  length r = 8%nat → length s = 8%nat → 0 < n < 2 ^ 64 →
  expresses (transferOps typ s r n) (transferIntent typ n r s).
Proof.
  intros Ht Hr Hs Hn ops' Hops. apply (parseIntent_intends ops' _ typ).
  - by inversion Hops.
  - eapply json_types; [done|]. by repeat constructor.
  - by apply intends_transfer, reparse_transfer.
Qed.

Lemma json_creates flow o o' : json_op o o' → creates flow o → creates flow o'.
Proof.
  intros Ho (raw & sec & Hraw & Hsec). exists raw, sec. split; [|done].
  destruct (json_Metadata _ _ Ho _ _ Hraw) as (v' & Hv' & Hj). by inversion Hj; subst.
Qed.

Lemma expresses_create typ flows ops :
  either typ opCreateAccount opCreateProxyAccount = true → ops ≠ [] →
  Forall (λ o, ro_Type o = typ) ops → Forall2 creates flows ops →
  (typ = opCreateProxyAccount → (length flows ≤ 1)%nat) →
  expresses ops (createIntent typ flows).
Proof.
  intros Ht Hne Hty Hc Hl ops' Hops. pose proof (Forall2_length _ _ _ Hc) as Hlen.
  pose proof (Forall2_length _ _ _ Hops) as Hlen'. apply (parseIntent_intends ops' _ typ).
  - intros ->. by destruct ops.
  - by eapply json_types.
  - apply intends_create; [done|]. apply reparse_create; [|intros; rewrite <-Hlen', <-Hlen; auto].
    clear -Hc Hops. revert ops' Hops. induction Hc as [|flow o flows ops Hco _ IH]; intros ops' Hops;
      inversion_clear Hops as [|? o' ? ops1 Ho Hops1]; constructor; [by eapply json_creates|auto].
Qed.

Lemma expresses_contract c sig sec :
  contract_wf c → ConvertDERSignature sig = Ok (hex_encode (c_r c ++ c_s c)) →
  sec ≠ [] → ConvertRosettaPublicKey sec = Ok (c_flow c) →
  expresses [contractOp c sig (hex_encode sec)] (contractIntent c).
Proof.
  intros Hc Hsig Hne Hkey ops' Hops. inversion_clear Hops as [|? o ? ops1 Ho Hops1]. inversion_clear Hops1.
  apply (parseIntent_intends [o] _ (ro_Type o)); [done|by repeat constructor|].
  eapply intends_contract; [|done|by eapply reparse_contract].
  rewrite (json_Type _ _ Ho). by destruct c as [[]].
Qed.
End intents.

(** ** Reading a built transaction *)

(** The scripts /parse tells apart. *)
Definition scripts_distinct (s : Scripts) : Prop :=
  NoDup [scriptBasicTransfer s; scriptProxyTransfer s; scriptCreateAccount s; scriptCreateProxyAccount s;
         scriptSetContract s].

Section parse.
Context `{CadenceJSONLaws, ParserLaws, !GoFloat, Secp256k1Laws}.
Context `{!Proto FlowTransaction, !Proto ConstructOpts}.
Context {DB : Type}.
Implicit Types sv : Server DB.

(** What /parse does once the transaction is decoded. *)
Definition parseFlow sv (txn : FlowTransaction) (signed : bool) : api ParseResponse :=
  let scripts := sv_scripts sv in
  let script := ft_Script txn in
  if bool_decide (script = scriptBasicTransfer scripts) then decodeTransferOps txn false signed
  else if bool_decide (script = scriptProxyTransfer scripts) then decodeTransferOps txn true signed
  else if bool_decide (script = scriptCreateAccount scripts) then decodeCreateAccountOps txn false signed
  else if bool_decide (script = scriptCreateProxyAccount scripts) then decodeCreateAccountOps txn true signed
  else if bool_decide (script = scriptSetContract scripts) then decodeContractOps txn signed
  else Err errInvalidTransactionPayload.

Lemma ConstructionParse_flow sv text signed txn :
  decodeTransaction text signed = Ok (inl txn) → ConstructionParse sv text signed = parseFlow sv txn signed.
Proof. intros Ht. unfold ConstructionParse. by rewrite Ht. Qed.

Lemma parse_basic sv opts n r s sa txn signed :
  length r = 8%nat → 0 ≤ n < 2 ^ 64 →
  scriptAndArgs sv (transferIntent opTransfer n r s) opts = Ok sa →
  ft_Script txn = sa.1 → ft_Arguments txn = sa.2 →
  parseFlow sv txn signed = Ok (txnOps (ft_Payer txn) (transferOps opTransfer (ft_Payer txn) r n) signed).
Proof.
  intros Hr Hn Hs Hsc Har. unfold scriptAndArgs, transferIntent in Hs.
  cbn [keys contractCode proxy receiver sender amount] in Hs.
  change (negb (is_empty "")) with false in Hs. change (bool_decide (opTransfer = opProxyTransfer)) with false in Hs.
  cbv iota in Hs. inv_ok. cbn [fst snd app] in *.
  unfold parseFlow. rewrite Hsc, bool_decide_true by done. unfold decodeTransferOps. rewrite Har.
  cbn -[decodeArg transferOps].
  by decode_args.
Qed.

Lemma parse_proxy sv opts n r s sa txn signed :
  scripts_distinct (sv_scripts sv) → length r = 8%nat → length s = 8%nat → 0 ≤ n < 2 ^ 64 →
  scriptAndArgs sv (transferIntent opProxyTransfer n r s) opts = Ok sa →
  ft_Script txn = sa.1 → ft_Arguments txn = sa.2 →
  parseFlow sv txn signed = Ok (txnOps (ft_Payer txn) (transferOps opProxyTransfer s r n) signed).
Proof.
  intros Hd Hr Hl Hn Hs Hsc Har. unfold scriptAndArgs, transferIntent in Hs.
  cbn [keys contractCode proxy receiver sender amount] in Hs.
  change (negb (is_empty "")) with false in Hs. change (bool_decide (opProxyTransfer = opProxyTransfer)) with true in Hs.
  cbv iota in Hs. unfold proxyArgs in Hs. inv_ok.
  match goal with Hm : match ?x with _ => _ end = Ok _ |- _ => destruct x as [|inn]; [done|] end.
  inv_ok. cbn [fst snd app] in *.
  unfold scripts_distinct in Hd. rewrite !NoDup_cons, !not_elem_of_cons in Hd. destruct_and! Hd.
  unfold parseFlow. rewrite Hsc, bool_decide_false, bool_decide_true by congruence.
  unfold decodeTransferOps. rewrite Har. cbn -[decodeArg transferOps].
  by decode_args.
Qed.

(** The operations /parse shows for the keys of new accounts. *)
Lemma decodeKeys vs flows ops0 :
  as_String <$> vs = Some <$> (hex_encode <$> flows) →
  Forall (λ flow, ∃ sec, ConvertRosettaPublicKey sec = Ok flow) flows →
  ∃ ops, foldM (λ ops val,
      key ← of_option errInvalidTransactionPayload (as_String val);
      pub ← decodePublicKey key;
      Ok (ops ++ [createAccountOp (Z.of_nat (length ops)) pub opCreateAccount])) ops0 vs = Ok (ops0 ++ ops) ∧
    Forall2 creates flows ops ∧ Forall (λ o, ro_Type o = opCreateAccount) ops.
Proof.
  intros Hvs Hf. revert vs ops0 Hvs. induction Hf as [|flow flows [sec0 Hsec0] _ IH]; intros [|v vs] ops0 Hvs; try done.
  - exists []. by rewrite app_nil_r.
  - injection Hvs as Hv Hvs. destruct (decodePublicKey_ok flow sec0 Hsec0) as (sec & Hd & _ & Hc).
    cbn [foldM]. rewrite Hv. cbn [of_option]. rewrite Ok_bind, Hd, !Ok_bind.
    destruct (IH vs (ops0 ++ [createAccountOp (Z.of_nat (length ops0)) (hex_encode sec) opCreateAccount]) Hvs)
      as (ops & -> & Hops & Hty).
    eexists (_ :: ops). rewrite <-(assoc_L (++)). split; [done|]. split; [|by constructor].
    constructor; [|done]. exists (hex_encode sec), sec. split; [done|]. by rewrite hex_decode_encode.
Qed.

Lemma forallb_ascii flows : forallb is_ascii (hex_encode <$> flows) = true.
Proof. induction flows as [|f flows IH]; [done|]. cbn [fmap list_fmap forallb]. by rewrite hex_encode_ascii, IH. Qed.

Lemma parse_create sv opts flows sa txn signed :
  scripts_distinct (sv_scripts sv) → flows ≠ [] →
  Forall (λ flow, ∃ sec, ConvertRosettaPublicKey sec = Ok flow) flows →
  scriptAndArgs sv (createIntent opCreateAccount flows) opts = Ok sa →
  ft_Script txn = sa.1 → ft_Arguments txn = sa.2 →
  ∃ ops, parseFlow sv txn signed = Ok (txnOps (ft_Payer txn) ops signed) ∧ Forall2 creates flows ops ∧
    Forall (λ o, ro_Type o = opCreateAccount) ops.
Proof.
  intros Hd Hne Hf Hs Hsc Har. unfold scriptAndArgs, createIntent in Hs. cbn [keys proxy] in Hs.
  destruct flows as [|flow flows]; [done|]. rewrite fmap_cons in Hs.
  change (bool_decide (opCreateAccount = opCreateProxyAccount)) with false in Hs. cbv iota in Hs. inv_ok.
  cbn [fst snd] in *. match goal with Ha : encodeArg _ = Ok _ |- _ => apply of_option_Ok in Ha as Harr end.
  destruct (json_Strings (hex_encode <$> flow :: flows) _ (forallb_ascii _) Harr) as (v & vs & Hv & Hvs & Hss).
  destruct (decodeKeys vs (flow :: flows) [] Hss Hf) as (ops & Hops & Hc & Hty). exists ops.
  unfold scripts_distinct in Hd. rewrite !NoDup_cons, !not_elem_of_cons in Hd. destruct_and! Hd.
  unfold parseFlow. rewrite Hsc, !bool_decide_false, bool_decide_true by congruence.
  unfold decodeCreateAccountOps. rewrite Har. cbn -[decodeArg foldM decodePublicKey].
  rewrite (decodeArg_ok as_Array _ vs) by eauto. rewrite Ok_bind, Hops. done.
Qed.

Lemma parse_create_proxy sv opts flow sec0 sa txn signed :
  scripts_distinct (sv_scripts sv) → ConvertRosettaPublicKey sec0 = Ok flow →
  scriptAndArgs sv (createIntent opCreateProxyAccount [flow]) opts = Ok sa →
  ft_Script txn = sa.1 → ft_Arguments txn = sa.2 →
  ∃ op, parseFlow sv txn signed = Ok (txnOps (ft_Payer txn) [op] signed) ∧ creates flow op ∧
    ro_Type op = opCreateProxyAccount.
Proof.
  intros Hd Hf Hs Hsc Har. unfold scriptAndArgs, createIntent in Hs. cbn [keys proxy fmap list_fmap] in Hs.
  change (bool_decide (opCreateProxyAccount = opCreateProxyAccount)) with true in Hs. cbv iota in Hs. inv_ok.
  cbn [fst snd] in *. destruct (decodePublicKey_ok flow sec0 Hf) as (sec & Hdk & _ & Hc).
  unfold scripts_distinct in Hd. rewrite !NoDup_cons, !not_elem_of_cons in Hd. destruct_and! Hd.
  unfold parseFlow. rewrite Hsc, !bool_decide_false, bool_decide_true by congruence.
  unfold decodeCreateAccountOps. rewrite Har. cbn -[decodeArg decodePublicKey]. decode_args.
  rewrite Hdk, Ok_bind. eexists. split; [done|]. split; [|done].
  exists (hex_encode sec), sec. split; [done|]. by rewrite hex_decode_encode.
Qed.

(** The texts of a contract that are passed on as they are. *)
Definition contract_ascii (c : contract) : bool :=
  is_ascii (c_name c) && is_ascii (c_message c) && is_ascii (c_metadata c).

Lemma parse_contract sv opts c sa txn signed :
  scripts_distinct (sv_scripts sv) → contract_wf c → contract_ascii c = true →
  scriptAndArgs sv (contractIntent c) opts = Ok sa →
  ft_Script txn = sa.1 → ft_Arguments txn = sa.2 →
  ∃ sig sec, parseFlow sv txn signed = Ok (txnOps (ft_Payer txn) [contractOp c sig (hex_encode sec)] signed) ∧
    ConvertDERSignature sig = Ok (hex_encode (c_r c ++ c_s c)) ∧
    sec ≠ [] ∧ ConvertRosettaPublicKey sec = Ok (c_flow c).
Proof.
  intros Hd Hc Has Hs Hsc Har. unfold scriptAndArgs, contractIntent in Hs.
  destruct (wf_code c Hc) as [Hcode [b Hb]]. apply hex_is_ascii in Hb. apply is_empty_false in Hcode.
  cbn [keys contractCode contractUpdate contractName prevKeyIndex newKey keyMessage keySignature keyMetadata] in Hs.
  rewrite Hcode in Hs. cbn [negb] in Hs. inv_ok. cbn [fst snd] in *.
  unfold contract_ascii in Has. rewrite !andb_true_iff in Has. destruct Has as [[Hn Hm] Hmd].
  destruct (wf_signature c Hc) as [Hcr Hcs]. destruct (wf_flow c Hc) as [sec0 Hsec0].
  destruct (ConvertFlowSignature_roundtrip _ _ Hcr Hcs) as (sig & Hsig & Hder).
  destruct (decodePublicKey_ok _ sec0 Hsec0) as (sec & Hdk & Hne & Hk). exists sig, sec. split; [|done].
  unfold scripts_distinct in Hd. rewrite !NoDup_cons, !not_elem_of_cons in Hd. destruct_and! Hd.
  unfold parseFlow. rewrite Hsc, !bool_decide_false, bool_decide_true by congruence.
  unfold decodeContractOps. rewrite Har. cbn -[decodeArg decodePublicKey ConvertFlowSignature].
  decode_args. rewrite Hdk, !Ok_bind, Hsig. cbn [of_outcome]. decode_args. rewrite !Ok_bind.
  pose proof (wf_index c Hc). rewrite s64_id by lia. done.
Qed.
End parse.
