(* ===== verification/Script.v ===== *)
(** * Script templates

    Model of [src/script/script.go] and of [compileScripts] in [src/api/api.go]:
    the embedded templates of [src/script/cadence] and the fragment of
    [text/template] they use, text with fields of the chain between double
    braces. *)
From S2P Require Import Prelude Bytes Text Model Badger Crypto Convert Config IndexDB Indexer Process Txn Api Construct ConstructProofs.
Local Open Scope Z_scope.

(** ** The embedded files

    A file is the list of its lines; a backquote stands for a double quote. *)
Definition newline : Ascii.ascii := Ascii.ascii_of_N 10.
Definition backquote : Ascii.ascii := Ascii.ascii_of_N 96.
Definition doublequote : Ascii.ascii := Ascii.ascii_of_N 34.

Fixpoint quoted (s : string) : string :=
  match s with
  | EmptyString => EmptyString
  | String c s => String (if Ascii.eqb c backquote then doublequote else c) (quoted s)
  end.

Fixpoint text_of (lines : list string) : string :=
  match lines with
  | [] => EmptyString
  | [line] => quoted line
  | line :: lines => quoted line +:+ String newline (text_of lines)
  end.

Definition BasicTransfer : string := text_of [
  "import FlowToken from 0x{{.Contracts.FlowToken}}";
  "import FungibleToken from 0x{{.Contracts.FungibleToken}}";
  "";
  "transaction(receiver: Address, amount: UFix64) {";
  "";
  "    // The Vault resource that holds the tokens that are being transferred.";
  "    let xfer: @{FungibleToken.Vault}";
  "";
  "    prepare(sender: auth(BorrowValue) &Account) {";
  "        // Get a reference to the sender's FlowToken.Vault.";
  "        let vault = sender.storage.borrow<auth(FungibleToken.Withdraw) &FlowToken.Vault>(from: /storage/flowTokenVault)";
  "            ?? panic(`Could not borrow a reference to the sender's vault`)";
  "";
  "        // Withdraw tokens from the sender's FlowToken.Vault.";
  "        self.xfer <- vault.withdraw(amount: amount)";
  "    }";
  "";
  "    execute {";
  "        // Get a reference to the receiver's default FungibleToken.Receiver";
  "        // for FLOW tokens.";
  "        let receiver = getAccount(receiver)";
  "            .capabilities.borrow<&{FungibleToken.Receiver}>(/public/flowTokenReceiver)";
  "            ?? panic(`Could not borrow a reference to the receiver's vault`)";
  "";
  "        // Deposit the withdrawn tokens in the receiver's vault.";
  "        receiver.deposit(from: <-self.xfer)";
  "    }";
  "}"
].

Definition ComputeFees : string := text_of [
  "import FlowFees from 0x{{.Contracts.FlowFees}}";
  "";
  "access(all) fun main(inclusionEffort: UFix64, executionEffort: UFix64): UFix64 {";
  "    return FlowFees.computeFees(inclusionEffort: inclusionEffort, executionEffort: executionEffort)";
  "}"
].

Definition CreateAccount : string := text_of [
  "transaction(publicKeys: [String]) {";
  "    prepare(payer: auth(AddKey, BorrowValue) &Account) {";
  "        for key in publicKeys {";
  "            // Create an account and set the account public key.";
  "            let acct = Account(payer: payer)";
  "            let publicKey = PublicKey(";
  "                publicKey: key.decodeHex(),";
  "                signatureAlgorithm: SignatureAlgorithm.ECDSA_secp256k1";
  "            )";
  "            acct.keys.add(";
  "                publicKey: publicKey,";
  "                hashAlgorithm: HashAlgorithm.SHA3_256,";
  "                weight: 1000.0";
  "            )";
  "        }";
  "    }";
  "}"
].

Definition CreateProxyAccount : string := text_of [
  "import FlowColdStorageProxy from 0xProxy";
  "import FlowManager from 0xFlow";
  "";
  "transaction(name: String, publicKey: String, manager: Address) {";
  "    prepare(payer: auth(BorrowValue) &Account) {";
  "        // Create a new account with a FlowColdStorageProxy Vault.";
  "        let address = FlowColdStorageProxy.setup(payer: payer, publicKey: publicKey.decodeHex())";
  "";
  "        let accountManager = getAccount(manager).capabilities.borrow<&FlowManager.Mapper>()!";
  "";
  "        // Create a record in account database";
  "        accountManager.setAddress(name, address: address)";
  "    }";
  "}"
].

Definition GetBalances : string := text_of [
  "// Commenting out this dependency since no accounts on Mainnet contain this contract. If ColdStorage functionality is";
  "// restored then it's a bridge to cross at that time";
  "//import FlowColdStorageProxy from 0xProxy";
  "";
  "import FlowToken from 0x{{.Contracts.FlowToken}}";
  "import FungibleToken from 0x{{.Contracts.FungibleToken}}";
  "";
  "access(all) struct AccountBalances {";
  "    access(all)  let default_balance: UFix64";
  "    access(all)  let is_proxy: Bool";
  "    access(all)  let proxy_balance: UFix64";
  "";
  "    init(default_balance: UFix64, is_proxy: Bool, proxy_balance: UFix64) {";
  "        self.default_balance = default_balance";
  "        self.is_proxy = is_proxy";
  "        self.proxy_balance = proxy_balance";
  "    }";
  "}";
  "";
  "access(all) fun main(addr: Address): AccountBalances {";
  "    let acct = getAccount(addr)";
  "    let balanceRef = acct.capabilities.borrow<&FlowToken.Vault>(/public/flowTokenBalance)!";
  "    var is_proxy = false";
  "    var proxy_balance = 0.0";
  "";
  "    // Same as for above comment";
  "    //let ref = acct.capabilities.borrow<&{FlowColdStorageProxy.Vault}>(FlowColdStorageProxy.VaultCapabilityPublicPath)";
  "    //if let vault = ref {";
  "    //    is_proxy = true";
  "    //    proxy_balance = vault.getBalance()";
  "    //}";
  "";
  "    return AccountBalances(";
  "        default_balance: balanceRef.balance,";
  "        is_proxy: is_proxy,";
  "        proxy_balance: proxy_balance";
  "    )";
  "}"
].

Definition GetBalancesBasic : string := text_of [
  "import FlowToken from 0x{{.Contracts.FlowToken}}";
  "import FungibleToken from 0x{{.Contracts.FungibleToken}}";
  "";
  "access(all) struct AccountBalances {";
  "    access(all) let default_balance: UFix64";
  "    access(all) let is_proxy: Bool";
  "    access(all) let proxy_balance: UFix64";
  "";
  "    init(default_balance: UFix64, is_proxy: Bool, proxy_balance: UFix64) {";
  "        self.default_balance = default_balance";
  "        self.is_proxy = is_proxy";
  "        self.proxy_balance = proxy_balance";
  "    }";
  "}";
  "";
  "access(all) fun main(addr: Address): AccountBalances {";
  "    let acct = getAccount(addr)";
  "    var balance = 0.0";
  "    if let balanceRef = acct.capabilities.borrow<&{FungibleToken.Balance}>(/public/flowTokenBalance) {";
  "        balance = balanceRef.balance";
  "    }";
  "    return AccountBalances(";
  "        default_balance: balance,";
  "        is_proxy: false,";
  "        proxy_balance: 0.0";
  "    )";
  "}"
].

Definition GetFeeReceivers : string := text_of [
  "import FlowFees from 0x{{.Contracts.FlowFees}}";
  "";
  "// Returns the addresses of all accounts that may receive transaction fee";
  "// deposits: the FlowFees contract account itself, plus any child fee accounts";
  "// that FlowFees.deductTransactionFee rotates deposits across (see";
  "// onflow/flow-core-contracts#575, `Enable concurrent fee collection`).";
  "access(all) fun main(): [Address] {";
  "    return FlowFees.getFeeReceiverAddresses()";
  "}";
  ""
].

Definition GetProxyNonce : string := text_of [
  "import FlowColdStorageProxy from 0xProxy";
  "";
  "access(all) fun main(addr: Address): Int64 {";
  "    let acct = getAccount(addr)";
  "    let ref = acct.capabilities.borrow<&FlowColdStorageProxy.Vault>(FlowColdStorageProxy.VaultCapabilityPublicPath)";
  "    if let vault = ref {";
  "        return vault.lastNonce + 1";
  "    }";
  "    return -1";
  "}"
].

Definition GetProxyPublicKey : string := text_of [
  "import FlowColdStorageProxy from 0xProxy";
  "";
  "access(all) fun main(addr: Address): String {";
  "    let acct = getAccount(addr)";
  "    let ref = acct.capabilities.borrow<&FlowColdStorageProxy.Vault>(FlowColdStorageProxy.VaultCapabilityPublicPath)";
  "    if let vault = ref {";
  "        return String.encodeHex(vault.getPublicKey())";
  "    }";
  "    return ``";
  "}"
].

Definition ProxyTransfer : string := text_of [
  "import FlowColdStorageProxy from 0xProxy";
  "";
  "transaction(sender: Address, receiver: Address, amount: UFix64, nonce: Int64, sig: String) {";
  "    prepare(payer: auth(BorrowValue) &Account) {";
  "    }";
  "    execute {";
  "        // Get a reference to the sender's FlowColdStorageProxy.Vault.";
  "        let acct = getAccount(sender)";
  "        let vault = acct.capabilities.borrow<&FlowColdStorageProxy.Vault>(FlowColdStorageProxy.VaultCapabilityPublicPath)!";
  "";
  "        // Transfer tokens to the receiver.";
  "        vault.transfer(receiver: receiver, amount: amount, nonce: nonce, sig: sig.decodeHex())";
  "    }";
  "}"
].

Definition SetContract : string := text_of [
  "transaction(update: Bool, contractName: String, contractCode: String, prevKeyIndex: Int, newKey: String, keyMessage: String, keySignature: String, keyMetadata: String) {";
  "    prepare(payer: auth(AddKey) &Account) {";
  "        let key = PublicKey(";
  "            publicKey: newKey.decodeHex(),";
  "            signatureAlgorithm: SignatureAlgorithm.ECDSA_secp256k1";
  "        )";
  "        let verified = key.verify(";
  "            signature: keySignature.decodeHex(),";
  "            signedData: keyMessage.utf8,";
  "            domainSeparationTag: ``,";
  "            hashAlgorithm: HashAlgorithm.SHA2_256";
  "        )";
  "        if !verified {";
  "            panic(`Key cannot be verified`)";
  "        }";
  "        let prevKey = payer.keys.get(keyIndex: prevKeyIndex)";
  "        if prevKey == nil {";
  "            panic(`Invalid prevKeyIndex, didn't find matching key`)";
  "        }";
  "        let nextKey = payer.keys.get(keyIndex: prevKeyIndex + 1)";
  "        if nextKey != nil {";
  "            panic(`Invalid prevKeyIndex, found key at next key index`)";
  "        }";
  "        if update {";
  "            payer.contracts.update__experimental(";
  "                name: contractName,";
  "                code: contractCode.utf8";
  "            )";
  "        } else {";
  "            payer.contracts.add(";
  "                name: contractName,";
  "                code: contractCode.utf8";
  "            )";
  "        }";
  "        payer.keys.add(";
  "            publicKey: key,";
  "            hashAlgorithm: HashAlgorithm.SHA3_256,";
  "            weight: 1000.0";
  "        )";
  "        payer.keys.revoke(keyIndex: prevKeyIndex)";
  "    }";
  "}";
  ""
].

(** ** Templates *)
Inductive piece := Verbatim (s : string) | Field (path : list string).

Definition brace_open : Ascii.ascii := Ascii.ascii_of_N 123.
Definition brace_close : Ascii.ascii := Ascii.ascii_of_N 125.
Definition dot : Ascii.ascii := Ascii.ascii_of_N 46.

(** the path of an action, which starts with a dot *)
Definition fieldPath (action : string) : option (list string) :=
  match split_on dot action with
  | EmptyString :: name :: path => Some (name :: path)
  | _ => None
  end.

(** [Parse]: [cur] is the text read so far, [inside] whether it is an action. *)
Fixpoint parseTemplate (inside : bool) (cur s : string) : option (list piece) :=
  match s with
  | EmptyString => if inside then None else Some [Verbatim cur]
  | String c s1 =>
      let next := parseTemplate inside (cur +:+ String c EmptyString) s1 in
      match s1 with
      | String c2 s2 =>
          if negb inside && Ascii.eqb c brace_open && Ascii.eqb c2 brace_open then
            rest ← parseTemplate true EmptyString s2; Some (Verbatim cur :: rest)
          else if inside && Ascii.eqb c brace_close && Ascii.eqb c2 brace_close then
            path ← fieldPath cur; rest ← parseTemplate false EmptyString s2; Some (Field path :: rest)
          else next
      | EmptyString => next
      end
  end.

(** [Execute] with the chain: the fields the templates use. *)
Definition chainField (c : Contracts) (path : list string) : option string :=
  match path with
  | [a; b] =>
      if bool_decide (a = "Contracts") then
        if bool_decide (b = "FlowFees") then Some (FlowFees c)
        else if bool_decide (b = "FlowToken") then Some (FlowToken c)
        else if bool_decide (b = "FungibleToken") then Some (FungibleToken c)
        else if bool_decide (b = "FlowColdStorageProxy") then Some (FlowColdStorageProxy c)
        else None
      else None
  | _ => None
  end.

Definition executePiece (c : Contracts) (p : piece) : option string :=
  match p with Verbatim s => Some s | Field path => chainField c path end.

Definition concatStrings (l : list string) : string := foldr String.app EmptyString l.

Definition Compile (src : string) (c : Contracts) : outcome unit bytes :=
  match parseTemplate false EmptyString src with
  | None => Fatal
  | Some tmpl =>
      match mapM (executePiece c) tmpl with
      | None => Fatal
      | Some out => Ok (String.list_byte_of_string (concatStrings out))
      end
  end.

(** ** [compileScripts] *)
Definition compileScripts (c : Contracts) : outcome unit Scripts :=
  basicTransfer ← Compile BasicTransfer c;
  computeFees ← Compile ComputeFees c;
  createAccount ← Compile CreateAccount c;
  createProxyAccount ← Compile CreateProxyAccount c;
  getBalances ← Compile GetBalances c;
  getBalancesBasic ← Compile GetBalancesBasic c;
  getFeeReceivers ← Compile GetFeeReceivers c;
  getProxyNonce ← Compile GetProxyNonce c;
  getProxyPublicKey ← Compile GetProxyPublicKey c;
  proxyTransfer ← Compile ProxyTransfer c;
  setContract ← Compile SetContract c;
  Ok (mkScripts basicTransfer computeFees createAccount createProxyAccount getBalances getBalancesBasic
        getFeeReceivers getProxyNonce getProxyPublicKey proxyTransfer setContract).

(** ** What the scripts are *)

(** the text without its first lines, and those lines *)
Fixpoint from_line (n : nat) (s : string) : string :=
  match n, s with
  | O, _ => s
  | _, EmptyString => EmptyString
  | S n', String c s => if Ascii.eqb c newline then from_line n' s else from_line n s
  end.
Fixpoint first_lines (n : nat) (s : string) : string :=
  match n, s with
  | O, _ | _, EmptyString => EmptyString
  | S n', String c s => String c (if Ascii.eqb c newline then first_lines n' s else first_lines n s)
  end.

Definition importing (name address rest : string) : string :=
  "import " +:+ name +:+ " from 0x" +:+ address +:+ String newline rest.

Definition is_script (script : bytes) (text : string) : Prop := script = String.list_byte_of_string text.

Lemma compile_BasicTransfer c :
  Compile BasicTransfer c = Ok (String.list_byte_of_string
    (importing "FlowToken" (FlowToken c) (importing "FungibleToken" (FungibleToken c) (from_line 2 BasicTransfer)))).
Proof. destruct c. vm_compute. reflexivity. Qed.
Lemma compile_ComputeFees c :
  Compile ComputeFees c = Ok (String.list_byte_of_string (importing "FlowFees" (FlowFees c) (from_line 1 ComputeFees))).
Proof. destruct c. vm_compute. reflexivity. Qed.
Lemma compile_GetFeeReceivers c :
  Compile GetFeeReceivers c =
  Ok (String.list_byte_of_string (importing "FlowFees" (FlowFees c) (from_line 1 GetFeeReceivers))).
Proof. destruct c. vm_compute. reflexivity. Qed.
Lemma compile_GetBalancesBasic c :
  Compile GetBalancesBasic c = Ok (String.list_byte_of_string
    (importing "FlowToken" (FlowToken c) (importing "FungibleToken" (FungibleToken c) (from_line 2 GetBalancesBasic)))).
Proof. destruct c. vm_compute. reflexivity. Qed.
Lemma compile_GetBalances c :
  Compile GetBalances c = Ok (String.list_byte_of_string (first_lines 4 GetBalances +:+
    importing "FlowToken" (FlowToken c) (importing "FungibleToken" (FungibleToken c) (from_line 6 GetBalances)))).
Proof. destruct c. vm_compute. reflexivity. Qed.

Lemma string_app_nil_r s : (s +:+ EmptyString)%string = s.
Proof.
  induction s as [|c s IH]; [reflexivity|].
  change (String c s +:+ EmptyString) with (String c (s +:+ EmptyString)). by rewrite IH.
Qed.

(** a file without actions is itself *)
Lemma compile_verbatim src c :
  parseTemplate false EmptyString src = Some [Verbatim src] → Compile src c = Ok (String.list_byte_of_string src).
Proof. unfold Compile. intros ->. cbn. by rewrite string_app_nil_r. Qed.

