(* ===== verification/ColdStorage.v ===== *)
(** * The cold storage contract

    Model of the transfer of [src/script/cadence/contracts/FlowColdStorageProxy.cdc]
    and of the transaction script that calls it: the other end of an inner
    transaction. *)
From S2P Require Import Prelude Bytes Text Model Crypto Indexer Txn Api Construct.
Local Open Scope Z_scope.

(** What the contract uses of the chain: signature verification on a digest, and
    whether an account has a vault that receives tokens. *)
Class FlowChain := {
  ecdsa_verify : bytes → bytes → bytes → bool;
  receives_tokens : bytes → bool;
}.

(** The resource [Vault]; its tokens are the balance of [flowVault]. *)
Record Vault := mkVault { lastNonce : Z; flowVault : Z; publicKey : bytes }.

Section contract.
Context `{!Sha3, !FlowChain, !Cadence, !CadenceJSON}.

(** A domain separation tag is padded with null bytes to 32 bytes. *)
Definition domainTag (tag : string) : bytes :=
  let t := String.list_byte_of_string tag in t ++ make_bytes (32 - length t).

(** The message that was signed: [toBytes] and [toBigEndianBytes] concatenated. *)
Definition transferData (receiver : bytes) (amount nonce : Z) : bytes :=
  receiver ++ be64 amount ++ be64 (u64 nonce).

(** [Vault.transfer]; [None] is a panic, which reverts the transaction. The
    result is the vault and what is deposited to the receiver. *)
Definition Vault_transfer (v : Vault) (receiver : bytes) (amount nonce : Z) (sig : bytes) : option (Vault * (bytes * Z)) :=
  if 2 ^ 63 <=? lastNonce v + 1 then None
  else if negb (nonce =? lastNonce v + 1) then None
  else if negb (ecdsa_verify (publicKey v) sig
                  (sha3_256 (domainTag "FLOW-V0.0-user" ++ transferData receiver amount nonce))) then None
  else if negb (receives_tokens receiver) then None
  else if flowVault v <? amount then None
  else Some (mkVault (lastNonce v + 1) (flowVault v - amount) (publicKey v), (receiver, amount)).

(** An argument of a transaction, decoded by the chain. *)
Definition argument {A} (as_type : cadence_Value → option A) (arg : bytes) : option A :=
  v ← json_Decode arg; as_type v.

(** The script [proxy-transfer.cdc], on the vaults by account. *)
Definition proxyTransferScript (vaults : gmap bytes Vault) (args : list bytes)
    : option (gmap bytes Vault * (bytes * Z)) :=
  match args with
  | [a0; a1; a2; a3; a4] =>
      sender ← argument as_Address a0;
      receiver ← argument as_Address a1;
      amount ← argument as_UFix64 a2;
      nonce ← argument as_Int64 a3;
      sig ← argument as_String a4;
      sig ← hex_decode sig;
      vault ← vaults !! sender;
      r ← Vault_transfer vault receiver amount nonce sig;
      Some (<[sender := r.1]> vaults, r.2)
  | _ => None
  end.

Lemma argument_decodeArg {A} (as_type : cadence_Value → option A) arg x :
  decodeArg as_type (Some arg) = Ok x → argument as_type arg = Some x.
Proof.
  unfold decodeArg, argument. cbn. destruct (json_Decode arg) as [v|]; [|done]. cbn.
  destruct (as_type v); [|done]. by intros [= ->].
Qed.
End contract.
