(* ===== verification/ConstructMain.v ===== *)
(** * The promises of transaction construction

    What is built is what was asked for, what is signed is what is submitted,
    and what a cold key signs is what the contract on the chain checks. *)
From S2P Require Import Prelude Bytes Text Model Badger Crypto Config IndexDB Indexer Txn Api ApiMain Construct ConstructProofs ColdStorage.
Local Open Scope Z_scope.

Lemma Ok_inj {E A} (a b : A) : Ok (E:=E) a = Ok b → a = b.
Proof. by injection 1. Qed.

Lemma singleton_inj {A} (a b : A) : [a] = [b] → a = b.
Proof. by injection 1. Qed.

(** ** Inner transactions *)

Lemma go_copy_app p q r src lo hi :
  lo = length p → length q = length src → (length src ≤ hi - lo)%nat →
  go_copy (p ++ q ++ r) lo hi src = p ++ src ++ r.
Proof.
  intros -> Hl Hh. unfold go_copy. replace (Nat.min _ _) with (length src) by lia.
  rewrite take_app_length, (take_ge src) by lia. f_equal. f_equal.
  rewrite <-Hl, drop_app_add. apply drop_app_length.
Qed.

(** The layout of the payload of an inner transaction. *)
Lemma innerPayload_eq intent seq :
  length (receiver intent) = 8%nat → length (sender intent) = 8%nat →
  innerPayload intent seq =
  [txnTypeInner] ++ be64 (amount intent) ++ be64 (u64 seq) ++ receiver intent ++ sender intent.
Proof.
  intros Hr Hs. pose proof (length_be64 (amount intent)) as Ha. pose proof (length_be64 (u64 seq)) as Hq.
  unfold innerPayload. cbv zeta. revert Ha Hq Hr Hs.
  generalize (be64 (amount intent)) (be64 (u64 seq)) (receiver intent) (sender intent). intros a q r s Ha Hq Hr Hs.
  set (z := make_bytes 8). assert (length z = 8%nat) as Hz by done.
  change (make_bytes 33) with ([] ++ [x00] ++ z ++ z ++ z ++ z). clearbody z.
  rewrite (go_copy_app [] [x00]) by (simpl; lia).
  change ([] ++ [txnTypeInner] ++ z ++ z ++ z ++ z) with ([txnTypeInner] ++ z ++ z ++ z ++ z).
  rewrite (go_copy_app [txnTypeInner] z) by (simpl; lia). rewrite !(assoc_L (++) [txnTypeInner]).
  rewrite (go_copy_app ([txnTypeInner] ++ a) z) by (rewrite ?length_app; simpl; lia).
  rewrite !(assoc_L (++) ([txnTypeInner] ++ a)).
  rewrite (go_copy_app (([txnTypeInner] ++ a) ++ q) z) by (rewrite ?length_app; simpl; lia).
  rewrite !(assoc_L (++) (([txnTypeInner] ++ a) ++ q)), <-(app_nil_r z).
  rewrite (go_copy_app ((([txnTypeInner] ++ a) ++ q) ++ r) z) by (rewrite ?length_app; simpl; lia).
  by rewrite app_nil_r, <-!(assoc_L (++)).
Qed.

(** The fields of such a payload, with anything after it. *)
Lemma inner_fields (a q r s rest : bytes) :
  length a = 8%nat → length q = 8%nat → length r = 8%nat → length s = 8%nat →
  let enc := txnTypeInner :: a ++ q ++ r ++ s ++ rest in
  take 8 (drop 1 enc) = a ∧ take 8 (drop 9 enc) = q ∧ take 8 (drop 17 enc) = r ∧ take 8 (drop 25 enc) = s ∧
  drop 33 enc = rest ∧ take 16 (drop 1 enc) = a ++ q.
Proof.
  intros Ha Hq Hr Hs. cbv zeta.
  destruct a as [|?[|?[|?[|?[|?[|?[|?[|?[]]]]]]]]]; try done.
  destruct q as [|?[|?[|?[|?[|?[|?[|?[|?[]]]]]]]]]; try done.
  destruct r as [|?[|?[|?[|?[|?[|?[|?[|?[]]]]]]]]]; try done.
  destruct s as [|?[|?[|?[|?[|?[|?[|?[|?[]]]]]]]]]; try done.
Qed.

Section main.
Context `{CadenceJSONLaws, ParserLaws, !GoFloat, Secp256k1Laws, !Sha3}.
Context `{!RLP flowEnvelope, !RLP flowTransaction, !Proto FlowTransaction, !Proto ConstructOpts}.
Context {DB : Type}.
Implicit Types sv : Server DB.

(** ** What /construction/payloads returns *)

Lemma getConstructOpts_inv md raw opts :
  getConstructOpts md = Ok (raw, opts) → ∃ b, hex_decode raw = Some b ∧ unmarshal b = Some opts.
Proof. unfold getConstructOpts. intros Ho. inv_steps. eauto. Qed.

(** Options that an endpoint answers with are read back by the next one. *)
Lemma getConstructOpts_marshal o b :
  marshal o = Some b → getConstructOpts {["protobuf" := AString (hex_encode b)]} = Ok (hex_encode b, o).
Proof.
  intros Hm%unmarshal_marshal. unfold getConstructOpts, getString.
  rewrite lookup_singleton_eq, Ok_bind, hex_decode_encode. cbn [of_option]. by rewrite Ok_bind, Hm.
Qed.

Lemma payloads_flow sv md ops raw opts intent resp :
  getConstructOpts md = Ok (raw, opts) → parseIntent ops = Ok intent → inner intent = false →
  ConstructionPayloads sv md ops = Ok resp →
  ∃ sa hash enc, let txn := buildTransaction opts sa.1 sa.2 in
    scriptAndArgs sv intent opts = Ok sa ∧ TransactionEnvelopeHash txn = Ok hash ∧ marshal txn = Some enc ∧
    resp = mkPayloadsResponse [mkSigningPayload (hexAddress (co_Payer opts)) hash ecdsa] (flowText enc raw).
Proof.
  intros Ho Hi Hin. unfold ConstructionPayloads. rewrite Ho, Ok_bind, Hi, Ok_bind, Hin. intros Hp. inv_steps.
  match goal with Hs : scriptAndArgs _ _ _ = Ok ?x |- _ => exists x end. eexists _, _. split; [done|].
  split; [done|]. by split.
Qed.

Lemma payloads_inner sv md ops raw opts intent resp :
  getConstructOpts md = Ok (raw, opts) → parseIntent ops = Ok intent → inner intent = true →
  ConstructionPayloads sv md ops = Ok resp →
  let enc := innerPayload intent (co_SequenceNumber opts) in
  0 ≤ co_SequenceNumber opts ∧
  resp = mkPayloadsResponse
    [mkSigningPayload (hexAddress (sender intent)) (sha3_256 (userTag ++ receiver intent ++ take 16 (drop 1 enc))) ecdsa]
    (hex_encode enc).
Proof.
  intros Ho Hi Hin. unfold ConstructionPayloads. rewrite Ho, Ok_bind, Hi, Ok_bind, Hin. intros Hp. inv_steps.
  split; [|done]. match goal with Hs : (_ <? 0) = false |- _ => apply Z.ltb_ge in Hs end. done.
Qed.

Lemma options_flowText enc raw b : hex_decode raw = Some b → optionsText (flowText enc raw) = raw.
Proof. intros Hb. unfold optionsText. by rewrite (split_flowText _ _ _ Hb). Qed.

Lemma reslice_long {E} sg n : (n ≤ length (sl_data sg))%nat → reslice (E:=E) sg n = Ok (take n (sl_data sg)).
Proof.
  intros Hn. unfold reslice. rewrite bool_decide_true by lia. by rewrite take_app_le.
Qed.

(** Combining keeps the transaction and the options. *)
Lemma combine_flow enc raw b txn pk sg signed :
  hex_decode raw = Some b → unmarshal enc = Some txn → ft_ProposalKey txn = Some pk →
  (64 ≤ length (sl_data sg))%nat → ConstructionCombine (flowText enc raw) [Some sg] = Ok signed →
  ∃ enc', signed = flowText enc' raw ∧
    decodeTransaction signed true =
      Ok (inl (set_EnvelopeSignatures
                 [mkTransactionSignature (ft_Payer txn) (pk_KeyId pk) (take 64 (sl_data sg))] txn)).
Proof.
  intros Hb Hu Hpk Hsg Hc. unfold ConstructionCombine in Hc.
  rewrite (decode_flowText _ _ _ _ _ Hb Hu), Ok_bind in Hc by done.
  rewrite reslice_long, Ok_bind, (options_flowText _ _ _ Hb), Hpk in Hc by done.
  cbn [deref] in Hc. rewrite Ok_bind in Hc. inv_steps. eexists. split; [done|].
  match goal with Hm : marshal _ = Some _ |- _ => pose proof (unmarshal_marshal _ _ Hm) as Hum end.
  by apply (decode_flowText _ _ _ _ _ Hb Hum).
Qed.

(** The transaction that /combine returns carries the first 64 bytes of the
    signature as the payer's only envelope signature, under the key and with the
    sequence number of the options; the bytes the payer was asked to sign are its
    envelope hash, so the signature covers exactly what is submitted; and the
    options travel with it. *)
Lemma combined_transaction sv md ops raw opts intent resp sg signed :
  getConstructOpts md = Ok (raw, opts) → parseIntent ops = Ok intent → inner intent = false →
  ConstructionPayloads sv md ops = Ok resp → (64 ≤ length (sl_data sg))%nat →
  ConstructionCombine (pr_UnsignedTransaction resp) [Some sg] = Ok signed →
  ∃ txn hash,
    decodeTransaction signed true = Ok (inl txn) ∧
    TransactionEnvelopeHash txn = Ok hash ∧
    pr_Payloads resp = [mkSigningPayload (hexAddress (co_Payer opts)) hash ecdsa] ∧
    ft_Payer txn = co_Payer opts ∧ ft_Authorizers txn = [co_Payer opts] ∧
    ft_ReferenceBlockId txn = co_BlockHash opts ∧
    ft_ProposalKey txn = Some (mkProposalKey (co_Payer opts) (co_KeyId opts) (u64 (co_SequenceNumber opts))) ∧
    ft_EnvelopeSignatures txn =
      [mkTransactionSignature (co_Payer opts) (co_KeyId opts) (take 64 (sl_data sg))] ∧
    (raw ≠ "" → decodeOptsFromTransaction signed = Some opts).
Proof.
  intros Ho Hi Hin Hp Hsg Hc. destruct (getConstructOpts_inv _ _ _ Ho) as (b & Hb & Hub).
  destruct (payloads_flow _ _ _ _ _ _ _ Ho Hi Hin Hp) as (sa & hash & enc & _ & Hh & Henc & ->).
  destruct (combine_flow _ _ _ _ _ _ _ Hb (unmarshal_marshal _ _ Henc) eq_refl Hsg Hc) as (enc' & -> & Hdec).
  eexists _, hash. split; [done|]. repeat split; try done.
  intros Hne. unfold decodeOptsFromTransaction. rewrite (split_flowText _ _ _ Hb).
  rewrite (proj2 (is_empty_false raw) Hne), Hb. done.
Qed.


(** ** What /construction/parse shows *)

(** The steps of a run are the steps of the other one. *)
Ltac same_steps :=
  repeat match goal with
  | He : ?m = Ok _ |- context [?m] => rewrite He, ?Ok_bind
  end.

(** Signing changes the signers shown and nothing else. *)
Lemma parseFlow_signed sv txn sigs resp :
  parseFlow sv txn false = Ok resp →
  parseFlow sv (set_EnvelopeSignatures sigs txn) true =
    Ok (mkParseResponse [hexAddress (ft_Payer txn)] (pa_Operations resp)).
Proof.
  unfold parseFlow. cbn [ft_Script set_EnvelopeSignatures].
  repeat case_bool_decide; try done; unfold decodeTransferOps, decodeCreateAccountOps, decodeContractOps;
    cbn [ft_Arguments ft_Payer set_EnvelopeSignatures]; intros Hp; inv_ok; by same_steps.
Qed.

(** A transfer by the payer, whose sender is whoever pays. *)
Definition basic_transfer (intent : txnIntent) : bool :=
  negb (nonempty (keys intent)) && is_empty (contractCode intent) && negb (proxy intent) && negb (inner intent).

Definition paid_by (payer : bytes) (i : txnIntent) : txnIntent :=
  if basic_transfer i
  then mkTxnIntent (amount i) (contractCode i) (contractName i) (contractUpdate i) (keyMessage i) (keyMetadata i)
         (keySignature i) (keys i) (inner i) (newKey i) (prevKeyIndex i) (proxy i) (receiver i) payer
  else i.

(** Intents that survive being shown: texts in ASCII, and an amount that does
    not vanish in 64 bits. *)
Definition showable (i : txnIntent) : bool :=
  is_ascii (contractName i) && is_ascii (keyMessage i) && is_ascii (keyMetadata i) &&
  (nonempty (keys i) || negb (is_empty (contractCode i)) || negb (amount i =? 0)).

(** One transaction shown. *)
Lemma parseFlow_expresses sv ops intent opts sa txn :
  scripts_distinct (sv_scripts sv) → length (ft_Payer txn) = 8%nat →
  parseIntent ops = Ok intent → showable intent = true → inner intent = false →
  scriptAndArgs sv intent opts = Ok sa → ft_Script txn = sa.1 → ft_Arguments txn = sa.2 →
  ∃ shown, parseFlow sv txn false = Ok (mkParseResponse [] shown) ∧ expresses shown (paid_by (ft_Payer txn) intent).
Proof.
  intros Hd Hpay Hi Hsh Hin Hsa Hsc Har.
  apply parseIntent_inv in Hi as (l & typ & -> & Hne & _ & [typ' Ht Hc|typ' op Ht -> Hc|typ' Ht Hc]).
  - apply parseCreateAccount_inv in Hc as (flows & -> & Hf & Hl).
    assert (Forall (λ flow, ∃ sec, ConvertRosettaPublicKey sec = Ok flow) flows) as Hsec.
    { clear -Hf. induction Hf as [|flow o flows ops (raw & sec & _ & _ & Hk) _ IH]; constructor; eauto. }
    pose proof (Forall2_length _ _ _ Hf) as Hlen.
    assert (paid_by (ft_Payer txn) (createIntent typ' flows) = createIntent typ' flows) as ->.
    { unfold paid_by, basic_transfer. destruct flows; [by destruct l|done]. }
    destruct (either_cases _ _ _ Ht) as [->| ->].
    + destruct (parse_create sv opts flows sa txn false) as (shown & Hp & Hcr & Hty); try done.
      { intros ->. by destruct l. }
      exists shown. split; [done|]. apply expresses_create; try done.
      intros ->. apply Forall2_length in Hcr. destruct flows; [by destruct l|done].
    + specialize (Hl eq_refl). destruct flows as [|flow [|]]; [by destruct l| |simpl in Hlen; lia].
      apply Forall_cons in Hsec as [[sec0 Hsec0] _].
      destruct (parse_create_proxy sv opts flow sec0 sa txn false) as (op & Hp & Hcr & Hty); try done.
      exists [op]. split; [done|]. apply expresses_create; try done; by repeat constructor.
  - apply parseContract_inv in Hc as (c & -> & Hwf & _).
    assert (contract_ascii c = true) as Has.
    { unfold showable in Hsh. cbn in Hsh. unfold contract_ascii. by rewrite !andb_true_iff in *; tauto. }
    destruct (parse_contract sv opts c sa txn false) as (sig & sec & Hp & Hsig & Hn & Hk); try done.
    eexists. split; [done|]. assert (paid_by (ft_Payer txn) (contractIntent c) = contractIntent c) as ->.
    { unfold paid_by, basic_transfer. cbn. destruct (wf_code c Hwf) as [Hcode _].
      by rewrite (proj2 (is_empty_false _) Hcode). }
    by apply expresses_contract.
  - apply parseTransfer_inv in Hc as (n & r & s & -> & Hr & Hs & Hn).
    assert (0 < n) as Hpos.
    { unfold showable in Hsh. cbn in Hsh. destruct (Z.eqb_spec n 0) as [->|]; [done|lia]. }
    apply orb_true_iff in Ht as [[->| ->]%either_cases| ->%bool_decide_eq_true_1].
    + rewrite (parse_proxy sv opts n r s sa txn false) by done. eexists. split; [done|].
      by apply expresses_transfer; [..|lia].
    + done.
    + rewrite (parse_basic sv opts n r s sa txn false) by done. eexists. split; [done|].
      change (paid_by (ft_Payer txn) (transferIntent opTransfer n r s)) with (transferIntent opTransfer n r (ft_Payer txn)).
      by apply expresses_transfer; [..|lia].
Qed.

(** ** Inner transactions *)

Lemma length_userTag : length userTag = 32%nat.
Proof. done. Qed.

(** The payload of an inner transaction, signed or not, reads back as itself. *)
Lemma decode_inner intent seq (sig : bytes) (signed : bool) :
  length (receiver intent) = 8%nat → length (sender intent) = 8%nat → 0 ≤ amount intent < 2 ^ 64 →
  length sig = (if signed then 64%nat else 0%nat) →
  let enc := innerPayload intent seq ++ sig in
  decodeTransaction (hex_encode enc) signed =
    Ok (inr (mkInnerTxn (amount intent) (u64 seq) enc (receiver intent) (sender intent))).
Proof.
  intros Hr Hs Ha Hsig enc. pose proof (innerPayload_eq intent seq Hr Hs) as He.
  assert (enc = txnTypeInner :: be64 (amount intent) ++ be64 (u64 seq) ++ receiver intent ++ sender intent ++ sig) as Heq.
  { unfold enc. rewrite He. cbn [app]. by rewrite <-!(assoc_L (++)). }
  destruct (inner_fields (be64 (amount intent)) (be64 (u64 seq)) (receiver intent) (sender intent) sig)
    as (H1' & H2' & H3' & H4' & _); [apply length_be64|apply length_be64|done..|].
  rewrite <-Heq in H1', H2', H3', H4'.
  rewrite decode_innerText.
  - rewrite H1', H2', H3', H4', !be_get_be64 by (done || apply u64_range). done.
  - rewrite Heq. cbn [length]. rewrite !length_app, !length_be64, Hr, Hs, Hsig. by destruct signed.
  - by rewrite Heq.
Qed.

Lemma combine_inner intent seq sg :
  length (receiver intent) = 8%nat → length (sender intent) = 8%nat → 0 ≤ amount intent < 2 ^ 64 →
  (64 ≤ length (sl_data sg))%nat →
  ConstructionCombine (hex_encode (innerPayload intent seq)) [Some sg] =
    Ok (hex_encode (innerPayload intent seq ++ take 64 (sl_data sg))).
Proof.
  intros Hr Hs Ha Hsg. unfold ConstructionCombine.
  pose proof (decode_inner intent seq [] false Hr Hs Ha eq_refl) as Hd. rewrite app_nil_r in Hd.
  by rewrite Hd, Ok_bind, reslice_long, Ok_bind by done.
Qed.

(** ** Theorems on what is shown *)


(** ** From a cold key to the contract *)

(** What a cold key signs is what the contract hashes. *)
Lemma inner_digest intent seq :
  length (receiver intent) = 8%nat → length (sender intent) = 8%nat →
  userTag ++ receiver intent ++ take 16 (drop 1 (innerPayload intent seq)) =
  domainTag "FLOW-V0.0-user" ++ transferData (receiver intent) (amount intent) seq.
Proof.
  intros Hr Hs. rewrite innerPayload_eq by done. unfold transferData.
  pose proof (inner_fields (be64 (amount intent)) (be64 (u64 seq)) (receiver intent) (sender intent) []
    (length_be64 _) (length_be64 _) Hr Hs) as (_ & _ & _ & _ & _ & H6').
  cbv zeta in H6'. rewrite (app_nil_r (sender intent)) in H6'.
  change ([txnTypeInner] ++ be64 (amount intent) ++ be64 (u64 seq) ++ receiver intent ++ sender intent)
    with (txnTypeInner :: be64 (amount intent) ++ be64 (u64 seq) ++ receiver intent ++ sender intent).
  by rewrite H6'.
Qed.

(** The intent of an inner transaction. *)
Lemma inner_intent ops intent :
  parseIntent ops = Ok intent → inner intent = true →
  ∃ n r s, intent = transferIntent opProxyTransferInner n r s ∧ length r = 8%nat ∧ length s = 8%nat ∧ 0 ≤ n < 2 ^ 64.
Proof.
  intros Hi Hin. apply parseIntent_inv in Hi as (l & typ & -> & Hne & _ & [typ' Ht Hc|typ' op Ht -> Hc|typ' Ht Hc]).
  - by apply parseCreateAccount_inv in Hc as (flows & -> & _).
  - by apply parseContract_inv in Hc as (c & -> & _).
  - apply parseTransfer_inv in Hc as (n & r & s & -> & Hr & Hs & Hn). apply bool_decide_eq_true in Hin as ->.
    by exists n, r, s.
Qed.

(** The arguments of a proxy transfer that carries a signed inner payload. *)
Lemma proxyArgs_inner opts n r s seq sig args :
  length r = 8%nat → length s = 8%nat → 0 ≤ n < 2 ^ 64 → length sig = 64%nat → - 2 ^ 63 ≤ seq < 2 ^ 63 →
  co_ProxyTransferPayload opts =
    hex_encode (innerPayload (transferIntent opProxyTransferInner n r s) seq ++ sig) →
  proxyArgs opts = Ok args →
  ∃ a3 a4, args = [a3; a4] ∧ decodeArg as_Int64 (Some a3) = Ok seq ∧ decodeArg as_String (Some a4) = Ok (hex_encode sig).
Proof.
  intros Hr Hs Hn Hsig Hseq Hpay. unfold proxyArgs. rewrite Hpay.
  set (intent := transferIntent opProxyTransferInner n r s).
  assert (drop 33 (innerPayload intent seq ++ sig) = sig) as Hdrop.
  { rewrite innerPayload_eq, <-!(assoc_L (++)) by done.
    by destruct (inner_fields (be64 (amount intent)) (be64 (u64 seq)) (receiver intent) (sender intent) sig
      (length_be64 _) (length_be64 _) Hr Hs) as (_ & _ & _ & _ & H5' & _). }
  rewrite (decode_inner intent seq sig true) by done. clear Hpay. revert Hdrop.
  generalize (innerPayload intent seq ++ sig). intros enc Hdrop. cbn [in_nonce in_raw].
  unfold reject. destruct (is_empty _); [done|]. rewrite !Ok_bind. cbn [in_nonce in_raw]. rewrite Hdrop, s64_u64, s64_id by done.
  intros Ha. inv_ok. eexists _, _. split; [done|]. by decode_args.
Qed.

Context `{!FlowChain}.


(** ** The options *)

Lemma sequenceNumber_inv md seq :
  sequenceNumber md = Ok seq →
  (md !! "sequence_number" = None ∧ seq = -1) ∨
  (∃ raw, md !! "sequence_number" = Some (AString raw) ∧ parse_decimal raw = Some seq ∧ 0 ≤ seq < 2 ^ 63).
Proof.
  unfold sequenceNumber. destruct (md !! "sequence_number") eqn:Hmd; [|left; by simplify_eq].
  intros Hs. right. inv_steps. simplify_eq.
  match goal with Hp : ParseInt64 _ = Some _ |- _ => pose proof (ParseInt64_range _ _ Hp); unfold ParseInt64 in Hp;
    destruct (parse_decimal _) eqn:Hd in Hp; [|done]; cbn in Hp; destruct (_ && _) in Hp; [|done]; simplify_eq end.
  match goal with Hz : (_ <? 0) = false |- _ => apply Z.ltb_ge in Hz end. eexists. repeat split; try done; lia.
Qed.


(** ** Amounts and payloads that are not checked *)

(** The two amounts of a transfer need not cancel: a sender that loses [a]
    and a receiver that gets [b] are accepted as a transfer of [b], and of [b]
    only the low 64 bits are kept. *)
Theorem transfer_amounts_unchecked s r a b :
  length s = 8%nat → length r = 8%nat → 0 < a → 0 < b →
  parseIntent (Some <$>
    [mkRosettaOperation (Some (hexAddress s)) (Some (mkAmount flowCurrency (String dash (format_int a)))) ∅ 0 [] None opTransfer;
     mkRosettaOperation (Some (hexAddress r)) (Some (mkAmount flowCurrency (format_int b))) ∅ 1 [0] None opTransfer]) =
  Ok (transferIntent opTransfer (u64 b) r s).
Proof.
  intros Hs Hr Ha Hb. eapply parseIntent_intends; [done|by repeat constructor|].
  apply intends_transfer; [done|]. unfold parseTransfer, transferDescriptions.
  rewrite (MatchOperations_complete _ _ _ _ (- a) b); [|done|done|..].
  - cbn [of_option mbind outcome_mbind outcome_bind lookup list_lookup deref fst snd ro_Account].
    rewrite !getAccount_hexAddress by done. done.
  - rewrite (fits_op _ _ _ _ _ _ _ _ (- a)) by (done || apply parse_format_neg; lia). cbn [sign_fits od_Sign].
    by rewrite (proj2 (Z.ltb_lt (- a) 0)) by lia.
  - rewrite (fits_op _ _ _ _ _ _ _ _ b) by (done || apply parse_format; lia). cbn [sign_fits od_Sign].
    by rewrite (proj2 (Z.ltb_lt 0 b)) by lia.
  - rewrite (fits_op _ _ _ _ _ _ _ _ (- a)) by (done || apply parse_format_neg; lia). cbn [sign_fits od_Sign].
    by rewrite (proj2 (Z.ltb_ge 0 (- a))) by lia.
  - rewrite (fits_op _ _ _ _ _ _ _ _ b) by (done || apply parse_format; lia). cbn [sign_fits od_Sign].
    by rewrite (proj2 (Z.ltb_ge b 0)) by lia.
Qed.

(** Requests on which construction panics instead of returning an error: a
    proxy transfer whose payload is a Flow transaction, and combining or hashing
    a transaction without a proposal key. *)
Theorem malformed_transaction_panics sv intent opts enc txn sg :
  unmarshal enc = Some txn →
  (intent = transferIntent opProxyTransfer (amount intent) (receiver intent) (sender intent) →
   co_ProxyTransferPayload opts = flowText enc "" → length (ft_EnvelopeSignatures txn) = 1%nat →
   (∀ v, is_Some (json_Encode v)) → scriptAndArgs sv intent opts = Panic) ∧
  (ft_ProposalKey txn = None → (64 ≤ length (sl_data sg))%nat →
   ConstructionCombine (flowText enc "") [Some sg] = Panic) ∧
  (ft_ProposalKey txn = None → length (ft_EnvelopeSignatures txn) = 1%nat →
   ConstructionHash (flowText enc "") = Panic).
Proof.
  intros Hu. assert (∀ signed, (signed = true → length (ft_EnvelopeSignatures txn) = 1%nat) →
    decodeTransaction (flowText enc "") signed = Ok (inl txn)) as Hdec by (intros; by eapply decode_flowText).
  split; [|split].
  - intros -> Hpay Hlen Henc. unfold scriptAndArgs, transferIntent.
    cbn [keys contractCode proxy receiver sender amount].
    change (negb (is_empty "")) with false. change (bool_decide (opProxyTransfer = opProxyTransfer)) with true.
    cbv iota. unfold encodeArg.
    destruct (Henc (cadence_BytesToAddress (sender intent))) as [? ->].
    destruct (Henc (cadence_BytesToAddress (receiver intent))) as [? ->].
    destruct (Henc (cadence_UFix64 (amount intent))) as [? ->]. cbn [of_option]. rewrite !Ok_bind.
    unfold proxyArgs. rewrite Hpay, (Hdec true) by auto. by rewrite (proj2 (is_empty_false _)).
  - intros Hpk Hsg. unfold ConstructionCombine.
    by rewrite (Hdec false), Ok_bind, reslice_long, Ok_bind, Hpk by done.
  - intros Hpk Hlen. unfold ConstructionHash. rewrite (Hdec true), Ok_bind by auto.
    unfold TransactionHash, deriveHash, payload_of. by rewrite Hpk.
Qed.
End main.

(** ** Concrete runs *)
Module ConstructDemo.
(** Cadence values of the types construction uses, with a JSON-like codec. *)
Inductive cval :=
  | CStr (s : string) | CArr (l : list string) | CBool (b : bool) | CInt (z : Z)
  | CAddr (a : bytes) | CFix (n : Z) | CInt64 (n : Z) | CAddrs (l : list bytes) | CBalances (n : Z).

Definition cval_pack (v : cval) : Z * Z * string * list string * list bytes :=
  match v with
  | CStr s => (0, 0, s, [], [])
  | CArr l => (1, 0, "", l, [])
  | CBool b => (2, if b then 1 else 0, "", [], [])
  | CInt z => (3, z, "", [], [])
  | CAddr a => (4, 0, "", [], [a])
  | CFix n => (5, n, "", [], [])
  | CInt64 n => (6, n, "", [], [])
  | CAddrs l => (7, 0, "", [], l)
  | CBalances n => (8, n, "", [], [])
  end.
Definition cval_unpack (x : Z * Z * string * list string * list bytes) : cval :=
  let '(t, z, s, l, a) := x in
  match t with
  | 0 => CStr s | 1 => CArr l | 2 => CBool (z =? 1) | 3 => CInt z | 4 => CAddr (default [] (head a)) | 5 => CFix z
  | 6 => CInt64 z | 7 => CAddrs a | _ => CBalances z
  end.
#[local] Instance cval_ser : Ser cval.
Proof. apply (ser_iso cval_pack cval_unpack). abstract (by intros [| |[]| | | | | |]). Defined.

#[export] Instance cadence : Cadence := {|
  cadence_Value := cval;
  cadence_Event := unit;
  HasMsgPrefix _ := false;
  ccf_Decode _ := None;
  json_Decode b := fst <$> de b;
  as_Event _ := None;
  as_Address v := match v with CAddr a => Some a | _ => None end;
  as_UFix64 v := match v with CFix n => Some n | _ => None end;
  as_String v := match v with CStr s => Some s | _ => None end;
  as_Optional _ := None;
  zero_Event := tt;
  FieldsMappedByName _ := None;
  SearchFieldByName _ _ := None;
  AccountEventAddressParameter := "address";
  AccountEventPublicKeyIndexParameter := "key";
|}.
#[export] Instance cadence_json : CadenceJSON := {|
  cadence_String s := CStr s;
  cadence_NewArray vs := CArr (omap as_String vs);
  cadence_Bool b := CBool b;
  cadence_NewInt z := CInt z;
  cadence_BytesToAddress a := CAddr a;
  cadence_UFix64 n := CFix n;
  cadence_Int64 n := CInt64 n;
  as_Array v := match v with CArr l => Some (CStr <$> l) | CAddrs l => Some (CAddr <$> l) | _ => None end;
  as_Bool v := match v with CBool b => Some b | _ => None end;
  as_Int v := match v with CInt z => Some z | _ => None end;
  as_Int64 v := match v with CInt64 z => Some z | _ => None end;
  json_Encode v := Some (ser v);
|}.

Lemma decode_ser (v : cval) : fst <$> de (ser v) = Some v.
Proof. rewrite <-(app_nil_r (ser v)), de_ser. done. Qed.

#[export] Instance cadence_json_laws : CadenceJSONLaws.
Proof.
  assert (∀ v b, json_Encode v = Some b → json_Decode b = Some v) as Hd.
  { intros v b Hb. apply (inj Some) in Hb as <-. apply decode_ser. }
  split.
  - intros s b _ Hb%Hd. eauto.
  - intros ss b _ Hb%Hd. eexists _, _. split; [done|]. split; [done|].
    clear Hb. induction ss as [|s ss IH]; [done|]. simpl. f_equal. exact IH.
  - intros x b Hb%Hd. eauto.
  - intros x b Hb%Hd. eauto.
  - intros x b _ Hb%Hd. eauto.
  - intros x b _ Hb%Hd. eauto.
  - intros x b _ Hb%Hd. eauto.
Qed.

(** A parser for two descriptions and two operations, in either order. *)
#[export] Instance parser : Parser := {|
  MatchOperations ds ops :=
    match ds_OperationDescriptions ds, ops with
    | [d1; d2], [o1; o2] =>
        match fits d1 o1, fits d2 o2 with
        | Some z1, Some z2 => Some [(Some o1, Some z1); (Some o2, Some z2)]
        | _, _ =>
            match fits d1 o2, fits d2 o1 with
            | Some z1, Some z2 => Some [(Some o2, Some z1); (Some o1, Some z2)]
            | _, _ => None
            end
        end
    | _, _ => None
    end;
|}.
#[export] Instance parser_laws : ParserLaws.
Proof.
  split.
  - intros [ds ?] ops ms i d. simpl. destruct ds as [|d1 [|d2 [|]]]; try done.
    destruct ops as [|o1 [|o2 [|]]]; try done.
    destruct (fits d1 o1) eqn:H1, (fits d2 o2) eqn:H2, (fits d1 o2) eqn:H3, (fits d2 o1) eqn:H4; try done;
      intros [= <-] Hi _; destruct i as [|[|i]]; simplify_eq/=; eexists _, _; (split; [done|]); split; try done; set_solver.
  - intros d1 d2 o1 o2 z1 z2 _ _ H1 H2 _ _. simpl. by rewrite H1, H2.
Qed.
#[export] Instance gofloat : GoFloat := {| uint32_overflow _ := 0 |}.
#[export] Existing Instances CryptoDemo.secp CryptoDemo.secp_laws.
#[export] Instance sha3 : Sha3 := {| sha3_256 b := b |}.
#[export] Instance rlp_env : RLP flowEnvelope := ser_rlp flowEnvelope.
#[export] Instance rlp_txn : RLP flowTransaction := ser_rlp flowTransaction.
#[export] Instance proto_txn : Proto FlowTransaction := ser_proto FlowTransaction.
#[export] Instance proto_opts : Proto ConstructOpts := ser_proto ConstructOpts.
(** A chain on which a signature is valid when it starts with the key. *)
#[export] Instance chain : FlowChain := {|
  ecdsa_verify key sig digest := has_prefix key sig;
  receives_tokens _ := true;
|}.

Definition scripts : Scripts := mkScripts [x00] [x01] [x02] [x03] [x04] [x05] [x06] [x07] [x08] [x09] [x0a].
Definition sv : Server unit :=
  mkServer (mkContracts "" "" "" "0000000000000000" []) "testnet" [] [] (mkStore tt None None) true false ∅ None scripts.

Definition alice : bytes := [x01; x02; x03; x04; x05; x06; x07; x08].
Definition bob : bytes := [x11; x12; x13; x14; x15; x16; x17; x18].
Definition sig : slice := mkSlice (replicate 65 x22) [].
Definition opts (payload : string) (seq : Z) : ConstructOpts :=
  mkConstructOpts [x99] false "" 30 0 0 100000000 false 0 alice payload seq.
Definition metadata (o : ConstructOpts) : gmap string any := {["protobuf" := AString (hex_encode (ser o))]}.
Definition ops (typ : string) (n : Z) : list (option RosettaOperation) := Some <$> transferOps typ alice bob n.

Lemma distinct : scripts_distinct scripts.
Proof. apply (bool_decide_eq_true_1 _). by vm_compute. Qed.

(** The value of a run that succeeds. *)
Definition from_ok {A} (d : A) (m : api A) : A := match m with Ok a => a | _ => d end.
Lemma from_ok_eq {A} (d : A) (m : api A) : is_Ok m = true → m = Ok (from_ok d m).
Proof. by destruct m. Qed.

Definition payloads (typ : string) (payload : string) (seq n : Z) : PayloadsResponse :=
  from_ok (mkPayloadsResponse [] "") (ConstructionPayloads sv (metadata (opts payload seq)) (ops typ n)).
Definition combined (r : PayloadsResponse) : string :=
  from_ok "" (ConstructionCombine (pr_UnsignedTransaction r) [Some sig]).


(** The nonce of the vault is 6; its key starts the signature. *)
Definition vault : Vault := mkVault 6 100 [x22; x22].
Definition inner_resp : PayloadsResponse := payloads opProxyTransferInner "" 7 5.
Definition outer_resp : PayloadsResponse := payloads opProxyTransfer (combined inner_resp) 0 5.


Definition request_md : gmap string any := {["payer" := AString (hexAddress alice)]}.


(** A sender that loses 5 and a receiver that gets 3. *)
Lemma transfer_amounts_unchecked_witness :
  parseIntent (Some <$>
    [mkRosettaOperation (Some (hexAddress alice)) (Some (mkAmount flowCurrency "-5")) ∅ 0 [] None opTransfer;
     mkRosettaOperation (Some (hexAddress bob)) (Some (mkAmount flowCurrency "3")) ∅ 1 [0] None opTransfer]) =
  Ok (transferIntent opTransfer 3 bob alice).
Proof. by apply (transfer_amounts_unchecked alice bob 5 3). Defined.

(** A transaction with a signature and no proposal key. *)
Definition keyless : FlowTransaction :=
  mkFlowTransaction [] [] [] 0 None alice [] [] [mkTransactionSignature alice 0 []].

Lemma malformed_transaction_panics_witness :
  scriptAndArgs sv (transferIntent opProxyTransfer 5 bob alice) (opts (flowText (ser keyless) "") 0) = Panic ∧
  ConstructionCombine (flowText (ser keyless) "") [Some sig] = Panic ∧
  ConstructionHash (flowText (ser keyless) "") = Panic.
Proof.
  destruct (malformed_transaction_panics sv (transferIntent opProxyTransfer 5 bob alice)
    (opts (flowText (ser keyless) "") 0) (ser keyless) keyless sig) as (H1 & H2 & H3).
  - by vm_compute.
  - split; [apply H1; [done|done|done|by eexists]|]. split; [apply H2|apply H3]; try done. vm_compute. lia.
Defined.
End ConstructDemo.
