(* ===== verification/Access.v ===== *)
(** * The Access API client

    Model of [src/access/access.go]: the requests of the gRPC service, the
    client methods on top of them, the pool of clients and the interceptor for
    rate limits. *)
From S2P Require Import Prelude Bytes Text Model Badger Crypto Convert Config IndexDB Indexer Process Txn Api Construct.
Local Open Scope Z_scope.

(** ** Messages of the service

    Requests and responses of the generated client, with the fields the source
    sets or reads; a message field that may be absent is an [option]. *)
Inductive EventEncodingVersion := JSON_CDC_V0 | CCF_V0.

Inductive request :=
  | GetAccountAtLatestBlock (address : bytes)
  | GetAccountAtBlockHeight (address : bytes) (height : Z)
  | GetBlockByHeight (height : Z) (full : bool)
  | GetBlockByID (id : bytes) (full : bool)
  | GetEventsForBlockIDs (ids : list bytes) (typ : string) (enc : EventEncodingVersion)
  | GetBlockHeaderByHeight (height : Z)
  | GetBlockHeaderByID (id : bytes)
  | GetCollectionByID (id : bytes)
  | ExecuteScriptAtBlockID (arguments : list bytes) (id script : bytes)
  | GetExecutionResultForBlockID (id : bytes)
  | GetLatestBlockHeader (sealed : bool)
  | PingRequest
  | SendTransactionRequest (txn : FlowTransaction)
  | GetTransaction (id : bytes) (enc : EventEncodingVersion)
  | GetTransactionResultByIndex (id : bytes) (index : Z) (enc : EventEncodingVersion)
  | GetTransactionResult (id : bytes) (enc : EventEncodingVersion)
  | GetTransactionResultsByBlockID (id : bytes) (enc : EventEncodingVersion)
  | GetTransactionsByBlockID (id : bytes) (enc : EventEncodingVersion).

Record AccountKey := mkAccountKey {
  ak_Index : Z;
  ak_PublicKey : bytes;
  ak_SignAlgo : Z;
  ak_HashAlgo : Z;
  ak_SequenceNumber : Z;
  ak_Revoked : bool;
}.
Record AccountMsg := mkAccountMsg { ac_Keys : list AccountKey }.
(** a result with the height of its block and its status *)
Record TransactionResultMsg := mkTransactionResultMsg {
  trm_BlockHeight : Z;
  trm_Status : Z;
  trm_Result : TransactionResult;
}.

Definition response (r : request) : Type :=
  match r with
  | GetAccountAtLatestBlock _ | GetAccountAtBlockHeight _ _ => option AccountMsg
  | GetBlockByHeight _ _ | GetBlockByID _ _ => option BlockMsg
  | GetEventsForBlockIDs _ _ _ => list (list Event)
  | GetBlockHeaderByHeight _ | GetBlockHeaderByID _ | GetLatestBlockHeader _ => option BlockHeaderMsg
  | GetCollectionByID _ => option (list bytes)
  | ExecuteScriptAtBlockID _ _ _ => bytes
  | GetExecutionResultForBlockID _ => option ExecutionResultMsg
  | PingRequest => unit
  | SendTransactionRequest _ => bytes
  | GetTransaction _ _ => option FlowTransaction
  | GetTransactionResultByIndex _ _ _ | GetTransactionResult _ _ => TransactionResultMsg
  | GetTransactionResultsByBlockID _ _ => list TransactionResultMsg
  | GetTransactionsByBlockID _ _ => list FlowTransaction
  end.

Definition servicePrefix : string := "/flow.access.AccessAPI/".
Definition method (r : request) : string :=
  servicePrefix +:+
  match r with
  | GetAccountAtLatestBlock _ => "GetAccountAtLatestBlock"
  | GetAccountAtBlockHeight _ _ => "GetAccountAtBlockHeight"
  | GetBlockByHeight _ _ => "GetBlockByHeight"
  | GetBlockByID _ _ => "GetBlockByID"
  | GetEventsForBlockIDs _ _ _ => "GetEventsForBlockIDs"
  | GetBlockHeaderByHeight _ => "GetBlockHeaderByHeight"
  | GetBlockHeaderByID _ => "GetBlockHeaderByID"
  | GetCollectionByID _ => "GetCollectionByID"
  | ExecuteScriptAtBlockID _ _ _ => "ExecuteScriptAtBlockID"
  | GetExecutionResultForBlockID _ => "GetExecutionResultForBlockID"
  | GetLatestBlockHeader _ => "GetLatestBlockHeader"
  | PingRequest => "Ping"
  | SendTransactionRequest _ => "SendTransaction"
  | GetTransaction _ _ => "GetTransaction"
  | GetTransactionResultByIndex _ _ _ => "GetTransactionResultByIndex"
  | GetTransactionResult _ _ => "GetTransactionResult"
  | GetTransactionResultsByBlockID _ _ => "GetTransactionResultsByBlockID"
  | GetTransactionsByBlockID _ _ => "GetTransactionsByBlockID"
  end.

(** ** Calls

    A call changes the state [W] of the outside world, and ends the process when
    a response cannot be encoded for the cache. The first argument is the
    context: whether it asks to bypass the cache. *)
Definition rpc (W A : Type) : Type := W → outcome grpc_err A * W.
Definition invoker (W : Type) : Type := bool → ∀ r : request, rpc W (response r).

(** Below the interceptor for rate limits, a call also reports the trailer of
    the response. *)
Definition trailer : Type := gmap string (list string).
Definition unary (W A : Type) : Type := W → outcome grpc_err A * trailer * W.

Class Network (W : Type) := {
  (** one call over the connection to a server *)
  network_invoke : string → ∀ r : request, unary W (response r);
  (** [rand.Int()] *)
  rand_Int : W → Z * W;
  (** polling the context: the text of [ctx.Err()] once it is done *)
  ctx_Err : W → option string * W;
}.
#[export] Hint Mode Network ! : typeclass_instances.

(** The errors of [fmt.Errorf] have no status. *)
Definition errorf (msg : string) : grpc_err := mkGrpcErr Unknown msg.

(** The rest of a method after a successful call. *)
Definition on_response {W A B} (m : rpc W A) (k : A → outcome grpc_err B) : rpc W B :=
  λ w, let '(r, w) := m w in (r ≫= k, w).

(** ** [InterceptRateLimitUnary]

    A response whose trailer reports no remaining requests is an error,
    whatever it carried. *)
Definition exhausted (md : trailer) : bool :=
  match md !! "x-ratelimit-remaining" with
  | Some (val :: _) => match ParseInt64 val with Some limit => limit <=? 0 | None => false end
  | _ => false
  end.

Definition InterceptRateLimitUnary {W A} (invoke : unary W A) : rpc W A :=
  λ w, let '(r, md, w) := invoke w in
       (match r with
        | Ok _ | Err _ => if exhausted md then Err (mkGrpcErr ResourceExhausted rateLimitText) else r
        | _ => r
        end, w).

(** ** [Pool]

    A random client; the pool must not be empty. *)
Definition Pool_Client {W} `{!Network W} (p : list string) : W → outcome api_err string * W :=
  λ w, let '(n, w) := rand_Int w in
       (if bool_decide (length p = 0%nat) then Panic
        else deref (p !! Z.to_nat (n mod Z.of_nat (length p))), w).

Section client.
Context {W : Type} `{!Cadence, !CadenceJSON}.
Context (invoke : invoker W).

(** ** Client methods *)

Definition Client_Account (skip : bool) (addr : bytes) : rpc W AccountMsg :=
  on_response (invoke skip (GetAccountAtLatestBlock addr)) (λ resp,
    match resp with
    | None => Err (errorf ("access: nil account returned for address " +:+ hex_encode addr))
    | Some acct => Ok acct
    end).

Definition Client_AccountAtHeight (skip : bool) (addr : bytes) (height : Z) : rpc W AccountMsg :=
  on_response (invoke skip (GetAccountAtBlockHeight addr height)) (λ resp,
    match resp with
    | None => Err (errorf ("access: nil account returned for address " +:+ hex_encode addr))
    | Some acct => Ok acct
    end).

Definition Client_BlockByHeight (skip : bool) (height : Z) : rpc W (option BlockMsg) :=
  invoke skip (GetBlockByHeight height true).

Definition Client_BlockByID (skip : bool) (blockID : bytes) : rpc W (option BlockMsg) :=
  invoke skip (GetBlockByID blockID true).

Definition Client_BlockEvents (skip : bool) (blockID : bytes) (typ : string) : rpc W (list Event) :=
  on_response (invoke skip (GetEventsForBlockIDs [blockID] typ CCF_V0)) (λ results,
    match results with
    | [events] => Ok events
    | _ => Err (errorf ("access: got unexpected number of event results: " +:+
                        format_int (Z.of_nat (length results))))
    end).

Definition Client_BlockHeaderByHeight (skip : bool) (height : Z) : rpc W (option BlockHeaderMsg) :=
  invoke skip (GetBlockHeaderByHeight height).

Definition Client_BlockHeaderByID (skip : bool) (blockID : bytes) : rpc W (option BlockHeaderMsg) :=
  invoke skip (GetBlockHeaderByID blockID).

Definition Client_CollectionByID (skip : bool) (id : bytes) : rpc W (option (list bytes)) :=
  invoke skip (GetCollectionByID id).

(** [Execute]: the arguments are encoded one by one, the result is decoded. *)
Definition Client_Execute (skip : bool) (blockID script : bytes) (args : list cadence_Value)
    : rpc W cadence_Value :=
  match mapM json_Encode args with
  | None => λ w, (Err (errorf "access: failed to encode Cadence value for ExecuteScriptAtBlockID"), w)
  | Some cargs =>
      on_response (invoke skip (ExecuteScriptAtBlockID cargs blockID script)) (λ value,
        match json_Decode value with
        | None => Err (errorf "access: failed to decode Cadence value for ExecuteScriptAtBlockID")
        | Some val => Ok val
        end)
  end.

Definition Client_ExecutionResultForBlockID (skip : bool) (blockID : bytes) : rpc W (option ExecutionResultMsg) :=
  invoke skip (GetExecutionResultForBlockID blockID).

Definition Client_LatestBlockHeader (skip : bool) : rpc W (option BlockHeaderMsg) :=
  invoke skip (GetLatestBlockHeader true).

Definition Client_LatestFinalizedBlockHeader (skip : bool) : rpc W (option BlockHeaderMsg) :=
  invoke skip (GetLatestBlockHeader false).

Definition Client_Ping (skip : bool) : rpc W unit := invoke skip PingRequest.

Definition Client_SendTransaction (skip : bool) (txn : FlowTransaction) : rpc W bytes :=
  invoke skip (SendTransactionRequest txn).

Definition Client_Transaction (skip : bool) (hash : bytes) : rpc W (option FlowTransaction) :=
  invoke skip (GetTransaction hash CCF_V0).

Definition Client_TransactionResult (skip : bool) (blockID : bytes) (txnIndex : Z) : rpc W TransactionResultMsg :=
  invoke skip (GetTransactionResultByIndex blockID txnIndex CCF_V0).

Definition Client_TransactionResultByHash (skip : bool) (hash : bytes) : rpc W TransactionResultMsg :=
  on_response (invoke skip (GetTransactionResult hash CCF_V0)) (λ resp,
    if trm_BlockHeight resp =? 0
    then Err (errorf ("access: failed to find transaction result by hash: " +:+ hex_encode hash))
    else Ok resp).

Definition Client_TransactionResultsByBlockID (skip : bool) (blockID : bytes) : rpc W (list TransactionResultMsg) :=
  invoke skip (GetTransactionResultsByBlockID blockID CCF_V0).

Definition Client_TransactionsByBlockID (skip : bool) (blockID : bytes) : rpc W (list FlowTransaction) :=
  invoke skip (GetTransactionsByBlockID blockID CCF_V0).
End client.
