(* ===== verification/ConstructOnline.v ===== *)
(** * Transaction construction, online part

    Model of the two endpoints of [src/api/construction_service.go] that talk to
    access nodes: /construction/metadata completes the options of a transaction
    from the chain, /construction/submit sends a signed transaction. *)
From S2P Require Import Prelude Bytes Text Model Badger Crypto Convert Config IndexDB Indexer Process Txn Api Construct Access.
Local Open Scope Z_scope.

(** ** Handlers that change the world *)

Definition io (W A : Type) : Type := W → api A * W.
#[export] Instance io_mret W : MRet (io W) := λ A a w, (Ok a, w).
#[export] Instance io_mbind W : MBind (io W) := λ A B f m w,
  match m w with
  | (Ok a, w') => f a w'
  | (Err e, w') => (Err e, w')
  | (Fatal, w') => (Fatal, w')
  | (Panic, w') => (Panic, w')
  end.
Definition pureIO {W A} (m : api A) : io W A := λ w, (m, w).

(** A call whose error is handled by the code that follows. *)
Definition try {W A} (m : rpc W A) : io W (A + grpc_err) := λ w,
  match m w with
  | (Ok a, w') => (Ok (inl a), w')
  | (Err e, w') => (Ok (inr e), w')
  | (Fatal, w') => (Fatal, w')
  | (Panic, w') => (Panic, w')
  end.

(** A call whose error is wrapped and returned. *)
Definition call_or {W A} (e : api_err) (m : rpc W A) : io W A :=
  r ← try m; pureIO (match r with inl a => Ok a | inr _ => Err e end).

Lemma io_bind_Ok {W A B} (m : io W A) (f : A → io W B) w b w' :
  (m ≫= f) w = (Ok b, w') ↔ ∃ a w1, m w = (Ok a, w1) ∧ f a w1 = (Ok b, w').
Proof.
  unfold mbind, io_mbind. destruct (m w) as [[a|e| |] w1]; split; try done.
  all: try (intros Hf; by eexists _, _). all: try (by intros (a' & w2 & [= <- <-] & Hf)).
  all: by intros (a' & w2 & [=] & _).
Qed.

Lemma call_or_Ok {W A} e (m : rpc W A) w a w' : call_or e m w = (Ok a, w') → m w = (Ok a, w').
Proof.
  unfold call_or, try, mbind, io_mbind, pureIO. destruct (m w) as [[x|x| |] w1]; intros Hm; by simplify_eq.
Qed.

(** ** Options *)

Definition set_SequenceNumber (n : Z) (o : ConstructOpts) : ConstructOpts :=
  mkConstructOpts (co_BlockHash o) (co_BlockHashFromRemote o) (co_BlockHashRemoteServer o) (co_ExecutionEffort o)
    (co_Fees o) (co_KeyId o) (co_InclusionEffort o) (co_Inner o) (co_NewAccounts o) (co_Payer o)
    (co_ProxyTransferPayload o) n.
Definition set_Fees (n : Z) (o : ConstructOpts) : ConstructOpts :=
  mkConstructOpts (co_BlockHash o) (co_BlockHashFromRemote o) (co_BlockHashRemoteServer o) (co_ExecutionEffort o)
    n (co_KeyId o) (co_InclusionEffort o) (co_Inner o) (co_NewAccounts o) (co_Payer o)
    (co_ProxyTransferPayload o) (co_SequenceNumber o).
Definition set_BlockHash (hash : bytes) (remote : bool) (server : string) (o : ConstructOpts) : ConstructOpts :=
  mkConstructOpts hash remote server (co_ExecutionEffort o)
    (co_Fees o) (co_KeyId o) (co_InclusionEffort o) (co_Inner o) (co_NewAccounts o) (co_Payer o)
    (co_ProxyTransferPayload o) (co_SequenceNumber o).

Record MetadataResponse := mkMetadataResponse { mr_Height : string; mr_Protobuf : string; mr_SuggestedFee : string }.

(** ** The keys of the payer

    The loop that looks for the key and counts the keys in use: the sequence
    number of the key, once found, and the count. *)
Definition keyStep (keyId : Z) (st : option Z * Z) (key : AccountKey) : api (option Z * Z) :=
  let '(seq, count) := st in
  if ak_Index key =? keyId then
    if ak_Revoked key then Err errInvalidKeyID else Ok (Some (ak_SequenceNumber key), count + 1)
  else Ok (seq, if ak_Revoked key then count else count + 1).

(** The sequence number to use; exactly one key must not be revoked. *)
Definition accountSequence (opts : ConstructOpts) (acct : AccountMsg) : api Z :=
  r ← (if co_SequenceNumber opts =? -1 then
         st ← foldM (keyStep (co_KeyId opts)) (None, 0) (ac_Keys acct);
         match st.1 with
         | None => Err errInvalidKeyID
         | Some seq => Ok (seq, st.2)
         end
       else
         Ok (co_SequenceNumber opts,
             Z.of_nat (length (filter (λ k, ak_Revoked k = false) (ac_Keys acct)))));
  _ ← reject (negb (r.2 =? 1)) errInvalidNumberOfAccountKeys;
  Ok r.1.

Section online.
Context {W DB : Type} (client : string → invoker W).
Context `{!Network W, !Cadence, !CadenceJSON, !Sha3}.
Context `{!RLP flowEnvelope, !RLP flowTransaction, !Proto FlowTransaction, !Proto ConstructOpts}.
Context `{!Badger DB, !Proto IndexedBlock, !Proto BlockMeta}.
Implicit Types sv : Server DB.

(** ** /construction/metadata *)

(** The options of an inner transaction: the nonce of the proxy account. *)
Definition innerMetadata sv (inv : invoker W) (hdr : option BlockHeaderMsg) (opts : ConstructOpts)
    : io W ConstructOpts :=
  if co_SequenceNumber opts =? -1 then
    hdr ← pureIO (deref hdr);
    resp ← call_or errFailedAccessAPICall
             (Client_Execute inv false (bh_Id hdr) (scriptGetProxyNonce (sv_scripts sv))
                [cadence_BytesToAddress (co_Payer opts)]);
    nonce ← pureIO (of_option errInternal (as_Int64 resp));
    mret (set_SequenceNumber nonce opts)
  else mret opts.

(** The reference block: the remote one when it is ahead of the index. *)
Definition referenceBlock (server : string) (hdr : BlockHeaderMsg) (latest : BlockMeta) (opts : ConstructOpts)
    : Z * ConstructOpts :=
  if bm_Height latest <? bh_Height hdr then (bh_Height hdr, set_BlockHash (bh_Id hdr) true server opts)
  else (bm_Height latest, set_BlockHash (bm_Hash latest) (co_BlockHashFromRemote opts) (co_BlockHashRemoteServer opts) opts).

Definition flowMetadata sv (server : string) (inv : invoker W) (hdr : option BlockHeaderMsg) (opts : ConstructOpts)
    : io W (Z * ConstructOpts) :=
  l ← pureIO (of_index (Latest (sv_Index sv)));
  hdr ← pureIO (deref hdr);
  latest ← pureIO (deref l.2);
  let '(height, opts) := referenceBlock server hdr latest opts in
  resp ← call_or errFailedAccessAPICall
           (Client_Execute inv false (bh_Id hdr) (scriptComputeFees (sv_scripts sv))
              [cadence_UFix64 (co_InclusionEffort opts); cadence_UFix64 (co_ExecutionEffort opts)]);
  cost ← pureIO (of_option errInternal (as_UFix64 resp));
  let opts := set_Fees (u64 (cost + u64 (co_NewAccounts opts * MinimumAccountBalance))) opts in
  acct ← call_or errInternal (Client_AccountAtHeight inv false (co_Payer opts) height);
  seq ← pureIO (accountSequence opts acct);
  mret (height, set_SequenceNumber seq opts).

Definition ConstructionMetadata sv (options : gmap string any) : io W MetadataResponse :=
  if sv_Offline sv then pureIO (Err errOfflineMode)
  else
    o ← pureIO (getConstructOpts options);
    let opts := o.2 in
    server ← Pool_Client (sv_ConstructionAccessNodes sv);
    let inv := client server in
    hdr ← call_or errInternal (Client_LatestBlockHeader inv false);
    r ← (if co_Inner opts then opts ← innerMetadata sv inv hdr opts; mret (0, opts)
         else flowMetadata sv server inv hdr opts);
    data ← pureIO (of_option errProtobuf (marshal r.2));
    mret (mkMetadataResponse (format_int r.1) (hex_encode data) (format_int (co_Fees r.2))).

(** ** /construction/submit *)

(** The error of a failed submission, by the reason the network gives. *)
Definition submitError (e : grpc_err) : api_err :=
  if IsRateLimited e then errRateLimited
  else if bool_decide (ge_Code e = InvalidArgument) && contains (ge_Error e) "transaction is expired"
  then errTransactionExpired
  else errBroadcastFailed.

Definition ConstructionSubmit sv (signed : string) : io W string :=
  if sv_Offline sv then pureIO (Err errOfflineMode)
  else
    r ← pureIO (decodeTransaction signed true);
    match r with
    | inr _ => pureIO (Err errInvalidTransactionPayload)
    | inl txn =>
        server ← Pool_Client (sv_ConstructionAccessNodes sv);
        let inv := client server in
        _ ← call_or errAccessNodeInaccessible (Client_Ping inv false);
        r ← try (Client_SendTransaction inv false txn);
        match r with
        | inl hash => mret (hex_encode hash)
        | inr err =>
            (* the hash is only for the message; deriving it may panic *)
            pureIO (match TransactionHash txn with
                    | Panic => Panic
                    | Fatal => Fatal
                    | _ => Err (submitError err)
                    end)
        end
    end.
End online.
