(* ===== verification/ConstructOnlineMain.v ===== *)
(** * Correctness of the online construction endpoints

    What /construction/metadata adds to the options of a transaction, and what
    /construction/submit sends to the network. *)
From S2P Require Import Prelude Bytes Text Model Badger Crypto Convert Config IndexDB Indexer Process Txn Api Construct ConstructProofs ColdStorage ConstructMain Access ConstructOnline.
Local Open Scope Z_scope.

(** ** The keys of an account *)

Definition live (keys : list AccountKey) : list AccountKey := filter (λ k, ak_Revoked k = false) keys.

Lemma live_snoc keys k : live (keys ++ [k]) = live keys ++ (if ak_Revoked k then [] else [k]).
Proof. unfold live. rewrite filter_app. f_equal. rewrite filter_cons, filter_nil. by destruct (ak_Revoked k). Qed.

(** After the loop: the count is that of the live keys, and a sequence number
    found is that of a live key with the index asked for. *)
Lemma keyStep_loop keyId keys st :
  foldM (keyStep keyId) (None, 0) keys = Ok st →
  st.2 = Z.of_nat (length (live keys)) ∧
  (∀ seq, st.1 = Some seq → ∃ k, k ∈ live keys ∧ ak_Index k = keyId ∧ ak_SequenceNumber k = seq).
Proof.
  apply (foldM_inv_prefix _ (λ pre (st : option Z * Z), st.2 = Z.of_nat (length (live pre)) ∧
    (∀ seq, st.1 = Some seq → ∃ k, k ∈ live pre ∧ ak_Index k = keyId ∧ ak_SequenceNumber k = seq))); [|done].
  intros pre k post [s c] st' _ [Hc Hs] Hstep. simpl in Hc, Hs. rewrite live_snoc, length_app. revert Hstep.
  unfold keyStep. destruct (Z.eqb_spec (ak_Index k) keyId) as [Hi|]; destruct (ak_Revoked k) eqn:Hr;
    intros Hst; simplify_eq/=; (split; [lia|]); intros seq Hseq; simplify_eq.
  - exists k. set_solver.
  - destruct (Hs _ eq_refl) as (k' & ? & ?). exists k'. set_solver.
  - destruct (Hs _ eq_refl) as (k' & ? & ?). exists k'. set_solver.
Qed.

(** The one live key; its sequence number is used unless the request gave one. *)
Lemma accountSequence_inv opts acct seq :
  accountSequence opts acct = Ok seq →
  ∃ k, live (ac_Keys acct) = [k] ∧
    (co_SequenceNumber opts = -1 → ak_Index k = co_KeyId opts ∧ seq = ak_SequenceNumber k) ∧
    (co_SequenceNumber opts ≠ -1 → seq = co_SequenceNumber opts).
Proof.
  unfold accountSequence. intros Ha. destruct (Z.eqb_spec (co_SequenceNumber opts) (-1)) as [Hm|Hm].
  - inv_steps. destruct (keyStep_loop _ _ _ ltac:(eassumption)) as [Hc Hs]. repeat case_match; simplify_eq/=.
    match goal with Hx : negb _ = false |- _ => apply negb_false_iff, Z.eqb_eq in Hx end.
    destruct (Hs _ eq_refl) as (k & Hk & Hi & <-).
    destruct (live (ac_Keys acct)) as [|k' [|]]; simplify_eq/=; try lia.
    exists k'. apply list_elem_of_singleton in Hk as ->. done.
  - inv_steps. match goal with Hx : negb _ = false |- _ => apply negb_false_iff, Z.eqb_eq in Hx; simpl in Hx end.
    fold (live (ac_Keys acct)) in *.
    destruct (live (ac_Keys acct)) as [|k [|]]; simplify_eq/=; try lia. by exists k.
Qed.

Lemma of_index_Ok {A} (m : outcome err A) a : of_index m = Ok a → m = Ok a.
Proof. destruct m as [|[]| |]; intros Hm; by simplify_eq/=. Qed.

(** Peels the steps of a successful handler. *)
Ltac inv_io :=
  repeat match goal with
  | H : (_ ≫= _) _ = (Ok _, _) |- _ =>
      let x := fresh "x" in let w := fresh "w" in let Hx := fresh "Hx" in
      apply io_bind_Ok in H as (x & w & Hx & H)
  | H : pureIO _ _ = (Ok _, _) |- _ => unfold pureIO in H; apply pair_equal_spec in H as [H <-]
  | H : mret _ _ = (Ok _, _) |- _ => unfold mret, io_mret in H; apply pair_equal_spec in H as [H <-]
  | H : call_or _ _ _ = (Ok _, _) |- _ => apply call_or_Ok in H
  end; inv_steps.

Lemma Pool_Client_inv {W} `{!Network W} (p : list string) (w : W) server w' : Pool_Client p w = (Ok server, w') → server ∈ p.
Proof.
  unfold Pool_Client. destruct (rand_Int w) as [n w1]. case_bool_decide; [done|].
  destruct (p !! _) as [s|] eqn:Hs; intros Hp; simplify_eq/=. by eapply list_elem_of_lookup_2.
Qed.

Section main.
Context {W DB : Type} (client : string → invoker W).
Context `{!Network W, CadenceJSONLaws, ParserLaws, !GoFloat, Secp256k1Laws, !Sha3}.
Context `{!RLP flowEnvelope, !RLP flowTransaction, !Proto FlowTransaction, !Proto ConstructOpts}.
Context `{!Badger DB, !Proto IndexedBlock, !Proto BlockMeta}.
Implicit Types sv : Server DB.

(** ** /construction/metadata *)

(** What the options keep of the request. *)
Definition same_request (o o' : ConstructOpts) : Prop :=
  co_Payer o' = co_Payer o ∧ co_KeyId o' = co_KeyId o ∧ co_Inner o' = co_Inner o ∧
  co_InclusionEffort o' = co_InclusionEffort o ∧ co_ExecutionEffort o' = co_ExecutionEffort o ∧
  co_NewAccounts o' = co_NewAccounts o ∧ co_ProxyTransferPayload o' = co_ProxyTransferPayload o ∧
  (co_SequenceNumber o ≠ -1 → co_SequenceNumber o' = co_SequenceNumber o).

(** The reference block of a transaction: the higher one of the sealed block of
    the network and the last block of the index. *)
Definition reference (hdr : BlockHeaderMsg) (latest : BlockMeta) (height : Z) (hash : bytes) : Prop :=
  height = Z.max (bh_Height hdr) (bm_Height latest) ∧
  (height = bm_Height latest ∧ hash = bm_Hash latest ∨
   bm_Height latest < height ∧ height = bh_Height hdr ∧ hash = bh_Id hdr).

Lemma referenceBlock_inv server hdr latest opts height o :
  referenceBlock server hdr latest opts = (height, o) →
  reference hdr latest height (co_BlockHash o) ∧ same_request opts o ∧
  co_SequenceNumber o = co_SequenceNumber opts.
Proof.
  unfold referenceBlock, reference, same_request.
  destruct (Z.ltb_spec (bm_Height latest) (bh_Height hdr)) as [Hl|Hl]; intros [= <- <-]; simpl.
  - split; [split; [lia|right; auto]|auto 10].
  - split; [split; [lia|left; auto]|auto 10].
Qed.

(** The options [o'] of a transaction that the chain completes from [o]: the
    reference block, the fee that the fee script computes plus the deposits for
    new accounts, and the sequence number of the payer's only live key. *)
Definition completed sv (server : string) (hdr : option BlockHeaderMsg) (o : ConstructOpts) (w : W)
    (height : Z) (o' : ConstructOpts) (w' : W) : Prop :=
  ∃ h latest ix w1 v cost acct k, hdr = Some h ∧ Latest (sv_Index sv) = Ok (ix, Some latest) ∧
    reference h latest height (co_BlockHash o') ∧
    Client_Execute (client server) false (bh_Id h) (scriptComputeFees (sv_scripts sv))
      [cadence_UFix64 (co_InclusionEffort o); cadence_UFix64 (co_ExecutionEffort o)] w = (Ok v, w1) ∧
    as_UFix64 v = Some cost ∧ co_Fees o' = u64 (cost + u64 (co_NewAccounts o * MinimumAccountBalance)) ∧
    Client_AccountAtHeight (client server) false (co_Payer o) height w1 = (Ok acct, w') ∧
    live (ac_Keys acct) = [k] ∧
    (co_SequenceNumber o = -1 → ak_Index k = co_KeyId o ∧ co_SequenceNumber o' = ak_SequenceNumber k).

Lemma flowMetadata_inv sv server hdr opts height opts' w w' :
  flowMetadata sv server (client server) hdr opts w = (Ok (height, opts'), w') →
  same_request opts opts' ∧ completed sv server hdr opts w height opts' w'.
Proof.
  unfold flowMetadata. intros Hf. inv_io.
  destruct (referenceBlock _ _ _ _) as [height0 o] eqn:Href.
  apply referenceBlock_inv in Href as (Href & Hsame & Hseq). inv_io.
  match goal with Ha : accountSequence _ _ = Ok _ |- _ => apply accountSequence_inv in Ha as (k & Hk & Hm & Hgiven) end.
  simpl in Hm, Hgiven. rewrite Hseq in Hm, Hgiven.
  destruct Hsame as (HP & HK & HI & HE & HX & HN & HT & _).
  match goal with Ho : of_index _ = Ok ?l |- _ => apply of_index_Ok in Ho; destruct l as [ix o2] end.
  simplify_eq/=. rewrite HP, HK, HE, HX, HN in *. split.
  { unfold same_request. simpl. auto 10. }
  unfold completed. simpl. eauto 20.
Qed.

Lemma innerMetadata_inv sv server hdr opts opts' w w' :
  innerMetadata sv (client server) hdr opts w = (Ok opts', w') →
  same_request opts opts' ∧ co_BlockHash opts' = co_BlockHash opts ∧ co_Fees opts' = co_Fees opts ∧
  (co_SequenceNumber opts = -1 → ∃ h v, hdr = Some h ∧
    Client_Execute (client server) false (bh_Id h) (scriptGetProxyNonce (sv_scripts sv))
      [cadence_BytesToAddress (co_Payer opts)] w = (Ok v, w') ∧ as_Int64 v = Some (co_SequenceNumber opts')).
Proof.
  unfold innerMetadata, same_request. destruct (Z.eqb_spec (co_SequenceNumber opts) (-1)); intros Hi; inv_io; simpl.
  - repeat split; try done. intros _. eauto.
  - repeat split; done.
Qed.

(** C26: A successful /construction/metadata request answers with options that
    /construction/payloads reads back and that keep everything the request
    fixed. For an inner transaction they only gain the proxy account's nonce
    from the chain; otherwise they gain the higher of the network's sealed block
    and the last indexed block as reference block, the computed fee plus the
    minimum balance of each new account, and, unless the request gave one, the
    sequence number of the payer's only key in use, which must be the requested
    one. The answer shows the same height and fee. *)
Theorem metadata_completes_options sv options raw opts r w w' :
  getConstructOpts options = Ok (raw, opts) →
  ConstructionMetadata client sv options w = (Ok r, w') →
  ∃ server height opts' hdr w0 w1, server ∈ sv_ConstructionAccessNodes sv ∧
    Client_LatestBlockHeader (client server) false w0 = (Ok hdr, w1) ∧
    getConstructOpts {["protobuf" := AString (mr_Protobuf r)]} = Ok (mr_Protobuf r, opts') ∧
    same_request opts opts' ∧
    mr_Height r = format_int height ∧ mr_SuggestedFee r = format_int (co_Fees opts') ∧
    (if co_Inner opts then
       height = 0 ∧ co_BlockHash opts' = co_BlockHash opts ∧ co_Fees opts' = co_Fees opts ∧
       (co_SequenceNumber opts = -1 → ∃ h v, hdr = Some h ∧
         Client_Execute (client server) false (bh_Id h) (scriptGetProxyNonce (sv_scripts sv))
           [cadence_BytesToAddress (co_Payer opts)] w1 = (Ok v, w') ∧ as_Int64 v = Some (co_SequenceNumber opts'))
     else completed sv server hdr opts w1 height opts' w').
Proof.
  intros Ho. unfold ConstructionMetadata. destruct (sv_Offline sv); [done|]. intros Hm.
  inv_io. rewrite Ho in *. simplify_eq/=.
  match goal with Hp : Pool_Client _ _ = _, Hm : marshal ?y.2 = Some _ |- _ =>
    apply Pool_Client_inv in Hp as Hin; pose proof (getConstructOpts_marshal _ _ Hm) as Hback; destruct y as [height o'] end.
  destruct (co_Inner opts) eqn:Hinner.
  - inv_io. simplify_eq/=.
    match goal with Hi : innerMetadata _ _ _ _ _ = _ |- _ => apply innerMetadata_inv in Hi as (Hs & Hb & Hf & Hn) end.
    eexists _, 0, o', _, _, _. do 5 (split; [done|]). auto.
  - match goal with Hi : flowMetadata _ _ _ _ _ _ = _ |- _ => apply flowMetadata_inv in Hi as [Hs Hc] end.
    eexists _, _, _, _, _, _. do 6 (split; [done|]). done.
Qed.

(** ** /construction/submit

    The calls of a run, recorded in order. *)
Definition logged (server : string) : invoker (list request * W) :=
  λ skip r s, let '(x, w) := client server skip r s.2 in (x, (s.1 ++ [r], w)).
#[local] Instance logged_network : Network (list request * W) := {|
  network_invoke server r s := let '(x, md, w) := network_invoke server r s.2 in (x, md, (s.1 ++ [r], w));
  rand_Int s := let '(n, w) := rand_Int s.2 in (n, (s.1, w));
  ctx_Err s := let '(e, w) := ctx_Err s.2 in (e, (s.1, w));
|}.

Lemma Pool_Client_logged (p : list string) s r s' : Pool_Client p s = (r, s') → s'.1 = s.1.
Proof. unfold Pool_Client. simpl. destruct (rand_Int s.2) as [n w]. by intros [= _ <-]. Qed.

(** A script is executed by one call. *)
Lemma Client_Execute_logged server id script args s v s' :
  Client_Execute (logged server) false id script args s = (Ok v, s') →
  ∃ cargs, mapM json_Encode args = Some cargs ∧ s'.1 = s.1 ++ [ExecuteScriptAtBlockID cargs id script] ∧
    Client_Execute (client server) false id script args s.2 = (Ok v, s'.2).
Proof.
  unfold Client_Execute. destruct (mapM json_Encode args) as [cargs|]; [|done]. unfold on_response, logged.
  destruct (client server false _ s.2) as [x w]. intros [= Hx <-]. exists cargs. simpl. by rewrite Hx.
Qed.

(** A transaction that can be sent: the ping, the transaction, the answer. *)
Lemma submit_run sv signed txn w res l w' :
  sv_Offline sv = false → decodeTransaction signed true = Ok (inl txn) →
  ConstructionSubmit logged sv signed ([], w) = (res, (l, w')) →
  (l `prefix_of` [PingRequest] ∧ ∀ h, res ≠ Ok h) ∨
  (l = [PingRequest; SendTransactionRequest txn] ∧
   ∃ server w1, server ∈ sv_ConstructionAccessNodes sv ∧
     match client server false (SendTransactionRequest txn) w1 with
     | (Ok hash, w2) => res = Ok (hex_encode hash) ∧ w' = w2
     | (Err e, w2) => (∀ h, TransactionHash txn = Ok h → res = Err (submitError e)) ∧ (∀ h, res ≠ Ok h)
     | _ => ∀ h, res ≠ Ok h
     end).
Proof.
  intros Hoff Hdec. unfold ConstructionSubmit. rewrite Hoff, Hdec. unfold mbind at 1, io_mbind at 1, pureIO at 1.
  unfold mbind at 1, io_mbind at 1. destruct (Pool_Client _ _) as [rs [l1 w1]] eqn:Hp.
  assert (l1 = []) as -> by exact (Pool_Client_logged _ _ _ _ Hp).
  destruct rs as [server|e| |]; [|intros [= <- <- <-]; left; (split; [apply prefix_nil|done])..].
  apply Pool_Client_inv in Hp. unfold mbind, io_mbind, call_or, try, mbind, io_mbind, pureIO, Client_Ping, logged at 1.
  simpl. destruct (client server false PingRequest w1) as [[u|e| |] w2];
    [|intros [= <- <- <-]; left; done..].
  unfold Client_SendTransaction, logged, mret, io_mret. simpl.
  destruct (client server false (SendTransactionRequest txn) w2) as [r w3] eqn:Hsend.
  intros Hres. right. assert (l = [PingRequest; SendTransactionRequest txn]) as -> by (by destruct r; simplify_eq/=).
  split; [done|]. exists server, w2. split; [done|]. rewrite Hsend.
  destruct r as [hash|e| |]; simplify_eq/=; try done.
  split; [intros h Hh; by rewrite Hh|]. by destruct (TransactionHash txn).
Qed.

(** C7: A transaction built by /payloads and signed by /combine: /submit sends
    nothing but a ping and that transaction, to one of the configured nodes. The
    bytes the payer was asked to sign are its envelope hash and its only envelope
    signature is the given one, under the payer, key, sequence number and
    reference block of the options. The answer is the hash the node reports, and
    a node's refusal is returned as the error of its reason. *)
Theorem submitted_transaction_is_signed sv md ops raw opts intent resp sg signed w res l w' :
  getConstructOpts md = Ok (raw, opts) → parseIntent ops = Ok intent → inner intent = false →
  ConstructionPayloads sv md ops = Ok resp → (64 ≤ length (sl_data sg))%nat →
  ConstructionCombine (pr_UnsignedTransaction resp) [Some sg] = Ok signed →
  sv_Offline sv = false → ConstructionSubmit logged sv signed ([], w) = (res, (l, w')) →
  ∃ txn hash, TransactionEnvelopeHash txn = Ok hash ∧
    pr_Payloads resp = [mkSigningPayload (hexAddress (co_Payer opts)) hash ecdsa] ∧
    ft_Payer txn = co_Payer opts ∧ ft_Authorizers txn = [co_Payer opts] ∧
    ft_ReferenceBlockId txn = co_BlockHash opts ∧
    ft_ProposalKey txn = Some (mkProposalKey (co_Payer opts) (co_KeyId opts) (u64 (co_SequenceNumber opts))) ∧
    ft_EnvelopeSignatures txn =
      [mkTransactionSignature (co_Payer opts) (co_KeyId opts) (take 64 (sl_data sg))] ∧
    ((l `prefix_of` [PingRequest] ∧ ∀ h, res ≠ Ok h) ∨
     (l = [PingRequest; SendTransactionRequest txn] ∧
      ∃ server w1, server ∈ sv_ConstructionAccessNodes sv ∧
        match client server false (SendTransactionRequest txn) w1 with
        | (Ok id, w2) => res = Ok (hex_encode id) ∧ w' = w2
        | (Err e, w2) => (∀ h, TransactionHash txn = Ok h → res = Err (submitError e)) ∧ (∀ h, res ≠ Ok h)
        | _ => ∀ h, res ≠ Ok h
        end)).
Proof.
  intros Ho Hi Hin Hp Hsg Hc Hoff Hs.
  destruct (combined_transaction sv md ops raw opts intent resp sg signed)
    as (txn & hash & Hdec & Hh & Hpay & Hp1 & Hp2 & Hp3 & Hp4 & Hsig & _); [done..|].
  exists txn, hash. do 7 (split; [done|]). by eapply submit_run.
Qed.

(** Offline, /metadata and /submit answer errOfflineMode and make no call;
    /submit makes none either for an inner transaction or for a text that does
    not decode as a signed transaction. *)
Lemma online_endpoints_refuse sv options signed w :
  (sv_Offline sv = true →
   ConstructionMetadata client sv options w = (Err errOfflineMode, w) ∧
   ConstructionSubmit client sv signed w = (Err errOfflineMode, w)) ∧
  (sv_Offline sv = false → ∀ itxn, decodeTransaction signed true = Ok (inr itxn) →
   ConstructionSubmit client sv signed w = (Err errInvalidTransactionPayload, w)) ∧
  (sv_Offline sv = false → ∀ e, decodeTransaction signed true = Err e →
   ConstructionSubmit client sv signed w = (Err e, w)).
Proof.
  unfold ConstructionMetadata, ConstructionSubmit, mbind, io_mbind, pureIO. split; [|split].
  - by intros ->.
  - by intros -> itxn ->.
  - by intros -> e ->.
Qed.
End main.

(** ** Concrete runs

    A network at height 20 whose account of the payer has a revoked key and a
    key in use. *)
Module OnlineDemo.
Import ConstructDemo.
#[local] Existing Instances gmap_badger logged_network.
#[local] Instance proto_meta : Proto BlockMeta := ser_proto BlockMeta.
#[local] Instance proto_block : Proto IndexedBlock := ser_proto IndexedBlock.
Definition header : BlockHeaderMsg := mkBlockHeaderMsg [] 20 [] 0 0 [] [] [] [] [] None 0 [xab].
Definition key (index seq : Z) (revoked : bool) : AccountKey := mkAccountKey index [] 0 0 seq revoked.
#[local] Instance net : Network nat := {|
  network_invoke _ r w := (Err (errorf "unused"), ∅, w);
  rand_Int w := (5, w);
  ctx_Err w := (None, w);
|}.
Definition client (server : string) : invoker nat := λ skip r,
  match r return rpc nat (response r) with
  | GetLatestBlockHeader _ => λ w, (Ok (Some header), S w)
  | ExecuteScriptAtBlockID _ _ _ => λ w, (Ok (default [] (json_Encode (cadence_UFix64 1000))), S w)
  | GetAccountAtBlockHeight _ _ => λ w, (Ok (Some (mkAccountMsg [key 0 3 true; key 1 7 false])), S w)
  | PingRequest => λ w, (Ok tt, S w)
  | SendTransactionRequest _ => λ w, (Ok [x42], S w)
  | _ => λ w, (Err (errorf "unavailable"), S w)
  end.
Definition sv : Server (gmap bytes bytes) :=
  mkServer (mkContracts "" "" "" "0000000000000000" []) "testnet" ["a"; "b"] [] 
    (mkStore ∅ None (Some (mkBlockMeta [xcd] 12 [] 0))) true false ∅ None scripts.

Definition o : ConstructOpts := mkConstructOpts [] false "" 30 0 1 100000000 false 2 alice "" (-1).
Definition answer : MetadataResponse :=
  from_ok (mkMetadataResponse "" "" "") (ConstructionMetadata client sv (metadata o) 0%nat).1.

Lemma metadata_completes_options_witness :
  ∃ opts', getConstructOpts {["protobuf" := AString (mr_Protobuf answer)]} = Ok (mr_Protobuf answer, opts') ∧
    co_Payer opts' = alice ∧ mr_SuggestedFee answer = "201000".
Proof.
  destruct (metadata_completes_options client sv (metadata o) (hex_encode (ser o)) o answer 0%nat
    (ConstructionMetadata client sv (metadata o) 0%nat).2)
    as (server & height & opts' & hdr & w0 & w1 & _ & _ & Hback & (Hpayer & _) & _).
  - by vm_compute.
  - apply injective_projections; [apply from_ok_eq; by vm_compute|done].
  - exists opts'. split; [exact Hback|]. split; [exact Hpayer|]. by vm_compute.
Defined.

Definition resp : PayloadsResponse :=
  from_ok (mkPayloadsResponse [] "") (ConstructionPayloads sv (metadata (opts "" 7)) (ops opTransfer 5)).

Lemma submitted_transaction_is_signed_witness :
  ∃ txn hash, TransactionEnvelopeHash txn = Ok hash ∧
    pr_Payloads resp = [mkSigningPayload (hexAddress alice) hash ecdsa] ∧
    (ConstructionSubmit (logged client) sv (combined resp) ([], 0%nat)).1 = Ok "42".
Proof.
  destruct (submitted_transaction_is_signed client sv (metadata (opts "" 7)) (ops opTransfer 5)
    (hex_encode (ser (opts "" 7))) (opts "" 7) (transferIntent opTransfer 5 bob alice) resp sig (combined resp) 0%nat
    (ConstructionSubmit (logged client) sv (combined resp) ([], 0%nat)).1
    (ConstructionSubmit (logged client) sv (combined resp) ([], 0%nat)).2.1
    (ConstructionSubmit (logged client) sv (combined resp) ([], 0%nat)).2.2) as (txn & hash & Hh & Hp & _).
  - by vm_compute.
  - by vm_compute.
  - done.
  - apply from_ok_eq. by vm_compute.
  - vm_compute. lia.
  - apply from_ok_eq. by vm_compute.
  - done.
  - by rewrite <-!surjective_pairing.
  - exists txn, hash. split; [exact Hh|]. split; [exact Hp|]. by vm_compute.
Defined.
End OnlineDemo.
