(* ===== verification/Cache.v ===== *)
(** * The response cache

    Model of [src/cache/cache.go]: the interceptor that keeps the responses of
    idempotent Access API calls in a Badger store, and how
    [src/access/access.go] chains it with the interceptor for rate limits. *)
From S2P Require Import Prelude Bytes Text Model Badger Crypto Convert Config IndexDB Indexer Process Txn Api Construct Access.
Local Open Scope Z_scope.

(** ** Libraries

    BLAKE3 with a 32-byte digest, of the bytes written to the hasher. *)
Class Blake3 := { blake3 : bytes → bytes }.
Definition blake3_collision `{Blake3} : Prop := ∃ a b, a ≠ b ∧ blake3 a = blake3 b.

(** The protobuf encodings of the service's messages. *)
Class Wire := {
  marshal_request : request → option bytes;
  marshal_response : ∀ r, response r → option bytes;
  unmarshal_response : ∀ r, bytes → option (response r);
}.

(** Decoding gives back what was encoded; the encoding determines a request of a
    given method; and it starts with the tag of a field whose number is below
    eight, which is smaller than any letter. *)
Class WireLaws `{Wire} := {
  unmarshal_marshal_response : ∀ r x b,
    marshal_response r x = Some b → unmarshal_response r b = Some x;
  marshal_request_inj : ∀ r r' b,
    method r = method r' → marshal_request r = Some b → marshal_request r' = Some b → r = r';
  marshal_request_tag : ∀ r c b, marshal_request r = Some (c :: b) → byte_Z c < 64;
}.

Definition nonIdempotent (m : string) : bool :=
  bool_decide (m ∈ [servicePrefix +:+ "GetAccountAtLatestBlock"; servicePrefix +:+ "GetLatestBlockHeader";
                    servicePrefix +:+ "Ping"; servicePrefix +:+ "SendTransaction"]).

Section cache.
Context {W DB : Type} `{!Badger DB, !Network W, !Blake3, !Wire}.

Definition getHash (m : string) (message : bytes) : bytes :=
  blake3 (String.list_byte_of_string m ++ message).

(** A call that leaves the store alone. *)
Definition pass_through {A} (m : unary W A) : unary (DB * W) A :=
  λ '(d, w), let '(r, md, w) := m w in (r, md, (d, w)).

(** [db.View] with a decode of the value; [None] is any error. *)
Definition Lookup (d : DB) (hash : bytes) (r : request) : option (response r) :=
  match txn_get d hash with
  | Ok val => unmarshal_response r val
  | _ => None
  end.

(** [db.Update]; an error is logged and leaves the store as it was. *)
Definition store_value (d : DB) (hash val : bytes) : DB :=
  let d' := db_set d hash val in
  match db_commit_err d d' with None => d' | Some _ => d end.

(** The end of a call that goes to the network: a successful response is
    encoded, which ends the process if it fails, and stored unless the context
    is done by then. *)
Definition invoke_and_store (hash : bytes) (r : request) (m : unary W (response r)) : unary (DB * W) (response r) :=
  λ '(d, w),
    match m w with
    | (Ok res, md, w) =>
        match marshal_response r res with
        | None => (Fatal, md, (d, w))
        | Some val =>
            let '(cancelled, w) := ctx_Err w in
            match cancelled with
            | Some msg => (Err (errorf msg), md, (d, w))
            | None => (Ok res, md, (store_value d hash val, w))
            end
        end
    | (res, md, w) => (res, md, (d, w))
    end.

Definition InterceptUnary (skip : bool) (r : request) (m : unary W (response r)) : unary (DB * W) (response r) :=
  if nonIdempotent (method r) then pass_through m
  else if skip then pass_through m
  else
    match marshal_request r with
    | None => pass_through m
    | Some enc =>
        let hash := getHash (method r) enc in
        λ '(d, w),
          let '(cancelled, w) := ctx_Err w in
          match cancelled with
          | Some msg => (Err (errorf msg), ∅, (d, w))
          | None =>
              match Lookup d hash r with
              | Some res => (Ok res, ∅, (d, w))
              | None => invoke_and_store hash r m (d, w)
              end
          end
    end.

(** The interceptors as [access.New] chains them, with and without a cache. *)
Definition cached_invoke (server : string) : invoker (DB * W) :=
  λ skip r, InterceptRateLimitUnary (InterceptUnary skip r (network_invoke server r)).
Definition direct_invoke (server : string) : invoker W :=
  λ skip r, InterceptRateLimitUnary (network_invoke server r).

Definition DropAll (empty : DB) (s : DB * W) : DB * W := (empty, s.2).
End cache.
