(* ===== verification/CacheMain.v ===== *)
(** * The promises of the cache

    A response from the cache is one the network gave to the same request, and
    a response that was stored is served without asking the network again. *)
From S2P Require Import Prelude Bytes Text Model Badger Crypto Convert Config IndexDB Indexer Process Txn Api Construct Access Cache.
Local Open Scope Z_scope.

(** ** Keys

    The key of a request joins the method and the message without a separator;
    no two requests share one all the same. *)
Lemma list_byte_append a b :
  String.list_byte_of_string (a +:+ b) = String.list_byte_of_string a ++ String.list_byte_of_string b.
Proof.
  induction a as [|c a IH]; [done|].
  change (String.list_byte_of_string (String c a +:+ b)) with
    (Ascii.byte_of_ascii c :: String.list_byte_of_string (a +:+ b)). by rewrite IH.
Qed.

#[export] Instance list_byte_of_string_inj : Inj eq eq String.list_byte_of_string.
Proof. intros a b Hab. by rewrite <-(String.string_of_list_byte_of_string a), Hab, String.string_of_list_byte_of_string. Qed.

Lemma method_letters r :
  ∃ name, method r = servicePrefix +:+ name ∧ Forall (λ c, 64 ≤ byte_Z c) (String.list_byte_of_string name).
Proof.
  destruct r; (eexists; split; [reflexivity|]); apply (bool_decide_eq_true_1 _); by vm_compute.
Qed.

Section keys.
Context `{WireLaws}.

(** A method that extends another cannot be told from it by the first byte of a
    message. *)
Lemma key_no_extension r r' b b' k :
  marshal_request r' = Some b' →
  String.list_byte_of_string (method r) = String.list_byte_of_string (method r') ++ k → b' = k ++ b → k = [].
Proof.
  intros Hb' Hm ->. destruct k as [|c k]; [done|]. exfalso.
  apply marshal_request_tag in Hb'.
  destruct (method_letters r) as (n & Hn & Hl), (method_letters r') as (n' & Hn' & _).
  rewrite Hn, Hn', !list_byte_append, <-(assoc_L (++)) in Hm. apply app_inv_head in Hm.
  rewrite Hm in Hl. apply Forall_app in Hl as [_ Hl]. apply Forall_cons in Hl as [Hc _]. lia.
Qed.

Lemma request_key_inj r r' b b' :
  marshal_request r = Some b → marshal_request r' = Some b' →
  String.list_byte_of_string (method r) ++ b = String.list_byte_of_string (method r') ++ b' → r = r'.
Proof.
  intros Hb Hb' Heq.
  assert (String.list_byte_of_string (method r) = String.list_byte_of_string (method r')) as Hm.
  { apply app_eq_inv in Heq as [(k & Hm & Hk)|(k & Hm & Hk)].
    - by rewrite (key_no_extension r r' b b' k Hb' Hm Hk), app_nil_r in Hm.
    - by rewrite (key_no_extension r' r b' b k Hb Hm Hk), app_nil_r in Hm. }
  rewrite Hm in Heq. apply app_inv_head in Heq as ->. apply (inj _) in Hm.
  by eapply marshal_request_inj.
Qed.

(** Requests with one key are the same, unless BLAKE3 collides. *)
Lemma getHash_inj `{!Blake3} r r' b b' :
  marshal_request r = Some b → marshal_request r' = Some b' →
  getHash (method r) b = getHash (method r') b' → r = r' ∨ blake3_collision.
Proof.
  intros Hb Hb' Hh. unfold getHash in Hh.
  destruct (decide (String.list_byte_of_string (method r) ++ b = String.list_byte_of_string (method r') ++ b'))
    as [Heq|Hne]; [left; by eapply request_key_inj|]. right. by eexists _, _.
Qed.
End keys.

Section main.
Context {W DB : Type} `{BadgerLaws DB, !Network W, !Blake3, WireLaws}.
Implicit Types (w : W) (d : DB) (s : DB * W).

(** The states the store and the world go through: a call of any goroutine, or
    anything else that happens outside. *)
Inductive cache_step : DB * W → DB * W → Prop :=
  | cache_call server skip r s : cache_step s (cached_invoke server skip r s).2
  | cache_world d w w' : cache_step (d, w) (d, w').

(** ** What the network may answer *)

Section valid.
Context (valid : ∀ r, response r → Prop).

(** Every response of the network is one the service gives to that request. *)
Definition honest : Prop := ∀ server r w x md w', network_invoke (W:=W) server r w = (Ok x, md, w') → valid r x.

(** What the store holds under the key of a request is such a response, unless
    the hash function collides. *)
Definition cache_ok (d : DB) : Prop :=
  ∀ r b v x, marshal_request r = Some b → db_get d (getHash (method r) b) = Some v →
    unmarshal_response r v = Some x → valid r x ∨ blake3_collision.

Lemma Lookup_valid d r b x :
  cache_ok d → marshal_request r = Some b → Lookup d (getHash (method r) b) r = Some x →
  valid r x ∨ blake3_collision.
Proof.
  intros Hok Hb. unfold Lookup, txn_get. destruct (db_get d (getHash (method r) b)) as [v|] eqn:Hv; [|done].
  destruct (item_value d _) as [v'| | |] eqn:Hi; try done. apply item_value_ok in Hi as ->. simpl.
  intros Hx. by eapply Hok.
Qed.

Lemma store_value_ok d r b v x :
  cache_ok d → marshal_request r = Some b → marshal_response r x = Some v → valid r x ∨ blake3_collision →
  cache_ok (store_value d (getHash (method r) b) v).
Proof.
  intros Hok Hb Hv Hx. unfold store_value. cbv zeta. destruct (db_commit_err _ _); [done|].
  intros r' b' v' x' Hb' Hget Hx'. rewrite db_get_set in Hget. case_decide as Hk; [|by eapply Hok].
  injection Hget as <-. destruct (getHash_inj r r' b b' Hb Hb' Hk) as [<-|]; [|by right].
  rewrite (unmarshal_marshal_response r x v Hv) in Hx'. by injection Hx' as <-.
Qed.

(** One call keeps the store right and answers with a valid response. *)
Lemma InterceptUnary_ok server skip r d w res md d' w' :
  honest → cache_ok d →
  InterceptUnary skip r (network_invoke server r) (d, w) = (res, md, (d', w')) →
  cache_ok d' ∧ (∀ x, res = Ok x → valid r x ∨ blake3_collision).
Proof.
  intros Hh Hok Hcall.
  assert (∀ res md d' w', pass_through (network_invoke server r) (d, w) = (res, md, (d', w')) →
    cache_ok d' ∧ (∀ x, res = Ok x → valid r x ∨ blake3_collision)) as Hpass.
  { clear -Hok Hh. intros res md d' w'. unfold pass_through.
    destruct (network_invoke server r w) as [[r0 md0] w0] eqn:Hn. intros [= <- <- <- <-].
    split; [done|]. intros x ->. left. by eapply Hh. }
  unfold InterceptUnary in Hcall. destruct (nonIdempotent (method r)); [by eapply Hpass|].
  destruct skip; [by eapply Hpass|]. destruct (marshal_request r) as [b|] eqn:Hb; [|by eapply Hpass].
  clear Hpass. cbv zeta in Hcall. destruct (ctx_Err w) as [[msg|] w1]; [by simplify_eq|].
  destruct (Lookup d (getHash (method r) b) r) as [x|] eqn:Hl.
  { simplify_eq. split; [done|]. intros ? [= <-]. by eapply Lookup_valid. }
  unfold invoke_and_store in Hcall. destruct (network_invoke server r w1) as [[[x|e| |] md1] w2] eqn:Hn;
    try (by simplify_eq).
  destruct (marshal_response r x) as [v|] eqn:Hv; [|by simplify_eq].
  destruct (ctx_Err w2) as [[msg|] w3]; [by simplify_eq|]. simplify_eq.
  assert (valid r x ∨ blake3_collision) as Hx by (left; by eapply Hh).
  split; [by eapply store_value_ok|]. by intros ? [= <-].
Qed.


Lemma cached_invoke_inv server skip r s :
  ∃ res md, InterceptUnary skip r (network_invoke server r) s = (res, md, (cached_invoke server skip r s).2) ∧
    (∀ x, (cached_invoke server skip r s).1 = Ok x → res = Ok x).
Proof.
  unfold cached_invoke, InterceptRateLimitUnary.
  destruct (InterceptUnary skip r (network_invoke server r) s) as [[res md] s']. exists res, md. split; [done|].
  intros x. destruct res; simpl; try done; destruct (exhausted md); done.
Qed.

Lemma cache_steps_ok s s' :
  honest → cache_ok s.1 → rtc cache_step s s' → cache_ok s'.1.
Proof.
  intros Hh Hok Hsteps. induction Hsteps as [|s s1 s2 Hstep _ IH]; [done|]. apply IH.
  destruct Hstep as [server skip r [d w]|]; [|done].
  destruct (cached_invoke_inv server skip r (d, w)) as (res & md & Hcall & _).
  destruct (cached_invoke server skip r (d, w)).2 as [d' w']. by eapply InterceptUnary_ok in Hcall as [? _].
Qed.

(** C17: In every state reachable from an empty store, over any sequence of calls to
    any of the servers, with or without the cache, and whatever the world does in
    between, a successful call answers with a response the network gives to that
    very request, unless BLAKE3 collides. *)
Theorem cached_answer_valid d0 w0 s server skip r x s' :
  (∀ k, db_get d0 k = None) → honest → rtc cache_step (d0, w0) s →
  cached_invoke server skip r s = (Ok x, s') →
  valid r x ∨ blake3_collision.
Proof.
  intros Hempty Hh Hsteps Hcall. assert (cache_ok s.1) as Hok.
  { apply (cache_steps_ok (d0, w0) s); [done| |done]. intros ???? _ Hget. by rewrite Hempty in Hget. }
  destruct (cached_invoke_inv server skip r s) as (res & md & Hi & Hres). rewrite Hcall in Hi, Hres.
  destruct s as [d w], s' as [d' w']. eapply InterceptUnary_ok in Hi as [_ Hi]; [|done|done]. by apply Hi, Hres.
Qed.
End valid.

(** ** What is stored is served *)

Context `{!BadgerReliable DB}.

Lemma Lookup_stored d hash r x v :
  marshal_response r x = Some v → Lookup (store_value d hash v) hash r = Some x.
Proof.
  intros Hv. unfold Lookup, store_value, txn_get, item_value. cbv zeta. rewrite db_commit_reliable, db_get_set.
  rewrite decide_True, db_read_reliable by done. cbn. by apply unmarshal_marshal_response.
Qed.

(** After a successful call the store answers the request. *)
Lemma InterceptUnary_stores server r b s x md s' :
  nonIdempotent (method r) = false → marshal_request r = Some b →
  InterceptUnary false r (network_invoke server r) s = (Ok x, md, s') →
  Lookup s'.1 (getHash (method r) b) r = Some x.
Proof.
  intros Hid Hb. unfold InterceptUnary. rewrite Hid, Hb. cbv zeta. destruct s as [d w].
  destruct (ctx_Err w) as [[msg|] w1]; [done|].
  destruct (Lookup d (getHash (method r) b) r) as [x0|] eqn:Hl; [by intros [= <- <- <-]|].
  unfold invoke_and_store. destruct (network_invoke server r w1) as [[[y|e| |] md1] w2]; try done.
  destruct (marshal_response r y) as [v|] eqn:Hv; [|done].
  destruct (ctx_Err w2) as [[msg|] w3]; [done|]. intros [= <- <- <-]. by apply Lookup_stored.
Qed.

(** A lookup only depends on the value under the key. *)
Lemma Lookup_get d d' hash r : db_get d' hash = db_get d hash → Lookup d' hash r = Lookup d hash r.
Proof.
  intros Hg. unfold Lookup, txn_get, item_value. rewrite Hg. destruct (db_get d hash); [|done].
  by rewrite !db_read_reliable.
Qed.

(** What the store answers stays, whatever other calls store. *)
Lemma Lookup_stays server skip r r' b x s :
  marshal_request r = Some b → Lookup s.1 (getHash (method r) b) r = Some x →
  Lookup (cached_invoke server skip r' s).2.1 (getHash (method r) b) r = Some x ∨ blake3_collision.
Proof.
  intros Hb Hl. destruct (cached_invoke_inv server skip r' s) as (res & md & Hi & _).
  destruct (cached_invoke server skip r' s).2 as [d' w'], s as [d w]. simpl in *. revert Hi.
  assert (∀ res md, pass_through (network_invoke server r') (d, w) = (res, md, (d', w')) → d' = d) as Hpass.
  { intros res' md'. unfold pass_through. destruct (network_invoke server r' w) as [[]]. by intros [= _ _ <- _]. }
  unfold InterceptUnary. destruct (nonIdempotent (method r')); [intros ->%Hpass; by left|].
  destruct skip; [intros ->%Hpass; by left|].
  destruct (marshal_request r') as [b'|] eqn:Hb'; [|intros ->%Hpass; by left].
  cbv zeta. destruct (ctx_Err w) as [[msg|] w1]; [intros [= _ _ <- _]; by left|].
  destruct (Lookup d (getHash (method r') b') r') as [y|] eqn:Hl'; [intros [= _ _ <- _]; by left|].
  unfold invoke_and_store.
  destruct (network_invoke server r' w1) as [[[y|e| |] md1] w2]; try (intros [= _ _ <- _]; by left).
  destruct (marshal_response r' y) as [v|]; [|intros [= _ _ <- _]; by left].
  destruct (ctx_Err w2) as [[msg|] w3]; [intros [= _ _ <- _]; by left|]. intros [= _ _ <- _].
  destruct (decide (getHash (method r') b' = getHash (method r) b)) as [Hk|Hk].
  { destruct (getHash_inj r' r b' b Hb' Hb Hk) as [->|]; [|by right]. by rewrite Hk, Hl in Hl'. }
  left. rewrite <-Hl. apply Lookup_get. unfold store_value. cbv zeta.
  by rewrite db_commit_reliable, db_get_set, decide_False.
Qed.

Lemma Lookup_stays_steps r b x s s' :
  marshal_request r = Some b → rtc cache_step s s' → Lookup s.1 (getHash (method r) b) r = Some x →
  Lookup s'.1 (getHash (method r) b) r = Some x ∨ blake3_collision.
Proof.
  intros Hb Hsteps. induction Hsteps as [|s s1 s2 Hstep _ IH]; [by left|]. intros Hl.
  destruct Hstep as [server skip r' s|d w w']; [|by apply IH].
  destruct (Lookup_stays server skip r r' b x s Hb Hl) as [|]; [by apply IH|by right].
Qed.

(** A request that the store answers is not sent to the network. *)
Lemma Lookup_served server r b x s :
  nonIdempotent (method r) = false → marshal_request r = Some b →
  Lookup s.1 (getHash (method r) b) r = Some x → (ctx_Err s.2).1 = None →
  cached_invoke server false r s = (Ok x, (s.1, (ctx_Err s.2).2)).
Proof.
  intros Hid Hb Hl Hctx. unfold cached_invoke, InterceptRateLimitUnary, InterceptUnary. rewrite Hid, Hb. cbv zeta.
  destruct s as [d w]. simpl in *. destruct (ctx_Err w) as [[msg|] w']; [done|]. by rewrite Hl.
Qed.

(** A successful call through the cache leaves its answer there. *)
Lemma cached_invoke_stores server r b s x s' :
  nonIdempotent (method r) = false → marshal_request r = Some b →
  cached_invoke server false r s = (Ok x, s') → Lookup s'.1 (getHash (method r) b) r = Some x.
Proof.
  intros Hid Hb Hcall. destruct (cached_invoke_inv server false r s) as (res & md & Hi & Hres).
  rewrite Hcall in Hi, Hres. rewrite (Hres x eq_refl) in Hi. by eapply InterceptUnary_stores.
Qed.

(** Once a call for an idempotent request has succeeded, every later call for
    it, after any other calls of any goroutine and whatever happened to the
    network, to any server, gives the same response, changes nothing and does not
    reach the network: only the context is polled. The one exception is a
    collision of BLAKE3. *)
Theorem cached_answer_repeats server r b s x s' s'' server' :
  nonIdempotent (method r) = false → marshal_request r = Some b →
  cached_invoke server false r s = (Ok x, s') → rtc cache_step s' s'' → (ctx_Err s''.2).1 = None →
  cached_invoke server' false r s'' = (Ok x, (s''.1, (ctx_Err s''.2).2)) ∨ blake3_collision.
Proof.
  intros Hid Hb Hcall Hsteps Hctx.
  destruct (Lookup_stays_steps r b x s' s'' Hb Hsteps) as [Hl|]; [by eapply cached_invoke_stores| |by right].
  left. by eapply Lookup_served.
Qed.
End main.

(** ** A concrete run

    A network that knows collections only and counts the calls it gets. *)
Module CacheDemo.
#[local] Existing Instance gmap_badger.
#[local] Instance hash : Blake3 := {| blake3 b := b |}.
#[local] Instance wire : Wire := {|
  marshal_request r := match r with GetCollectionByID id => Some (x0a :: ser id) | _ => None end;
  marshal_response r :=
    match r return response r → option bytes with GetCollectionByID _ => λ x, Some (ser x) | _ => λ _, None end;
  unmarshal_response r :=
    match r return bytes → option (response r) with
    | GetCollectionByID _ => λ b, fst <$> de b
    | _ => λ _, None
    end;
|}.
#[local] Instance wire_laws : WireLaws.
Proof.
  split.
  - intros r x b. destruct r; try done. intros [= <-].
    pose proof (de_ser (A := option (list bytes)) x []) as Hd. rewrite app_nil_r in Hd.
    exact (f_equal (fmap fst) Hd).
  - intros [] [] b; try done. intros _ [= <-] [= Heq]. f_equal.
    assert (de (A := bytes) (ser id0 ++ []) = de (ser id ++ [])) as Hd by (rewrite !app_nil_r; exact (f_equal de Heq)).
    rewrite !de_ser in Hd. by injection Hd.
  - intros [] c b; try done. by intros [= <- _].
Qed.
#[local] Instance net : Network nat := {|
  network_invoke _ r :=
    match r return unary nat (response r) with
    | GetCollectionByID id => λ w, (Ok (Some [id]), ∅, S w)
    | _ => λ w, (Err (errorf "not found"), ∅, S w)
    end;
  rand_Int w := (0, w);
  ctx_Err w := (None, w);
|}.

Definition valid (r : request) : response r → Prop :=
  match r return response r → Prop with GetCollectionByID id => λ x, x = Some [id] | _ => λ _, True end.

Definition req : request := GetCollectionByID [x07].
Definition s0 : gmap bytes bytes * nat := (∅, 0%nat).
Definition s1 : gmap bytes bytes * nat := (cached_invoke "a" false req s0).2.

Lemma demo_honest : honest (W:=nat) valid.
Proof. intros server [] w x md w'; try done. simpl. by intros [= <- _ _]. Qed.

Lemma pair_of {A B} (p : A * B) a : p.1 = a → p = (a, p.2).
Proof. by destruct p; simpl; intros ->. Qed.

(** The second call, to another server, is answered from the store. *)
Lemma cached_answer_valid_witness :
  (cached_invoke "b" false req s1).1 = Ok (Some [[x07]]) ∧ (valid req (Some [[x07]]) ∨ blake3_collision).
Proof.
  split; [by vm_compute|].
  apply (cached_answer_valid valid ∅ 0%nat s1 "b" false req (Some [[x07]])
           (cached_invoke "b" false req s1).2).
  - done.
  - exact demo_honest.
  - apply rtc_once. exact (cache_call "a" false req s0).
  - apply pair_of. by vm_compute.
Defined.

(** The network changes, the answer does not. *)
Lemma cached_answer_repeats_witness :
  s1.2 = 1%nat ∧
  (cached_invoke "b" false req (s1.1, 5%nat) = (Ok (Some [[x07]]), (s1.1, (ctx_Err 5%nat).2)) ∨ blake3_collision).
Proof.
  split; [by vm_compute|].
  apply (cached_answer_repeats "a" req (x0a :: ser [x07]) s0 (Some [[x07]]) s1 (s1.1, 5%nat) "b");
    [by vm_compute|done|apply (pair_of (cached_invoke _ _ _ s0)); by vm_compute| |done].
  rewrite (surjective_pairing s1) at 1. apply rtc_once, cache_world.
Defined.
End CacheDemo.
