(* ===== verification/Dial.v ===== *)
(** * Connecting to access nodes

    Model of [New] and [verifyCertFunc] in [src/access/access.go]: the pool of
    clients, how each authenticates its node, and which interceptors its calls
    go through. Certificates, keys and peer identifiers are a parameter. *)
From S2P Require Import Prelude Bytes Text Model Badger Crypto Convert Config IndexDB Indexer Process Txn Api Construct Access ConstructOnline ConstructOnlineMain Cache.
Local Open Scope Z_scope.

(** [x509], [libp2p] and the keys of flow-go. *)
Class PeerCrypto := {
  certificate : Type;
  peer_key : Type;
  peer_id : Type;
  flow_key : Type;
  DecodeECDSAP256 : bytes → option flow_key;
  PeerIDFromFlowPublicKey : flow_key → option peer_id;
  ParseCertificate : bytes → option certificate;
  PubKeyFromCertChain : list certificate → option peer_key;
  MatchesPublicKey : peer_id → peer_key → bool;
}.

(** ** [verifyCertFunc]

    The identity a node must have, from its configured key. *)
Inductive cert_err := CertUnparsable | CertNoKey | CertWrongKey.

Section dial.
Context `{!PeerCrypto}.

Definition expectedPeer (key : string) : outcome cert_err peer_id :=
  match hex_decode key with
  | None => Fatal
  | Some raw =>
      match DecodeECDSAP256 raw with
      | None => Fatal
      | Some flowKey =>
          match PeerIDFromFlowPublicKey flowKey with
          | None => Fatal
          | Some peerID => Ok peerID
          end
      end
  end.

Definition verifyCerts (peerID : peer_id) (rawCerts : list bytes) : outcome cert_err unit :=
  match mapM ParseCertificate rawCerts with
  | None => Err CertUnparsable
  | Some chain =>
      match PubKeyFromCertChain chain with
      | None => Err CertNoKey
      | Some peerKey => if MatchesPublicKey peerID peerKey then Ok tt else Err CertWrongKey
      end
  end.

Definition verifyCertFunc (addr key : string) : outcome cert_err (list bytes → outcome cert_err unit) :=
  peerID ← expectedPeer key; Ok (verifyCerts peerID).

(** ** [New]

    How a connection is secured: not at all, by the certificates the system
    trusts, or by a function of this package. *)
Inductive credential :=
  | InsecureCredentials
  | SystemTLS
  | PinnedTLS (verify : list bytes → outcome cert_err unit).

Definition credentialFor (node : NodeConfig) : outcome cert_err credential :=
  if bool_decide (nc_PublicKey node = "") then
    Ok (if nc_TLS node then SystemTLS else InsecureCredentials)
  else
    verify ← verifyCertFunc (nc_Address node) (nc_PublicKey node);
    Ok (PinnedTLS verify).

(** The interceptors of a client; the one for the rate limit is outermost. *)
Record dialled := mkDialled { dl_addr : string; dl_credential : credential; dl_cached : bool }.

(** [dial] is [grpc.DialContext]; [store] is whether the pool has a cache. *)
Definition Access_New (dial : string → credential → bool) (nodes : list NodeConfig) (store : bool)
    : outcome cert_err (list dialled) :=
  foldM (λ pool node,
      creds ← credentialFor node;
      if dial (nc_Address node) creds then Ok (pool ++ [mkDialled (nc_Address node) creds store])
      else Fatal)
    [] nodes.

(** what a handshake with these certificates ends in; [trusted] are those the
    system accepts *)
Definition accepts (trusted : list bytes → bool) (c : credential) (rawCerts : list bytes) : bool :=
  match c with
  | InsecureCredentials => true
  | SystemTLS => trusted rawCerts
  | PinnedTLS verify => is_Ok (verify rawCerts)
  end.

(** the invoker of a client, as the interceptors are chained *)
Definition invoker_of {W DB} `{!Network W, !Badger DB, !Blake3, !Wire} (c : dialled) : invoker (DB * W) :=
  if dl_cached c then cached_invoke (dl_addr c)
  else λ skip r '(d, w), let '(res, w) := direct_invoke (dl_addr c) skip r w in (res, (d, w)).

(** ** Theorems *)

(** The certificates prove the identity that belongs to the configured key. *)
Definition proves_key (key : string) (rawCerts : list bytes) : Prop :=
  ∃ raw fk id chain pk, hex_decode key = Some raw ∧ DecodeECDSAP256 raw = Some fk ∧
    PeerIDFromFlowPublicKey fk = Some id ∧ mapM ParseCertificate rawCerts = Some chain ∧
    PubKeyFromCertChain chain = Some pk ∧ MatchesPublicKey id pk = true.

Lemma credentialFor_pinned trusted node c rawCerts :
  credentialFor node = Ok c → nc_PublicKey node ≠ "" →
  accepts trusted c rawCerts = true ↔ proves_key (nc_PublicKey node) rawCerts.
Proof.
  unfold credentialFor. intros Hc Hk. rewrite bool_decide_eq_false_2 in Hc by done.
  unfold verifyCertFunc, expectedPeer, proves_key in *.
  destruct (hex_decode _) as [raw|] eqn:E1; [|done]. destruct (DecodeECDSAP256 raw) as [fk|] eqn:E2; [|done].
  destruct (PeerIDFromFlowPublicKey fk) as [id|] eqn:E3; [|done]. injection Hc as <-. cbn. unfold verifyCerts.
  split.
  - destruct (mapM ParseCertificate rawCerts) as [chain|] eqn:E4; [|done].
    destruct (PubKeyFromCertChain chain) as [pk|] eqn:E5; [|done].
    destruct (MatchesPublicKey id pk) eqn:E6; [|done]. intros _. by exists raw, fk, id, chain, pk.
  - intros (raw' & fk' & id' & chain & pk & ? & ? & ? & -> & -> & Hm). simplify_eq. by rewrite Hm.
Qed.

Lemma Access_New_clients dial nodes store pool :
  Access_New dial nodes store = Ok pool →
  Forall2 (λ node c, dl_addr c = nc_Address node ∧ dl_cached c = store ∧
    credentialFor node = Ok (dl_credential c) ∧ dial (nc_Address node) (dl_credential c) = true) nodes pool.
Proof.
  unfold Access_New. apply (foldM_inv_prefix _ (λ pre pool, Forall2 _ pre pool)); [|constructor].
  intros pre node post b b' _ Hb Hstep. apply bind_Ok in Hstep as (c & Hc & Hd).
  destruct (dial (nc_Address node) c) eqn:Hdial; [|done]. injection Hd as <-.
  apply Forall2_app; [done|]. apply Forall2_cons. split; [done|constructor].
Qed.

(** C24: Every client of a pool belongs to the node at its position: a node with a
    configured key is talked to only after certificates that prove exactly the
    identity of that key, whatever certificates the system trusts; without a key
    the configuration decides between the system's certificates and none; and a
    key that cannot be decoded ends the process instead of weakening the check. *)
Theorem pinned_nodes_authenticated dial nodes store pool i node :
  Access_New dial nodes store = Ok pool → nodes !! i = Some node →
  ∃ c, pool !! i = Some c ∧ length pool = length nodes ∧ dl_addr c = nc_Address node ∧ dl_cached c = store ∧
    (∀ trusted rawCerts,
      if bool_decide (nc_PublicKey node = "")
      then accepts trusted (dl_credential c) rawCerts = negb (nc_TLS node) || trusted rawCerts
      else accepts trusted (dl_credential c) rawCerts = true ↔ proves_key (nc_PublicKey node) rawCerts).
Proof.
  intros Hp%Access_New_clients Hi. destruct (Forall2_lookup_l _ _ _ _ _ Hp Hi) as (c & Hc & Ha & Hs & Hcred & _).
  exists c. split; [done|]. split; [symmetry; by eapply Forall2_length|]. split; [done|]. split; [done|].
  intros trusted rawCerts. case_bool_decide as Hk.
  - unfold credentialFor in Hcred. rewrite bool_decide_eq_true_2 in Hcred by done. injection Hcred as <-.
    by destruct (nc_TLS node).
  - by apply credentialFor_pinned.
Qed.
End dial.

(** ** A pool *)
Module DialDemo.
(** Certificates are keys here, and a peer is identified by its key. *)
#[local] Instance crypto : PeerCrypto := {|
  certificate := bytes; peer_key := bytes; peer_id := bytes; flow_key := bytes;
  DecodeECDSAP256 raw := Some raw;
  PeerIDFromFlowPublicKey k := Some k;
  ParseCertificate c := Some c;
  PubKeyFromCertChain chain := head chain;
  MatchesPublicKey id k := bool_decide (id = k);
|}.
Definition nodes : list NodeConfig :=
  [mkNodeConfig "a:9000" "" false; mkNodeConfig "b:9001" "abcd" true].
Definition pool : list dialled :=
  match Access_New (λ _ _, true) nodes true with Ok p => p | _ => [] end.

(** The second node must show the key abcd. *)
Lemma pinned_nodes_authenticated_witness :
  ∃ c, pool !! 1%nat = Some c ∧ accepts (λ _, true) (dl_credential c) [[xab; xcd]] = true ∧
       accepts (λ _, true) (dl_credential c) [[xab; xce]] = false.
Proof.
  destruct (pinned_nodes_authenticated (λ _ _, true) nodes true pool 1 (mkNodeConfig "b:9001" "abcd" true))
    as (c & Hc & _ & _ & _ & Hacc); [done..|]. exists c. split; [done|].
  pose proof (Hacc (λ _, true)) as Ha. rewrite bool_decide_eq_false_2 in Ha by done. split.
  - apply Ha. by exists [xab; xcd], [xab; xcd], [xab; xcd], [[xab; xcd]], [xab; xcd].
  - apply not_true_is_false. intros (raw & fk & id & chain & pk & Hr & Hf & Hi & Hch & Hpk & Hm)%Ha.
    vm_compute in Hr, Hf, Hi, Hch, Hpk. by simplify_eq.
Defined.
End DialDemo.
