(* ===== verification/Json.v ===== *)
(** * Indenting JSON

    Model of [json.Indent] and of the scanner of [encoding/json] that it runs, as
    [src/cmd/txinfo/txinfo.go] uses them on event payloads, and of
    [bytes.TrimSpace]. Indenting an indented text changes nothing, and a text
    whose first byte cannot begin a value is refused. *)
From S2P Require Import Prelude Bytes.
Local Open Scope Z_scope.

(** ** The scanner

    One constructor per state function; the literals [true], [false] and [null]
    are the list of letters still expected. The codes that a step reports are
    merged where [Indent] does not tell them apart. *)
Inductive jstep :=
  | BeginValueOrEmpty | BeginValue | BeginStringOrEmpty | BeginString | EndValue | EndTop
  | InString | InStringEsc | InStringEscU (more : nat)
  | Neg | Digits1 | Digits0 | Dot | Dot0 | Exp | ExpSign | Exp0
  | Literal (rest : bytes) | ErrorState.
Inductive jparse := ObjectKey | ObjectValue | ArrayValue.
Inductive jcode := Continue | Begin | Punct | CloseObject | CloseArray | SkipSpace | End | Error.

#[export] Instance jcode_eq_dec : EqDecision jcode.
Proof. solve_decision. Defined.

Record scanner := mkScanner { sc_step : jstep; sc_parse : list jparse; sc_endTop : bool; sc_err : bool }.
Definition newScanner : scanner := mkScanner BeginValue [] false false.
Definition maxNestingDepth : Z := 10000.

Definition byte_is (c x : byte) : bool := bool_decide (c = x).
Definition is_space (c : byte) : bool := byte_is c x20 || byte_is c x09 || byte_is c x0d || byte_is c x0a.
Definition is_digit (c : byte) : bool := (48 <=? byte_Z c) && (byte_Z c <=? 57).
Definition is_hex (c : byte) : bool :=
  is_digit c || (97 <=? byte_Z c) && (byte_Z c <=? 102) || (65 <=? byte_Z c) && (byte_Z c <=? 70).

Definition goto (s : scanner) (step : jstep) : scanner := mkScanner step (sc_parse s) (sc_endTop s) (sc_err s).
Definition fail (s : scanner) : jcode * scanner := (Error, mkScanner ErrorState (sc_parse s) (sc_endTop s) true).
Definition setTop (s : scanner) (p : jparse) : scanner :=
  mkScanner (sc_step s) (p :: drop 1 (sc_parse s)) (sc_endTop s) (sc_err s).

Definition push (s : scanner) (p : jparse) : jcode * scanner :=
  let s := mkScanner (sc_step s) (p :: sc_parse s) (sc_endTop s) (sc_err s) in
  if Z.of_nat (length (sc_parse s)) <=? maxNestingDepth then (Punct, s) else fail s.
Definition pop (s : scanner) : scanner :=
  match drop 1 (sc_parse s) with
  | [] => mkScanner EndTop [] true (sc_err s)
  | ps => mkScanner EndValue ps (sc_endTop s) (sc_err s)
  end.

(** after the top-level value; a byte that does not belong there is an error,
    which shows with the next one *)
Definition endTop (s : scanner) (c : byte) : jcode * scanner :=
  (End, if is_space c then s else (fail s).2).

Definition endValue (s : scanner) (c : byte) : jcode * scanner :=
  match sc_parse s with
  | [] => endTop (mkScanner EndTop [] true (sc_err s)) c
  | p :: _ =>
      if is_space c then (SkipSpace, goto s EndValue)
      else match p with
           | ObjectKey => if byte_is c x3a then (Punct, goto (setTop s ObjectValue) BeginValue) else fail s
           | ObjectValue =>
               if byte_is c x2c then (Punct, goto (setTop s ObjectKey) BeginString)
               else if byte_is c x7d then (CloseObject, pop s) else fail s
           | ArrayValue =>
               if byte_is c x2c then (Punct, goto s BeginValue)
               else if byte_is c x5d then (CloseArray, pop s) else fail s
           end
  end.

Definition beginValue (s : scanner) (c : byte) : jcode * scanner :=
  if is_space c then (SkipSpace, s)
  else if byte_is c x7b then push (goto s BeginStringOrEmpty) ObjectKey
  else if byte_is c x5b then push (goto s BeginValueOrEmpty) ArrayValue
  else if byte_is c x22 then (Begin, goto s InString)
  else if byte_is c x2d then (Begin, goto s Neg)
  else if byte_is c x30 then (Begin, goto s Digits0)
  else if byte_is c x74 then (Begin, goto s (Literal [x72; x75; x65]))
  else if byte_is c x66 then (Begin, goto s (Literal [x61; x6c; x73; x65]))
  else if byte_is c x6e then (Begin, goto s (Literal [x75; x6c; x6c]))
  else if is_digit c then (Begin, goto s Digits1)
  else fail s.

Definition beginString (s : scanner) (c : byte) : jcode * scanner :=
  if is_space c then (SkipSpace, s)
  else if byte_is c x22 then (Begin, goto s InString) else fail s.

Definition digits0 (s : scanner) (c : byte) : jcode * scanner :=
  if byte_is c x2e then (Continue, goto s Dot)
  else if byte_is c x65 || byte_is c x45 then (Continue, goto s Exp)
  else endValue s c.
Definition expSign (s : scanner) (c : byte) : jcode * scanner :=
  if is_digit c then (Continue, goto s Exp0) else fail s.

Definition jscan (s : scanner) (c : byte) : jcode * scanner :=
  match sc_step s with
  | BeginValueOrEmpty =>
      if is_space c then (SkipSpace, s)
      else if byte_is c x5d then endValue s c else beginValue s c
  | BeginValue => beginValue s c
  | BeginStringOrEmpty =>
      if is_space c then (SkipSpace, s)
      else if byte_is c x7d then endValue (setTop s ObjectValue) c else beginString s c
  | BeginString => beginString s c
  | EndValue => endValue s c
  | EndTop => endTop s c
  | InString =>
      if byte_is c x22 then (Continue, goto s EndValue)
      else if byte_is c x5c then (Continue, goto s InStringEsc)
      else if byte_Z c <? 32 then fail s else (Continue, s)
  | InStringEsc =>
      if existsb (byte_is c) [x62; x66; x6e; x72; x74; x5c; x2f; x22] then (Continue, goto s InString)
      else if byte_is c x75 then (Continue, goto s (InStringEscU 3)) else fail s
  | InStringEscU more =>
      if is_hex c then (Continue, goto s (match more with O => InString | S n => InStringEscU n end)) else fail s
  | Neg =>
      if byte_is c x30 then (Continue, goto s Digits0)
      else if is_digit c then (Continue, goto s Digits1) else fail s
  | Digits1 => if is_digit c then (Continue, s) else digits0 s c
  | Digits0 => digits0 s c
  | Dot => if is_digit c then (Continue, goto s Dot0) else fail s
  | Dot0 =>
      if is_digit c then (Continue, s)
      else if byte_is c x65 || byte_is c x45 then (Continue, goto s Exp) else endValue s c
  | Exp => if byte_is c x2b || byte_is c x2d then (Continue, goto s ExpSign) else expSign s c
  | ExpSign => expSign s c
  | Exp0 => if is_digit c then (Continue, s) else endValue s c
  | Literal rest =>
      match rest with
      | x :: rest =>
          if byte_is c x then (Continue, goto s (match rest with [] => EndValue | _ => Literal rest end))
          else fail s
      | [] => fail s
      end
  | ErrorState => (Error, s)
  end.

(** [eof]: whether the text ends in a complete value. *)
Definition eof (s : scanner) : bool :=
  if sc_err s then false
  else if sc_endTop s then true
  else sc_endTop (jscan s x20).2.

(** ** [Indent] with an empty prefix and two spaces *)

Record istate := mkIstate { i_scan : scanner; i_need : bool; i_depth : Z; i_out : bytes }.

Definition indentLine (depth : Z) : bytes := x0a :: replicate (2 * Z.to_nat depth) x20.

(** the spacing around a byte that is not in a literal *)
Definition spaced (need : bool) (depth : Z) (out : bytes) (c : byte) : bool * Z * bytes :=
  if byte_is c x7b || byte_is c x5b then (true, depth, out ++ [c])
  else if byte_is c x2c then (need, depth, out ++ [c] ++ indentLine depth)
  else if byte_is c x3a then (need, depth, out ++ [c; x20])
  else if byte_is c x7d || byte_is c x5d then
    if need then (false, depth, out ++ [c])
    else (need, depth - 1, out ++ indentLine (depth - 1) ++ [c])
  else (need, depth, out ++ [c]).

(** what the loop writes for a byte that the scanner reports as [v] *)
Definition emit (need : bool) (depth : Z) (out : bytes) (v : jcode) (c : byte) : bool * Z * bytes :=
  let open := need && negb (bool_decide (v = CloseObject)) && negb (bool_decide (v = CloseArray)) in
  let need := if open then false else need in
  let depth := if open then depth + 1 else depth in
  let out := if open then out ++ indentLine depth else out in
  if bool_decide (v = Continue) then (need, depth, out ++ [c]) else spaced need depth out c.

(** the loop; it is left at the first error *)
Fixpoint indentLoop (src : bytes) (st : istate) : istate :=
  match src with
  | [] => st
  | c :: src =>
      let '(v, s) := jscan (i_scan st) c in
      match v with
      | SkipSpace => indentLoop src (mkIstate s (i_need st) (i_depth st) (i_out st))
      | Error => mkIstate s (i_need st) (i_depth st) (i_out st)
      | _ =>
          let '(need, depth, out) := emit (i_need st) (i_depth st) (i_out st) v c in
          indentLoop src (mkIstate s need depth out)
      end
  end.

Definition Indent (src : bytes) : option bytes :=
  let st := indentLoop src (mkIstate newScanner false 0 []) in
  if eof (i_scan st) then Some (i_out st) else None.

(** ** Indenting twice

    The inserted spaces are where the scanner skips them. *)
Definition opens (p : jstep) : bool := match p with BeginValueOrEmpty | BeginStringOrEmpty => true | _ => false end.
Definition begins (p : jstep) : bool := match p with BeginValue | BeginString => true | _ => opens p end.
Definition number (p : jstep) : bool := match p with Digits1 | Digits0 | Dot0 | Exp0 => true | _ => false end.

(** [t] is where the scanner is in the output when it is at [s] in the text:
    spaces after a number may be missing there. *)
Definition sim (s t : scanner) : Prop :=
  t = s ∨ ∃ p, number p = true ∧ sc_step s = EndValue ∧ t = goto s p.

Lemma byte_is_true c x : byte_is c x = true ↔ c = x. Proof. apply bool_decide_eq_true. Qed.

(** Case analysis on a step of the scanner. *)
Ltac scan_cases H :=
  unfold jscan, beginValue, beginString, digits0, expSign, endValue, endTop, push, fail in H;
  repeat match type of H with context [match ?x with _ => _ end] => destruct x eqn:?; try discriminate H end.

Lemma jscan_error s c s' : jscan s c = (Error, s') → sc_step s' = ErrorState.
Proof. intros H. scan_cases H; by simplify_eq. Qed.

Lemma goto_id s : goto s (sc_step s) = s. Proof. by destruct s. Qed.

Lemma indentLoop_stuck src s need depth out :
  sc_step s = ErrorState → indentLoop src (mkIstate s need depth out) = mkIstate s need depth out.
Proof. intros Hs. destruct src as [|c src]; [done|]. cbn. unfold jscan. by rewrite Hs. Qed.

Lemma indentLoop_app a b st : indentLoop (a ++ b) st = indentLoop b (indentLoop a st).
Proof.
  revert st. induction a as [|c a IH]; intros [s need depth out]; [done|]. cbn.
  destruct (jscan s c) as [v s'] eqn:Hj.
  destruct v; try (destruct (emit need depth out _ c) as [[??]?]); rewrite ?IH; [done..|].
  symmetry. apply indentLoop_stuck. by eapply jscan_error.
Qed.

(** An error stays. *)
Lemma jscan_err s c : sc_err s = true → sc_err (jscan s c).2 = true.
Proof.
  intros He. destruct (jscan s c) as [v s'] eqn:H. scan_cases H; simplify_eq; cbn; try done;
    unfold pop; by case_match.
Qed.
Lemma indentLoop_err src st : sc_err (i_scan st) = true → sc_err (i_scan (indentLoop src st)) = true.
Proof.
  revert st. induction src as [|c src IH]; intros [s need depth out] He; [done|]. cbn in *.
  pose proof (jscan_err s c He). destruct (jscan s c) as [v s'].
  destruct v; try (destruct (emit need depth out _ c) as [[??]?]); by rewrite ?IH.
Qed.

(** Where spaces are skipped. *)
Definition skipping (s : scanner) : Prop :=
  begins (sc_step s) = true ∨ (sc_step s = EndValue ∨ number (sc_step s) = true) ∧ sc_parse s ≠ [].

Lemma jscan_skip s c : skipping s → is_space c = true →
  jscan s c = (SkipSpace, if begins (sc_step s) then s else goto s EndValue).
Proof.
  intros Hs Hc. unfold jscan, beginValue, beginString.
  assert (byte_is c x2e = false ∧ byte_is c x65 = false ∧ byte_is c x45 = false ∧ is_digit c = false) as (H1 & H2 & H3 & H4).
  { unfold is_space in Hc. rewrite !orb_true_iff, !byte_is_true in Hc. naive_solver. }
  unfold digits0, endValue. rewrite ?H1, ?H2, ?H3, ?H4, ?Hc.
  destruct Hs as [Hs|[Hs Hp]]; destruct (sc_step s) eqn:He, (sc_parse s); naive_solver.
Qed.

Definition settle (s : scanner) : scanner := if begins (sc_step s) then s else goto s EndValue.
Abbreviation spaces ws := (Forall (λ c, is_space c = true) ws).

Lemma settle_skipping s : skipping s → skipping (settle s) ∧ settle (settle s) = settle s.
Proof.
  unfold skipping, settle. destruct (begins (sc_step s)) eqn:Hb; [by rewrite Hb; auto|].
  intros [?|[_ ?]]; [done|]. cbn. auto.
Qed.

Lemma skip_run ws s need depth out : skipping s → spaces ws → ws ≠ [] →
  indentLoop ws (mkIstate s need depth out) = mkIstate (settle s) need depth out.
Proof.
  intros Hs Hws Hne. revert s Hs. induction Hws as [|c ws Hc Hws IH]; intros s Hs; [done|]. cbn.
  rewrite (jscan_skip s c Hs Hc). cbn. fold (settle s). destruct (settle_skipping s Hs) as [Hs' Heq].
  destruct ws as [|c' ws]; [done|]. rewrite IH by done. by rewrite Heq.
Qed.

(** A byte that ends a number. *)
Lemma number_end s p c : number p = true → byte_is c x2e = false → byte_is c x65 = false → byte_is c x45 = false →
  is_digit c = false → jscan (goto s p) c = endValue s c.
Proof. intros Hp H1 H2 H3 H4. unfold jscan, digits0. destruct p; try done; cbn [sc_step goto]; by rewrite ?H1, ?H2, ?H3, ?H4. Qed.

Lemma endValue_plain s c v s' : endValue s c = (v, s') → v ≠ Error → sc_err s' = false →
  byte_is c x2e = false ∧ byte_is c x65 = false ∧ byte_is c x45 = false ∧ is_digit c = false.
Proof.
  intros H Hv He. assert (is_space c = true ∨ c = x3a ∨ c = x2c ∨ c = x7d ∨ c = x5d) as Hc.
  { scan_cases H; simplify_eq; rewrite <-?byte_is_true; auto. }
  unfold is_space in Hc. rewrite !orb_true_iff, !byte_is_true in Hc. naive_solver.
Qed.

Lemma jscan_sim s t c v s' : sim s t → jscan s c = (v, s') → v ≠ Error → sc_err s' = false → jscan t c = (v, s').
Proof.
  intros [->|(p & Hp & Hs & ->)] H Hv He; [done|]. unfold jscan in H. rewrite Hs in H.
  destruct (endValue_plain _ _ _ _ H Hv He) as (? & ? & ? & ?). by rewrite number_end.
Qed.

(** Case analysis on a byte that was compared. *)
Ltac byte_cases :=
  repeat match goal with
  | H : byte_is ?c _ = true |- _ => apply byte_is_true in H
  | H : is_space ?c = true |- _ => unfold is_space in H; rewrite !orb_true_iff, !byte_is_true in H
  end.

Lemma opens_pop s : opens (sc_step (pop s)) = false.
Proof. unfold pop. by case_match. Qed.

Lemma jscan_opens s c v s' : jscan s c = (v, s') → v ≠ SkipSpace → v ≠ Error → sc_err s' = false →
  opens (sc_step s') = negb (bool_decide (v = Continue)) && (byte_is c x7b || byte_is c x5b).
Proof.
  intros H Hv Hv' He. scan_cases H; simplify_eq; try done; byte_cases; subst; cbn in *; try done;
    rewrite ?opens_pop, ?Heqj; try done;
    repeat match goal with H : _ ∨ _ |- _ => destruct H end; by subst.
Qed.

(** After a comma or a colon a value or a key begins. *)
Lemma jscan_sep s c v s' : jscan s c = (v, s') → v ≠ Continue → v ≠ SkipSpace → v ≠ Error → sc_err s' = false →
  c = x2c ∨ c = x3a → begins (sc_step s') = true.
Proof.
  intros H ??? He Hc. destruct Hc as [-> | ->]; scan_cases H; by simplify_eq.
Qed.

(** A closing bracket that is not part of a string. *)
Lemma jscan_close s c v s' : jscan s c = (v, s') → v ≠ Continue → v ≠ Error → sc_err s' = false →
  c = x7d ∨ c = x5d →
  (v = CloseObject ∨ v = CloseArray) ∧
  (opens (sc_step s) = false → skipping s ∧ jscan (settle s) c = (v, s')).
Proof.
  intros H ?? He Hc. split.
  - destruct Hc as [-> | ->]; scan_cases H; simplify_eq; auto.
  - intros Ho. assert (sc_step s = EndValue ∨ number (sc_step s) = true) as Hs.
    { destruct Hc as [-> | ->]; scan_cases H; simplify_eq; rewrite ?Heqj in *; auto. }
    assert (endValue s c = (v, s')) as H'.
    { destruct Hs as [Hs|Hs]; [unfold jscan in H; by rewrite Hs in H|].
      rewrite <-(goto_id s), number_end in H by (done || by destruct Hc as [-> | ->]). done. }
    split.
    + right. split; [done|]. intros Hp. unfold endValue in H'. rewrite Hp in H'.
      destruct Hc as [-> | ->]; injection H' as <- <-; discriminate He.
    + unfold settle. assert (begins (sc_step s) = false) as -> by (destruct Hs as [->|Hs]; [|destruct (sc_step s)]; done).
      unfold jscan. cbn [sc_step goto]. exact H'.
Qed.

Definition closing (v : jcode) : bool := bool_decide (v = CloseObject) || bool_decide (v = CloseArray).
Definition open_byte (c : byte) : bool := byte_is c x7b || byte_is c x5b.
Definition close_byte (c : byte) : bool := byte_is c x7d || byte_is c x5d.

Lemma indentLine_spaces d : spaces (indentLine d).
Proof. constructor; [done|]. by apply Forall_replicate. Qed.

(** What a byte adds to the output: spaces, the byte, and spaces. *)
Lemma spaced_shape need depth out c : ∃ pre post depth',
  spaced need depth out c = (open_byte c || need && negb (close_byte c), depth', out ++ pre ++ c :: post) ∧
  spaces pre ∧ spaces post ∧ (pre ≠ [] → need = false ∧ (c = x7d ∨ c = x5d)) ∧ (post ≠ [] → c = x2c ∨ c = x3a).
Proof.
  pose proof indentLine_spaces as Hsp. unfold spaced, open_byte, close_byte.
  destruct (byte_is c x7b || byte_is c x5b) eqn:H1; [by exists [], [], depth|].
  destruct (byte_is c x2c) eqn:H2; [apply byte_is_true in H2 as ->; exists [], (indentLine depth), depth; rewrite andb_true_r; split_and!; by auto|].
  destruct (byte_is c x3a) eqn:H3; [apply byte_is_true in H3 as ->; exists [], [x20], depth; rewrite andb_true_r; split_and!; by auto|].
  destruct (byte_is c x7d || byte_is c x5d) eqn:H4; [|exists [], [], depth; by rewrite andb_true_r].
  rewrite orb_true_iff, !byte_is_true in H4.
  destruct need; [by exists [], [], depth|by exists (indentLine (depth - 1)), [], (depth - 1)].
Qed.

Lemma emit_shape need depth out v c : ∃ pre post depth',
  emit need depth out v c =
    ((if bool_decide (v = Continue) then need && closing v else open_byte c || need && closing v && negb (close_byte c)),
     depth', out ++ pre ++ c :: post) ∧
  spaces pre ∧ spaces post ∧
  (pre ≠ [] → need = true ∧ closing v = false ∨ need = false ∧ v ≠ Continue ∧ (c = x7d ∨ c = x5d)) ∧
  (post ≠ [] → v ≠ Continue ∧ (c = x2c ∨ c = x3a)).
Proof.
  unfold emit. rewrite <-andb_assoc, <-negb_orb. fold (closing v).
  set (depth1 := if need && negb (closing v) then depth + 1 else depth).
  set (line := if need && negb (closing v) then indentLine depth1 else []).
  assert ((if need && negb (closing v) then out ++ indentLine depth1 else out) = out ++ line) as Ho
    by (unfold line; case_match; by rewrite ?app_nil_r).
  assert ((if need && negb (closing v) then false else need) = need && closing v) as Hn
    by (destruct need, (closing v); done).
  assert (spaces line ∧ (line ≠ [] → need = true ∧ closing v = false)) as [Hl Hl'].
  { unfold line. destruct need, (closing v); split; done || apply indentLine_spaces || auto. }
  cbn zeta. rewrite Hn, Ho. case_bool_decide as Hv.
  - exists line, [], depth1. split_and!; [by rewrite app_assoc|done|done|intros ?; left; auto|done].
  - destruct (spaced_shape (need && closing v) depth1 (out ++ line) c) as (pre & post & d' & -> & Hp & Hq & Hpre & Hpost).
    exists (line ++ pre), post, d'. split_and!; [by rewrite <-!app_assoc|by apply Forall_app|done| |auto].
    intros Hne. destruct line as [|x l]; [|left; by apply Hl'].
    destruct (Hpre Hne) as [Hnc ?]. destruct need; [left|right]; auto.
Qed.

Lemma skip_begin ws s need depth out : begins (sc_step s) = true → spaces ws →
  indentLoop ws (mkIstate s need depth out) = mkIstate s need depth out.
Proof.
  intros Hb Hws. destruct (decide (ws = [])) as [->|Hne]; [done|].
  rewrite skip_run; [|by left|done..]. unfold settle. by rewrite Hb.
Qed.

(** The spaces before a byte. *)
Lemma skip_before s t c v s' need depth out pre :
  need = opens (sc_step s) → sim s t → jscan s c = (v, s') → v ≠ Error → sc_err s' = false → spaces pre →
  (pre ≠ [] → need = true ∧ closing v = false ∨ need = false ∧ v ≠ Continue ∧ (c = x7d ∨ c = x5d)) →
  ∃ t', indentLoop pre (mkIstate t need depth out) = mkIstate t' need depth out ∧ jscan t' c = (v, s').
Proof.
  intros Hn Hsim H Hv He Hsp Hpre. destruct (decide (pre = [])) as [->|Hne]; [exists t; split; [done|]; by eapply jscan_sim|].
  destruct (Hpre Hne) as [[-> _]|(-> & Hc & Hb)].
  - destruct Hsim as [-> |(p & _ & Hs & _)]; [|by rewrite Hs in Hn]. exists s. split; [|done].
    apply skip_begin; [|done]. by destruct (sc_step s).
  - destruct (jscan_close _ _ _ _ H Hc Hv He Hb) as [_ [Hskip Hj]]; [done|]. exists (settle s). split; [|done].
    destruct Hsim as [-> |(p & Hp & Hs & ->)]; [by apply skip_run|].
    rewrite skip_run; [|right; cbn; split; [by right|]|done..].
    + unfold settle. rewrite Hs. cbn [begins opens sc_step goto]. by destruct p.
    + destruct Hskip as [Hk|[_ Hk]]; [by rewrite Hs in Hk|exact Hk].
Qed.

(** One byte of the text, and what it added to the output. *)
Lemma emit_again s t need depth out c v s' need' depth' out' :
  need = opens (sc_step s) → sim s t → jscan s c = (v, s') → v ≠ SkipSpace → v ≠ Error → sc_err s' = false →
  emit need depth out v c = (need', depth', out') →
  need' = opens (sc_step s') ∧
  ∃ new, out' = out ++ new ∧ indentLoop new (mkIstate t need depth out) = mkIstate s' need' depth' out'.
Proof.
  intros Hn Hsim H Hv Hv' He Hemit.
  destruct (emit_shape need depth out v c) as (pre & post & d & Heq & Hpre & Hpost & Hpre' & Hpost').
  assert (closing v = true → close_byte c = true ∧ v ≠ Continue) as Hclose.
  { unfold closing, close_byte. rewrite !orb_true_iff, !bool_decide_eq_true, !byte_is_true. intros Hc.
    split; [|by destruct Hc as [->| ->]]. destruct Hc as [-> | ->]; scan_cases H; byte_cases; auto. }
  pose proof Heq as Heq'. rewrite Hemit in Heq'. injection Heq' as Hneed -> ->. split.
  { rewrite (jscan_opens _ _ _ _ H) by done. rewrite Hneed. fold (open_byte c).
    destruct (closing v); [destruct Hclose as [-> ?]; [done|]; by rewrite bool_decide_eq_false_2 by done; rewrite !andb_false_r, orb_false_r|].
    rewrite andb_false_r, orb_false_r. by case_bool_decide. }
  exists (pre ++ c :: post). split; [done|].
  destruct (skip_before s t c v s' need depth out pre Hn Hsim H Hv' He Hpre Hpre') as (t' & Hrun & Hj).
  rewrite indentLoop_app, Hrun. cbn. rewrite Hj.
  assert (∀ st, st = mkIstate s' need' d (out ++ pre ++ c :: post) → indentLoop post st = st) as Hlast.
  { intros st ->. destruct (decide (post = [])) as [->|Hne]; [done|]. destruct (Hpost' Hne) as [? ?].
    apply skip_begin; [|done]. by eapply jscan_sep. }
  destruct v; try done; rewrite Hemit; by apply Hlast.
Qed.

Lemma jscan_skipped s t c s' : jscan s c = (SkipSpace, s') → sim s t →
  opens (sc_step s') = opens (sc_step s) ∧ sim s' t ∧ sc_err s' = sc_err s.
Proof.
  intros H Hsim. assert (s' = s ∨ number (sc_step s) = true ∧ s' = goto s EndValue) as Hs'.
  { scan_cases H; simplify_eq; try (by left); try (by right); left;
      match goal with Hs : sc_step s = _ |- _ => rewrite <-Hs end; apply goto_id. }
  destruct Hs' as [-> |[Hn ->]]; [done|]. split; [by destruct (sc_step s)|]. split; [|done].
  destruct Hsim as [-> |(p & _ & Hs & _)]; [|by rewrite Hs in Hn].
  right. exists (sc_step s). split_and!; [done..|]. by destruct s.
Qed.
Lemma jscan_failed s c s' : jscan s c = (Error, s') → s' = s ∨ sc_err s' = true.
Proof. intros H. scan_cases H; simplify_eq; auto. Qed.

(** The loop: indenting the output of a text without errors gives it back. *)
Lemma indentLoop_again src s t need depth out :
  need = opens (sc_step s) → sim s t → sc_err s = false →
  let st := indentLoop src (mkIstate s need depth out) in
  sc_err (i_scan st) = false →
  ∃ new t', i_out st = out ++ new ∧ sim (i_scan st) t' ∧
    indentLoop new (mkIstate t need depth out) = mkIstate t' (i_need st) (i_depth st) (i_out st).
Proof.
  revert s t need depth out. induction src as [|c src IH]; intros s t need depth out Hn Hsim He; cbn.
  { intros _. exists [], t. by rewrite app_nil_r. }
  destruct (jscan s c) as [v s'] eqn:H.
  assert (v ≠ Error → v ≠ SkipSpace → let '(n', d', o') := emit need depth out v c in
    let st := indentLoop src (mkIstate s' n' d' o') in sc_err (i_scan st) = false →
    ∃ new t', i_out st = out ++ new ∧ sim (i_scan st) t' ∧
      indentLoop new (mkIstate t need depth out) = mkIstate t' (i_need st) (i_depth st) (i_out st)) as Htok.
  { intros Hv Hv'. destruct (emit need depth out v c) as [[n' d'] o'] eqn:Hemit. intros st Hst.
    assert (sc_err s' = false) as He'.
    { apply not_true_is_false. intros Ht. subst st. by rewrite indentLoop_err in Hst. }
    destruct (emit_again _ _ _ _ _ _ _ _ _ _ _ Hn Hsim H Hv' Hv He' Hemit) as (Hn' & new & -> & Hrun).
    destruct (IH s' s' n' d' _ Hn' (or_introl eq_refl) He' Hst) as (new' & t' & Ho & Hs & Hrun').
    exists (new ++ new'), t'. split; [by rewrite app_assoc|]. split; [done|]. by rewrite indentLoop_app, Hrun. }
  destruct v; try (specialize (Htok ltac:(done) ltac:(done)); destruct (emit need depth out _ c) as [[??]?]; exact Htok).
  - intros Hst. destruct (jscan_skipped _ _ _ _ H Hsim) as (Ho & Hsim' & Herr).
    apply (IH s' t need depth out); [by rewrite Ho|done|by rewrite Herr|done].
  - intros Hst. cbn in Hst. exists [], t. rewrite app_nil_r. split; [done|]. split; [|done].
    destruct (jscan_failed _ _ _ H) as [->|Hf]; [done|by rewrite Hf in Hst].
Qed.

Lemma eof_sim s t : sim s t → eof t = eof s.
Proof.
  intros [-> |(p & Hp & Hs & ->)]; [done|]. unfold eof. rewrite number_end by done. unfold jscan. by rewrite Hs.
Qed.

(** Indenting what [Indent] returns changes nothing: all it adds or removes are
    spaces that the scanner skips. *)
Lemma Indent_stable src dst : Indent src = Some dst → Indent dst = Some dst.
Proof.
  unfold Indent. set (st := indentLoop src _). destruct (eof (i_scan st)) eqn:He; [|done]. intros [= <-].
  assert (sc_err (i_scan st) = false) as Herr by (unfold eof in He; by destruct (sc_err _)).
  destruct (indentLoop_again src newScanner newScanner false 0 [] eq_refl (or_introl eq_refl) eq_refl Herr)
    as (new & t & Ho & Hsim & Hrun). fold st in Ho, Hsim, Hrun. cbn in Ho.
  rewrite <-Ho in Hrun. rewrite Hrun. cbn. by rewrite (eof_sim _ _ Hsim), He.
Qed.

(** A text that begins with a byte that begins no value is refused. *)
Definition begins_value (c : byte) : bool :=
  is_space c || is_digit c || existsb (byte_is c) [x7b; x5b; x22; x2d; x74; x66; x6e].

Lemma Indent_refuses c src : begins_value c = false → Indent (c :: src) = None.
Proof.
  unfold begins_value. rewrite !orb_false_iff. cbn [existsb]. rewrite !orb_false_iff.
  intros [[Hs Hd] (H1 & H2 & H3 & H4 & H5 & H6 & H7 & _)]. unfold Indent. cbn [indentLoop i_scan].
  assert (byte_is c x30 = false) as H8.
  { apply not_true_is_false. rewrite byte_is_true. intros ->. done. }
  unfold jscan, beginValue. cbn [sc_step newScanner]. by rewrite Hs, H1, H2, H3, H4, H8, H5, H6, H7, Hd.
Qed.

(** ** [bytes.TrimSpace]

    The encodings of the characters that are white space. *)
Definition whiteSpace : list bytes :=
  ((λ c, [c]) <$> [x09; x0a; x0b; x0c; x0d; x20]) ++
  [[xc2; x85]; [xc2; xa0]; [xe1; x9a; x80]] ++
  ((λ c, [xe2; x80; c]) <$> [x80; x81; x82; x83; x84; x85; x86; x87; x88; x89; x8a; xa8; xa9; xaf]) ++
  [[xe2; x81; x9f]; [xe3; x80; x80]].

Fixpoint trimWith (chars : list bytes) (fuel : nat) (b : bytes) : bytes :=
  match fuel with
  | O => b
  | S fuel =>
      match list_find (λ w, has_prefix w b = true) chars with
      | Some (_, w) => trimWith chars fuel (drop (length w) b)
      | None => b
      end
  end.
Definition trimLeft (b : bytes) : bytes := trimWith whiteSpace (length b) b.
Definition trimRight (b : bytes) : bytes := reverse (trimWith (reverse <$> whiteSpace) (length b) (reverse b)).
Definition TrimSpace (b : bytes) : bytes := trimRight (trimLeft b).
