(* ===== verification/Commands.v ===== *)
(** * The commands that ask an access node

    Models of [src/cmd/txinfo/txinfo.go], [src/cmd/tipheight/tipheight.go] and
    [src/cmd/corecontracts/corecontracts.go]: what they print and how they end.
    The texts of errors are left out of the messages. *)
From S2P Require Import Prelude Bytes Text Model Badger Crypto Tools Convert Config IndexDB Txn Indexer Process Api Construct.
From S2P Require Import Access ConstructOnline ConstructOnlineMain Cache Dial Json.
Local Open Scope Z_scope.

(** ** Commands

    A command writes to its standard output and to the log, and changes the
    outside world; a fatal error ends it with status 1. *)
Inductive output := Stdout (s : string) | LogInfo (msg : string) | LogError (msg : string).
Definition command (W A : Type) : Type := W → outcome tool_failure A * list output * W.
#[export] Instance command_mret W : MRet (command W) := λ A a w, (Ok a, [], w).
#[export] Instance command_mbind W : MBind (command W) := λ A B f m w,
  match m w with
  | (Ok a, l, w') => let '(r, l', w'') := f a w' in (r, l ++ l', w'')
  | (Err e, l, w') => (Err e, l, w')
  | (Fatal, l, w') => (Fatal, l, w')
  | (Panic, l, w') => (Panic, l, w')
  end.
Definition write {W} (x : output) : command W unit := λ w, (Ok tt, [x], w).
Definition pureC {W A} (m : outcome tool_failure A) : command W A := λ w, (m, [], w).
(** a call, and its error if there is one *)
Definition callC {W E A} (m : W → outcome E A * W) : command W (A + E) := λ w,
  let '(r, w') := m w in
  (match r with Ok a => Ok (inl a) | Err e => Ok (inr e) | Fatal => Fatal | Panic => Panic end, [], w').
(** a call whose error is fatal *)
Definition callFatal {W E A} (msg : string) (m : W → outcome E A * W) : command W A := λ w,
  let '(r, w') := m w in (fatalOn msg r, [], w').

Definition nl : string := String (Ascii.ascii_of_N 10) "".
Definition concat : list string → string := String.concat "".
Definition text (b : bytes) : string := String.string_of_list_byte b.

(** [strconv.Quote]. *)
Class GoQuote := strconv_Quote : string → string.

(** ** [txinfo] *)

Definition txinfoNetworks : gmap string string :=
  {["mainnet" := "access.mainnet.nodes.onflow.org:9000";
    "testnet" := "access.devnet.nodes.onflow.org:9000";
    "localnet" := "127.0.0.1:3569"]}.

Definition formatTransaction {E} (txn : FlowTransaction) : outcome E string :=
  key ← deref (ft_ProposalKey txn);
  Ok (concat (
    [nl; nl; "# Script"; nl; nl; text (TrimSpace (ft_Script txn)); nl; nl; "# Arguments"; nl] ++
    mjoin (imap (λ idx arg, [nl; "> Arg "; format_int (Z.of_nat idx); nl; nl; text arg]) (ft_Arguments txn)) ++
    [nl; "# Authorizers: ["; String.concat ", " ((λ acct, "0x" +:+ hex_encode acct) <$> ft_Authorizers txn); "]"; nl;
     nl; "# Gas Limit: "; format_int (ft_GasLimit txn); nl;
     nl; "# Payer: 0x"; hex_encode (ft_Payer txn); nl;
     nl; "# Proposal Key:"; nl;
     nl; "    Address: 0x"; hex_encode (pk_Address key);
     nl; "    Key ID: "; format_int (pk_KeyId key);
     nl; "    Sequence Number: "; format_int (pk_SequenceNumber key); nl;
     nl; "# Reference Block Hash: "; hex_encode (ft_ReferenceBlockId txn); nl])).

Section tools.
Context {W : Type} `{!Network W, !PeerCrypto, !GoQuote}.

Definition formatEvent (idx : nat) (evt : Event) : outcome tool_failure (list string) :=
  match Indent (ev_Payload evt) with
  | None => Err (ToolFatal "Failed to JSON-indent event payload")
  | Some dst =>
      Ok [nl; "> "; strconv_Quote (ev_Type evt); " (index "; format_int (Z.of_nat idx); ")"; nl;
          nl; text (TrimSpace dst); nl]
  end.

Definition formatTransactionResult (res : TransactionResultMsg) : outcome tool_failure string :=
  let r := trm_Result res in
  events ← foldM (λ acc ie, s ← formatEvent ie.1 ie.2; Ok (acc ++ s)) []
             (imap (λ idx evt, (idx, evt)) (tr_Events r));
  Ok (concat (
    [nl; nl; "# Block Height: "; format_int (trm_BlockHeight res); nl;
     nl; "# Block ID: "; hex_encode (tr_BlockId r); nl;
     nl; "# Error Message: "; strconv_Quote (tr_ErrorMessage r); nl;
     nl; "# Events"; nl] ++ events ++
    [nl; "# Status: "; format_int (trm_Status res); nl;
     nl; "# Status Code: "; format_int (tr_StatusCode r); nl])).

(** a client of the only node of a new pool *)
Definition newClient (dial : string → credential → bool) (addr : string) : command W string :=
  pool ← pureC (match Access_New dial [mkNodeConfig addr "" false] false with
                | Ok p => Ok p
                | Panic => Panic
                | _ => Err (ToolFatal "Failed to dial Flow Access API server")
                end);
  callFatal "" (Pool_Client (dl_addr <$> pool)).

Definition txinfo (dial : string → credential → bool) (args : list string) : command W unit :=
  match args with
  | [network; txhash] =>
      addr ← pureC (match txinfoNetworks !! network with
                    | Some addr => Ok addr
                    | None => Err (ToolFatal "Unsupported network")
                    end);
      hash ← pureC (match hex_decode txhash with
                    | Some hash => Ok hash
                    | None => Err (ToolFatal "Failed to hex-decode txhash")
                    end);
      server ← newClient dial addr;
      let client := direct_invoke server in
      txn ← callFatal "Failed to fetch transaction" (Client_Transaction client false hash);
      txn ← pureC (deref txn);
      shown ← pureC (formatTransaction txn);
      _ ← write (LogInfo (concat ["Transaction "; hex_encode hash; ":"; shown]));
      result ← callFatal "Failed to fetch transaction result" (Client_TransactionResultByHash client false hash);
      shown ← pureC (formatTransactionResult result);
      write (LogInfo (concat ["Transaction result for "; hex_encode hash; ":"; shown]))
  | _ => _ ← write (Stdout (println "Usage: txinfo mainnet|testnet <txhash>")); pureC (Err Usage)
  end.

(** ** [tipheight] *)

Definition tipNetworks : list (string * string) :=
  [("mainnet", "access.mainnet.nodes.onflow.org:9000"); ("testnet", "access.devnet.nodes.onflow.org:9000");
   ("localnet", "127.0.0.1:3569")].

Definition tipOf (dial : string → credential → bool) (network : string * string) : command W unit :=
  server ← newClient dial network.2;
  r ← callC (Client_LatestBlockHeader (direct_invoke server) false);
  match r with
  | inr _ => write (LogError ("Failed to fetch latest block on " +:+ network.1))
  | inl latest =>
      latest ← pureC (deref latest);
      write (LogInfo (concat ["Latest block on "; network.1; " is "; hex_encode (bh_Id latest); " at height ";
                              format_int (bh_Height latest)]))
  end.

Definition tipheight (dial : string → credential → bool) : command W unit :=
  foldr (λ network rest, _ ← tipOf dial network; rest) (mret tt) tipNetworks.

(** ** [corecontracts] *)

(** [AddressAtIndex] of a chain; the addresses it returns print as hexadecimal. *)
Context (AddressAtIndex : string → Z → option bytes).

Definition pad16 (s : string) : string :=
  String.string_of_list_ascii (replicate (16 - String.length s) (Ascii.ascii_of_N 32)) +:+ s.

Definition printAddr (chain name : string) (idx : Z) : command W unit :=
  match AddressAtIndex chain idx with
  | None => pureC (Err (ToolFatal "Failed to get address"))
  | Some addr => write (Stdout (concat [pad16 name; " Address: 0x"; hex_encode addr; nl]))
  end.

Definition coreContracts : list (string * Z) :=
  [("Zero", 0); ("Service", 1); ("Fungible Token", 2); ("Flow Token", 3); ("Flow Fees", 4)].

Definition chainContracts (network : string) : command W unit :=
  _ ← write (Stdout (concat [network; ":"; nl; nl]));
  _ ← foldr (λ c rest, _ ← printAddr network c.1 c.2; rest) (mret tt) coreContracts;
  write (Stdout nl).

Definition corecontracts : command W unit :=
  foldr (λ network rest, _ ← chainContracts network; rest) (mret tt)
    ["flow-mainnet"; "flow-testnet"; "flow-localnet"; "flow-emulator"].
End tools.

(** ** What [txinfo] shows *)
Section theorems.
Context {W : Type} `{!Network W, !PeerCrypto, !GoQuote}.

Lemma formatEvents_Ok (acc : list string) (k : nat) (events : list Event) :
  Forall (λ e, is_Some (Indent (ev_Payload e))) events →
  ∃ shown, foldM (λ acc ie, s ← formatEvent ie.1 ie.2; Ok (acc ++ s)) acc
    (imap (λ idx evt, ((k + idx)%nat, evt)) events) = Ok shown.
Proof.
  intros HF. revert acc k. induction HF as [|e events [dst He] _ IH]; intros acc k; [by eexists|].
  cbn. assert (∃ l, formatEvent (k + 0) e = Ok l) as [l ->] by (unfold formatEvent; rewrite He; eauto). cbn.
  rewrite (imap_ext _ (λ idx evt, ((S k + idx)%nat, evt))) by (intros; cbn; f_equal; lia). apply IH.
Qed.

Lemma formatEvents_Err (acc : list string) (k : nat) (events : list Event) e :
  e ∈ events → Indent (ev_Payload e) = None →
  foldM (λ acc ie, s ← formatEvent ie.1 ie.2; Ok (acc ++ s)) acc
    (imap (λ idx evt, ((k + idx)%nat, evt)) events) = Err (ToolFatal "Failed to JSON-indent event payload").
Proof.
  intros Hin He. revert acc k. induction events as [|e' events IH]; intros acc k; [by apply elem_of_nil in Hin|].
  cbn. destruct (formatEvent (k + 0) e') as [l|x| |] eqn:Hf; unfold formatEvent in Hf;
    destruct (Indent (ev_Payload e')) eqn:He'; simplify_eq; cbn; [|done].
  apply elem_of_cons in Hin as [->|Hin]; [congruence|].
  rewrite (imap_ext _ (λ idx evt, ((S k + idx)%nat, evt))) by (intros; cbn; f_equal; lia). by apply IH.
Qed.

Lemma newClient_Ok (dial : string → credential → bool) addr n (w w1 : W) :
  dial addr InsecureCredentials = true → rand_Int w = (n, w1) → newClient dial addr w = (Ok addr, [], w1).
Proof.
  intros Hdial Hrand.
  assert (Access_New dial [mkNodeConfig addr "" false] false = Ok [mkDialled addr InsecureCredentials false]) as Hp.
  { unfold Access_New, credentialFor. cbn. rewrite bool_decide_eq_true_2 by done. cbn. by rewrite Hdial. }
  unfold newClient, pureC, callFatal, mbind, command_mbind. rewrite Hp. unfold Pool_Client. cbn [fmap].
  rewrite Hrand. cbn. by rewrite Z.mod_1_r.
Qed.

(** C37: [txinfo] prints the transaction and then its result when the payloads of
    all events are JSON texts. It asks the node for payloads in the CCF encoding,
    though, and those begin with the byte D8: with any such event it prints the
    transaction and ends with a fatal error, without the result. *)
Theorem txinfo_needs_json (dial : string → credential → bool) network txhash addr hash n txn key res
    (w w1 w2 w3 : W) :
  txinfoNetworks !! network = Some addr → hex_decode txhash = Some hash →
  dial addr InsecureCredentials = true → rand_Int w = (n, w1) →
  Client_Transaction (direct_invoke addr) false hash w1 = (Ok (Some txn), w2) → ft_ProposalKey txn = Some key →
  Client_TransactionResultByHash (direct_invoke addr) false hash w2 = (Ok res, w3) →
  ∃ shown, formatTransaction (E:=tool_failure) txn = Ok shown ∧
    let first := LogInfo (concat ["Transaction "; hex_encode hash; ":"; shown]) in
    (Forall (λ e, is_Some (Indent (ev_Payload e))) (tr_Events (trm_Result res)) →
     ∃ shown', formatTransactionResult res = Ok shown' ∧
       txinfo dial [network; txhash] w =
       (Ok tt, [first; LogInfo (concat ["Transaction result for "; hex_encode hash; ":"; shown'])], w3)) ∧
    (∀ e, e ∈ tr_Events (trm_Result res) → head (ev_Payload e) = Some xd8 →
       txinfo dial [network; txhash] w =
       (Err (ToolFatal "Failed to JSON-indent event payload"), [first], w3)).
Proof.
  intros Haddr Hhash Hdial Hrand Htxn Hkey Hres.
  destruct (formatTransaction (E:=tool_failure) txn) as [shown| | |] eqn:Hshown;
    [|unfold formatTransaction in Hshown; rewrite Hkey in Hshown; discriminate Hshown..].
  exists shown. split; [done|]. intros first.
  assert (txinfo dial [network; txhash] w =
    match formatTransactionResult res with
    | Ok shown' => (Ok tt, [first; LogInfo (concat ["Transaction result for "; hex_encode hash; ":"; shown'])], w3)
    | Err e => (Err e, [first], w3) | Fatal => (Fatal, [first], w3) | Panic => (Panic, [first], w3)
    end) as ->.
  { unfold txinfo, pureC, callFatal, write, mbind, command_mbind. rewrite Haddr, Hhash.
    rewrite (newClient_Ok _ _ _ _ _ Hdial Hrand), Htxn. cbn [fatalOn deref]. rewrite Hshown, Hres. cbn [fatalOn].
    by destruct (formatTransactionResult res). }
  split.
  - intros HF. destruct (formatEvents_Ok [] 0 _ HF) as [l Hl].
    unfold formatTransactionResult. cbn [Nat.add] in Hl. rewrite Hl. by eexists.
  - intros e Hin Hhead. destruct (ev_Payload e) as [|c payload] eqn:Hp; [done|]. injection Hhead as ->.
    assert (Indent (ev_Payload e) = None) as Hn by (rewrite Hp; by apply Indent_refuses).
    pose proof (formatEvents_Err [] 0 _ e Hin Hn) as Hl. cbn [Nat.add] in Hl.
    unfold formatTransactionResult. by rewrite Hl.
Qed.
End theorems.

(** ** Runs *)
Module CommandsDemo.
#[local] Existing Instance DialDemo.crypto.
#[local] Instance quoted : GoQuote := quote.
Definition txn : FlowTransaction := mkFlowTransaction [x0a; x61; x20] [] [] 10 (Some (mkProposalKey [] 0 7)) [x01] [] [] [].
(** an event with a CCF message as payload *)
Definition event : Event := mkEvent "A.Tokens.Withdrawn" [x77] 0 0 [xd8; x82; x82].
Definition answer (events : list Event) : TransactionResultMsg :=
  mkTransactionResultMsg 7 4 (mkTransactionResult 0 "" events [xcc] [x77] []).
#[local] Instance net : Network nat := {|
  network_invoke _ r :=
    match r return unary nat (response r) with
    | GetTransaction _ _ => λ w, (Ok (Some txn), ∅, S w)
    | GetTransactionResult _ _ => λ w, (Ok (answer [event]), ∅, S w)
    | _ => λ w, (Err (errorf "not found"), ∅, S w)
    end;
  rand_Int w := (5, w);
  ctx_Err w := (None, w);
|}.

Lemma txinfo_needs_json_witness : ∃ shown, formatTransaction (E:=tool_failure) txn = Ok shown ∧
  txinfo (λ _ _, true) ["testnet"; "ab"] 0%nat =
  (Err (ToolFatal "Failed to JSON-indent event payload"),
   [LogInfo (concat ["Transaction "; "ab"; ":"; shown])], 2%nat).
Proof.
  destruct (txinfo_needs_json (λ _ _, true) "testnet" "ab" "access.devnet.nodes.onflow.org:9000" [xab] 5 txn
    (mkProposalKey [] 0 7) (answer [event]) 0%nat 0%nat 1%nat 2%nat) as (shown & Hs & _ & Hf);
    [vm_compute; reflexivity..|].
  exists shown. split; [exact Hs|]. apply (Hf event); [by left|reflexivity].
Defined.
End CommandsDemo.
