(* ===== verification/Call.v ===== *)
(** * The remaining endpoints

    Model of [src/api/call_service.go], [src/api/network_service.go],
    [src/api/mempool_service.go] and of [validateFeeReceivers] in
    [src/api/validate.go]: handlers that ask an access node or report the state
    of the server. *)
From S2P Require Import Prelude Bytes Text Model Badger Crypto Convert Config IndexDB Indexer Process Txn Api Construct Access ConstructOnline.
Local Open Scope Z_scope.

(** Structs among the Cadence values, and [cadence.FieldsMappedByName] on them. *)
Class CadenceStruct `{Cadence} := {
  as_Struct : cadence_Value → option (gmap string cadence_Value);
}.

(** [flow.ChainID(id).Chain().IsValid(addr)]; an unknown chain makes it panic. *)
Class FlowAddresses := { chain_IsValid : string → bytes → option bool }.

(** ** Results of /call *)

Record accountKey := mkAccountKeyJSON {
  HashAlgorithm : Z;
  KeyIndex : Z;
  PublicKey : string;
  SequenceNumber : Z;
  SignatureAlgorithm : Z;
  Weight : Z;
}.

(** The dynamic types of the values that the handlers put into a result. *)
Inductive value :=
  | VParam (a : any)
  | VString (s : string)
  | VBool (b : bool)
  | VInt (n : Z)
  | VKeys (l : list accountKey)
  | VAccounts (m : gmap string AccountInfo).

Record CallResponse := mkCallResponse { cr_Idempotent : bool; cr_Result : gmap string value }.

Definition callAccountBalances : string := "account_balances".
Definition callAccountPublicKeys : string := "account_public_keys".
Definition callBalanceValidationStatus : string := "balance_validation_status".
Definition callEcho : string := "echo".
Definition callLatestBlock : string := "latest_block".
Definition callListAccounts : string := "list_accounts".
Definition callVerifyAddress : string := "verify_address".

Definition callMethods : list string :=
  [callAccountBalances; callAccountPublicKeys; callBalanceValidationStatus; callEcho; callLatestBlock;
   callListAccounts; callVerifyAddress].
Definition opTypes : list string :=
  [opCreateAccount; opCreateProxyAccount; opDeployContract; opFee; opProxyTransfer; opProxyTransferInner;
   opTransfer; opUpdateContract].

(** ** Helpers *)

Definition handleExecutionErr (e : grpc_err) : api_err :=
  if contains (ge_Error e) "get register failed" then errMissingData else errInternal.

Definition getAccountParam (params : gmap string any) : api bytes :=
  raw ← getString errInvalidAccountAddress params "account";
  getAccount raw.

(** A call whose error depends on what the node says. *)
Definition call_with {W A} (f : grpc_err → api_err) (m : rpc W A) : io W A :=
  r ← try m; pureIO (match r with inl a => Ok a | inr e => Err (f e) end).

Definition echo (params : gmap string any) : api CallResponse := Ok (mkCallResponse true (VParam <$> params)).

Definition balanceValidationStatus (v : Validation.validation) : api CallResponse :=
  let status := VString (Validation.v_status v) in
  if bool_decide (Validation.v_status v = "failure") then
    Ok (mkCallResponse false (<["error" := VString (Validation.v_err v)]> {["status" := status]}))
  else if bool_decide (Validation.v_status v = "in_progress") then
    Ok (mkCallResponse false (<["accounts" := VInt (Validation.v_accounts v)]>
      (<["checked" := VInt (Validation.v_checked v)]> {["status" := status]})))
  else if bool_decide (Validation.v_status v = "not_started") then
    Ok (mkCallResponse false {["status" := status]})
  else if bool_decide (Validation.v_status v = "success") then
    Ok (mkCallResponse false (<["accounts" := VInt (Validation.v_accounts v)]> {["status" := status]}))
  else Fatal.

(** The key as /call reports it; only secp256k1 keys are converted. *)
Definition shownKey `{!Secp256k1} (key : AccountKey) : api accountKey :=
  pub ← (if ak_SignAlgo key =? 3 then of_outcome errInternal (ConvertFlowPublicKey (ak_PublicKey key))
         else Ok (ak_PublicKey key));
  Ok (mkAccountKeyJSON (ak_HashAlgo key) (ak_Index key) (hex_encode pub) (ak_SequenceNumber key)
        (ak_SignAlgo key) 0).

(** The loop over the keys of the account. *)
Definition shownKeys `{!Secp256k1} (keys : list AccountKey) : api (list accountKey) :=
  foldM (λ shown key, if ak_Revoked key then Ok shown else k ← shownKey key; Ok (shown ++ [k])) [] keys.

(** The fields of the balance scripts' result. *)
Definition decodeOnchainData `{!Cadence, !CadenceJSON, !CadenceStruct} (resp : cadence_Value)
    : api Validation.onchainData :=
  fields ← of_option errInternal (as_Struct resp);
  _ ← reject (negb (bool_decide (size fields = 3%nat))) errInternal;
  defaultBalance ← of_option errInternal (fields !! "default_balance" ≫= as_UFix64);
  isProxy ← of_option errInternal (fields !! "is_proxy" ≫= as_Bool);
  proxyBalance ← of_option errInternal (fields !! "proxy_balance" ≫= as_UFix64);
  Ok (Validation.mkOnchainData defaultBalance isProxy proxyBalance).

Section call.
Context {W DB : Type} (client : string → invoker W).
Context `{!Network W, !Cadence, !CadenceJSON, !CadenceStruct, !Secp256k1, !FlowAddresses}.
Context `{!Badger DB, !Proto IndexedBlock, !Proto BlockMeta}.
Implicit Types sv : Server DB.

Definition getOnchainData sv (addr block : bytes) : io W Validation.onchainData :=
  server ← Pool_Client (sv_DataAccessNodes sv);
  let script := if IsProxyContractDeployed (sv_Contracts sv) then scriptGetBalances (sv_scripts sv)
                else scriptGetBalancesBasic (sv_scripts sv) in
  resp ← call_with handleExecutionErr
           (Client_Execute (client server) false block script [cadence_BytesToAddress addr]);
  pureIO (decodeOnchainData resp).

(** ** /call *)

Definition accountBalances sv (params : gmap string any) : io W CallResponse :=
  if sv_Offline sv then pureIO (Err errOfflineMode)
  else
    addr ← pureIO (getAccountParam params);
    r ← (match params !! "block_hash" with
         | Some param =>
             hash ← pureIO (match param with
                            | AString raw => of_option errInvalidBlockHash (hex_decode raw)
                            | _ => Err errInvalidBlockHash
                            end);
             mret (true, hash)
         | None =>
             server ← Pool_Client (sv_DataAccessNodes sv);
             latest ← call_or errInternal (Client_LatestBlockHeader (client server) false);
             latest ← pureIO (deref latest);
             mret (false, bh_Id latest)
         end);
    onchain ← getOnchainData sv addr r.2;
    mret (mkCallResponse r.1
      (<["default_balance" := VString (format_int (Validation.DefaultBalance onchain))]>
       (<["is_proxy" := VBool (Validation.IsProxy onchain)]>
        {["proxy_balance" := VString (format_int (Validation.ProxyBalance onchain))]}))).

(** The key of the account's proxy vault, appended to the keys found. *)
Definition proxyKeys sv (inv : invoker W) (addr : bytes) (keys : list accountKey) : io W (list accountKey) :=
  latest ← call_or errInternal (Client_LatestBlockHeader inv false);
  latest ← pureIO (deref latest);
  resp ← call_with handleExecutionErr
           (Client_Execute inv false (bh_Id latest) (scriptGetProxyPublicKey (sv_scripts sv))
              [cadence_BytesToAddress addr]);
  rawKey ← pureIO (of_option errInternal (as_String resp));
  if is_empty rawKey then mret keys
  else
    _ ← pureIO (reject (negb (bool_decide (keys = []))) errInternal);
    pub ← pureIO (of_option errInternal (hex_decode rawKey));
    pub ← pureIO (of_outcome errInternal (ConvertFlowPublicKey pub));
    mret (keys ++ [mkAccountKeyJSON 0 0 (hex_encode pub) 0 0 0]).

Definition accountPublicKeys sv (params : gmap string any) : io W CallResponse :=
  if sv_Offline sv then pureIO (Err errOfflineMode)
  else
    addr ← pureIO (getAccountParam params);
    server ← Pool_Client (sv_DataAccessNodes sv);
    let inv := client server in
    acct ← call_or errInternal (Client_Account inv false addr);
    keys ← pureIO (shownKeys (ac_Keys acct));
    keys ← (if IsProxyContractDeployed (sv_Contracts sv) then proxyKeys sv inv addr keys else mret keys);
    mret (mkCallResponse false {["keys" := VKeys keys]}).

Definition latestBlock sv : io W CallResponse :=
  server ← Pool_Client (sv_DataAccessNodes sv);
  block ← call_or errInternal (Client_LatestBlockHeader (client server) false);
  block ← pureIO (deref block);
  mret (mkCallResponse false
    (<["block_hash" := VString (hex_encode (bh_Id block))]>
     (<["block_height" := VString (format_int (bh_Height block))]>
      {["block_timestamp" := VString (format_int (bh_Timestamp block))]}))).

Definition listAccounts sv : api CallResponse :=
  accts ← of_outcome errInternal (AccountsInfo (sv_Index sv));
  Ok (mkCallResponse false {["accounts" := VAccounts accts]}).

Definition invalidAddress (msg : string) : CallResponse :=
  mkCallResponse false (<["error" := VString msg]> {["valid" := VBool false]}).

Definition verifyAddress sv (params : gmap string any) : io W CallResponse :=
  if sv_Offline sv then pureIO (Err errOfflineMode)
  else
    match getAccountParam params with
    | Err _ => mret (invalidAddress "invalid Flow address format")
    | Fatal => pureIO Fatal
    | Panic => pureIO Panic
    | Ok acct =>
        valid ← pureIO (match chain_IsValid ("flow-" +:+ sv_Network sv) acct with Some b => Ok b | None => Panic end);
        if negb valid then mret (invalidAddress ("invalid address for Flow " +:+ sv_Network sv))
        else
          server ← Pool_Client (sv_DataAccessNodes sv);
          r ← try (Client_Account (client server) false acct);
          match r with
          | inr e =>
              if contains (ge_Error e) "account not found"
              then mret (invalidAddress ("account not found on Flow " +:+ sv_Network sv))
              else pureIO (Err errInternal)
          | inl _ => mret (mkCallResponse false {["valid" := VBool true]})
          end
    end.

Definition Call sv (st : Validation.state) (meth : string) (params : gmap string any) : io W CallResponse :=
  if bool_decide (meth = callAccountBalances) then accountBalances sv params
  else if bool_decide (meth = callAccountPublicKeys) then accountPublicKeys sv params
  else if bool_decide (meth = callBalanceValidationStatus) then
    pureIO (balanceValidationStatus (Validation.status st))
  else if bool_decide (meth = callEcho) then pureIO (echo params)
  else if bool_decide (meth = callLatestBlock) then latestBlock sv
  else if bool_decide (meth = callListAccounts) then pureIO (listAccounts sv)
  else if bool_decide (meth = callVerifyAddress) then verifyAddress sv params
  else pureIO (Err errNotImplemented).

End call.
