(* ===== verification/Serve.v ===== *)
(** * The server

    Model of [src/api/network_service.go], [src/api/mempool_service.go], the
    check of the fee receivers in [src/api/validate.go], and of
    [src/api/wrapper.go]: every endpoint as the router calls it. *)
From S2P Require Import Prelude Bytes Text Model Badger Crypto Convert Config IndexDB Indexer Process Txn Api Construct Access ConstructOnline Call.
Local Open Scope Z_scope.

(** ** /network and /mempool *)

Record NetworkIdentifier := mkNetworkIdentifier { ni_Blockchain : string; ni_Network : string }.
Record NetworkOptionsResponse := mkNetworkOptionsResponse {
  no_CallMethods : list string;
  no_Errors : list (Z * bool);
  no_HistoricalBalanceLookup : bool;
  no_OperationStatuses : list (string * bool);
  no_OperationTypes : list string;
  no_MiddlewareVersion : string;
  no_NodeVersion : string;
}.
Record NetworkStatusResponse := mkNetworkStatusResponse {
  ns_CurrentBlock : BlockIdentifier;
  ns_CurrentTimestamp : Z;
  ns_GenesisBlock : BlockIdentifier;
  ns_Synced : bool;
}.

(** The errors in the order of their definition. *)
Definition serverErrors : list api_err :=
  [errBroadcastFailed; errNotImplemented; errOfflineMode; errTransactionNotInMempool;
   errInvalidNumberOfAccountKeys; errTransactionExpired; errInvalidKeyID;
   errInternal; errMissingData; errProtobuf;
   errInvalidAccountAddress; errInvalidBlockHash; errInvalidBlockIdentifier;
   errInvalidBlockIndex; errInvalidConstructOptions; errInvalidCurrency;
   errInvalidMetadataField; errInvalidOpsIntent; errInvalidSignature;
   errInvalidTransactionHash; errInvalidTransactionPayload; errUnknownTransactionHash;
   errAccessNodeInaccessible; errBlockNotIndexed; errRateLimited;
   errInvalidIndexedState; errFailedAccessAPICall].

Definition version_Flow : string := "0.38.0-rc.8".
Definition version_FlowRosetta : string := "0.8.9".

Section endpoints.
Context {DB : Type} `{!Badger DB, !Proto IndexedBlock, !Proto BlockMeta}.
Implicit Types sv : Server DB.

Definition NetworkList sv : api (list NetworkIdentifier) := Ok [mkNetworkIdentifier "flow" (sv_Network sv)].

Definition NetworkOptions : api NetworkOptionsResponse :=
  Ok (mkNetworkOptionsResponse callMethods (error_code <$> serverErrors) true
        [(statusSuccess, true); (statusFailed, false)] opTypes version_FlowRosetta version_Flow).

Definition NetworkStatus sv : api NetworkStatusResponse :=
  if sv_Offline sv then Err errOfflineMode
  else
    l ← of_index (Latest (sv_Index sv));
    latest ← deref l.2;
    genesis ← deref (sv_genesis sv);
    Ok (mkNetworkStatusResponse (mkBlockIdentifier (hex_encode (bm_Hash latest)) (s64 (bm_Height latest)))
          (s64 (bm_Timestamp latest / 1000000))
          (mkBlockIdentifier (hex_encode (bm_Hash genesis)) (s64 (bm_Height genesis))) (sv_Synced sv)).

Definition Mempool sv : api (list string) := if sv_Offline sv then Err errOfflineMode else Ok [].

Definition MempoolTransaction sv : api unit :=
  if sv_Offline sv then Err errOfflineMode else Err errTransactionNotInMempool.
End endpoints.

(** ** [validateFeeReceivers]

    How the check ends: the context was done, the answer had the wrong type,
    every receiver is configured, or no node answered. *)
Inductive fee_check := Cancelled | Unreadable | Validated | GaveUp.

Section fees.
Context {W DB : Type} (client : string → invoker W).
Context `{!Network W, !Cadence, !CadenceJSON}.
Implicit Types sv : Server DB.

Definition checkReceivers sv (resp : cadence_Value) : api fee_check :=
  match as_Array resp with
  | None => Ok Unreadable
  | Some vals =>
      match mapM as_Address vals with
      | None => Ok Unreadable
      | Some addrs =>
          if bool_decide (filter (λ a, map_at false (sv_feeAddrs sv) a = false) addrs = []) then Ok Validated
          else Fatal
      end
  end.

Fixpoint feeAttempts sv (attempts : nat) : io W fee_check :=
  match attempts with
  | O => mret GaveUp
  | S attempts =>
      λ w, let '(cancelled, w) := ctx_Err w in
      match cancelled with
      | Some _ => (Ok Cancelled, w)
      | None =>
          (server ← Pool_Client (sv_DataAccessNodes sv);
           r ← try (Client_LatestBlockHeader (client server) false);
           match r with
           | inr _ => feeAttempts sv attempts
           | inl latest =>
               latest ← pureIO (deref latest);
               r ← try (Client_Execute (client server) false (bh_Id latest) (scriptGetFeeReceivers (sv_scripts sv)) []);
               match r with
               | inr _ => feeAttempts sv attempts
               | inl resp => pureIO (checkReceivers sv resp)
               end
           end) w
      end
  end.

(** [None] when there is nothing to check. *)
Definition validateFeeReceivers sv : io W (option fee_check) :=
  if sv_Offline sv then mret None else r ← feeAttempts sv 5; mret (Some r).
End fees.

(** ** [Wrapper]

    What a request meets before its handler: nothing, or the check of the
    recorded error ([gate] for handlers that make no call). *)
Definition ungated {W A} (handler : io W A) : W → outcome (api_err + string) A * W := λ w,
  match handler w with
  | (Ok a, w) => (Ok a, w)
  | (Err e, w) => (Err (inl e), w)
  | (Fatal, w) => (Fatal, w)
  | (Panic, w) => (Panic, w)
  end.
Definition gated {W A} (st : Validation.state) (handler : io W A) : W → outcome (api_err + string) A * W :=
  match Validation.indexedStateErr st with
  | Some msg => λ w, (Err (inr msg), w)
  | None => ungated handler
  end.

(** The requests of the API with the fields the handlers read. *)
Inductive Request :=
  | AccountBalanceRequest (account : option string) (currencies : list (option Currency)) (block : option PartialBlockIdentifier)
  | AccountCoinsRequest
  | BlockRequest (block : option PartialBlockIdentifier)
  | BlockTransactionRequest (block : option BlockIdentifier) (txn : option string)
  | CallRequest (meth : string) (params : gmap string any)
  | ConstructionCombineRequest (unsigned : string) (signatures : list (option slice))
  | ConstructionDeriveRequest
  | ConstructionHashRequest (signed : string)
  | ConstructionMetadataRequest (options : gmap string any)
  | ConstructionParseRequest (transaction : string) (signed : bool)
  | ConstructionPayloadsRequest (metadata : gmap string any) (ops : list (option RosettaOperation))
  | ConstructionPreprocessRequest (ops : list (option RosettaOperation)) (metadata : gmap string any)
  | ConstructionSubmitRequest (signed : string)
  | MempoolRequest
  | MempoolTransactionRequest
  | NetworkListRequest
  | NetworkOptionsRequest
  | NetworkStatusRequest.

Definition Response (r : Request) : Type :=
  match r with
  | AccountBalanceRequest _ _ _ => AccountBalanceResponse
  | AccountCoinsRequest => unit
  | BlockRequest _ => BlockResponse
  | BlockTransactionRequest _ _ => RosettaTransaction
  | CallRequest _ _ => CallResponse
  | ConstructionCombineRequest _ _ => string
  | ConstructionDeriveRequest => unit
  | ConstructionHashRequest _ => string
  | ConstructionMetadataRequest _ => MetadataResponse
  | ConstructionParseRequest _ _ => ParseResponse
  | ConstructionPayloadsRequest _ _ => PayloadsResponse
  | ConstructionPreprocessRequest _ _ => gmap string any
  | ConstructionSubmitRequest _ => string
  | MempoolRequest => list string
  | MempoolTransactionRequest => unit
  | NetworkListRequest => list NetworkIdentifier
  | NetworkOptionsRequest => NetworkOptionsResponse
  | NetworkStatusRequest => NetworkStatusResponse
  end.

Section wrapper.
Context {W DB : Type} (client : string → invoker W).
Context `{!Network W, !DataAccess, !Cadence, !CadenceJSON, !CadenceStruct, !Parser, !GoFloat}.
Context `{!Secp256k1, !Sha3, !FlowAddresses}.
Context `{!RLP flowEnvelope, !RLP flowTransaction, !Proto FlowTransaction, !Proto ConstructOpts}.
Context `{!Badger DB, !Proto IndexedBlock, !Proto BlockMeta}.
Context (sv : Server DB) (st : Validation.state).

Definition Wrapper_AccountBalance account currencies block :=
  gated (W:=W) st (pureIO (AccountBalance sv account currencies block)).
Definition Wrapper_AccountCoins := gated (W:=W) st (pureIO (AccountCoins sv)).
Definition Wrapper_Block block := gated (W:=W) st (pureIO (Block sv block)).
Definition Wrapper_BlockTransaction block txn := gated (W:=W) st (pureIO (BlockTransaction sv block txn)).
Definition Wrapper_Call meth params := ungated (Call client sv st meth params).
Definition Wrapper_ConstructionCombine unsigned signatures :=
  gated (W:=W) st (pureIO (ConstructionCombine unsigned signatures)).
Definition Wrapper_ConstructionDerive := gated (W:=W) st (pureIO ConstructionDerive).
Definition Wrapper_ConstructionHash signed := gated (W:=W) st (pureIO (ConstructionHash signed)).
Definition Wrapper_ConstructionMetadata options := gated st (ConstructionMetadata client sv options).
Definition Wrapper_ConstructionParse transaction signed :=
  gated (W:=W) st (pureIO (ConstructionParse sv transaction signed)).
Definition Wrapper_ConstructionPayloads metadata ops :=
  gated (W:=W) st (pureIO (ConstructionPayloads sv metadata ops)).
Definition Wrapper_ConstructionPreprocess ops metadata :=
  gated (W:=W) st (pureIO (ConstructionPreprocess sv ops metadata)).
Definition Wrapper_ConstructionSubmit signed := gated st (ConstructionSubmit client sv signed).
Definition Wrapper_Mempool := gated (W:=W) st (pureIO (Mempool sv)).
Definition Wrapper_MempoolTransaction := gated (W:=W) st (pureIO (MempoolTransaction sv)).
Definition Wrapper_NetworkList := ungated (W:=W) (pureIO (NetworkList sv)).
Definition Wrapper_NetworkOptions := ungated (W:=W) (pureIO NetworkOptions).
Definition Wrapper_NetworkStatus := ungated (W:=W) (pureIO (NetworkStatus sv)).

(** The handlers that the router is built from. *)
Definition serve (r : Request) : W → outcome (api_err + string) (Response r) * W :=
  match r return W → outcome (api_err + string) (Response r) * W with
  | AccountBalanceRequest account currencies block => Wrapper_AccountBalance account currencies block
  | AccountCoinsRequest => Wrapper_AccountCoins
  | BlockRequest block => Wrapper_Block block
  | BlockTransactionRequest block txn => Wrapper_BlockTransaction block txn
  | CallRequest meth params => Wrapper_Call meth params
  | ConstructionCombineRequest unsigned signatures => Wrapper_ConstructionCombine unsigned signatures
  | ConstructionDeriveRequest => Wrapper_ConstructionDerive
  | ConstructionHashRequest signed => Wrapper_ConstructionHash signed
  | ConstructionMetadataRequest options => Wrapper_ConstructionMetadata options
  | ConstructionParseRequest transaction signed => Wrapper_ConstructionParse transaction signed
  | ConstructionPayloadsRequest metadata ops => Wrapper_ConstructionPayloads metadata ops
  | ConstructionPreprocessRequest ops metadata => Wrapper_ConstructionPreprocess ops metadata
  | ConstructionSubmitRequest signed => Wrapper_ConstructionSubmit signed
  | MempoolRequest => Wrapper_Mempool
  | MempoolTransactionRequest => Wrapper_MempoolTransaction
  | NetworkListRequest => Wrapper_NetworkList
  | NetworkOptionsRequest => Wrapper_NetworkOptions
  | NetworkStatusRequest => Wrapper_NetworkStatus
  end.
End wrapper.
