(* ===== verification/ServeMain.v ===== *)
(** * Correctness of the server as a whole

    The recorded index error on every endpoint, the offline mode, the check of
    the fee receivers, and the results of /call. *)
From S2P Require Import Prelude Bytes Text Model Badger Crypto Convert Config IndexDB Indexer Process Txn Api Construct ConstructProofs ColdStorage ConstructMain Access ConstructOnline ConstructOnlineMain Call Serve.
Local Open Scope Z_scope.
#[local] Existing Instance logged_network.

(** ** The recorded error *)

(** What the validation loop may do to the shared state. *)
Inductive vstep : Validation.state → Validation.state → Prop :=
  | vstep_err msg st : vstep st (Validation.setIndexedStateErr msg st)
  | vstep_progress n k st : vstep st (Validation.setValidationProgress n k st)
  | vstep_success n st : vstep st (Validation.setValidationSuccess n st).

(** The first error, once recorded. *)
Definition failed_with (msg : string) (st : Validation.state) : Prop :=
  Validation.indexedStateErr st = Some msg ∧
  Validation.v_status (Validation.status st) = "failure" ∧ Validation.v_err (Validation.status st) = msg.

Lemma vstep_failed msg st st' : vstep st st' → failed_with msg st → failed_with msg st'.
Proof.
  unfold failed_with. intros [] (He & Hs & Hm);
    unfold Validation.setIndexedStateErr, Validation.setValidationProgress, Validation.setValidationSuccess;
    rewrite Hs; simpl; by rewrite ?He.
Qed.

Lemma setIndexedStateErr_failed msg st :
  Validation.indexedStateErr st = None → Validation.v_status (Validation.status st) ≠ "failure" →
  failed_with msg (Validation.setIndexedStateErr msg st).
Proof.
  intros He Hs. unfold failed_with, Validation.setIndexedStateErr.
  by rewrite He, bool_decide_eq_false_2.
Qed.

(** Unfolds an endpoint down to its handler. *)
Ltac open_wrapper :=
  unfold serve; cbv delta
      [Wrapper_AccountBalance Wrapper_AccountCoins Wrapper_Block Wrapper_BlockTransaction Wrapper_ConstructionCombine
       Wrapper_ConstructionDerive Wrapper_ConstructionHash Wrapper_ConstructionMetadata Wrapper_ConstructionParse
       Wrapper_ConstructionPayloads Wrapper_ConstructionPreprocess Wrapper_ConstructionSubmit Wrapper_Mempool
       Wrapper_MempoolTransaction Wrapper_NetworkList Wrapper_NetworkOptions Wrapper_NetworkStatus Wrapper_Call] beta.

(** The requests answered whatever the state of the index. *)
Definition always_served (r : Request) : bool :=
  match r with
  | CallRequest _ _ | NetworkListRequest | NetworkOptionsRequest | NetworkStatusRequest => true
  | _ => false
  end.

Lemma call_with_Ok {W A} f (m : rpc W A) w a w' : call_with f m w = (Ok a, w') → m w = (Ok a, w').
Proof.
  unfold call_with, try, mbind, io_mbind, pureIO. destruct (m w) as [[x|x| |] w1]; intros Hm; by simplify_eq.
Qed.

Section main.
Context {W DB : Type} (client : string → invoker W).
Context `{!Network W, !DataAccess, CadenceJSONLaws, !CadenceStruct, ParserLaws, !GoFloat}.
Context `{Secp256k1Laws, !Sha3, !FlowAddresses}.
Context `{!RLP flowEnvelope, !RLP flowTransaction, !Proto FlowTransaction, !Proto ConstructOpts}.
Context `{!Badger DB, !Proto IndexedBlock, !Proto BlockMeta}.
Implicit Types sv : Server DB.

(** C27: Once validation has recorded an error, whatever it does afterwards,
    every endpoint but /call and /network answers every request with that first
    error and without contacting a node, while /call reports the failure and the
    error. *)
Theorem index_error_is_final sv msg st0 st (r : Request) w params :
  Validation.indexedStateErr st0 = None → Validation.v_status (Validation.status st0) ≠ "failure" →
  rtc vstep (Validation.setIndexedStateErr msg st0) st →
  (always_served r = false → serve client sv st r w = (Err (inr msg), w)) ∧
  serve client sv st (CallRequest callBalanceValidationStatus params) w =
    (Ok (mkCallResponse false (<["error" := VString msg]> {["status" := VString "failure"]})), w).
Proof.
  intros He Hs Hsteps. assert (failed_with msg st) as (Herr & Hst & Hmsg).
  { revert Hsteps. apply (rtc_ind_r (failed_with msg)).
    - by apply setIndexedStateErr_failed.
    - intros x y _ Hxy. by apply vstep_failed. }
  split.
  - destruct r; try done; intros _; open_wrapper; unfold gated; by rewrite Herr.
  - unfold serve, Wrapper_Call, ungated, Call, pureIO, balanceValidationStatus. simpl. by rewrite Hst, Hmsg.
Qed.

(** ** Offline mode *)

(** A handler that does not look at the world. *)
Lemma gated_pure {A} st (m : api A) (w : W) : (gated st (pureIO m) w).2 = w.
Proof. unfold gated, ungated, pureIO. by destruct (Validation.indexedStateErr st), m. Qed.
Lemma ungated_pure {A} (m : api A) (w : W) : (ungated (pureIO m) w).2 = w.
Proof. by destruct m. Qed.
Lemma gated_still {A} st (h : io W A) w : (h w).2 = w → (gated st h w).2 = w.
Proof. unfold gated, ungated. destruct (Validation.indexedStateErr st); [done|]. by destruct (h w) as [[] ?]. Qed.
Lemma ungated_still {A} (h : io W A) w : (h w).2 = w → (ungated h w).2 = w.
Proof. unfold ungated. by destruct (h w) as [[] ?]. Qed.

(** C40: In offline mode no request contacts a node, with two exceptions that do
    not look at the mode: /account/balance, which asks for the sequence number of
    the account, and /call latest_block, which panics, as an offline
    configuration has no nodes. *)
Theorem offline_makes_no_call sv st (r : Request) w :
  sv_Offline sv = true →
  ((∀ params, r ≠ CallRequest callLatestBlock params) → (∀ a c b, r ≠ AccountBalanceRequest a c b) →
   (serve client sv st r w).2 = w) ∧
  (∀ params, sv_DataAccessNodes sv = [] → (serve client sv st (CallRequest callLatestBlock params) w).1 = Panic).
Proof.
  intros Hoff. split; [intros Hr Hb; destruct r; open_wrapper;
    try apply gated_pure; try apply ungated_pure|].
  - apply ungated_still. unfold Call, accountBalances, accountPublicKeys, verifyAddress. rewrite Hoff.
    repeat (case_bool_decide; [subst; first [done|by destruct (Hr params)]|]); done.
  - apply gated_still. by rewrite (proj1 (proj1 (online_endpoints_refuse client sv options "" w) Hoff)).
  - apply gated_still. by rewrite (proj2 (proj1 (online_endpoints_refuse client sv ∅ signed w) Hoff)).
  - intros params Hn. unfold serve, Wrapper_Call, ungated, Call, latestBlock, mbind, io_mbind, Pool_Client. simpl.
    rewrite Hn. by destruct (rand_Int w).
Qed.

(** ** Public keys *)

(** A key of the account as /call shows it: a secp256k1 key in the Rosetta
    format, which converts back to the key on the chain, other keys as they are. *)
Definition shows (key : AccountKey) (k : accountKey) : Prop :=
  KeyIndex k = ak_Index key ∧ HashAlgorithm k = ak_HashAlgo key ∧ SignatureAlgorithm k = ak_SignAlgo key ∧
  SequenceNumber k = ak_SequenceNumber key ∧
  ∃ pub, PublicKey k = hex_encode pub ∧
    if ak_SignAlgo key =? 3 then ConvertRosettaPublicKey pub = Ok (ak_PublicKey key) else pub = ak_PublicKey key.

Lemma shownKey_shows key k : shownKey key = Ok k → shows key k.
Proof.
  unfold shownKey, shows. intros Hk. inv_steps. simpl. repeat split. eexists. split; [done|].
  destruct (ak_SignAlgo key =? 3); inv_steps; [|done]. by apply ConvertFlowPublicKey_roundtrip.
Qed.

Lemma shownKeys_live keys shown : shownKeys keys = Ok shown → Forall2 shows (live keys) shown.
Proof.
  apply (foldM_inv_prefix _ (λ pre shown, Forall2 shows (live pre) shown)); [|constructor].
  intros pre key post a a' _ Hpre Hstep. rewrite live_snoc. destruct (ak_Revoked key); inv_steps.
  - by rewrite app_nil_r.
  - apply Forall2_app; [done|]. apply Forall2_cons; split; [by apply shownKey_shows|constructor].
Qed.

(** The key that the vault of a proxy account reports on the chain. *)
Definition proxy_key sv (inv : invoker W) (addr : bytes) (keys : list accountKey) : Prop :=
  ∃ id w w' v raw flow sec,
    Client_Execute inv false id (scriptGetProxyPublicKey (sv_scripts sv)) [cadence_BytesToAddress addr] w = (Ok v, w') ∧
    as_String v = Some raw ∧ hex_decode raw = Some flow ∧ ConvertRosettaPublicKey sec = Ok flow ∧
    keys = [mkAccountKeyJSON 0 0 (hex_encode sec) 0 0 0].

Lemma proxyKeys_inv sv inv addr keys keys' w w' :
  proxyKeys sv inv addr keys w = (Ok keys', w') → keys' = keys ∨ (keys = [] ∧ proxy_key sv inv addr keys').
Proof.
  unfold proxyKeys. intros Hp. inv_io. destruct (is_empty _); inv_io; [by left|right].
  match goal with Hc : call_with _ _ _ = _ |- _ => apply call_with_Ok in Hc end.
  match goal with Hb : negb _ = false |- _ => apply negb_false_iff, bool_decide_eq_true in Hb as -> end.
  split; [done|]. do 7 eexists. do 3 (split; [done|]). split; [by apply ConvertFlowPublicKey_roundtrip|done].
Qed.

(** A successful /call account_public_keys lists exactly the keys of the
    account that are not revoked, in order, with secp256k1 keys in the Rosetta
    format; only a proxy account has one key more, that of its vault, and then
    no account key. A shown secp256k1 key converts back to the key on the chain. *)
Theorem public_keys_listed sv params r w w' :
  accountPublicKeys client sv params w = (Ok r, w') →
  ∃ addr server acct w0 w1 keys, getAccountParam params = Ok addr ∧ server ∈ sv_DataAccessNodes sv ∧
    Client_Account (client server) false addr w0 = (Ok acct, w1) ∧ cr_Result r = {["keys" := VKeys keys]} ∧
    (Forall2 shows (live (ac_Keys acct)) keys ∨
     (IsProxyContractDeployed (sv_Contracts sv) = true ∧ live (ac_Keys acct) = [] ∧
      proxy_key sv (client server) addr keys)).
Proof.
  unfold accountPublicKeys. destruct (sv_Offline sv); [done|]. intros Hr. inv_io.
  match goal with Hk : shownKeys _ = Ok _ |- _ => apply shownKeys_live in Hk as Hlive end.
  match goal with Hp : Pool_Client _ _ = _ |- _ => apply Pool_Client_inv in Hp end.
  destruct (IsProxyContractDeployed _) eqn:Hdep.
  - match goal with Hp : proxyKeys _ _ _ _ _ = _ |- _ => apply proxyKeys_inv in Hp as [->|[-> Hkey]] end.
    + do 6 eexists. do 4 (split; [done|]). by left.
    + do 6 eexists. do 4 (split; [done|]). right. apply Forall2_nil_inv_r in Hlive. done.
  - inv_io. do 6 eexists. do 4 (split; [done|]). by left.
Qed.

(** ** Balances *)

(** /call account_balances with a block hash makes a single call, the balance
    script at exactly that block for exactly that account, and only then the
    answer is marked idempotent; the balances and the proxy flag are the three
    fields the script returns. *)
Theorem account_balances_at_block sv params raw r w w' l :
  params !! "block_hash" = Some (AString raw) →
  accountBalances (logged client) sv params ([], w) = (Ok r, (l, w')) →
  ∃ addr hash arg server w1 v fields bal pbal isp,
    let script := if IsProxyContractDeployed (sv_Contracts sv) then scriptGetBalances (sv_scripts sv)
                  else scriptGetBalancesBasic (sv_scripts sv) in
    getAccountParam params = Ok addr ∧ hex_decode raw = Some hash ∧
    json_Encode (cadence_BytesToAddress addr) = Some arg ∧ server ∈ sv_DataAccessNodes sv ∧
    l = [ExecuteScriptAtBlockID [arg] hash script] ∧
    Client_Execute (client server) false hash script [cadence_BytesToAddress addr] w1 = (Ok v, w') ∧
    as_Struct v = Some fields ∧ size fields = 3%nat ∧
    fields !! "default_balance" ≫= as_UFix64 = Some bal ∧ fields !! "is_proxy" ≫= as_Bool = Some isp ∧
    fields !! "proxy_balance" ≫= as_UFix64 = Some pbal ∧ cr_Idempotent r = true ∧
    cr_Result r = <["default_balance" := VString (format_int bal)]>
                    (<["is_proxy" := VBool isp]> {["proxy_balance" := VString (format_int pbal)]}).
Proof.
  intros Hraw. unfold accountBalances. rewrite Hraw. destruct (sv_Offline sv); [done|]. intros Hr. inv_io.
  unfold getOnchainData in *. inv_io.
  match goal with Hp : Pool_Client _ _ = (_, ?s), Hc : call_with _ _ _ = (_, ?s'), Hm : mret _ ?s' = _ |- _ =>
    apply Pool_Client_logged in Hp as Hl; apply Pool_Client_inv in Hp; destruct s as [l0 w0], s' as [l1 w1];
    apply call_with_Ok, Client_Execute_logged in Hc as (cargs & Hargs & Hlog & Hexec);
    unfold mret, io_mret in Hm; injection Hm as <- <- <- end.
  simpl in *. subst. unfold decodeOnchainData in *. inv_steps.
  match goal with Hb : negb _ = false |- _ => apply negb_false_iff, bool_decide_eq_true in Hb end.
  destruct (json_Encode _) as [arg|] eqn:Harg; [|done]. unfold mret, option_ret in Hargs. simplify_eq/=.
  do 10 eexists. do 12 (split; [done|]). done.
Qed.

(** ** Fee receivers *)

(** The fee receivers that a node reports. *)
Definition reports_receivers sv (addrs : list bytes) : Prop :=
  ∃ server id w w' v vals, server ∈ sv_DataAccessNodes sv ∧
    Client_Execute (client server) false id (scriptGetFeeReceivers (sv_scripts sv)) [] w = (Ok v, w') ∧
    as_Array v = Some vals ∧ mapM as_Address vals = Some addrs.

Lemma try_Ok {A} (m : rpc W A) w x w' : try m w = (Ok x, w') →
  match x with inl a => m w = (Ok a, w') | inr e => m w = (Err e, w') end.
Proof. unfold try. destruct (m w) as [[]]; intros [= <- <-]; done. Qed.

Lemma feeAttempts_validated sv n w w' :
  feeAttempts client sv n w = (Ok Validated, w') →
  ∃ addrs, reports_receivers sv addrs ∧ ∀ a, a ∈ addrs → map_at false (sv_feeAddrs sv) a = true.
Proof.
  revert w. induction n as [|n IH]; intros w; [done|]. simpl. destruct (ctx_Err w) as [[e|] w0]; [done|].
  intros Hf. inv_io.
  match goal with Hp : Pool_Client _ _ = _ |- _ => apply Pool_Client_inv in Hp end.
  match goal with Ht : try (Client_LatestBlockHeader _ _) _ = (Ok ?x, _) |- _ => destruct x as [hdr|e] end; [|eauto].
  inv_io. match goal with Ht : try (Client_Execute _ _ _ _ _) _ = (Ok ?x, _) |- _ =>
    apply try_Ok in Ht; destruct x as [v|e] end; [|eauto].
  inv_io. unfold checkReceivers in *. destruct (as_Array v) as [vals|] eqn:Hv; [|done].
  destruct (mapM as_Address vals) as [addrs|] eqn:Ha; [|done]. case_bool_decide as Hnil; [|done].
  exists addrs. split; [do 6 eexists; eauto|]. intros a Hin.
  destruct (map_at _ _ a) eqn:Hm; [done|]. exfalso. apply (not_elem_of_nil a). rewrite <-Hnil. by apply list_elem_of_filter.
Qed.

(** C28: When the check of the fee receivers succeeds, an access node has reported
    the accounts that collect fees, and /construction/preprocess refuses every
    transfer to any of them. *)
Theorem fee_receivers_refused sv w w' :
  validateFeeReceivers client sv w = (Ok (Some Validated), w') →
  ∃ addrs, reports_receivers sv addrs ∧
    ∀ ops intent md, parseIntent ops = Ok intent → receiver intent ∈ addrs →
      ConstructionPreprocess sv ops md = Err errInvalidOpsIntent.
Proof.
  unfold validateFeeReceivers. destruct (sv_Offline sv); [done|]. intros Hv. inv_io.
  destruct (feeAttempts_validated _ _ _ _ ltac:(eassumption)) as (addrs & Hrep & Hall).
  exists addrs. split; [done|]. intros ops intent md Hi Hin. unfold ConstructionPreprocess.
  by rewrite Hi, Ok_bind, (Hall _ Hin).
Qed.
End main.

(** ** Concrete runs *)
Module ServeDemo.
Import ConstructDemo OnlineDemo.
#[local] Existing Instances gmap_badger proto_meta proto_block net.
#[local] Instance access : DataAccess := {| execute_GetProxyNonce _ _ := None; AccountAtHeight _ _ := None |}.
#[local] Instance structs : CadenceStruct := {|
  as_Struct v := match v with
                 | CBalances n => Some (<["default_balance" := CFix n]>
                     (<["is_proxy" := CBool false]> {["proxy_balance" := CFix 0]}))
                 | _ => None
                 end;
|}.
#[local] Instance addresses : FlowAddresses := {| chain_IsValid _ _ := Some true |}.

(** An offline server, and an online one whose fee receivers are configured. *)
Definition offline_sv : Server (gmap bytes bytes) :=
  mkServer (mkContracts "" "" "" "0000000000000000" []) "testnet" [] [] (mkStore ∅ None None) false true ∅ None scripts.
Definition online_sv : Server (gmap bytes bytes) :=
  mkServer (mkContracts "" "" "" "0000000000000000" []) "testnet" ["a"] ["b"; "c"] (mkStore ∅ None None) true false
    {[bob := true]} None scripts.

(** A node with one fee receiver, one balance and two keys. *)
Definition node (server : string) : invoker nat := λ skip r,
  match r return rpc nat (response r) with
  | GetLatestBlockHeader _ => λ w, (Ok (Some header), S w)
  | ExecuteScriptAtBlockID [] _ _ => λ w, (Ok (default [] (json_Encode (CAddrs [bob]))), S w)
  | ExecuteScriptAtBlockID _ _ _ => λ w, (Ok (default [] (json_Encode (CBalances 1234))), S w)
  | GetAccountAtLatestBlock _ => λ w, (Ok (Some (mkAccountMsg [key 0 3 true; key 1 7 false])), S w)
  | _ => λ w, (Err (errorf "unavailable"), S w)
  end.

Lemma index_error_is_final_witness :
  serve node offline_sv (Validation.setValidationSuccess 3 (Validation.setIndexedStateErr "bad" Validation.init))
    (BlockRequest None) 0%nat = (Err (inr "bad"), 0%nat).
Proof.
  apply (index_error_is_final node offline_sv "bad" Validation.init _ (BlockRequest None) 0%nat ∅).
  - done.
  - done.
  - apply rtc_once, vstep_success.
  - done.
Defined.

Lemma offline_makes_no_call_witness :
  (serve node offline_sv Validation.init (ConstructionSubmitRequest "") 0%nat).2 = 0%nat ∧
  (serve node offline_sv Validation.init (CallRequest callLatestBlock ∅) 0%nat).1 = Panic.
Proof.
  split.
  - by apply (offline_makes_no_call node offline_sv Validation.init (ConstructionSubmitRequest "") 0%nat).
  - by apply (offline_makes_no_call node offline_sv Validation.init (ConstructionSubmitRequest "") 0%nat).
Defined.

Definition params : gmap string any :=
  <["account" := AString (hexAddress alice)]> {["block_hash" := AString "abcd"]}.

Lemma public_keys_listed_witness :
  ∃ r w', accountPublicKeys node online_sv params 0%nat = (Ok r, w') ∧
    ∃ keys, cr_Result r = {["keys" := VKeys keys]} ∧ length keys = 1%nat.
Proof.
  set (m := accountPublicKeys node online_sv params 0%nat).
  assert (m = (Ok (from_ok (mkCallResponse false ∅) m.1), m.2)) as Hm.
  { apply injective_projections; [apply from_ok_eq; by vm_compute|done]. }
  exists (from_ok (mkCallResponse false ∅) m.1), m.2. split; [exact Hm|].
  destruct (public_keys_listed node online_sv params _ 0%nat _ Hm)
    as (addr & server & acct & w0 & w1 & keys & _ & _ & Hacct & Hres & [Hl|[Hbad _]]).
  - exists keys. split; [exact Hres|]. apply Forall2_length in Hl as <-.
    unfold Client_Account, on_response in Hacct. simpl in Hacct. injection Hacct as Hacct _. by rewrite <-Hacct.
  - by vm_compute in Hbad.
Defined.

Lemma account_balances_at_block_witness :
  ∃ r l w', accountBalances (logged node) online_sv params ([], 0%nat) = (Ok r, (l, w')) ∧
    cr_Idempotent r = true ∧ length l = 1%nat.
Proof.
  set (m := accountBalances (logged node) online_sv params ([], 0%nat)).
  assert (m = (Ok (from_ok (mkCallResponse false ∅) m.1), (m.2.1, m.2.2))) as Hm.
  { apply injective_projections; [apply from_ok_eq; by vm_compute|apply surjective_pairing]. }
  exists (from_ok (mkCallResponse false ∅) m.1), m.2.1, m.2.2. split; [exact Hm|].
  destruct (account_balances_at_block node online_sv params "abcd" _ 0%nat _ _ eq_refl Hm)
    as (addr & hash & arg & server & w1 & v & fields & bal & pbal & isp & _ & _ & _ & _ & -> & _ & _ & _ & _ & _ & _ & Hid & _).
  split; [exact Hid|reflexivity].
Defined.

Lemma fee_receivers_refused_witness :
  ∃ w', validateFeeReceivers node online_sv 0%nat = (Ok (Some Validated), w') ∧
    ∃ addrs, reports_receivers node online_sv addrs ∧
      (bob ∈ addrs → ConstructionPreprocess online_sv (ops opTransfer 5) ∅ = Err errInvalidOpsIntent).
Proof.
  exists (validateFeeReceivers node online_sv 0%nat).2. split.
  { apply injective_projections; [by vm_compute|done]. }
  destruct (fee_receivers_refused node online_sv 0%nat (validateFeeReceivers node online_sv 0%nat).2)
    as (addrs & Hrep & Hall).
  - apply injective_projections; [by vm_compute|done].
  - exists addrs. split; [exact Hrep|]. intros Hin.
    apply (Hall (ops opTransfer 5) (transferIntent opTransfer 5 bob alice) ∅); [by vm_compute|exact Hin].
Defined.
End ServeDemo.
