(* ===== verification/Report.v ===== *)
(** * Errors, logs and traces

    What the program reports about itself: the table of API errors and their
    wrapping ([src/api/errors.go], [logTraceError] in [src/api/wrapper.go]), the
    text of an operation in the logs ([src/model/model.go]), the messages of the
    database and the settings of the logger ([src/log/log.go]), and the names,
    attributes and ends of spans ([src/trace/trace.go]). Output itself, and the
    libraries that do it, are not modelled. *)
From S2P Require Import Prelude Bytes Text Model Badger Crypto Convert Config IndexDB Indexer Process Txn Api Construct Access Call Serve.
Local Open Scope Z_scope.

(** ** API errors *)
Record types_Error := mkError {
  te_Code : Z;
  te_Message : string;
  te_Retriable : bool;
  te_Details : gmap string any;
}.

(** [newError] with the two package variables, [errorCodes] and [serverErrors] *)
Definition newError (st : gmap Z types_Error * list types_Error) (def : Z * string * bool)
    : outcome unit (gmap Z types_Error * list types_Error) :=
  let '(code, msg, retriable) := def in
  match st.1 !! code with
  | Some _ => Fatal
  | None => Ok (st.1, st.2 ++ [mkError code msg retriable ∅])
  end.

Definition errorDefs : list (Z * string * bool) :=
  [(101, "broadcast failed", false); (102, "method not implemented", false);
   (103, "method not available in offline mode", false); (104, "transaction not in mempool", false);
   (201, "invalid number of account keys", false); (202, "transaction expired", false);
   (203, "invalid key id", false);
   (301, "unexpected internal error", false);
   (302, "block state doesn't exist or has been pruned at the execution node", false);
   (303, "protobuf error", false);
   (401, "invalid account address", false); (402, "invalid block hash", false);
   (403, "invalid block identifier", false); (404, "invalid block index", false);
   (405, "invalid construct options", false); (406, "invalid currency", false);
   (407, "invalid metadata field", false); (408, "invalid ops intent", false);
   (409, "invalid signature", false); (410, "invalid transaction hash", false);
   (411, "invalid transaction payload", false); (412, "unknown transaction hash", false);
   (501, "access node inaccessible", true); (502, "block data not in index", true);
   (503, "rate limited", true); (504, "invalid indexed state", true);
   (505, "failed access api call", true)].

(** the initialisation of the package *)
Definition registerErrors (defs : list (Z * string * bool)) : outcome unit (list types_Error) :=
  st ← foldM newError (∅, []) defs; Ok st.2.

(** [wrapErr] and [wrapErrorf]; [msg] is the text of the error *)
Definition wrapErr (xerr : types_Error) (msg : string) : types_Error :=
  mkError (te_Code xerr) (te_Message xerr) (te_Retriable xerr) {["error" := AString msg]}.

(** the type assertion [Details["error"].(string)] *)
Definition detail (xerr : types_Error) : outcome unit string :=
  match te_Details xerr !! "error" with Some (AString s) => Ok s | _ => Panic end.

Definition formatErr (xerr : types_Error) : outcome unit string :=
  let text := te_Message xerr +:+ " [" +:+ format_int (te_Code xerr) +:+ "]" in
  if bool_decide (te_Details xerr = ∅) then Ok text
  else detail ← detail xerr; Ok (text +:+ " (" +:+ detail +:+ ")").

(** [logTraceError]: the message that is logged *)
Definition logMessage (method : string) (xerr : types_Error) : outcome unit string :=
  let msg := "Failed " +:+ method +:+ " request: " +:+ format_int (te_Code xerr) +:+ " " +:+ te_Message xerr in
  if bool_decide (te_Details xerr = ∅) then Ok msg
  else derr ← detail xerr; Ok (msg +:+ ": " +:+ derr).

(** ** [Operation.Pretty] *)
Definition typeName (t : OperationType) : string :=
  match t with
  | OPERATION_TYPE_UNSPECIFIED => "OPERATION_TYPE_UNSPECIFIED"
  | CREATE_ACCOUNT => "CREATE_ACCOUNT"
  | FEE => "FEE"
  | PROXY_TRANSFER => "PROXY_TRANSFER"
  | TRANSFER => "TRANSFER"
  | OPERATION_TYPE_UNRECOGNIZED n => format_int n
  end.

Definition inQuotes (s : string) : string := String (Ascii.ascii_of_N 34) (s +:+ String (Ascii.ascii_of_N 34) "").
Definition hexOrNil (prefix : string) (b : bytes) : string :=
  match b with [] => "nil" | _ => inQuotes (prefix +:+ hex_encode b) end.
Definition Pretty (o : Operation) : string :=
  "{account: " +:+ hexOrNil "0x" (op_Account o) +:+
  ", amount: " +:+ format_int (op_Amount o) +:+
  ", proxy_public_key: " +:+ hexOrNil "" (op_ProxyPublicKey o) +:+
  ", receiver: " +:+ hexOrNil "0x" (op_Receiver o) +:+
  ", type: " +:+ inQuotes (typeName (op_Type o)) +:+ "}".

(** ** Logging *)

(** The message of the four methods of [log.Badger]; [body] is the formatted text.
    One newline at its end is dropped. *)
Fixpoint dropNewline (s : string) : string :=
  match s with
  | EmptyString => EmptyString
  | String a EmptyString => if Ascii.eqb a (Ascii.ascii_of_N 10) then EmptyString else s
  | String a s => String a (dropNewline s)
  end.
Definition badgerMessage (prefix body : string) : outcome unit string :=
  let msg := "[" +:+ prefix +:+ "/badger] " +:+ body in
  if bool_decide (msg = "") then Panic else Ok (dropNewline msg).

(** The settings [log.init] takes from the environment. *)
Definition jsonLogs (env : string) : bool :=
  negb (bool_decide (env ∈ [""; "disable"; "disabled"; "false"; "off"; "0"])).
Definition logEncoding (env : string) : string := if jsonLogs env then "json" else "console".
Definition logLevel (env : string) : string := if bool_decide (env = "") then "info" else env.

(** ** Tracing *)
Definition slash : Ascii.ascii := Ascii.ascii_of_N 47.
Definition GetMethodName (method : string) : outcome unit string :=
  deref (last (split_on slash method)).
Definition Hexify (key : string) (val : bytes) : string * string := (key, hex_encode val).
Definition Uint64 (key : string) (val : Z) : string * string := (key, format_int val).

(** What a span is told. *)
Inductive span_call := AddEvent (name key val : string) | SetStatus (ok : bool) (msg : string) | EndSpan.
Definition EndSpanErr (msg : string) : list span_call :=
  [AddEvent "error_log" "error_message" msg; SetStatus false msg; EndSpan].
Definition EndSpanOk : list span_call := [SetStatus true ""; EndSpan].

(** ** Theorems *)

Definition ofDef (def : Z * string * bool) : types_Error := mkError def.1.1 def.1.2 def.2 ∅.

(** [errorCodes] stays empty, so that no definition is ever refused. *)
Lemma registerErrors_all defs : registerErrors defs = Ok (ofDef <$> defs).
Proof.
  unfold registerErrors. enough (∀ acc, foldM newError (∅, acc) defs = Ok (∅, acc ++ (ofDef <$> defs))) as ->; [done|].
  induction defs as [|[[c m] r] defs IH]; intros acc; [by rewrite app_nil_r|]. cbn [foldM newError fst snd].
  rewrite lookup_empty, Ok_bind, IH, fmap_cons. by rewrite <-(assoc_L (++)).
Qed.

Lemma defs_NoDup : NoDup errorDefs.*1.*1 ∧ NoDup errorDefs.*1.*2.
Proof. split; apply (bool_decide_eq_true_1 _); vm_compute; reflexivity. Qed.

Lemma defs_retriable : Forall (λ d : Z * string * bool, d.2 = true ↔ 500 ≤ d.1.1) errorDefs.
Proof. repeat (apply Forall_cons_2; [cbn; split; [intros|]; lia|]). constructor. Qed.

Lemma formatErr_wrapped e msg :
  formatErr (wrapErr e msg) = Ok ((te_Message e +:+ " [" +:+ format_int (te_Code e) +:+ "]") +:+ " (" +:+ msg +:+ ")").
Proof.
  unfold formatErr. rewrite bool_decide_false; [unfold detail, wrapErr; cbn [te_Details]; by rewrite lookup_singleton_eq|].
  cbn [wrapErr te_Details]. apply map_non_empty_singleton.
Qed.

(** The package registers its 27 errors: their codes and retriable flags are
    those that /network/options lists, in that order, codes and messages are
    pairwise different, and exactly the codes from 500 on can be retried. Wrapping
    keeps code, message and flag, and a wrapped error is printed with its details,
    never panicking. *)
Theorem error_table :
  ∃ errs, registerErrors errorDefs = Ok errs ∧
    (λ e, (te_Code e, te_Retriable e)) <$> errs = error_code <$> serverErrors ∧
    NoDup (te_Code <$> errs) ∧ NoDup (te_Message <$> errs) ∧
    (∀ e, e ∈ errs → (te_Retriable e = true ↔ 500 ≤ te_Code e) ∧
       formatErr e = Ok (te_Message e +:+ " [" +:+ format_int (te_Code e) +:+ "]") ∧
       ∀ msg, te_Code (wrapErr e msg) = te_Code e ∧ te_Message (wrapErr e msg) = te_Message e ∧
         te_Retriable (wrapErr e msg) = te_Retriable e ∧
         formatErr (wrapErr e msg) = Ok ((te_Message e +:+ " [" +:+ format_int (te_Code e) +:+ "]") +:+ " (" +:+ msg +:+ ")")).
Proof.
  exists (ofDef <$> errorDefs). split; [apply registerErrors_all|]. split; [reflexivity|].
  destruct defs_NoDup as [Hc Hm]. rewrite <-!list_fmap_compose in *. split; [exact Hc|]. split; [exact Hm|].
  intros e (def & -> & Hdef)%list_elem_of_fmap. split; [|split].
  - pose proof defs_retriable as Hr. rewrite Forall_forall in Hr. exact (Hr def Hdef).
  - unfold formatErr. by rewrite bool_decide_true.
  - intros msg. do 3 (split; [done|]). apply formatErr_wrapped.
Qed.

(** Registering a second error under a code in use goes unnoticed. *)
Example duplicate_code_unnoticed :
  registerErrors [(101, "one", false); (101, "other", true)] =
  Ok [mkError 101 "one" false ∅; mkError 101 "other" true ∅].
Proof. reflexivity. Qed.

(** The message of the database is never empty, so that its last byte exists. *)
Lemma badgerMessage_total prefix body : is_Ok (badgerMessage prefix body).
Proof. unfold badgerMessage. by rewrite bool_decide_false. Qed.

(** The method name in the metrics is the name of the call. *)
Lemma GetMethodName_app service name :
  free_of slash name = true → free_of slash service = true →
  GetMethodName (String slash (service +:+ String slash name)) = Ok name.
Proof.
  intros Hn Hs. unfold GetMethodName. change (String slash ?s) with ("" +:+ String slash s).
  rewrite !split_app, split_free by done. done.
Qed.

Lemma GetMethodName_request r : ∃ name, GetMethodName (method r) = Ok name ∧ method r = servicePrefix +:+ name.
Proof. destruct r; eexists; split; reflexivity. Qed.
