(* ===== verification/Validate.v ===== *)
(** * The loop of the balance validation

    Model of [validateBalances] in [src/api/validate.go]: the loop that compares
    the balances of the index with those on chain while the indexer goes on. The
    status it keeps and the comparison of one account are in [Api]. *)
From S2P Require Import Prelude Bytes Text Model Badger Crypto Convert Config IndexDB IndexSpec IndexTheorems IndexMain Indexer Process Txn Api ApiMain Construct ConstructMain Access ConstructOnline ConstructOnlineMain Call.
Local Open Scope Z_scope.
Import Validation.

#[export] Instance checked_dec deployed x : Decision (ValidationProofs.checked deployed x).
Proof. unfold ValidationProofs.checked. apply _. Defined.

(** What the loop sees of the indexer: the index as it is at the moment, and
    whether the indexer has caught up. *)
Class IndexerView (W DB : Type) := {
  read_index : W → Store DB * W;
  indexer_Synced : W → bool * W;
}.
#[export] Hint Mode IndexerView ! - : typeclass_instances.

(** How a part of the loop ends: the context is done, the fuel is used up, or it
    has a result. *)
Inductive progress (A : Type) := Halted | Exhausted | Reached (a : A).
Arguments Halted {A}.
Arguments Exhausted {A}.
Arguments Reached {A} a.

Section validate.
Context {W DB : Type} (client : string → invoker W).
Context `{!Network W, !Cadence, !CadenceJSON, !CadenceStruct, !Secp256k1, !FlowAddresses}.
Context `{!Badger DB, !Proto IndexedBlock, !Proto BlockMeta, !IndexerView W DB, !MapRange bytes}.
Implicit Types sv : Server DB.

Definition io_lift {A} (f : W → A * W) : io W A := λ w, let '(a, w) := f w in (Ok a, w).

(** the rest of the code decides what an error means *)
Definition attempt_io {A} (m : io W A) : io W (option A) := λ w,
  match m w with
  | (Ok a, w) => (Ok (Some a), w)
  | (Err _, w) => (Ok None, w)
  | (Fatal, w) => (Fatal, w)
  | (Panic, w) => (Panic, w)
  end.

(** [for !s.Indexer.Synced()]: this loop does not look at the context. *)
Fixpoint waitSynced (fuel : nat) : io W bool :=
  match fuel with
  | O => mret false
  | S fuel => synced ← io_lift indexer_Synced; if (synced : bool) then mret true else waitSynced fuel
  end.

(** The two balances of an account at the latest indexed block; errors are
    retried. *)
Fixpoint observeAccount (fuel : nat) sv (acct : bytes) : io W (progress (Z * onchainData)) :=
  match fuel with
  | O => mret Exhausted
  | S fuel =>
      cancelled ← io_lift ctx_Err;
      match cancelled with
      | Some _ => mret Halted
      | None =>
          synced ← waitSynced fuel;
          if negb synced then mret Exhausted else
          s ← io_lift read_index;
          l ← pureIO (of_index (Latest s));
          latest ← pureIO (deref l.2);
          s ← io_lift read_index;
          indexed ← attempt_io (pureIO (of_index (BalanceByHash s acct (bm_Hash latest))));
          match indexed with
          | None => observeAccount fuel sv acct
          | Some indexed =>
              onchain ← attempt_io (getOnchainData client sv acct (bm_Hash latest));
              match onchain with
              | None => observeAccount fuel sv acct
              | Some onchain => mret (Reached (bd_Balance indexed, onchain))
              end
          end
      end
  end.

(** The accounts one after another; the status is updated on the way. *)
Fixpoint validateAccounts (fuel : nat) sv (total : Z) (accts : list (bytes * bool)) (acc : state * Z * Z)
    : io W (progress unit * (state * Z * Z)) :=
  match accts with
  | [] => mret (Reached tt, acc)
  | (acct, isProxy) :: accts =>
      if isProxy && negb (IsProxyContractDeployed (sv_Contracts sv))
      then validateAccounts fuel sv total accts acc
      else
        r ← observeAccount fuel sv acct;
        match r with
        | Reached (indexed, onchain) =>
            validateAccounts fuel sv total accts
              (checkStep (IsProxyContractDeployed (sv_Contracts sv)) total acc (isProxy, indexed, onchain))
        | Halted => mret (Halted, acc)
        | Exhausted => mret (Exhausted, acc)
        end
  end.

(** One iteration of the outer loop. *)
Definition validateRound (fuel : nat) sv (st : state) : io W (progress unit * state) :=
  cancelled ← io_lift ctx_Err;
  match cancelled with
  | Some _ => mret (Halted, st)
  | None =>
      s ← io_lift read_index;
      accts ← attempt_io (pureIO (of_index (Accounts s)));
      match accts with
      | None => mret (Reached tt, st)
      | Some accts =>
          let total := Z.of_nat (size accts) in
          r ← validateAccounts fuel sv total (map_range accts) (st, 0, 0);
          let '(e, (st, failed, _)) := r in
          mret (e, match e with
                   | Reached _ => if (0 <? total) && negb (0 <? failed) then setValidationSuccess total st else st
                   | _ => st
                   end)
      end
  end.

Fixpoint validateLoop (rounds fuel : nat) sv (st : state) : io W state :=
  match rounds with
  | O => mret st
  | S rounds =>
      r ← validateRound fuel sv st;
      match r with
      | (Reached _, st) => validateLoop rounds fuel sv st
      | (_, st) => mret st
      end
  end.

Definition validateBalances (rounds fuel : nat) (env : string) sv (st : state) : io W state :=
  if sv_Offline sv then mret st
  else if bool_decide (env ∈ ["false"; "off"; "0"; ""]) then validateLoop rounds fuel sv st
  else mret st.

(** ** What a round has seen *)

(** An observation of an account: the balance of the index at the block that was
    the latest one when the round looked, and what a node answered for that
    block. *)
Record observation := mkObservation {
  ob_store : Store DB;
  ob_block : BlockMeta;
  ob_indexed : Z;
  ob_onchain : onchainData;
}.

Definition observed sv (acct : bytes) (o : observation) : Prop :=
  (∃ (w : W) (s s' : Store DB) w', read_index w = (s, w') ∧ Latest s = Ok (s', Some (ob_block o))) ∧
  (∃ (w w' : W) data, read_index w = (ob_store o, w') ∧
     BalanceByHash (ob_store o) acct (bm_Hash (ob_block o)) = Ok data ∧ bd_Balance data = ob_indexed o) ∧
  (∃ w w', getOnchainData client sv acct (bm_Hash (ob_block o)) w = (Ok (ob_onchain o), w')).

Lemma io_lift_Ok {A} (f : W → A * W) w a w' : io_lift f w = (Ok a, w') → f w = (a, w').
Proof. unfold io_lift. destruct (f w). by intros [= <- <-]. Qed.

Lemma attempt_io_Ok {A} (m : io W A) w a w' : attempt_io m w = (Ok (Some a), w') → m w = (Ok a, w').
Proof. unfold attempt_io. destruct (m w) as [[] ?]; by intros [= <- <-]. Qed.

Lemma observeAccount_observed fuel sv acct w indexed onchain w' :
  observeAccount fuel sv acct w = (Ok (Reached (indexed, onchain)), w') →
  ∃ o, observed sv acct o ∧ ob_indexed o = indexed ∧ ob_onchain o = onchain.
Proof.
  revert w. induction fuel as [|fuel IH]; intros w Hr; [done|]. cbn [observeAccount] in Hr.
  apply io_bind_Ok in Hr as (c & w1 & _ & Hr). destruct c; [done|].
  apply io_bind_Ok in Hr as (b & w2 & _ & Hr). destruct b; cbn [negb] in Hr; [|done].
  apply io_bind_Ok in Hr as (s & w3 & Hs%io_lift_Ok & Hr).
  apply io_bind_Ok in Hr as (l & w4 & Hl & Hr). apply io_bind_Ok in Hr as (latest & w5 & Hd & Hr).
  apply io_bind_Ok in Hr as (s2 & w6 & Hs2%io_lift_Ok & Hr).
  apply io_bind_Ok in Hr as ([data|] & w7 & Hb & Hr); [|by eapply IH].
  apply io_bind_Ok in Hr as ([on|] & w8 & Ho & Hr); [|by eapply IH].
  unfold mret, io_mret in Hr. simplify_eq. apply attempt_io_Ok in Hb, Ho.
  injection Hb as Hb%of_index_Ok _. injection Hl as Hl%of_index_Ok _. injection Hd as Hd _.
  exists (mkObservation s2 latest (bd_Balance data) onchain). split; [|done]. split_and!.
  - exists w2, s, l.1, w3. split; [done|]. rewrite Hl. destruct l as [s' [m|]]; cbn in *; [|done]. by simplify_eq.
  - exists w5, w6, data. done.
  - by eexists _, _.
Qed.

(** the observations of a round, in the order of the accounts; the skipped ones
    have none *)
Definition seen sv (x : bytes * bool) (y : bool * Z * onchainData) : Prop :=
  y.1.1 = x.2 ∧ (x.2 && negb (IsProxyContractDeployed (sv_Contracts sv)) = false →
    ∃ o, observed sv x.1 o ∧ ob_indexed o = y.1.2 ∧ ob_onchain o = y.2).

Lemma validateAccounts_seen fuel sv total accts acc w r w' :
  validateAccounts fuel sv total accts acc w = (Ok (Reached tt, r), w') →
  ∃ obs, Forall2 (seen sv) accts obs ∧
    r = foldl (checkStep (IsProxyContractDeployed (sv_Contracts sv)) total) acc obs.
Proof.
  revert acc w. induction accts as [|[acct isProxy] accts IH]; intros acc w Hr.
  - cbn in Hr. injection Hr as <- _. exists []. split; [constructor|done].
  - cbn [validateAccounts] in Hr. destruct (isProxy && _) eqn:Hsk.
    + destruct (IH _ _ Hr) as (obs & Hobs & ->). exists ((isProxy, 0, mkOnchainData 0 false 0) :: obs).
      split; [apply Forall2_cons; split; [|done]; split; cbn; [done|congruence]|].
      destruct acc as [[st f] n]. cbn. by rewrite Hsk.
    + apply io_bind_Ok in Hr as (x & w1 & Hx & Hr). destruct x as [| |[indexed onchain]]; [done..|].
      destruct (IH _ _ Hr) as (obs & Hobs & ->). exists ((isProxy, indexed, onchain) :: obs). split; [|done].
      apply Forall2_cons; split; [|done]. split; [done|]. intros _. by eapply observeAccount_observed.
Qed.

Lemma validateRound_seen fuel sv st w st' w' :
  validateRound fuel sv st w = (Ok (Reached tt, st'), w') →
  (∃ (s : Store DB) (w1 : W), read_index w1 = (s, w') ∧ is_Ok (of_index (Accounts s)) = false ∧ st' = st) ∨
  ∃ (s : Store DB) (w1 w2 : W) accts obs, read_index w1 = (s, w2) ∧ Accounts s = Ok accts ∧
    Forall2 (seen sv) (map_range accts) obs ∧
    st' = checkRound (IsProxyContractDeployed (sv_Contracts sv)) obs st.
Proof.
  unfold validateRound. intros Hr. apply io_bind_Ok in Hr as (c & w1 & _ & Hr). destruct c; [done|].
  apply io_bind_Ok in Hr as (s & w2 & Hs%io_lift_Ok & Hr).
  apply io_bind_Ok in Hr as ([accts|] & w3 & Ha & Hr).
  - right. apply attempt_io_Ok in Ha. injection Ha as Ha%of_index_Ok _.
    apply io_bind_Ok in Hr as ([e [[st1 failed] n]] & w4 & Hv & Hr).
    unfold mret, io_mret in Hr. destruct e as [| |[]]; simplify_eq.
    apply validateAccounts_seen in Hv as (obs & Hobs & Hf). exists s, w1, w2, accts, obs.
    split_and!; [done..|]. unfold checkRound.
    assert (Z.of_nat (length obs) = Z.of_nat (size accts)) as ->.
    { f_equal. rewrite <-(Forall2_length _ _ _ Hobs), map_range_perm. apply length_map_to_list. }
    by rewrite <-Hf.
  - left. unfold mret, io_mret in Hr. simplify_eq. exists s, w1. unfold attempt_io, pureIO in Ha.
    destruct (of_index (Accounts s)) eqn:E; simplify_eq. done.
Qed.

(** the balance that counts of what the chain reports *)
Definition chain_balance (o : onchainData) : Z := if IsProxy o then ProxyBalance o else DefaultBalance o.

Context `{!BadgerLaws DB, !BadgerReliable DB}.

End validate.

(** ** A run *)
Module ValidateDemo.
Import ConstructDemo OnlineDemo.
#[local] Existing Instances gmap_badger Demo.proto_meta Demo.proto_block Demo.range net.
#[local] Instance structs : CadenceStruct := {|
  as_Struct v := match v with
                 | CBalances n => Some (<["default_balance" := CFix n]>
                     (<["is_proxy" := CBool false]> {["proxy_balance" := CFix 0]}))
                 | _ => None
                 end;
|}.
#[local] Instance addresses : FlowAddresses := {| chain_IsValid _ _ := Some true |}.
(** The indexer has caught up at the third look. *)
#[local] Instance view : IndexerView nat (gmap bytes bytes) := {|
  read_index w := (Demo.s, S w);
  indexer_Synced w := (bool_decide (2 < w)%nat, S w);
|}.
Definition sv : Server (gmap bytes bytes) :=
  mkServer (mkContracts "" "" "" "0000000000000000" []) "testnet" ["a"] ["b"; "c"] Demo.s true false ∅ None scripts.

(** The chain agrees with the index: the only account that is not a proxy has 90. *)
Definition node (server : string) : invoker nat := λ skip r,
  match r return rpc nat (response r) with
  | ExecuteScriptAtBlockID _ _ _ => λ w, (Ok (default [] (json_Encode (CBalances 90))), S w)
  | _ => λ w, (Err (errorf "unavailable"), S w)
  end.

Definition round := validateRound node 10 sv Validation.init 0%nat.
Definition final : Validation.state := match round.1 with Ok (_, st) => st | _ => Validation.init end.

Lemma round_eq : round = (Ok (Reached tt, final), round.2).
Proof.
  apply injective_projections; [|done]. cbn [fst].
  assert (match round.1 with Ok (Reached tt, _) => true | _ => false end = true) as Hok by by vm_compute.
  unfold final. destruct round.1 as [[[| |[]] st]| | |]; done.
Qed.

End ValidateDemo.
