(* ===== verification/ConstructLive.v ===== *)
(** * A transfer goes through

    The construction endpoints composed as a client composes them: when the
    network answers, a well-formed transfer is preprocessed, completed, built,
    signed and accepted. *)
From S2P Require Import Prelude Bytes Text Model Badger Crypto Convert Config IndexDB Indexer Process Txn Api ApiMain Construct ConstructProofs ColdStorage ConstructMain Access ConstructOnline ConstructOnlineMain.
Local Open Scope Z_scope.

Lemma io_bind_run {W A B} (m : io W A) (f : A → io W B) w a w' :
  m w = (Ok a, w') → (m ≫= f) w = f a w'.
Proof. unfold mbind, io_mbind. by intros ->. Qed.

Lemma call_or_run {W A} e (m : rpc W A) w a w' : m w = (Ok a, w') → call_or e m w = (Ok a, w').
Proof. unfold call_or, try, mbind, io_mbind, pureIO. by intros ->. Qed.

Lemma json_ops_refl typ s r n : Forall2 json_op (transferOps typ s r n) (transferOps typ s r n).
Proof.
  assert (∀ o, ro_Metadata o = ∅ → json_op o o) as Hrefl.
  { intros o Ho. split; try done. intros k v Hk. by rewrite Ho, lookup_empty in Hk. }
  unfold transferOps. do 2 (apply Forall2_cons; split; [by apply Hrefl|]). constructor.
Qed.

Section live.
Context {W DB : Type} (client : string → invoker W).
Context `{!Network W, CadenceJSONLaws, ParserLaws, !GoFloat, Secp256k1Laws, !Sha3}.
Context `{!RLP flowEnvelope, !RLP flowTransaction, !Proto FlowTransaction, !Proto ConstructOpts}.
Context `{!Badger DB, !Proto IndexedBlock, !Proto BlockMeta}.
Implicit Types sv : Server DB.

(** Encoding never fails on the messages that construction builds. *)
Record encodes : Prop := {
  encodes_value : ∀ v, is_Some (json_Encode v);
  encodes_opts : ∀ o : ConstructOpts, is_Some (marshal o);
  encodes_txn : ∀ t : FlowTransaction, is_Some (marshal t);
  encodes_envelope : ∀ e : flowEnvelope, is_Some (EncodeToBytes e);
}.

(** A server that is online and synced to a first block, and whose nodes answer
    the calls of a construction for a payer with one key. *)
Record answers sv (payer : bytes) : Prop := {
  answers_online : sv_Offline sv = false;
  answers_nodes : sv_ConstructionAccessNodes sv ≠ [];
  answers_latest : ∃ ix latest, Latest (sv_Index sv) = Ok (ix, Some latest);
  answers_header : ∀ server w, ∃ h w', client server false (GetLatestBlockHeader true) w = (Ok (Some h), w');
  answers_fee : ∀ server id args w, ∃ b w' v cost,
    client server false (ExecuteScriptAtBlockID args id (scriptComputeFees (sv_scripts sv))) w = (Ok b, w') ∧
    json_Decode b = Some v ∧ as_UFix64 v = Some cost;
  answers_account : ∀ server height w, ∃ k w',
    client server false (GetAccountAtBlockHeight payer height) w = (Ok (Some (mkAccountMsg [k])), w') ∧
    ak_Index k = 0 ∧ ak_Revoked k = false ∧ 0 ≤ ak_SequenceNumber k;
  answers_ping : ∀ server w, ∃ w', client server false PingRequest w = (Ok tt, w');
  answers_send : ∀ server txn w, ∃ hash w', client server false (SendTransactionRequest txn) w = (Ok hash, w');
}.

Lemma Pool_Client_run (p : list string) (w : W) : p ≠ [] → ∃ server (w' : W), Pool_Client p w = (Ok server, w').
Proof.
  intros Hp. unfold Pool_Client. destruct (rand_Int w) as [n w']. rewrite bool_decide_eq_false_2 by (by destruct p).
  assert (Z.to_nat (n mod Z.of_nat (length p)) < length p)%nat as Hlt.
  { destruct p; [done|]. pose proof (Z.mod_pos_bound n (Z.of_nat (length (s :: p)))) as Hb. simpl in *. lia. }
  apply lookup_lt_is_Some in Hlt as [server ->]. by exists server, w'.
Qed.

Lemma execute_fee sv payer server id args w :
  encodes → answers sv payer →
  ∃ v cost w', Client_Execute (client server) false id (scriptComputeFees (sv_scripts sv)) args w = (Ok v, w') ∧
    as_UFix64 v = Some cost.
Proof.
  intros He Ha. unfold Client_Execute.
  assert (is_Some (mapM json_Encode args)) as [cargs ->].
  { apply mapM_is_Some, Forall_forall. intros x _. by apply encodes_value. }
  destruct (answers_fee _ _ Ha server id cargs w) as (b & w' & v & cost & Hc & Hd & Hcost).
  exists v, cost, w'. unfold on_response. rewrite Hc. cbn. by rewrite Hd.
Qed.

Lemma preprocess_transfer sv s r n md :
  encodes → length s = 8%nat → length r = 8%nat → 0 < n < 2 ^ 64 → map_at false (sv_feeAddrs sv) r = false →
  md !! "payer" = Some (AString (hexAddress s)) → md !! "sequence_number" = None →
  ∃ raw o, ConstructionPreprocess sv (Some <$> transferOps opTransfer s r n) md =
      Ok {["protobuf" := AString raw]} ∧
    getConstructOpts {["protobuf" := AString raw]} = Ok (raw, o) ∧
    co_Payer o = s ∧ co_KeyId o = 0 ∧ co_Inner o = false ∧ co_SequenceNumber o = -1.
Proof.
  intros He Hs Hr Hn Hfee Hpayer Hseq. unfold ConstructionPreprocess.
  rewrite (expresses_transfer opTransfer n r s) by (done || apply json_ops_refl).
  rewrite Ok_bind. change (proxy (transferIntent opTransfer n r s)) with false.
  change (inner (transferIntent opTransfer n r s)) with false.
  change (receiver (transferIntent opTransfer n r s)) with r.
  change (keys (transferIntent opTransfer n r s)) with (@nil string).
  change (contractCode (transferIntent opTransfer n r s)) with "". change (is_empty "") with true.
  rewrite Hfee. unfold sequenceNumber, getString. rewrite Hseq, Hpayer.
  cbn [andb negb reject]. rewrite !Ok_bind, getAccount_hexAddress by done. cbn [of_outcome]. rewrite !Ok_bind.
  match goal with |- context [marshal ?o] => destruct (encodes_opts He o) as [b Hb]; exists (hex_encode b), o end.
  rewrite Hb. split; [done|]. split; [by apply getConstructOpts_marshal|done].
Qed.

Lemma metadata_transfer sv md raw o w :
  encodes → answers sv (co_Payer o) → getConstructOpts md = Ok (raw, o) →
  co_Inner o = false → co_SequenceNumber o = -1 → co_KeyId o = 0 →
  ∃ r o' w', ConstructionMetadata client sv md w = (Ok r, w') ∧
    getConstructOpts {["protobuf" := AString (mr_Protobuf r)]} = Ok (mr_Protobuf r, o') ∧
    co_Payer o' = co_Payer o ∧ 0 ≤ co_SequenceNumber o'.
Proof.
  intros He Ha Ho Hin Hseq Hkey. unfold ConstructionMetadata. rewrite (answers_online _ _ Ha), Ho.
  rewrite (io_bind_run (pureIO _) _ _ (raw, o) w eq_refl). cbn [snd].
  destruct (Pool_Client_run _ w (answers_nodes _ _ Ha)) as (server & w1 & Hp). rewrite (io_bind_run _ _ _ _ _ Hp).
  destruct (answers_header _ _ Ha server w1) as (h & w2 & Hh).
  rewrite (io_bind_run _ _ _ _ _ (call_or_run errInternal _ _ _ _ Hh)). rewrite Hin.
  destruct (answers_latest _ _ Ha) as (ix & latest & Hl).
  assert (∃ height o' w3, flowMetadata sv server (client server) (Some h) o w2 = (Ok (height, o'), w3) ∧
    co_Payer o' = co_Payer o ∧ 0 ≤ co_SequenceNumber o') as (height & o' & w3 & Hf & Hpay & Hpos).
  { unfold flowMetadata. rewrite Hl. rewrite (io_bind_run (pureIO _) _ _ (ix, Some latest) w2 eq_refl).
    rewrite (io_bind_run (pureIO _) _ _ h w2 eq_refl). cbn [snd].
    rewrite (io_bind_run (pureIO _) _ _ latest w2 eq_refl).
    destruct (referenceBlock server h latest o) as [height o1] eqn:Href.
    apply referenceBlock_inv in Href as (_ & (Hp1 & Hk1 & _) & Hs1).
    destruct (execute_fee sv _ server (bh_Id h)
      [cadence_UFix64 (co_InclusionEffort o1); cadence_UFix64 (co_ExecutionEffort o1)] w2 He Ha)
      as (v & cost & w3 & Hv & Hcost).
    rewrite (io_bind_run _ _ _ _ _ (call_or_run errFailedAccessAPICall _ _ _ _ Hv)), Hcost.
    rewrite (io_bind_run (pureIO _) _ _ cost w3 eq_refl).
    destruct (answers_account _ _ Ha server height w3) as (k & w4 & Hk & Hi & Hr & Hpos).
    erewrite (io_bind_run (call_or _ _)).
    2: { apply call_or_run. unfold Client_AccountAtHeight, on_response. cbn [set_Fees co_Payer]. rewrite Hp1, Hk. done. }
    rewrite (io_bind_run (pureIO _) _ _ (ak_SequenceNumber k) w4).
    2: { unfold pureIO, accountSequence. cbn [set_Fees co_SequenceNumber co_KeyId ac_Keys foldM keyStep].
         rewrite Hs1, Hseq, Hk1, Hkey, Hi, Hr. done. }
    eexists _, _, w4. split; [done|]. done. }
  rewrite (io_bind_run _ _ _ _ _ Hf). cbn [snd fst]. destruct (encodes_opts He o') as [b Hb]. rewrite Hb.
  rewrite (io_bind_run (pureIO _) _ _ b w3 eq_refl). eexists _, o', w3. split; [done|].
  split; [by apply getConstructOpts_marshal|done].
Qed.

Lemma payloads_transfer sv md raw o s r n sg :
  encodes → getConstructOpts md = Ok (raw, o) → 0 ≤ co_SequenceNumber o →
  length s = 8%nat → length r = 8%nat → 0 < n < 2 ^ 64 → (64 ≤ length (sl_data sg))%nat →
  ∃ resp signed, ConstructionPayloads sv md (Some <$> transferOps opTransfer s r n) = Ok resp ∧
    ConstructionCombine (pr_UnsignedTransaction resp) [Some sg] = Ok signed.
Proof.
  intros He Ho Hseq Hs Hr Hn Hsg.
  assert (parseIntent (Some <$> transferOps opTransfer s r n) = Ok (transferIntent opTransfer n r s)) as Hi.
  { apply expresses_transfer; (done || apply json_ops_refl). }
  destruct (getConstructOpts_inv _ _ _ Ho) as (b & Hb & _).
  destruct (encodes_value He (cadence_BytesToAddress r)) as [a1 Ha1].
  destruct (encodes_value He (cadence_UFix64 n)) as [a2 Ha2].
  set (txn := buildTransaction o (scriptBasicTransfer (sv_scripts sv)) [a1; a2]).
  assert (∃ hash, TransactionEnvelopeHash txn = Ok hash) as [hash Hh].
  { unfold TransactionEnvelopeHash, deriveHash, payload_of. subst txn. unfold buildTransaction.
    cbn [ft_ProposalKey deref]. rewrite !Ok_bind.
    match goal with |- context [EncodeToBytes ?e] => destruct (encodes_envelope He e) as [d ->] end. eauto. }
  destruct (encodes_txn He txn) as [enc Henc].
  assert (ConstructionPayloads sv md (Some <$> transferOps opTransfer s r n) =
    Ok (mkPayloadsResponse [mkSigningPayload (hexAddress (co_Payer o)) hash ecdsa] (flowText enc raw))) as Hp.
  { unfold ConstructionPayloads. rewrite Ho, Ok_bind, Hi, Ok_bind. cbv iota.
    rewrite (proj2 (Z.ltb_ge _ _) Hseq). cbn [reject]. rewrite Ok_bind.
    change (inner (transferIntent opTransfer n r s)) with false. cbv iota.
    change (scriptAndArgs sv (transferIntent opTransfer n r s) o) with
      (a1 ← encodeArg (cadence_BytesToAddress r); a2 ← encodeArg (cadence_UFix64 n);
       Ok (E:=api_err) (scriptBasicTransfer (sv_scripts sv), [a1; a2])).
    unfold encodeArg. rewrite Ha1, Ha2. cbn [of_option]. rewrite !Ok_bind. cbn [fst snd]. fold txn.
    rewrite Hh, Henc. done. }
  enough (∃ signed, ConstructionCombine (flowText enc raw) [Some sg] = Ok signed) as [signed Hc] by eauto.
  unfold ConstructionCombine.
  rewrite (decode_flowText _ _ _ false _ Hb (unmarshal_marshal _ _ Henc)), Ok_bind, reslice_long, Ok_bind by done.
  subst txn. cbn [ft_ProposalKey buildTransaction deref]. rewrite Ok_bind.
  match goal with |- context [marshal ?x] => destruct (encodes_txn He x) as [enc' ->] end. by eexists.
Qed.

Lemma submit_answered sv payer signed txn w :
  answers sv payer → decodeTransaction signed true = Ok (inl txn) →
  ∃ hash w', ConstructionSubmit client sv signed w = (Ok hash, w').
Proof.
  intros Ha Hdec. unfold ConstructionSubmit. rewrite (answers_online _ _ Ha), Hdec.
  rewrite (io_bind_run (pureIO _) _ _ (inl txn) w eq_refl).
  destruct (Pool_Client_run _ w (answers_nodes _ _ Ha)) as (server & w1 & Hp). rewrite (io_bind_run _ _ _ _ _ Hp).
  destruct (answers_ping _ _ Ha server w1) as (w2 & Hping).
  rewrite (io_bind_run _ _ _ _ _ (call_or_run errAccessNodeInaccessible _ _ _ _ Hping)).
  destruct (answers_send _ _ Ha server txn w2) as (hash & w3 & Hsend).
  rewrite (io_bind_run (try _) _ _ (inl hash) w3); [by eexists _, _|].
  unfold try, Client_SendTransaction. by rewrite Hsend.
Qed.

(** C10: A transfer between two accounts goes through: when encoding does not fail
    and the network answers, the five requests of a client (preprocess,
    metadata, payloads, combine with a signature of 64 bytes or more, submit),
    each given what the one before returned, all succeed. *)
Theorem transfer_goes_through sv s r n md sg w :
  encodes → answers sv s → length s = 8%nat → length r = 8%nat → 0 < n < 2 ^ 64 →
  map_at false (sv_feeAddrs sv) r = false →
  md !! "payer" = Some (AString (hexAddress s)) → md !! "sequence_number" = None →
  (64 ≤ length (sl_data sg))%nat →
  let ops := Some <$> transferOps opTransfer s r n in
  ∃ options meta payloads signed hash w1 w2,
    ConstructionPreprocess sv ops md = Ok options ∧
    ConstructionMetadata client sv options w = (Ok meta, w1) ∧
    ConstructionPayloads sv {["protobuf" := AString (mr_Protobuf meta)]} ops = Ok payloads ∧
    ConstructionCombine (pr_UnsignedTransaction payloads) [Some sg] = Ok signed ∧
    ConstructionSubmit client sv signed w1 = (Ok hash, w2).
Proof.
  intros He Ha Hs Hr Hn Hfee Hpayer Hseq Hsg ops.
  destruct (preprocess_transfer sv s r n md) as (raw & o & Hpre & Ho & <- & Hkey & Hin & Hm1); [done..|].
  destruct (metadata_transfer sv _ raw o w He Ha Ho Hin Hm1 Hkey) as (meta & o' & w1 & Hmeta & Ho' & Hpay & Hpos).
  destruct (payloads_transfer sv _ _ o' (co_Payer o) r n sg He Ho' Hpos) as (resp & signed & Hp & Hc); [done..|].
  destruct (combined_transaction sv _ ops _ o' (transferIntent opTransfer n r (co_Payer o)) resp sg signed Ho')
    as (txn & hash & Hdec & _); [|done..|].
  { apply expresses_transfer; (done || apply json_ops_refl). }
  destruct (submit_answered sv _ signed txn w1 Ha Hdec) as (id & w2 & Hsub).
  by exists {["protobuf" := AString raw]}, meta, resp, signed, id, w1, w2.
Qed.
End live.

(** ** A concrete run, on the network of [OnlineDemo] with one key *)
Module LiveDemo.
Import ConstructDemo OnlineDemo.
#[local] Existing Instances gmap_badger proto_meta proto_block net.
Definition node (server : string) : invoker nat := λ skip r,
  match r return rpc nat (response r) with
  | GetAccountAtBlockHeight _ _ => λ w, (Ok (Some (mkAccountMsg [key 0 7 false])), S w)
  | r => client server skip r
  end.

Lemma demo_encodes : encodes.
Proof. by split; eexists. Qed.

Lemma demo_answers : answers node sv alice.
Proof.
  split; try done.
  - by eexists _, _.
  - by eexists _, _.
  - intros server id args w. eexists _, _, (CFix 1000), 1000. split; [done|]. by vm_compute.
  - intros server height w. by exists (key 0 7 false), (S w).
  - by eexists.
  - by eexists _, _.
Qed.

Lemma transfer_goes_through_witness :
  ∃ options meta, ConstructionPreprocess sv (ops opTransfer 5) request_md = Ok options ∧
    (ConstructionMetadata node sv options 0%nat).1 = Ok meta ∧ mr_SuggestedFee meta = "1000".
Proof.
  destruct (transfer_goes_through node sv alice bob 5 request_md sig 0%nat demo_encodes demo_answers)
    as (options & meta & payloads & signed & hash & w1 & w2 & Hpre & Hmeta & _).
  - done.
  - done.
  - done.
  - by vm_compute.
  - by vm_compute.
  - by vm_compute.
  - vm_compute. lia.
  - exists options, meta. split; [exact Hpre|]. split; [by rewrite Hmeta|].
    assert (Ok options = ConstructionPreprocess sv (ops opTransfer 5) request_md) as Ho by (symmetry; exact Hpre).
    assert (mr_SuggestedFee (from_ok meta (ConstructionMetadata node sv
      (from_ok ∅ (ConstructionPreprocess sv (ops opTransfer 5) request_md)) 0%nat).1) = "1000") as Hfee
      by (by vm_compute).
    rewrite <-Ho in Hfee. cbn [from_ok] in Hfee. by rewrite Hmeta in Hfee.
Defined.
End LiveDemo.
