(* ===== verification/Prefetch.v ===== *)
(** * Prefetching

    Model of [runWorker] in [src/state/worker.go] and of [initWorkers],
    [scheduleJobs] in [src/state/state.go]: goroutines that make the calls of
    [processBlock] ahead of time, so that the cache holds their answers. *)
From S2P Require Import Prelude Bytes Text Model Badger Crypto Convert Config IndexDB Indexer Process Txn Api Construct Access Cache.
Local Open Scope Z_scope.

(** ** One attempt of a worker

    An attempt ends early with a retry or, when the context is done, for good;
    the path and the waiting time outlive it. *)
Inductive wstop := wRetry | wReturn | wOutOfFuel.

Record wstate (W : Type) := mkWstate { wk_world : W; wk_slowPath : bool; wk_backoff : Z }.
Arguments mkWstate {W}.
Arguments wk_world {W}.
Arguments wk_slowPath {W}.
Arguments wk_backoff {W}.

Definition task (W A : Type) : Type := wstate W → outcome wstop A * wstate W.
#[export] Instance task_mret W : MRet (task W) := λ A a s, (Ok a, s).
#[export] Instance task_mbind W : MBind (task W) := λ A B f m s,
  match m s with
  | (Ok a, s') => f a s'
  | (Err e, s') => (Err e, s')
  | (Fatal, s') => (Fatal, s')
  | (Panic, s') => (Panic, s')
  end.

Definition tlift {W A} (m : outcome wstop A) : task W A := λ s, (m, s).

(** A call, with its error as a value. *)
Definition tcall {W A} (m : rpc W A) : task W (A + grpc_err) := λ s,
  match m (wk_world s) with
  | (Ok a, w) => (Ok (inl a), mkWstate w (wk_slowPath s) (wk_backoff s))
  | (Err e, w) => (Ok (inr e), mkWstate w (wk_slowPath s) (wk_backoff s))
  | (Fatal, w) => (Fatal, mkWstate w (wk_slowPath s) (wk_backoff s))
  | (Panic, w) => (Panic, mkWstate w (wk_slowPath s) (wk_backoff s))
  end.

(** [if err != nil { lastErr = err; continue }]. *)
Definition call_or_retry {W A} (m : rpc W A) : task W A :=
  r ← tcall m; tlift (match r with inl a => Ok a | inr _ => Err wRetry end).

Definition backoff_if {W} (cfg : ChainConfig) (e : grpc_err) : task W unit := λ s,
  (Ok tt, mkWstate (wk_world s) (wk_slowPath s)
            (if bool_decide (ge_Code e = NotFound) then nextBackoff cfg (wk_backoff s) else wk_backoff s)).

(** The same, with a longer wait for data that is not there yet. *)
Definition call_or_retry_later {W A} (cfg : ChainConfig) (m : rpc W A) : task W A :=
  r ← tcall m;
  match r with
  | inl a => mret a
  | inr e => _ ← backoff_if cfg e; tlift (Err wRetry)
  end.

(** A call of the fast path for the header's block, left out once the slow path
    is taken. *)
Definition fast_call {W A} (cfg : ChainConfig) (hdr : option BlockHeaderMsg) (m : bytes → rpc W A) : task W unit := λ s,
  if wk_slowPath s then (Ok tt, s)
  else
    (hdr ← tlift (deref hdr);
     r ← tcall (m (bh_Id hdr));
     match r with
     | inl _ => mret tt
     | inr e =>
         if useSlowPath e then λ s, (Ok tt, mkWstate (wk_world s) true (wk_backoff s))
         else _ ← backoff_if cfg e; tlift (Err wRetry)
     end) s.

Section worker.
Context {W : Type} `{!Network W} (client : string → invoker W).

Definition wpoll : task W unit := λ s,
  let '(cancelled, w) := ctx_Err (wk_world s) in
  (match cancelled with Some _ => Err wReturn | None => Ok tt end, mkWstate w (wk_slowPath s) (wk_backoff s)).

(** The transactions of a collection, numbered from [txnIndex + 1]. *)
Fixpoint prefetchTransactions (inv : invoker W) (hdr : option BlockHeaderMsg) (txnIndex : Z) (txns : list bytes) : task W Z :=
  match txns with
  | [] => mret txnIndex
  | txn :: txns =>
      _ ← wpoll;
      let txnIndex := txnIndex + 1 in
      _ ← call_or_retry (Client_Transaction inv false txn);
      h ← tlift (deref hdr);
      _ ← call_or_retry (Client_TransactionResult inv false (bh_Id h) (u32 txnIndex));
      prefetchTransactions inv hdr txnIndex txns
  end.

Fixpoint prefetchCollections (inv : invoker W) (hdr : option BlockHeaderMsg) (txnIndex : Z)
    (cols : list CollectionGuaranteeMsg) : task W Z :=
  match cols with
  | [] => mret txnIndex
  | col :: cols =>
      _ ← wpoll;
      info ← call_or_retry (Client_CollectionByID inv false (cg_CollectionId col));
      txnIds ← tlift (deref info);
      txnIndex ← prefetchTransactions inv hdr txnIndex txnIds;
      prefetchCollections inv hdr txnIndex cols
  end.

(** The slow path: every transaction by itself, and the one after the last. *)
Definition prefetchSlow (inv : invoker W) (hdr : option BlockHeaderMsg) (block : option BlockMsg) : task W unit := λ s,
  if wk_slowPath s then
    (b ← tlift (deref block);
     txnIndex ← prefetchCollections inv hdr (-1) (blk_CollectionGuarantees b);
     h ← tlift (deref hdr);
     _ ← call_or_retry (Client_TransactionResult inv false (bh_Id h) (u32 (txnIndex + 1)));
     mret tt) s
  else (Ok tt, s).

(** The nodes of a spork as a pool. *)
Definition tpool (nodes : list string) : task W string := λ s,
  match Pool_Client nodes (wk_world s) with
  | (Ok server, w) => (Ok server, mkWstate w (wk_slowPath s) (wk_backoff s))
  | (_, w) => (Panic, mkWstate w (wk_slowPath s) (wk_backoff s))
  end.

Definition prefetchAttempt (cfg : ChainConfig) (nodes : list string) (height : Z) : task W unit :=
  _ ← wpoll;
  server ← tpool nodes;
  let inv := client server in
  hdr ← call_or_retry (Client_BlockHeaderByHeight inv false height);
  block ← call_or_retry (Client_BlockByHeight inv false height);
  _ ← fast_call cfg hdr (Client_TransactionsByBlockID inv false);
  _ ← fast_call cfg hdr (Client_TransactionResultsByBlockID inv false);
  _ ← prefetchSlow inv hdr block;
  b ← tlift (deref block);
  _ ← call_or_retry_later cfg (Client_ExecutionResultForBlockID inv false (blk_Id b));
  mret tt.

(** The loop [retry:] for one height. *)
Fixpoint prefetchLoop (fuel : nat) (cfg : ChainConfig) (nodes : list string) (height : Z) : task W unit := λ s,
  match fuel with
  | O => (Err wOutOfFuel, s)
  | S fuel =>
      match prefetchAttempt cfg nodes height s with
      | (Err wRetry, s') => prefetchLoop fuel cfg nodes height s'
      | r => r
      end
  end.

Definition time_Second : Z := 1000000000.
(** A job of [runWorker]. *)
Definition prefetch (fuel : nat) (cfg : ChainConfig) (nodes : list string) (height : Z) (w : W)
    : outcome wstop unit * W :=
  let '(r, s) := prefetchLoop fuel cfg nodes height (mkWstate w false time_Second) in (r, wk_world s).
End worker.

(** ** The goroutines and the channel

    [ps_start] is the scheduler's [startHeight], [ps_pending] what is left of its
    inner loop, [ps_jobs] the channel, [ps_busy] the height each worker is at;
    [ps_done] records the heights a worker is done with. *)
Record pool_state := mkPoolState {
  ps_start : Z;
  ps_pending : list Z;
  ps_jobs : list Z;
  ps_busy : gmap nat Z;
  ps_done : list Z;
}.

(** [initWorkers] with [lastIndexedHeight()]. *)
Definition initWorkers (lastIndexed : Z) : pool_state := mkPoolState lastIndexed [] [] ∅ [].

(** The heights of the inner loop of [scheduleJobs], for a tip below [2^64 - 1],
    at which the loop would not end. *)
Definition heights_to (start tip : Z) : list Z := seqZ (start + 1) (tip - start).

Inductive pool_step (workers : nat) : pool_state → pool_state → Prop :=
  (** the scheduler learns the height of the latest finalized block *)
  | sched_tip start jobs busy fin tip : start < tip →
      pool_step workers (mkPoolState start [] jobs busy fin)
        (mkPoolState tip (heights_to start tip) jobs busy fin)
  (** [i.jobs <- height]: the channel holds as many jobs as there are workers *)
  | sched_send start height pending jobs busy fin : (length jobs < workers)%nat →
      pool_step workers (mkPoolState start (height :: pending) jobs busy fin)
        (mkPoolState start pending (jobs ++ [height]) busy fin)
  | worker_take start pending height jobs busy fin j : (j < workers)%nat → busy !! j = None →
      pool_step workers (mkPoolState start pending (height :: jobs) busy fin)
        (mkPoolState start pending jobs (<[j := height]> busy) fin)
  | worker_done start pending height jobs busy fin j : busy !! j = Some height →
      pool_step workers (mkPoolState start pending jobs busy fin)
        (mkPoolState start pending jobs (delete j busy) (fin ++ [height])).
