(* ===== verification/PrefetchMain.v ===== *)
(** * What prefetching achieves

    Every height is prefetched once, and what a worker fetched is later served
    from the cache; a worker does nothing else to the cache. *)
From S2P Require Import Prelude Bytes Text Model Badger Crypto Convert Config IndexDB Indexer Process Txn Api Construct Access Cache CacheMain Prefetch.
Local Open Scope Z_scope.

(** ** The schedule *)

(** The heights that are done, in work, queued or still to be queued. *)
Definition accounted (st : pool_state) : list Z :=
  ps_done st ++ (map_to_list (ps_busy st)).*2 ++ ps_jobs st ++ ps_pending st.

Record pool_inv (workers : nat) (h0 : Z) (st : pool_state) : Prop := {
  inv_start : h0 ≤ ps_start st;
  inv_accounted : accounted st ≡ₚ heights_to h0 (ps_start st);
  inv_capacity : (length (ps_jobs st) ≤ workers)%nat;
}.

Lemma heights_to_app h0 h1 h2 : h0 ≤ h1 → h1 ≤ h2 → heights_to h0 h2 = heights_to h0 h1 ++ heights_to h1 h2.
Proof.
  intros Ha Hb. unfold heights_to. replace (h2 - h0) with ((h1 - h0) + (h2 - h1)) by lia.
  rewrite seqZ_app by lia. do 2 f_equal. lia.
Qed.

Lemma pool_step_inv workers h0 st st' : pool_step workers st st' → pool_inv workers h0 st → pool_inv workers h0 st'.
Proof.
  intros Hstep [Hs Ha Hc]. destruct Hstep as [start jobs busy fin tip Ht|start height pending jobs busy fin Hl
    |start pending height jobs busy fin j Hj Hb|start pending height jobs busy fin j Hb];
    unfold accounted in *; simpl in *; split; simpl; unfold accounted; simpl; try (rewrite ?length_app in *; simpl in *; lia).
  - rewrite (heights_to_app h0 start tip), <-Ha by lia. rewrite app_nil_r, <-!(assoc_L (++)). done.
  - rewrite <-Ha, <-!(assoc_L (++)). done.
  - rewrite <-Ha, (map_to_list_insert busy) by done. rewrite fmap_cons. simpl.
    apply Permutation_app_head. rewrite <-Permutation_middle. done.
  - rewrite <-Ha, <-(map_to_list_delete busy j height) by done. rewrite fmap_cons. simpl.
    rewrite <-!(assoc_L (++)). apply Permutation_app_head. done.
Qed.

Lemma pool_reachable_inv workers h0 st : rtc (pool_step workers) (initWorkers h0) st → pool_inv workers h0 st.
Proof.
  revert st. apply (rtc_ind_r (pool_inv workers h0)).
  - split; unfold accounted, heights_to; simpl; [lia| |lia]. rewrite map_to_list_empty, Z.sub_diag. done.
  - intros x y _ Hxy. by eapply pool_step_inv.
Qed.

(** What is left to do. *)
Definition pool_measure (st : pool_state) : nat :=
  (3 * length (ps_pending st) + 2 * length (ps_jobs st) + size (ps_busy st))%nat.

(** Unless everything is done some goroutine can move on. *)
Lemma pool_progress workers st :
  (0 < workers)%nat → ps_pending st = [] ∧ ps_jobs st = [] ∧ ps_busy st = ∅ ∨
  ∃ st', pool_step workers st st' ∧ ps_start st' = ps_start st ∧ (pool_measure st' < pool_measure st)%nat.
Proof.
  intros Hw. destruct st as [start pending jobs busy fin]. unfold pool_measure; simpl.
  destruct (map_choose_or_empty busy) as [(j & height & Hj)| ->].
  { right. eexists. split; [by eapply worker_done|]. split; [done|]. simpl.
    assert (size (delete j busy) < size busy)%nat; [|lia].
    rewrite (map_size_delete_Some _ _ (mk_is_Some _ _ Hj)).
    assert (size busy ≠ 0%nat); [|lia]. by eapply map_size_ne_0_lookup_2. }
  destruct jobs as [|height jobs].
  - destruct pending as [|height pending]; [by left|]. right. eexists. split; [apply sched_send; simpl; lia|].
    split; [done|]. simpl. lia.
  - right. eexists. split; [by apply (worker_take _ _ _ _ _ _ _ 0)|]. split; [done|]. simpl.
    rewrite map_size_insert_None by done. lia.
Qed.

Lemma pool_finishes workers h0 n st :
  (0 < workers)%nat → (pool_measure st < n)%nat → pool_inv workers h0 st →
  ∃ st', rtc (pool_step workers) st st' ∧ ps_start st' = ps_start st ∧ ps_done st' ≡ₚ heights_to h0 (ps_start st).
Proof.
  intros Hw. revert st. induction n as [|n IH]; intros st Hn Hinv; [lia|].
  destruct (pool_progress workers st Hw) as [(Hp & Hj & Hb)|(st1 & Hstep & Hstart & Hlt)].
  - exists st. split; [done|]. split; [done|]. destruct Hinv as [_ Ha _]. rewrite <-Ha. unfold accounted.
    by rewrite Hp, Hj, Hb, map_to_list_empty, app_nil_r.
  - destruct (IH st1) as (st2 & Hsteps & Hs2 & Hd); [lia|by eapply pool_step_inv|].
    exists st2. split; [by eapply rtc_l|]. rewrite <-Hstart. by rewrite Hs2.
Qed.

(** C21: The scheduler and the workers, interleaved in any way: at every point
    each height above the one indexed at start and up to the last one learnt from
    the network is done, in work, queued or about to be queued, exactly once; the
    channel never holds more jobs than there are workers; and if there is a
    worker, the goroutines can always go on to finish every such height. *)
Theorem heights_prefetched_once workers h0 st :
  (0 < workers)%nat → rtc (pool_step workers) (initWorkers h0) st →
  NoDup (accounted st) ∧ (∀ h, h ∈ accounted st ↔ h0 < h ≤ ps_start st) ∧
  (length (ps_jobs st) ≤ workers)%nat ∧
  ∃ st', rtc (pool_step workers) st st' ∧ ps_start st' = ps_start st ∧
    NoDup (ps_done st') ∧ ∀ h, h ∈ ps_done st' ↔ h0 < h ≤ ps_start st.
Proof.
  intros Hw Hinv%pool_reachable_inv.
  assert (∀ l, l ≡ₚ heights_to h0 (ps_start st) → NoDup l ∧ ∀ h, h ∈ l ↔ h0 < h ≤ ps_start st) as Hall.
  { intros l Hl. split; [rewrite Hl; apply NoDup_seqZ|]. intros h. rewrite Hl. unfold heights_to.
    rewrite elem_of_seqZ. lia. }
  destruct (Hall _ (inv_accounted _ _ _ Hinv)) as [Hnd Hin]. split; [done|]. split; [done|].
  split; [by eapply inv_capacity|].
  destruct (pool_finishes workers h0 (S (pool_measure st)) st Hw) as (st' & Hs & Hst & Hd); [lia|done|].
  exists st'. destruct (Hall _ Hd). auto.
Qed.

(** ** A worker on the cache *)
Create HintDb quiet.

Lemma task_bind_Ok {W A B} (m : task W A) (f : A → task W B) s b s' :
  (m ≫= f) s = (Ok b, s') ↔ ∃ a s1, m s = (Ok a, s1) ∧ f a s1 = (Ok b, s').
Proof.
  unfold mbind, task_mbind. destruct (m s) as [[a|e| |] s1]; split; try done.
  all: try (intros Hf; by eexists _, _). all: try (by intros (a' & s2 & [= <- <-] & Hf)).
  all: by intros (a' & s2 & [=] & _).
Qed.

Section worker.
Context {W DB : Type} `{BadgerLaws DB, !BadgerReliable DB, !Network W, !Blake3, WireLaws}.
Implicit Types (s : DB * W) (ws : wstate (DB * W)).

(** The context and the random numbers of a goroutine that uses the cache. *)
#[local] Instance cached_network : Network (DB * W) := {|
  network_invoke server r s := let '(x, md, w) := network_invoke server r s.2 in (x, md, (s.1, w));
  rand_Int s := let '(n, w) := rand_Int s.2 in (n, (s.1, w));
  ctx_Err s := let '(e, w) := ctx_Err s.2 in (e, (s.1, w));
|}.

(** Code that changes the store through calls only. *)
Definition quiet {A} (m : task (DB * W) A) : Prop := ∀ ws, rtc cache_step (wk_world ws) (wk_world (m ws).2).

Lemma quiet_ret {A} (a : A) : quiet (mret a).
Proof. intros ws. reflexivity. Qed.
Lemma quiet_lift {A} (m : outcome wstop A) : quiet (tlift m).
Proof. intros ws. reflexivity. Qed.
Lemma quiet_bind {A B} (m : task (DB * W) A) (f : A → task (DB * W) B) :
  quiet m → (∀ a, quiet (f a)) → quiet (m ≫= f).
Proof.
  intros Hm Hf ws. specialize (Hm ws). unfold mbind, task_mbind.
  destruct (m ws) as [[a|e| |] ws1]; simpl in *; try done. etrans; [exact Hm|]. apply Hf.
Qed.
Lemma quiet_world s s' : s'.1 = s.1 → rtc cache_step s s'.
Proof. destruct s as [d w], s' as [d' w']. simpl. intros ->. apply rtc_once, cache_world. Qed.
(** A method of the client that makes one call. *)
Definition calls {A} (m : rpc (DB * W) A) : Prop := ∀ s, rtc cache_step s (m s).2.
Lemma calls_invoke server skip r : calls (cached_invoke server skip r).
Proof. intros s. apply rtc_once, cache_call. Qed.

Lemma quiet_tcall {A} (m : rpc (DB * W) A) : calls m → quiet (tcall m).
Proof.
  intros Hm ws. unfold tcall. specialize (Hm (wk_world ws)). by destruct (m (wk_world ws)) as [[] s'].
Qed.
Lemma quiet_or_retry {A} (m : rpc (DB * W) A) : calls m → quiet (call_or_retry m).
Proof. intros Hm. apply quiet_bind; [by apply quiet_tcall|]. intros []; apply quiet_lift. Qed.
Lemma quiet_backoff cfg e : quiet (backoff_if cfg e).
Proof. intros ws. reflexivity. Qed.
#[local] Hint Resolve quiet_ret quiet_lift quiet_bind quiet_tcall quiet_or_retry quiet_backoff : quiet.
#[local] Hint Extern 0 (calls _) => exact (calls_invoke _ _ _) : quiet.

Lemma quiet_wpoll : quiet wpoll.
Proof.
  intros ws. unfold wpoll. simpl. destruct (ctx_Err (wk_world ws).2) as [e w]. by apply quiet_world.
Qed.
Lemma quiet_tpool nodes : quiet (tpool nodes).
Proof.
  intros ws. unfold tpool, Pool_Client. simpl. destruct (rand_Int (wk_world ws).2) as [n w].
  destruct (if bool_decide _ then _ else _); by apply quiet_world.
Qed.
Lemma quiet_fast_call {A} cfg hdr (m : bytes → rpc (DB * W) A) : (∀ id, calls (m id)) → quiet (fast_call cfg hdr m).
Proof.
  intros Hm ws. unfold fast_call. destruct (wk_slowPath ws); [reflexivity|].
  apply quiet_bind; [auto with quiet|]. intros h. apply quiet_bind; [auto with quiet|]. intros [|e]; [auto with quiet|].
  destruct (useSlowPath e); [intros ws'; reflexivity|]. auto with quiet.
Qed.
Lemma quiet_or_retry_later {A} cfg (m : rpc (DB * W) A) : calls m → quiet (call_or_retry_later cfg m).
Proof. intros Hm. apply quiet_bind; [auto with quiet|]. intros []; auto with quiet. Qed.
#[local] Hint Resolve quiet_wpoll quiet_tpool quiet_fast_call quiet_or_retry_later : quiet.

Lemma quiet_transactions server hdr i txns : quiet (prefetchTransactions (cached_invoke server) hdr i txns).
Proof.
  revert i. induction txns as [|txn txns IH]; intros i; simpl; [auto with quiet|].
  repeat (apply quiet_bind; [auto with quiet|intros ?]). apply IH.
Qed.
Lemma quiet_collections server hdr i cols : quiet (prefetchCollections (cached_invoke server) hdr i cols).
Proof.
  revert i. induction cols as [|col cols IH]; intros i; simpl; [auto with quiet|].
  repeat (apply quiet_bind; [auto using quiet_transactions with quiet|intros ?]). apply IH.
Qed.
Lemma quiet_slow server hdr block : quiet (prefetchSlow (cached_invoke server) hdr block).
Proof.
  intros ws. unfold prefetchSlow. destruct (wk_slowPath ws); [|reflexivity].
  repeat (apply quiet_bind; [auto using quiet_collections with quiet|intros ?]). auto with quiet.
Qed.

Lemma quiet_attempt cfg nodes height : quiet (prefetchAttempt cached_invoke cfg nodes height).
Proof.
  unfold prefetchAttempt. repeat (apply quiet_bind; [auto 10 using quiet_slow with quiet|intros ?]). auto with quiet.
Qed.

(** A worker changes the store by calls only, however often it retries. *)
Lemma quiet_loop fuel cfg nodes height : quiet (prefetchLoop cached_invoke fuel cfg nodes height).
Proof.
  induction fuel as [|fuel IH]; intros ws; simpl; [done|].
  pose proof (quiet_attempt cfg nodes height ws) as Ha.
  destruct (prefetchAttempt cached_invoke cfg nodes height ws) as [[u|[]| |] ws1]; simpl in *; try done.
  etrans; [exact Ha|apply IH].
Qed.

(** ** What is served afterwards *)

(** From now on, whatever other goroutines do, the request gets this answer from
    the store at every server, without a call to the network. *)
Definition served (s : DB * W) (r : request) (x : response r) : Prop :=
  ∀ s' server, rtc cache_step s s' → (ctx_Err s'.2).1 = None →
    cached_invoke server false r s' = (Ok x, (s'.1, (ctx_Err s'.2).2)) ∨ blake3_collision.

Lemma served_later s s' r x : rtc cache_step s s' → served s r x → served s' r x.
Proof. intros Hs Hserved s'' server Hs'. apply Hserved. by etrans. Qed.

Context (encodes : ∀ r, is_Some (marshal_request r)).

Lemma served_call server r s x s' :
  nonIdempotent (method r) = false → cached_invoke server false r s = (Ok x, s') → served s' r x.
Proof.
  intros Hid Hcall s'' server' Hs Hctx. destruct (encodes r) as [b Hb].
  destruct (Lookup_stays_steps r b x s' s'' Hb Hs) as [Hl|]; [by eapply cached_invoke_stores| |by right].
  left. by eapply Lookup_served.
Qed.

Lemma tcall_Ok {A} (m : rpc (DB * W) A) ws x ws' :
  tcall m ws = (Ok (inl x), ws') → m (wk_world ws) = (Ok x, wk_world ws') ∧ wk_slowPath ws' = wk_slowPath ws.
Proof. unfold tcall. destruct (m (wk_world ws)) as [[]]; intros [= <- <-]; done. Qed.

Lemma call_or_retry_Ok {A} (m : rpc (DB * W) A) ws x ws' :
  call_or_retry m ws = (Ok x, ws') → m (wk_world ws) = (Ok x, wk_world ws') ∧ wk_slowPath ws' = wk_slowPath ws.
Proof.
  unfold call_or_retry. intros ([y|e] & ws1 & Hc & Hr)%task_bind_Ok; unfold tlift in Hr; simplify_eq.
  by apply tcall_Ok.
Qed.

Lemma call_or_retry_served server r ws x ws' :
  nonIdempotent (method r) = false → call_or_retry (cached_invoke server false r) ws = (Ok x, ws') →
  served (wk_world ws') r x ∧ rtc cache_step (wk_world ws) (wk_world ws') ∧ wk_slowPath ws' = wk_slowPath ws.
Proof.
  intros Hid [Hc Hs]%call_or_retry_Ok. split; [by eapply served_call|]. split; [|done].
  pose proof (cache_call server false r (wk_world ws)) as Hstep. rewrite Hc in Hstep. by apply rtc_once.
Qed.

(** A fast call that returns either was made or the slow path is taken. *)
Lemma fast_call_Ok {A} cfg hdr (m : bytes → rpc (DB * W) A) ws u ws' :
  fast_call cfg hdr m ws = (Ok u, ws') →
  wk_slowPath ws' = true ∨
  wk_slowPath ws = false ∧ ∃ h x, hdr = Some h ∧ m (bh_Id h) (wk_world ws) = (Ok x, wk_world ws').
Proof.
  unfold fast_call. destruct (wk_slowPath ws) eqn:Hslow; [intros [= _ <-]; by left|].
  intros (h & ws1 & Hh & (r & ws2 & Hc & Hr)%task_bind_Ok)%task_bind_Ok. unfold tlift in Hh.
  destruct hdr as [h'|]; [|done]. simplify_eq/=. destruct r as [x|e].
  - apply tcall_Ok in Hc as [Hc _]. unfold mret, task_mret in Hr. simplify_eq/=. right. eauto.
  - destruct (useSlowPath e); [simplify_eq/=; by left|].
    apply task_bind_Ok in Hr as (? & ? & _ & Hr). unfold tlift in Hr. done.
Qed.

(** Peels the steps of a successful task, keeping what each one leaves. *)
Ltac inv_task :=
  repeat match goal with
  | Hm : (_ ≫= _) _ = (Ok _, _) |- _ =>
      let x := fresh "x" in let s := fresh "ws" in let Hx := fresh "Hx" in
      apply task_bind_Ok in Hm as (x & s & Hx & Hm)
  | Hm : tlift (deref ?o) _ = (Ok _, _) |- _ =>
      unfold tlift in Hm; destruct o eqn:?; [|discriminate Hm]; apply pair_equal_spec in Hm as [Hm ->];
      injection Hm as ->
  | Hm : mret _ _ = (Ok _, _) |- _ => unfold mret, task_mret in Hm; apply pair_equal_spec in Hm as [Hm ->];
      injection Hm as Hm; subst
  end.

(** What a step that succeeded leaves in place. *)
Lemma quiet_run {A} (m : task (DB * W) A) ws a ws' : quiet m → m ws = (Ok a, ws') → rtc cache_step (wk_world ws) (wk_world ws').
Proof. intros Hq Hm. specialize (Hq ws). by rewrite Hm in Hq. Qed.

(** The transactions [txns] and the results with the numbers up to [j]. *)
Definition served_txns (s : DB * W) (hdr : option BlockHeaderMsg) (i j : Z) (txns : list bytes) : Prop :=
  j = i + Z.of_nat (length txns) ∧
  (∀ txn, txn ∈ txns → ∃ x, served s (GetTransaction txn CCF_V0) x) ∧
  (∀ k, i < k ≤ j → ∃ h x, hdr = Some h ∧ served s (GetTransactionResultByIndex (bh_Id h) (u32 k) CCF_V0) x).

Lemma served_txns_later s s' hdr i j txns :
  rtc cache_step s s' → served_txns s hdr i j txns → served_txns s' hdr i j txns.
Proof.
  intros Hs (Hj & Ht & Hr). split; [done|]. split.
  - intros txn [x Hx]%Ht. exists x. by eapply served_later.
  - intros k (h & x & Hh & Hx)%Hr. exists h, x. split; [done|]. by eapply served_later.
Qed.

Lemma transactions_served server hdr i txns ws j ws' :
  prefetchTransactions (cached_invoke server) hdr i txns ws = (Ok j, ws') →
  served_txns (wk_world ws') hdr i j txns.
Proof.
  revert i ws. induction txns as [|txn txns IH]; intros i ws Hp; simpl in Hp; inv_task.
  { split; [simpl; lia|]. split; [by intros ? ?%not_elem_of_nil|lia]. }
  apply IH in Hp as Hrest. pose proof (quiet_run _ _ _ _ (quiet_transactions _ _ _ _) Hp) as Hq.
  match goal with Ht : call_or_retry (Client_Transaction _ _ _) _ = _,
      Hr : call_or_retry (Client_TransactionResult _ _ ?id ?n) _ = _ |- _ =>
    destruct (call_or_retry_served server (GetTransaction txn CCF_V0) _ _ _ eq_refl Ht) as (Hst & _ & _);
    destruct (call_or_retry_served server (GetTransactionResultByIndex id n CCF_V0) _ _ _ eq_refl Hr) as (Hsr & Hq1 & _)
  end.
  destruct Hrest as (Hj & Hts & Hrs). split; [simpl; lia|]. split.
  - intros t [->|Ht']%elem_of_cons; [|by apply Hts]. eexists. eapply served_later; [|eassumption]. by etrans.
  - intros k Hk. destruct (decide (k = i + 1)) as [->|]; [|apply Hrs; lia].
    eexists _, _. split; [done|]. by eapply served_later.
Qed.

(** The collections of a block and the transactions in them. *)
Lemma collections_served server hdr i cols ws j ws' :
  prefetchCollections (cached_invoke server) hdr i cols ws = (Ok j, ws') →
  ∃ ids, Forall2 (λ col l, served (wk_world ws') (GetCollectionByID (cg_CollectionId col)) (Some l)) cols ids ∧
    served_txns (wk_world ws') hdr i j (concat ids).
Proof.
  revert i ws. induction cols as [|col cols IH]; intros i ws Hp; simpl in Hp; inv_task.
  { exists []. split; [constructor|]. split; [simpl; lia|]. split; [by intros ? ?%not_elem_of_nil|lia]. }
  destruct (IH _ _ Hp) as (ids & Hids & Hj & Hts & Hrs).
  pose proof (quiet_run _ _ _ _ (quiet_collections _ _ _ _) Hp) as Hq.
  match goal with Hc : call_or_retry (Client_CollectionByID _ _ ?id) _ = _,
      Ht : prefetchTransactions _ _ _ ?l _ = _ |- _ =>
    destruct (call_or_retry_served server (GetCollectionByID id) _ _ _ eq_refl Hc) as (Hsc & _ & _);
    pose proof (quiet_run _ _ _ _ (quiet_transactions _ _ _ _) Ht) as Hq1;
    apply transactions_served in Ht; apply (served_txns_later _ _ _ _ _ _ Hq) in Ht as (Hj1 & Ht1 & Hr1);
    exists (l :: ids)
  end.
  split; [constructor; [eapply served_later; [|done]; by etrans|done]|].
  simpl. split; [rewrite length_app; lia|]. split.
  - intros txn [?|?]%elem_of_app; auto.
  - intros k Hk. destruct (decide (k ≤ x2)) as [|]; [apply Hr1; lia|apply Hrs; lia].
Qed.

(** What the cache knows of a block after it was prefetched on the fast path, and
    on the slow one. *)
Definition served_fast (s : DB * W) (hdr : BlockHeaderMsg) : Prop :=
  (∃ x, served s (GetTransactionsByBlockID (bh_Id hdr) CCF_V0) x) ∧
  (∃ x, served s (GetTransactionResultsByBlockID (bh_Id hdr) CCF_V0) x).
Definition served_slow (s : DB * W) (hdr : BlockHeaderMsg) (block : BlockMsg) : Prop :=
  ∃ ids, Forall2 (λ col l, served s (GetCollectionByID (cg_CollectionId col)) (Some l))
           (blk_CollectionGuarantees block) ids ∧
    (∀ txn, txn ∈ concat ids → ∃ x, served s (GetTransaction txn CCF_V0) x) ∧
    (∀ k, 0 ≤ k ≤ Z.of_nat (length (concat ids)) →
       ∃ x, served s (GetTransactionResultByIndex (bh_Id hdr) (u32 k) CCF_V0) x).
Definition served_block (s : DB * W) (height : Z) : Prop :=
  ∃ hdr block, served s (GetBlockHeaderByHeight height) (Some hdr) ∧
    served s (GetBlockByHeight height true) (Some block) ∧
    (∃ x, served s (GetExecutionResultForBlockID (blk_Id block)) x) ∧
    (served_fast s hdr ∨ served_slow s hdr block).

Lemma slow_served server hdr block ws u ws' :
  prefetchSlow (cached_invoke server) hdr block ws = (Ok u, ws') → wk_slowPath ws = true →
  ∃ h b, hdr = Some h ∧ block = Some b ∧ served_slow (wk_world ws') h b.
Proof.
  unfold prefetchSlow. intros Hp Hs. rewrite Hs in Hp. inv_task.
  match goal with Hc : prefetchCollections _ _ _ _ _ = _,
      Hr : call_or_retry (Client_TransactionResult _ _ ?id ?n) _ = _ |- _ =>
    destruct (call_or_retry_served server (GetTransactionResultByIndex id n CCF_V0) _ _ _ eq_refl Hr) as (Hsr & Hq & _);
    apply collections_served in Hc as (ids & Hids & Htx);
    apply (served_txns_later _ _ _ _ _ _ Hq) in Htx as (Hj & Ht & Hk)
  end.
  eexists _, _. split; [done|]. split; [done|]. exists ids. split.
  { eapply Forall2_impl; [done|]. intros col l Hl. exact (served_later _ _ _ _ Hq Hl). }
  split; [done|]. intros k Hk'. destruct (decide (k = Z.of_nat (length (concat ids)))) as [Heq|].
  - replace (u32 k) with (u32 (x0 + 1)) by (f_equal; lia). eexists. eassumption.
  - destruct (Hk k) as (h & res & [= <-] & Hres); [lia|]. eauto.
Qed.

Lemma call_or_retry_later_Ok {A} cfg (m : rpc (DB * W) A) ws x ws' :
  call_or_retry_later cfg m ws = (Ok x, ws') → m (wk_world ws) = (Ok x, wk_world ws').
Proof.
  unfold call_or_retry_later. intros ([y|e] & ws1 & Hc & Hr)%task_bind_Ok.
  - apply tcall_Ok in Hc as [Hc _]. unfold mret, task_mret in Hr. by simplify_eq.
  - apply task_bind_Ok in Hr as (? & ? & _ & Hr). done.
Qed.

(** The two fast calls and the slow path, one after the other. *)
Lemma paths_served cfg server hdr block ws0 u1 ws1 u2 ws2 u3 ws3 :
  fast_call cfg hdr (Client_TransactionsByBlockID (cached_invoke server) false) ws0 = (Ok u1, ws1) →
  fast_call cfg hdr (Client_TransactionResultsByBlockID (cached_invoke server) false) ws1 = (Ok u2, ws2) →
  prefetchSlow (cached_invoke server) hdr (Some block) ws2 = (Ok u3, ws3) →
  rtc cache_step (wk_world ws0) (wk_world ws3) ∧
  ∃ h, hdr = Some h ∧ (served_fast (wk_world ws3) h ∨ served_slow (wk_world ws3) h block).
Proof.
  intros Hf1 Hf2 Hs.
  pose proof (quiet_run _ _ _ _ (quiet_fast_call _ _ _ (λ id, calls_invoke server false (GetTransactionsByBlockID id CCF_V0))) Hf1) as Hq1.
  pose proof (quiet_run _ _ _ _ (quiet_fast_call _ _ _ (λ id, calls_invoke server false (GetTransactionResultsByBlockID id CCF_V0))) Hf2) as Hq2.
  pose proof (quiet_run _ _ _ _ (quiet_slow _ _ _) Hs) as Hq3.
  assert (rtc cache_step (wk_world ws1) (wk_world ws3)) as Hq13 by (by etrans).
  split; [by etrans|]. destruct (wk_slowPath ws2) eqn:Hslow.
  { destruct (slow_served _ _ _ _ _ _ Hs Hslow) as (h & b & -> & [= <-] & Hserved). eauto. }
  apply fast_call_Ok in Hf2 as [?|(Hslow1 & h & x2 & -> & Hc2)]; [congruence|].
  apply fast_call_Ok in Hf1 as [?|(_ & h' & x1 & [= <-] & Hc1)]; [congruence|].
  exists h. split; [done|]. left. split.
  - exists x1. eapply served_later; [exact Hq13|].
    exact (served_call server (GetTransactionsByBlockID (bh_Id h) CCF_V0) _ _ _ eq_refl Hc1).
  - exists x2. eapply served_later; [exact Hq3|].
    exact (served_call server (GetTransactionResultsByBlockID (bh_Id h) CCF_V0) _ _ _ eq_refl Hc2).
Qed.

Lemma served_fast_later s s' h : rtc cache_step s s' → served_fast s h → served_fast s' h.
Proof. intros Hs [[x Hx] [y Hy]]. split; eexists; by eapply served_later. Qed.
Lemma served_slow_later s s' h b : rtc cache_step s s' → served_slow s h b → served_slow s' h b.
Proof.
  intros Hs (ids & Hids & Ht & Hk). exists ids. split.
  { eapply Forall2_impl; [done|]. intros col l Hl. exact (served_later _ _ _ _ Hs Hl). }
  split.
  - intros txn [x Hx]%Ht. exists x. by eapply served_later.
  - intros k [x Hx]%Hk. exists x. by eapply served_later.
Qed.

Lemma attempt_served cfg nodes height ws u ws' :
  prefetchAttempt cached_invoke cfg nodes height ws = (Ok u, ws') → served_block (wk_world ws') height.
Proof.
  unfold prefetchAttempt. intros Hp. inv_task.
  match goal with
  | Hh : call_or_retry (Client_BlockHeaderByHeight (cached_invoke ?server) _ _) ?s0 = (Ok ?hdr, ?s1),
    Hb : call_or_retry (Client_BlockByHeight _ _ _) ?s1 = (Ok (Some ?block), ?s2),
    Hf1 : fast_call _ _ _ ?s2 = (_, ?s3), Hf2 : fast_call _ _ _ ?s3 = (_, ?s4),
    Hs : prefetchSlow _ _ _ ?s4 = (_, ?s5), He : call_or_retry_later _ _ ?s5 = (_, ?s6) |- _ =>
      destruct (call_or_retry_served server (GetBlockHeaderByHeight height) _ _ _ eq_refl Hh) as (Hsh & _ & _);
      destruct (call_or_retry_served server (GetBlockByHeight height true) _ _ _ eq_refl Hb) as (Hsb & Hq2 & _);
      destruct (paths_served _ _ _ _ _ _ _ _ _ _ _ Hf1 Hf2 Hs) as (Hq5 & h & -> & Hpath);
      pose proof (quiet_run _ _ _ _ (quiet_or_retry_later _ _
        (calls_invoke server false (GetExecutionResultForBlockID (blk_Id block)))) He) as Hq6;
      apply call_or_retry_later_Ok in He;
      pose proof (served_call server (GetExecutionResultForBlockID (blk_Id block)) _ _ _ eq_refl He) as Hse;
      exists h, block
  end.
  split; [eapply served_later; [|exact Hsh]; etrans; [done|]; by etrans|].
  split; [eapply served_later; [|exact Hsb]; by etrans|]. split; [eauto|].
  destruct Hpath; [left; by eapply served_fast_later|right; by eapply served_slow_later].
Qed.

End worker.

(** ** Concrete runs *)
Module PrefetchDemo.
#[local] Existing Instances gmap_badger CacheDemo.hash.

(** One worker has fetched height 6 and height 7 waits in the channel. *)
Definition midway : pool_state := mkPoolState 7 [] [7] ∅ [6].
Lemma midway_reachable : rtc (pool_step 1) (initWorkers 5) midway.
Proof.
  eapply rtc_l; [apply (sched_tip 1 5 [] ∅ [] 7); lia|]. change (heights_to 5 7) with [6; 7].
  eapply rtc_l; [apply sched_send; simpl; lia|]. simpl.
  eapply rtc_l; [apply (worker_take 1 7 [7] 6 [] ∅ [] 0); [lia|done]|].
  eapply rtc_l; [apply sched_send; simpl; lia|]. simpl.
  apply rtc_once. change midway with (mkPoolState 7 [] [7] (delete 0%nat (<[0%nat := 6]> ∅)) ([] ++ [6])).
  by apply worker_done.
Qed.

Lemma heights_prefetched_once_witness : ∃ st', rtc (pool_step 1) midway st' ∧ 7 ∈ ps_done st'.
Proof.
  destruct (heights_prefetched_once 1 5 midway) as (_ & _ & _ & st' & Hs & _ & _ & Hd).
  - lia.
  - exact midway_reachable.
  - exists st'. split; [exact Hs|]. apply Hd. simpl. lia.
Defined.

(** A wire format for every request, and for the answers of one network. *)
Definition version (v : EventEncodingVersion) : Z := match v with JSON_CDC_V0 => 0 | CCF_V0 => 1 end.
#[local] Instance version_inj : Inj eq eq version.
Proof. by intros [] []. Qed.
Definition flag (b : bool) : Z := if b then 1 else 0.
#[local] Instance flag_inj : Inj eq eq flag.
Proof. by intros [] []. Qed.
Lemma ser_inj {A} `{Ser A} (a b : A) : ser a = ser b → a = b.
Proof. intros Hab. pose proof (de_ser a []) as Ha. rewrite Hab, de_ser in Ha. by injection Ha. Qed.

Definition encode (r : request) : bytes :=
  match r with
  | GetAccountAtLatestBlock a => ser a
  | GetAccountAtBlockHeight a h => ser (a, h)
  | GetBlockByHeight h f => ser (h, flag f)
  | GetBlockByID i f => ser (i, flag f)
  | GetEventsForBlockIDs l t v => ser (l, t, version v)
  | GetBlockHeaderByHeight h => ser h
  | GetBlockHeaderByID i => ser i
  | GetCollectionByID i => ser i
  | ExecuteScriptAtBlockID l i c => ser (l, i, c)
  | GetExecutionResultForBlockID i => ser i
  | GetLatestBlockHeader b => ser (flag b)
  | PingRequest => []
  | SendTransactionRequest t => ser t
  | GetTransaction i v => ser (i, version v)
  | GetTransactionResultByIndex i n v => ser (i, n, version v)
  | GetTransactionResult i v => ser (i, version v)
  | GetTransactionResultsByBlockID i v => ser (i, version v)
  | GetTransactionsByBlockID i v => ser (i, version v)
  end.

Lemma encode_inj r r' : method r = method r' → encode r = encode r' → r = r'.
Proof.
  intros Hm. destruct r, r'; try (exfalso; revert Hm; by vm_compute); unfold encode; intros He;
    repeat (apply ser_inj in He); simplify_eq; try done; f_equal; by apply (inj _).
Qed.

(** The chain: one block with no collections, on which the fast path works. *)
Definition header : BlockHeaderMsg := mkBlockHeaderMsg [] 6 [] 0 0 [] [] [] [] [] None 0 [xab].
Definition block : BlockMsg := mkBlockMsg [] [] [] [] [] 0 [xab] 6 [].
Definition answer (r : request) : option (response r) :=
  match r return option (response r) with
  | GetBlockHeaderByHeight _ => Some (Some header)
  | GetBlockByHeight _ _ => Some (Some block)
  | GetTransactionsByBlockID _ _ => Some []
  | GetTransactionResultsByBlockID _ _ => Some []
  | GetExecutionResultForBlockID _ => Some None
  | _ => None
  end.

#[local] Instance: EqDecision BlockHeaderMsg.
Proof.
  assert (EqDecision QuorumCertificateMsg) by solve_decision. assert (EqDecision TimeoutCertificateMsg) by solve_decision.
  solve_decision.
Defined.
#[local] Instance exec_eq_dec : EqDecision ExecutionResultMsg.
Proof.
  assert (EqDecision ServiceEventMsg) by solve_decision. assert (EqDecision ChunkMsg) by solve_decision. solve_decision.
Defined.
#[local] Instance: EqDecision BlockMsg.
Proof.
  assert (EqDecision CollectionGuaranteeMsg) by solve_decision. assert (EqDecision BlockSealMsg) by solve_decision.
  assert (EqDecision ReceiptMsg) by solve_decision. solve_decision.
Defined.

(** An answer of the chain is encoded by nothing at all. *)
Definition is_answer (r : request) (x : response r) : bool :=
  match r return response r → bool with
  | GetBlockHeaderByHeight _ => λ x, bool_decide (x = Some header)
  | GetBlockByHeight _ _ => λ x, bool_decide (x = Some block)
  | GetTransactionsByBlockID _ _ => λ x, match x with [] => true | _ => false end
  | GetTransactionResultsByBlockID _ _ => λ x, match x with [] => true | _ => false end
  | GetExecutionResultForBlockID _ => λ x, bool_decide (x = None)
  | _ => λ _, false
  end x.

#[local] Instance wire : Wire := {|
  marshal_request r := Some (x0a :: encode r);
  marshal_response r x := if is_answer r x then Some [] else None;
  unmarshal_response r b := answer r;
|}.
#[local] Instance chain_wire_laws : WireLaws.
Proof.
  split.
  - intros r x b. simpl. destruct (is_answer r x) eqn:Ha; [|done]. intros _. revert x Ha.
    destruct r; simpl; intros x Ha; try done; try (by apply bool_decide_eq_true in Ha as ->); by destruct x.
  - intros r r' b Hm [= <-] [= He]. by apply encode_inj.
  - intros r c b [= <- _]. by vm_compute.
Qed.
#[local] Instance net : Network nat := {|
  network_invoke _ r w :=
    match answer r with Some x => (Ok x, ∅, S w) | None => (Err (errorf "not found"), ∅, S w) end;
  rand_Int w := (3, w);
  ctx_Err w := (None, w);
|}.
#[local] Existing Instance cached_network.

Lemma all_encoded r : is_Some (marshal_request r).
Proof. by eexists. Qed.

End PrefetchDemo.
